(** * Dashboard layout editor: layout packing and drop-target resolution

    A shallow embedding of the layout core of [DashboardEditor]
    (src/script.js): the responsive column resolver, the RowBlock composer
    [transformRowBlocks], the row packer [packRows], the orchestrator
    [layoutSection], the fit oracle [canWidgetFitInSection] and the
    resolution of [getDropTarget] over the zones generated from the DOM.

    The functions are rendered twice.  The first rendering works on values
    (lists and records) and carries the functional properties.  The second
    runs the composer, the packer and the orchestrator on a store of objects
    addressed by reference, with [splice], [push] and field assignment in
    place; it carries the statement that the layout pass leaves its inputs
    as they were.  The two are tied together among the theorems:
    the arrays and the layout object the second rendering builds read back
    as the values the first one computes ([transformRowBlocksH_refines],
    [packRowsH_computes], [layoutSectionH_refines]).

    Numbers.  JavaScript numbers that hold column counts and spans are
    modelled as [Z]; heights in rem and pixel coordinates are modelled as
    rationals [Q].  Every widget the editor builds takes its height from
    [TOKENS.minHeightsRem] (10, 16, 22, 32, 46) and the rail gap is 0.75, so
    all sums the composer forms are dyadic and exact in double precision. *)

From Stdlib Require Import String List ZArith QArith Bool Lia Lqa.
From Stdlib Require Import DecimalString DecimalN Permutation.
Import ListNotations.

Local Open Scope Z_scope.

(** ** Data model *)

Inductive HeightMode : Type := stretchRow | fillViewport.

(** A widget object, as built at lines 486-493 and 1017-1024. *)
Record Widget : Type := mkWidget {
  id : string;
  size : string;
  title : string;
  minColSpan : Z;
  minHeightRem : Q;
  heightMode : HeightMode
}.

(** [{ kind: 'rowblock', main, rail, id }], lines 228-233. *)
Record RowBlock : Type := mkRowBlock {
  main : Widget;
  rail : list Widget;
  rb_id : string
}.

(** An element of the arrays the composer and the packer walk: the [kind]
    field tells a RowBlock from a plain widget. *)
Inductive Item : Type :=
| IWidget (w : Widget)
| IRowBlock (rb : RowBlock).

(** [this.TOKENS.minHeightsRem] *)
Module TOKENS.
Definition XS : Q := 10.
Definition S : Q := 16.
Definition M : Q := 22.
Definition L : Q := 32.
Definition XL : Q := 46.
End TOKENS.

(** [this.layoutConfig] (the pixel gaps are only used by rendering). *)
Module layoutConfig.
Definition maxRailItems : Z := 4.
Definition toleranceRem : Q := 2.
Definition vGapRem : Q := 3 # 4.
End layoutConfig.

(** ** Responsive column resolver (lines 162-167) *)

Definition geq (a b : Q) : bool := Qle_bool b a.

Definition getColCountFromWidth (containerWidth : Q) : Z :=
  if geq containerWidth 1200 then 4
  else if geq containerWidth 900 then 3
  else if geq containerWidth 600 then 2
  else 1.

(** ** Spans (lines 175-197) *)

Definition effectiveSpan (widget : Widget) (colCount : Z) : Z :=
  Z.min (minColSpan widget) colCount.

Definition isRowBlock (item : Item) : bool :=
  match item with
  | IRowBlock _ => true
  | IWidget _ => false
  end.

Definition itemSpan (item : Item) (colCount : Z) : Z :=
  match item with
  | IRowBlock _ => colCount
  | IWidget w => effectiveSpan w colCount
  end.

(** ** JavaScript array primitives *)

(** [arr.splice(start, deleteCount, ...ins)] on the array contents, for
    indices within range (a [start] past the end appends, as in
    JavaScript). *)
Definition splice {A : Type} (arr : list A) (start deleteCount : nat)
    (ins : list A) : list A :=
  firstn start arr ++ ins ++ skipn (start + deleteCount) arr.

(** ** RowBlock composer (lines 207-303) *)

(** The two counters the closure [canTake] reads and both capture loops
    update: [railHeight] and [railCount] (lines 236-237). *)
Record RailState : Type := mkRail {
  railHeight : Q;
  railCount : Z
}.

Definition addGap (st : RailState) : Q :=
  if railCount st >? 0 then layoutConfig.vGapRem else 0%Q.

(** Lines 239-244. *)
Definition canTake (colCount : Z) (railTarget : Q) (st : RailState)
    (candidate : Widget) : bool :=
  if railCount st >=? layoutConfig.maxRailItems then false
  else if negb (effectiveSpan candidate colCount =? 1) then false
  else Qle_bool (railHeight st + addGap st + minHeightRem candidate) railTarget.

(** [railHeight += addGap + w.minHeightRem; railCount++] *)
Definition takeWidget (st : RailState) (w : Widget) : RailState :=
  {| railHeight := railHeight st + addGap st + minHeightRem w;
     railCount := railCount st + 1 |}.

(** The backward loop, lines 246-261.  [prevs] lists [items[k]],
    [items[k-1]], ..., [items[0]] in the order the loop reads them; the
    result carries the final [k], [capturedPrev] and the rail counters. *)
Fixpoint captureBackward (colCount : Z) (railTarget : Q) (prevs : list Item)
    (k : Z) (capturedPrev : list Widget) (st : RailState)
    : Z * list Widget * RailState :=
  match prevs with
  | [] => (k, capturedPrev, st)
  | IRowBlock _ :: _ => (k, capturedPrev, st)
  | IWidget pw :: prevs' =>
      if negb (effectiveSpan pw colCount =? 1) then (k, capturedPrev, st)
      else if negb (canTake colCount railTarget st pw) then (k, capturedPrev, st)
      else captureBackward colCount railTarget prevs' (k - 1)
             (capturedPrev ++ [pw]) (takeWidget st pw)
  end.

(** The forward loop, lines 265-277.  [nexts] lists [items[j]],
    [items[j+1]], ... up to the end of the array. *)
Fixpoint captureForward (colCount : Z) (railTarget : Q) (nexts : list Item)
    (capturedNext : list Widget) (st : RailState)
    : list Widget * RailState :=
  match nexts with
  | [] => (capturedNext, st)
  | IRowBlock _ :: _ => (capturedNext, st)
  | IWidget next :: nexts' =>
      if negb (effectiveSpan next colCount =? 1) then (capturedNext, st)
      else if negb (canTake colCount railTarget st next) then (capturedNext, st)
      else captureForward colCount railTarget nexts'
             (capturedNext ++ [next]) (takeWidget st next)
  end.

Definition initialRail : RailState := {| railHeight := 0; railCount := 0 |}.

(** The RowBlock a seed would get: lines 228-284, without the splices. *)
Definition seedCaptures (items : list Item) (i : nat) (w : Widget)
    (colCount : Z) : Z * list Widget * list Widget :=
  let railTarget := (minHeightRem w + layoutConfig.toleranceRem)%Q in
  let '(k, capturedPrev, st) :=
    captureBackward colCount railTarget (rev (firstn i items))
      (Z.of_nat i - 1) [] initialRail in
  let capturedNext :=
    if (length capturedPrev =? 0)%nat
    then fst (captureForward colCount railTarget (skipn (i + 1) items) [] st)
    else [] in
  (k, capturedPrev, capturedNext).

(** One pass of the outer loop body for a seed [w = items[i]] (effective
    span 3): lines 228-299.  Returns the array after the splices and the
    index the next iteration starts from. *)
Definition composeAt (items : list Item) (i : nat) (w : Widget)
    (colCount : Z) : list Item * nat :=
  let '(k, capturedPrev, capturedNext) := seedCaptures items i w colCount in
  let items1 :=
    if (length capturedPrev =? 0)%nat
    then if (0 <? length capturedNext)%nat
         then splice items (i + 1) (length capturedNext) []
         else items
    else items in
  let rb := {| main := w;
               rail := rev capturedPrev ++ capturedNext;
               rb_id := ("rb-" ++ id w)%string |} in
  if (0 <? length (rail rb))%nat then
    let '(items2, i2) :=
      if (0 <? length capturedPrev)%nat then
        let startPrev := k + 1 in
        let countPrev := Z.of_nat i - startPrev in
        if countPrev >? 0
        then (splice items1 (Z.to_nat startPrev) (Z.to_nat countPrev) [],
              Z.to_nat startPrev)
        else (items1, i)
      else (items1, i) in
    (splice items2 i2 1 [IRowBlock rb], S i2)
  else (items1, S i).

(** The outer [while (i < items.length)] loop, lines 215-300.  [None] means
    the fuel ran out before the loop condition failed. *)
Fixpoint composeLoop (fuel : nat) (items : list Item) (i : nat)
    (colCount : Z) : option (list Item) :=
  match fuel with
  | O => None
  | S fuel' =>
      match nth_error items i with
      | None => Some items
      | Some (IRowBlock _) => composeLoop fuel' items (S i) colCount
      | Some (IWidget w) =>
          if negb (effectiveSpan w colCount =? 3)
          then composeLoop fuel' items (S i) colCount
          else let '(items', i') := composeAt items i w colCount in
               composeLoop fuel' items' i' colCount
      end
  end.

(** [transformRowBlocks(widgetsInOrder, colCount)].  The array copy
    [[...widgetsInOrder]] is the identity on array contents; the loop runs
    on the copy.  [S (length _)] iterations always suffice
    ([composeLoop_terminates] below). *)
Definition transformRowBlocks (widgetsInOrder : list Item) (colCount : Z)
    : list Item :=
  if negb (colCount =? 4) then widgetsInOrder
  else match composeLoop (S (length widgetsInOrder)) widgetsInOrder 0 colCount with
       | Some items => items
       | None => widgetsInOrder
       end.

(** Height of a rail as the composer accounts for it: the members'
    [minHeightRem] plus one [vGapRem] between consecutive members. *)
Definition sumHeights (ws : list Widget) : Q :=
  fold_right (fun w acc => (minHeightRem w + acc)%Q) 0%Q ws.

Definition cumulativeRailHeight (ws : list Widget) : Q :=
  (sumHeights ws
   + layoutConfig.vGapRem * inject_Z (Z.of_nat (pred (length ws))))%Q.

(** A greedy capture run over the items a loop reads, from rail state
    [st]: it takes widgets while [canTake] accepts them and stops at the end
    of the array, at a RowBlock, or at the first widget [canTake] refuses. *)
Inductive greedyRun (colCount : Z) (railTarget : Q)
  : RailState -> list Item -> list Widget -> Prop :=
| run_end st : greedyRun colCount railTarget st [] []
| run_rowblock st rb rest :
    greedyRun colCount railTarget st (IRowBlock rb :: rest) []
| run_refused st w rest :
    canTake colCount railTarget st w = false ->
    greedyRun colCount railTarget st (IWidget w :: rest) []
| run_take st w rest taken :
    canTake colCount railTarget st w = true ->
    greedyRun colCount railTarget (takeWidget st w) rest taken ->
    greedyRun colCount railTarget st (IWidget w :: rest) (w :: taken).

(** The bounds a composed RowBlock keeps: at most four rail members, each
    of effective span 1, stacked within the main widget's height plus the
    tolerance. *)
Definition railWithinBounds (colCount : Z) (rb : RowBlock) : Prop :=
  (length (rail rb) <= 4)%nat
  /\ Forall (fun w => effectiveSpan w colCount = 1) (rail rb)
  /\ (cumulativeRailHeight (rail rb)
      <= minHeightRem (main rb) + layoutConfig.toleranceRem)%Q.

(** ** Row packer (lines 314-395) *)

(** [{ item, span }], with [distributeEqually] absent (falsy) until a
    flush sets it. *)
Record Cell : Type := mkCell {
  item : Item;
  span : Z;
  distributeEqually : bool
}.

Record Row : Type := mkRow { cells : list Cell }.

Definition expandable (cell : Cell) : bool := negb (isRowBlock (item cell)).

(** [expandableWidgets.forEach((cell, idx) => ...)], lines 349-354.  The
    filtered array shares its cell objects with [currentRow], so the
    assignment to [cell.span] shows in the row; [idx] counts the expandable
    cells met so far. *)
Fixpoint expandCells (colCount extraPerWidget leftover idx : Z)
    (row : list Cell) : list Cell :=
  match row with
  | [] => []
  | cell :: rest =>
      if expandable cell then
        let extra := extraPerWidget + (if idx <? leftover then 1 else 0) in
        {| item := item cell;
           span := Z.min colCount (span cell + extra);
           distributeEqually := distributeEqually cell |}
        :: expandCells colCount extraPerWidget leftover (idx + 1) rest
      else cell :: expandCells colCount extraPerWidget leftover idx rest
  end.

Definition markEqual (cell : Cell) : Cell :=
  {| item := item cell; span := span cell; distributeEqually := true |}.

(** The cells of a non-empty [currentRow] after the expansion step of
    [flush], lines 329-357. *)
Definition flushCells (colCount used : Z) (currentRow : list Cell)
    : list Cell :=
  let remaining := colCount - used in
  if remaining >? 0 then
    let expandableWidgets := filter expandable currentRow in
    let count := Z.of_nat (length expandableWidgets) in
    if count >? 0 then
      let allAreMinSpan := forallb (fun cell => span cell =? 1) expandableWidgets in
      if allAreMinSpan && (remaining <? count)
      then map markEqual currentRow
      else expandCells colCount (remaining / count) (Z.rem remaining count) 0
             currentRow
    else currentRow
  else currentRow.

(** The variables the closure [flush] and the loop share. *)
Record PackState : Type := mkPack {
  rows : list Row;
  currentRow : list Cell;
  used : Z
}.

(** [flush], lines 320-369. *)
Definition flush (colCount : Z) (st : PackState) : PackState :=
  match currentRow st with
  | [] => st
  | _ :: _ =>
      {| rows := rows st ++ [mkRow (flushCells colCount (used st) (currentRow st))];
         currentRow := [];
         used := 0 |}
  end.

(** The body of [for (const item of items)], lines 371-391. *)
Definition packStep (colCount : Z) (st : PackState) (it : Item) : PackState :=
  let span := itemSpan it colCount in
  if span >=? colCount then
    let st1 := flush colCount st in
    {| rows := rows st1 ++ [mkRow [mkCell it colCount false]];
       currentRow := currentRow st1;
       used := used st1 |}
  else
    let st1 := if used st + span >? colCount then flush colCount st else st in
    {| rows := rows st1;
       currentRow := currentRow st1 ++ [mkCell it span false];
       used := used st1 + span |}.

Definition packLoop (colCount : Z) (items : list Item) (st : PackState)
    : PackState :=
  fold_left (packStep colCount) items st.

Definition packRows (items : list Item) (colCount : Z) : list Row :=
  rows (flush colCount (packLoop colCount items (mkPack [] [] 0))).

(** Position of the cell at row index [p] within [expandableWidgets]: the
    number of expandable cells before it in the row. *)
Definition expandableIndex (row : list Cell) (p : nat) : Z :=
  Z.of_nat (length (filter expandable (firstn p row))).

Definition sumSpans (row : list Cell) : Z :=
  fold_right (fun c acc => span c + acc) 0 row.

Definition rowSpans (rs : list Row) : list (list Z) :=
  map (fun r => map span (cells r)) rs.

(** *** Invariants of the packer *)

(** Number of indices [j] with [idx <= j < idx + n] and [j < r]. *)
Definition bonusCount (r idx n : Z) : Z := Z.max 0 (Z.min r (idx + n) - idx).

(** A cell of a plain widget with a non-negative span. *)
Definition widgetCell (c : Cell) : Prop := expandable c = true /\ 0 <= span c.

(** Loop invariant of [packRows]: every emitted row is saturated or flagged,
    the open row holds plain widget cells only, and [used] is the sum of
    their spans. *)
Definition saturated (C : Z) (row : Row) : Prop :=
  (exists c, In c (cells row) /\ distributeEqually c = true)
  \/ sumSpans (cells row) = C.

Record PackInv (C : Z) (st : PackState) : Prop := {
  inv_rows : Forall (saturated C) (rows st);
  inv_cells : Forall widgetCell (currentRow st);
  inv_used : used st = sumSpans (currentRow st);
  inv_bound : used st <= C
}.

(** ** Widget configurations (lines 936-988) *)

Record WidgetConfig : Type := mkConfig {
  cfg_minColSpan : Z;
  cfg_minHeightRem : Q;
  cfg_heightMode : HeightMode;
  cfg_displayName : string
}.

Definition getWidgetConfig (size : string) : WidgetConfig :=
  if (size =? "XS")%string then mkConfig 1 TOKENS.XS stretchRow "XS"
  else if (size =? "S")%string then mkConfig 1 TOKENS.S stretchRow "S"
  else if (size =? "M")%string then mkConfig 2 TOKENS.M stretchRow "M"
  else if (size =? "L")%string then mkConfig 3 TOKENS.L stretchRow "L"
  else if (size =? "XL_row")%string then mkConfig 4 TOKENS.XL stretchRow "XL (Row)"
  else if (size =? "XL_fill")%string then mkConfig 4 TOKENS.XL fillViewport "XL (Fill)"
  else mkConfig 1 TOKENS.XS stretchRow "XS".

(** The widget literal of lines 486-493, 617-624 and 1017-1024. *)
Definition makeWidget (wid : string) (widgetSize : string) : Widget :=
  let config := getWidgetConfig widgetSize in
  {| id := wid;
     size := widgetSize;
     title := cfg_displayName config;
     minColSpan := cfg_minColSpan config;
     minHeightRem := cfg_minHeightRem config;
     heightMode := cfg_heightMode config |}.

(** ** Sections and the editor state *)

(** [createFilterGroup], lines 91-103 (the [layout] sub-object only feeds
    rendering and is left out). *)
Record FilterGroup : Type := mkFilterGroup {
  fg_id : string;
  fg_title : string;
  fg_filters : list (string * string);
  fg_widgets : list Widget
}.

(** A section object: [type] is ['widget'] or ['filter-group']. *)
Inductive Section : Type :=
| WidgetSection (sid : string) (stitle : string) (widgets : list Widget)
| FilterGroupSection (sid : string) (group : FilterGroup).

Definition sectionId (s : Section) : string :=
  match s with
  | WidgetSection sid _ _ => sid
  | FilterGroupSection sid _ => sid
  end.

(** The fields of [DashboardEditor] the oracle and the resolver read. *)
Record Editor : Type := mkEditor {
  sections : list Section;
  offsetWidth : Q;                      (* this.gridCanvas.offsetWidth *)
  isDraggingFromPanel : bool;
  draggedWidgetSize : option string;    (* null when no panel drag *)
  draggedWidget : option Widget         (* null when no widget drag *)
}.

(** [this.sections.find(s => s.id === sectionId)]; a zone without a
    [sectionId] property passes [undefined], which equals no id. *)
Definition findSection (ed : Editor) (sid : option string) : option Section :=
  find (fun s => match sid with
                 | Some x => (sectionId s =? x)%string
                 | None => false
                 end) (sections ed).

(** ** Section layout orchestrator (lines 397-431) *)

Inductive Layout : Type :=
| WidgetLayout (colCount : Z) (layoutRows : list Row)
| FilterGroupLayout (group : FilterGroup) (colCount : Z) (layoutRows : list Row)
    (containerWidth : Q).

Definition layoutSection (section : Section) (containerWidth : Q) : Layout :=
  let colCount := getColCountFromWidth containerWidth in
  match section with
  | FilterGroupSection _ group =>
      let items := transformRowBlocks (map IWidget (fg_widgets group)) colCount in
      let rows := packRows items colCount in
      FilterGroupLayout group colCount rows containerWidth
  | WidgetSection _ _ widgets =>
      let items := transformRowBlocks (map IWidget widgets) colCount in
      let rows := packRows items colCount in
      WidgetLayout colCount rows
  end.

Definition rowsOf (l : Layout) : list Row :=
  match l with
  | WidgetLayout _ rs => rs
  | FilterGroupLayout _ _ rs _ => rs
  end.

(** ** Fit oracle (lines 598-635) *)

(** Outcome of a block that may throw. *)
Inductive completion (A : Type) : Type :=
| Normal (a : A)
| Throw (e : string).
Arguments Normal {A} a.
Arguments Throw {A} e.

Definition bindC {A B : Type} (m : completion A) (k : A -> completion B)
    : completion B :=
  match m with
  | Normal a => k a
  | Throw e => Throw e
  end.

(** [try { body } catch (e) { handler }] *)
Definition tryCatch {A : Type} (body : completion A) (handler : string -> A) : A :=
  match body with
  | Normal a => a
  | Throw e => handler e
  end.

(** The synthetic widget of lines 617-624. *)
Definition tempWidget (widgetSize : string) : Widget := makeWidget "temp" widgetSize.

Section FitOracle.

(** [this.packRows(this.transformRowBlocks(widgets, colCount), colCount).length]
    as a computation that may complete abruptly. *)
Variable simulateRowCount : list Widget -> Z -> completion nat.

Definition canWidgetFitInSectionWith (ed : Editor) (widgetSize : string)
    (sid : option string) : bool :=
  if (widgetSize =? "FILTER")%string then false
  else
    match findSection ed sid with
    | None => true
    | Some (FilterGroupSection _ _) => true
    | Some (WidgetSection _ _ widgets) =>
        if (length widgets =? 0)%nat then true
        else
          (* [getWidgetConfig] always returns an object, so the guard
             [if (!config) return true] never fires. *)
          let containerWidth := offsetWidth ed in
          let colCount := getColCountFromWidth containerWidth in
          tryCatch
            (bindC (simulateRowCount widgets colCount) (fun rowCountBefore =>
             let testWidgets := widgets ++ [tempWidget widgetSize] in
             bindC (simulateRowCount testWidgets colCount) (fun rowCountAfter =>
             Normal (rowCountAfter =? rowCountBefore)%nat)))
            (fun _ => true)
    end.

End FitOracle.

(** On the typed widget lists of this model both layout passes are total,
    so the simulation always completes normally. *)
Definition layoutRowCount (widgets : list Widget) (colCount : Z) : completion nat :=
  Normal (length (packRows (transformRowBlocks (map IWidget widgets) colCount) colCount)).

Definition canWidgetFitInSection : Editor -> string -> option string -> bool :=
  canWidgetFitInSectionWith layoutRowCount.

(** ** Drop-zone resolver: resolution (lines 649-653 and 884-934) *)

Inductive ZoneType : Type := WithinSection | WithinFilterGroup | BetweenSections.

(** A zone as lines 655-882 push it onto [dropZones]. *)
Record ZoneLiteral : Type := mkZone {
  zone_type : ZoneType;
  zone_sectionId : option string;
  zone_widgetId : option string;
  zone_position : Z;
  zone_top : Q;
  zone_bottom : Q;
  zone_left : Q;
  zone_right : Q;
  isRailDropZone : bool
}.

(** A zone after validity filtering: [isInvalid] is set on the zones the
    oracle refuses and absent (falsy) on the others. *)
Record DropZone : Type := mkDropZone {
  zone : ZoneLiteral;
  isInvalid : bool
}.

Record Rect : Type := mkRect {
  rect_top : Q;
  rect_bottom : Q;
  rect_left : Q;
  rect_right : Q
}.

Definition lt (a b : Q) : bool := negb (Qle_bool b a).
Definition gt (a b : Q) : bool := negb (Qle_bool a b).
Definition leq (a b : Q) : bool := Qle_bool a b.

(** Lines 650-651. *)
Definition outsideCanvas (canvasRect : Rect) (x y : Q) : bool :=
  lt x (rect_left canvasRect) || gt x (rect_right canvasRect)
  || lt y (rect_top canvasRect) || gt y (rect_bottom canvasRect).

(** Lines 920-921 and 927-928. *)
Definition containsPointer (x y : Q) (z : ZoneLiteral) : bool :=
  geq x (zone_left z) && leq x (zone_right z)
  && geq y (zone_top z) && leq y (zone_bottom z).

Definition isWithinZone (z : ZoneLiteral) : bool :=
  match zone_type z with
  | WithinSection | WithinFilterGroup => true
  | BetweenSections => false
  end.

(** One pass of the loops at lines 888-900 and 902-914. *)
Definition classifyZone (ed : Editor) (size : string)
    (acc : list DropZone * list DropZone) (z : ZoneLiteral)
    : list DropZone * list DropZone :=
  let '(validZones, invalidZones) := acc in
  if isWithinZone z then
    let canFit := canWidgetFitInSection ed size (zone_sectionId z) in
    if canFit then (validZones ++ [mkDropZone z false], invalidZones)
    else (validZones, invalidZones ++ [mkDropZone z true])
  else (validZones ++ [mkDropZone z false], invalidZones).

Definition classifyZones (ed : Editor) (size : string) (dropZones : list ZoneLiteral)
    : list DropZone * list DropZone :=
  fold_left (classifyZone ed size) dropZones ([], []).

(** A non-empty string is the only truthy [draggedWidgetSize]. *)
Definition truthySize (o : option string) : option string :=
  match o with
  | Some s => if (s =? "")%string then None else Some s
  | None => None
  end.

(** The size the validity filter runs with, if a drag is in progress. *)
Definition dragSize (ed : Editor) : option string :=
  match (if isDraggingFromPanel ed then truthySize (draggedWidgetSize ed) else None) with
  | Some s => Some s
  | None => match draggedWidget ed with
            | Some w => Some (size w)
            | None => None
            end
  end.

(** [getDropTarget(x, y)], with the canvas rectangle and the generated
    [dropZones] (lines 655-882, in generation order) read from the DOM. *)
Definition getDropTarget (ed : Editor) (canvasRect : Rect)
    (dropZones : list ZoneLiteral) (x y : Q) : option DropZone :=
  if outsideCanvas canvasRect x y then None
  else
    let '(validZones, invalidZones) :=
      match dragSize ed with
      | Some s => classifyZones ed s dropZones
      | None => (map (fun z => mkDropZone z false) dropZones, [])
      end in
    match find (fun z => containsPointer x y (zone z)) validZones with
    | Some z => Some z
    | None => find (fun z => containsPointer x y (zone z)) invalidZones
    end.

(** Whether the validity filter keeps a zone in [validZones]. *)
Definition zoneIsValid (ed : Editor) (size : string) (z : ZoneLiteral) : bool :=
  if isWithinZone z then canWidgetFitInSection ed size (zone_sectionId z) else true.

(** A two-section dashboard at 1240 px during a panel drag of an S widget:
    section [s_0] holds one XS widget (an S fits in its row), section [s_1]
    holds four (an S opens a second row).  The zones are those lines
    731-870 generate for the two sections, in generation order, with the
    second section 20 px below the first. *)
Module TwoSections.

Definition ed : Editor :=
  {| sections :=
       [WidgetSection "s_0" "New Section" [makeWidget "w_0" "XS"];
        WidgetSection "s_1" "New Section"
          [makeWidget "w_1" "XS"; makeWidget "w_2" "XS";
           makeWidget "w_3" "XS"; makeWidget "w_4" "XS"]];
     offsetWidth := 1240;
     isDraggingFromPanel := true;
     draggedWidgetSize := Some "S"%string;
     draggedWidget := None |}.

Definition canvasRect : Rect :=
  {| rect_top := 0; rect_bottom := 2000; rect_left := 0; rect_right := 1240 |}.

Definition within (sid : string) (position : Z) (top bottom left right : Q)
    : ZoneLiteral :=
  mkZone WithinSection (Some sid) None position top bottom left right false.

Definition between (position : Z) (top bottom left right : Q) : ZoneLiteral :=
  mkZone BetweenSections None None position top bottom left right false.

(** After the only widget of [s_0] (rectangle 100-300 by 20-1220). *)
Definition afterFirst : ZoneLiteral := within "s_0" 1 90 310 1205 1235.
(** Below section [s_0] (rectangle 100-300). *)
Definition belowFirst : ZoneLiteral := between 1 295 360 20 1220.
(** After the last widget of [s_1] (rectangle 320-520 by 929-1220). *)
Definition afterLast : ZoneLiteral := within "s_1" 4 310 530 1205 1235.

Definition dropZones : list ZoneLiteral :=
  [within "s_0" 0 90 310 5 35; afterFirst;
   between 0 40 105 20 1220; belowFirst;
   within "s_1" 0 310 530 5 35; within "s_1" 1 310 530 296 326;
   within "s_1" 2 310 530 599 629; within "s_1" 3 310 530 902 932;
   afterLast; between 2 515 580 20 1220].

End TwoSections.

(** * The layout pass on a mutable store

    The definitions above treat arrays and records as values.  To speak
    about what the layout pass writes, the same three functions are
    rendered here over a store of objects addressed by reference: arrays
    hold references, [splice] and [push] update an array in place, a cell's
    [span] and [distributeEqually] are assigned in place, and a RowBlock
    refers to its main widget and to its rail array.  Arrays that never
    leave the function that creates them ([capturedPrev], [capturedNext],
    [expandableWidgets]) are kept as lists of references. *)

Definition loc : Type := nat.

Inductive Obj : Type :=
| OWidget (w : Widget)
| ORowBlock (rb_main : loc) (rb_rail : loc) (rbid : string)
| OCell (c_item : loc) (c_span : Z) (c_distributeEqually : bool)
| ORow (r_cells : loc)
| OArray (elems : list loc)
| OWidgetSection (sid : string) (stitle : string) (s_widgets : loc)
| OFilterSection (sid : string) (s_group : loc)
| OFilterGroup (gid : string) (gtitle : string) (g_filters : list (string * string))
    (g_widgets : loc)
| OWidgetLayout (colCount : Z) (l_rows : loc)
| OFilterLayout (l_group : loc) (colCount : Z) (l_rows : loc) (containerWidth : Q).

(** The store: an object's reference is its index; allocation appends. *)
Definition Heap : Type := list Obj.

(** A computation on the store; [None] is a fault (a property read on an
    object of the wrong kind, or a loop out of fuel). *)
Definition M (A : Type) : Type := Heap -> option (A * Heap).

Definition ret {A : Type} (a : A) : M A := fun h => Some (a, h).

Definition bind {A B : Type} (m : M A) (k : A -> M B) : M B :=
  fun h => match m h with
           | Some (a, h') => k a h'
           | None => None
           end.

Definition fault {A : Type} : M A := fun _ => None.

Declare Scope heap_scope.
Delimit Scope heap_scope with heap.
Notation "x <- m ;; k" := (bind m (fun x => k))
  (at level 61, m at next level, right associativity) : heap_scope.
Notation "m ;;; k" := (bind m (fun _ => k))
  (at level 61, right associativity) : heap_scope.
Local Open Scope heap_scope.

Fixpoint update {A : Type} (l : list A) (i : nat) (x : A) : list A :=
  match l, i with
  | [], _ => []
  | _ :: l', O => x :: l'
  | a :: l', S i' => a :: update l' i' x
  end.

Definition alloc (o : Obj) : M loc := fun h => Some (length h, h ++ [o]).

Definition read (l : loc) : M Obj :=
  fun h => match nth_error h l with
           | Some o => Some (o, h)
           | None => None
           end.

Definition write (l : loc) (o : Obj) : M unit :=
  fun h => if (l <? length h)%nat then Some (tt, update h l o) else None.

Definition getArray (a : loc) : M (list loc) :=
  o <- read a ;;
  match o with
  | OArray es => ret es
  | _ => fault
  end.

(** [[...a]] *)
Definition arrayCopy (a : loc) : M loc :=
  es <- getArray a ;; alloc (OArray es).

(** [a.push(...xs)] *)
Definition arrayPush (a : loc) (xs : list loc) : M unit :=
  es <- getArray a ;; write a (OArray (es ++ xs)).

(** [a.splice(start, deleteCount, ...ins)] *)
Definition arraySplice (a : loc) (start deleteCount : nat) (ins : list loc) : M unit :=
  es <- getArray a ;; write a (OArray (splice es start deleteCount ins)).

Definition getWidget (l : loc) : M Widget :=
  o <- read l ;;
  match o with
  | OWidget w => ret w
  | _ => fault
  end.

(** [item.kind === 'rowblock'] *)
Definition isRowBlockH (l : loc) : M bool :=
  o <- read l ;;
  ret (match o with
       | ORowBlock _ _ _ => true
       | _ => false
       end).

Definition itemSpanH (l : loc) (colCount : Z) : M Z :=
  b <- isRowBlockH l ;;
  if b then ret colCount
  else w <- getWidget l ;; ret (effectiveSpan w colCount).

(** *** Composer *)

(** Lines 246-261; [prevs] are the references [items[k]], ..., [items[0]]
    (the loop does not write to [items]). *)
Fixpoint captureBackwardH (colCount : Z) (railTarget : Q) (prevs : list loc)
    (k : Z) (capturedPrev : list loc) (st : RailState)
    : M (Z * list loc * RailState) :=
  match prevs with
  | [] => ret (k, capturedPrev, st)
  | prev :: prevs' =>
      b <- isRowBlockH prev ;;
      if b then ret (k, capturedPrev, st)
      else
        pw <- getWidget prev ;;
        if negb (effectiveSpan pw colCount =? 1) then ret (k, capturedPrev, st)
        else if negb (canTake colCount railTarget st pw) then ret (k, capturedPrev, st)
        else captureBackwardH colCount railTarget prevs' (k - 1)
               (capturedPrev ++ [prev]) (takeWidget st pw)
  end.

(** Lines 265-277. *)
Fixpoint captureForwardH (colCount : Z) (railTarget : Q) (nexts : list loc)
    (capturedNext : list loc) (st : RailState) : M (list loc * RailState) :=
  match nexts with
  | [] => ret (capturedNext, st)
  | next :: nexts' =>
      b <- isRowBlockH next ;;
      if b then ret (capturedNext, st)
      else
        nw <- getWidget next ;;
        if negb (effectiveSpan nw colCount =? 1) then ret (capturedNext, st)
        else if negb (canTake colCount railTarget st nw) then ret (capturedNext, st)
        else captureForwardH colCount railTarget nexts'
               (capturedNext ++ [next]) (takeWidget st nw)
  end.

(** Lines 228-299 for the seed [current = items[i]], a widget object [w]. *)
Definition composeAtH (items : loc) (i : nat) (current : loc) (w : Widget)
    (colCount : Z) : M nat :=
  rbRail <- alloc (OArray []) ;;
  rb <- alloc (ORowBlock current rbRail ("rb-" ++ id w)%string) ;;
  let railTarget := (minHeightRem w + layoutConfig.toleranceRem)%Q in
  es <- getArray items ;;
  r <- captureBackwardH colCount railTarget (rev (firstn i es))
         (Z.of_nat i - 1) [] initialRail ;;
  let '(k, capturedPrev, st) := r in
  capturedNext <-
    (if (length capturedPrev =? 0)%nat then
       r' <- captureForwardH colCount railTarget (skipn (i + 1) es) [] st ;;
       let capturedNext := fst r' in
       (if (0 <? length capturedNext)%nat
        then arraySplice items (i + 1) (length capturedNext) []
        else ret tt) ;;;
       ret capturedNext
     else ret []) ;;
  arrayPush rbRail (rev capturedPrev ++ capturedNext) ;;;
  railEs <- getArray rbRail ;;
  if (0 <? length railEs)%nat then
    i2 <-
      (if (0 <? length capturedPrev)%nat then
         let startPrev := k + 1 in
         let countPrev := Z.of_nat i - startPrev in
         if countPrev >? 0 then
           arraySplice items (Z.to_nat startPrev) (Z.to_nat countPrev) [] ;;;
           ret (Z.to_nat startPrev)
         else ret i
       else ret i) ;;
    arraySplice items i2 1 [rb] ;;;
    ret (S i2)
  else ret (S i).

(** Lines 215-300. *)
Fixpoint composeLoopH (fuel : nat) (items : loc) (i : nat) (colCount : Z) : M unit :=
  match fuel with
  | O => fault
  | S fuel' =>
      es <- getArray items ;;
      match nth_error es i with
      | None => ret tt
      | Some current =>
          b <- isRowBlockH current ;;
          if b then composeLoopH fuel' items (S i) colCount
          else
            w <- getWidget current ;;
            if negb (effectiveSpan w colCount =? 3)
            then composeLoopH fuel' items (S i) colCount
            else i' <- composeAtH items i current w colCount ;;
                 composeLoopH fuel' items i' colCount
      end
  end.

Definition transformRowBlocksH (widgetsInOrder : loc) (colCount : Z) : M loc :=
  if negb (colCount =? 4) then arrayCopy widgetsInOrder
  else
    items <- arrayCopy widgetsInOrder ;;
    es <- getArray items ;;
    composeLoopH (S (length es)) items 0 colCount ;;;
    ret items.

(** *** Packer *)

(** [currentRow.filter(cell => !this.isRowBlock(cell.item))] *)
Fixpoint filterExpandableH (row : list loc) : M (list loc) :=
  match row with
  | [] => ret []
  | cell :: rest =>
      o <- read cell ;;
      match o with
      | OCell it _ _ =>
          b <- isRowBlockH it ;;
          r <- filterExpandableH rest ;;
          ret (if b then r else cell :: r)
      | _ => fault
      end
  end.

(** [expandableWidgets.every(cell => cell.span === 1)] *)
Fixpoint everyMinSpanH (cs : list loc) : M bool :=
  match cs with
  | [] => ret true
  | cell :: rest =>
      o <- read cell ;;
      match o with
      | OCell _ sp _ => if sp =? 1 then everyMinSpanH rest else ret false
      | _ => fault
      end
  end.

(** [currentRow.forEach(cell => { cell.distributeEqually = true; })] *)
Fixpoint markEqualH (row : list loc) : M unit :=
  match row with
  | [] => ret tt
  | cell :: rest =>
      o <- read cell ;;
      match o with
      | OCell it sp _ => write cell (OCell it sp true) ;;; markEqualH rest
      | _ => fault
      end
  end.

(** [expandableWidgets.forEach((cell, idx) => { ... cell.span = ... })] *)
Fixpoint expandCellsH (colCount extraPerWidget leftover idx : Z)
    (expandableWidgets : list loc) : M unit :=
  match expandableWidgets with
  | [] => ret tt
  | cell :: rest =>
      o <- read cell ;;
      match o with
      | OCell it sp de =>
          let extra := extraPerWidget + (if idx <? leftover then 1 else 0) in
          write cell (OCell it (Z.min colCount (sp + extra)) de) ;;;
          expandCellsH colCount extraPerWidget leftover (idx + 1) rest
      | _ => fault
      end
  end.

(** [rows] is a constant binding; [currentRow] is rebound to a new array
    and [used] reset by every flush. *)
Record PackVars : Type := mkPackVars {
  rowsRef : loc;
  currentRowRef : loc;
  usedNow : Z
}.

(** Lines 320-369. *)
Definition flushH (colCount : Z) (v : PackVars) : M PackVars :=
  row <- getArray (currentRowRef v) ;;
  if (length row =? 0)%nat then ret v
  else
    let remaining := colCount - usedNow v in
    (if remaining >? 0 then
       expandableWidgets <- filterExpandableH row ;;
       let count := Z.of_nat (length expandableWidgets) in
       if count >? 0 then
         allAreMinSpan <- everyMinSpanH expandableWidgets ;;
         if allAreMinSpan && (remaining <? count) then markEqualH row
         else expandCellsH colCount (remaining / count) (Z.rem remaining count) 0
                expandableWidgets
       else ret tt
     else ret tt) ;;;
    r <- alloc (ORow (currentRowRef v)) ;;
    arrayPush (rowsRef v) [r] ;;;
    fresh <- alloc (OArray []) ;;
    ret {| rowsRef := rowsRef v; currentRowRef := fresh; usedNow := 0 |}.

(** Lines 371-391. *)
Definition packStepH (colCount : Z) (v : PackVars) (it : loc) : M PackVars :=
  span <- itemSpanH it colCount ;;
  if span >=? colCount then
    v1 <- flushH colCount v ;;
    cell <- alloc (OCell it colCount false) ;;
    cs <- alloc (OArray [cell]) ;;
    r <- alloc (ORow cs) ;;
    arrayPush (rowsRef v1) [r] ;;;
    ret v1
  else
    v1 <- (if usedNow v + span >? colCount then flushH colCount v else ret v) ;;
    cell <- alloc (OCell it span false) ;;
    arrayPush (currentRowRef v1) [cell] ;;;
    ret {| rowsRef := rowsRef v1; currentRowRef := currentRowRef v1;
           usedNow := usedNow v1 + span |}.

Fixpoint packLoopH (colCount : Z) (es : list loc) (v : PackVars) : M PackVars :=
  match es with
  | [] => ret v
  | it :: rest => v' <- packStepH colCount v it ;; packLoopH colCount rest v'
  end.

Definition packRowsH (items : loc) (colCount : Z) : M loc :=
  rows <- alloc (OArray []) ;;
  cur <- alloc (OArray []) ;;
  es <- getArray items ;;
  v <- packLoopH colCount es {| rowsRef := rows; currentRowRef := cur; usedNow := 0 |} ;;
  v' <- flushH colCount v ;;
  ret (rowsRef v').

(** *** Orchestrator *)

Definition layoutSectionH (section : loc) (containerWidth : Q) : M loc :=
  let colCount := getColCountFromWidth containerWidth in
  o <- read section ;;
  match o with
  | OFilterSection _ g =>
      go <- read g ;;
      match go with
      | OFilterGroup _ _ _ ws =>
          items <- transformRowBlocksH ws colCount ;;
          rows <- packRowsH items colCount ;;
          alloc (OFilterLayout g colCount rows containerWidth)
      | _ => fault
      end
  | OWidgetSection _ _ ws =>
      items <- transformRowBlocksH ws colCount ;;
      rows <- packRowsH items colCount ;;
      alloc (OWidgetLayout colCount rows)
  | _ => fault
  end.

(** *** What a run may change

    [wp m h Q]: the computation [m] run on the store [h] returns, with a
    result and a final store that satisfy [Q]. *)
Definition wp {A : Type} (m : M A) (h : Heap) (Q : A -> Heap -> Prop) : Prop :=
  match m h with
  | Some (a, h') => Q a h'
  | None => False
  end.

(** An object keeps its shape when only the parts the layout pass assigns
    change: the contents of an array, the [span] and [distributeEqually] of
    a cell. *)
Definition sameShape (o o' : Obj) : Prop :=
  match o with
  | OArray _ => exists es, o' = OArray es
  | OCell it _ _ => exists sp de, o' = OCell it sp de
  | _ => o' = o
  end.

(** [evolves base h h']: every object of [h] is still there in [h'] with
    the same shape, and the objects below [base] are unchanged. *)
Definition evolves (base : nat) (h h' : Heap) : Prop :=
  (length h <= length h')%nat
  /\ forall l o, nth_error h l = Some o ->
       exists o', nth_error h' l = Some o' /\ sameShape o o'
                  /\ ((l < base)%nat -> o' = o).

(** A widget or a RowBlock. *)
Definition isItem (h : Heap) (l : loc) : Prop :=
  match nth_error h l with
  | Some (OWidget _) | Some (ORowBlock _ _ _) => True
  | _ => False
  end.

(** A cell created by this run, holding an item. *)
Definition isCell (base : nat) (h : Heap) (c : loc) : Prop :=
  (base <= c)%nat
  /\ exists it sp de, nth_error h c = Some (OCell it sp de) /\ isItem h it.

(** An array of widgets and RowBlocks. *)
Definition itemArray (h : Heap) (a : loc) : Prop :=
  exists es, nth_error h a = Some (OArray es) /\ Forall (isItem h) es.

(** A section object with its widget array (through its group, for a
    filter-group section). *)
Definition sectionWidgets (h : Heap) (section : loc) (ws : loc) : Prop :=
  (exists sid stitle, nth_error h section = Some (OWidgetSection sid stitle ws))
  \/ (exists sid g gid gtitle fs,
        nth_error h section = Some (OFilterSection sid g)
        /\ nth_error h g = Some (OFilterGroup gid gtitle fs ws)).

(** Every object of [h] is in [h'] as it was. *)
Definition unchanged (h h' : Heap) : Prop :=
  forall l o, nth_error h l = Some o -> nth_error h' l = Some o.

(** *** Reading a layout back from the store *)

Definition loadWidget (h : Heap) (l : loc) : option Widget :=
  match nth_error h l with
  | Some (OWidget w) => Some w
  | _ => None
  end.

Fixpoint loadAll {A : Type} (f : loc -> option A) (ls : list loc) : option (list A) :=
  match ls with
  | [] => Some []
  | l :: ls' =>
      match f l, loadAll f ls' with
      | Some a, Some r => Some (a :: r)
      | _, _ => None
      end
  end.

Definition loadArray {A : Type} (h : Heap) (f : loc -> option A) (a : loc)
    : option (list A) :=
  match nth_error h a with
  | Some (OArray es) => loadAll f es
  | _ => None
  end.

Definition loadItem (h : Heap) (l : loc) : option Item :=
  match nth_error h l with
  | Some (OWidget w) => Some (IWidget w)
  | Some (ORowBlock m r rid) =>
      match loadWidget h m, loadArray h (loadWidget h) r with
      | Some mw, Some ws => Some (IRowBlock (mkRowBlock mw ws rid))
      | _, _ => None
      end
  | _ => None
  end.

Definition loadCell (h : Heap) (c : loc) : option Cell :=
  match nth_error h c with
  | Some (OCell it sp de) =>
      match loadItem h it with
      | Some i => Some (mkCell i sp de)
      | None => None
      end
  | _ => None
  end.

Definition loadRow (h : Heap) (r : loc) : option Row :=
  match nth_error h r with
  | Some (ORow cs) =>
      match loadArray h (loadCell h) cs with
      | Some cells => Some (mkRow cells)
      | None => None
      end
  | _ => None
  end.

Definition loadLayout (h : Heap) (l : loc) : option Layout :=
  match nth_error h l with
  | Some (OWidgetLayout c rs) =>
      match loadArray h (loadRow h) rs with
      | Some rows => Some (WidgetLayout c rows)
      | None => None
      end
  | _ => None
  end.

(** A store holding one widget section: the widgets of the given sizes at
    references 0, 1, ..., then their array, then the section object. *)
Definition sectionStore (sizes : list string) : Heap :=
  map (fun sz => OWidget (makeWidget "w" sz)) sizes
  ++ [OArray (seq 0 (length sizes));
      OWidgetSection "s_0" "New Section" (length sizes)].

(** The layout [layoutSectionH] leaves in the store for a section of the
    given sizes is the one [layoutSection] computes on values. *)
Definition agreesAt (sizes : list string) (width : Q) : Prop :=
  match layoutSectionH (S (length sizes)) width (sectionStore sizes) with
  | Some (layout, h') =>
      loadLayout h' layout
      = Some (layoutSection
                (WidgetSection "s_0" "New Section" (map (makeWidget "w") sizes))
                width)
  | None => False
  end.

(** *** Invariants of the run on the store *)

(** The array the composer splices: allocated by this run, holding items. *)
Definition itemsInv (base : nat) (h : Heap) (items : loc) (es : list loc) : Prop :=
  (base <= items)%nat
  /\ nth_error h items = Some (OArray es)
  /\ Forall (isItem h) es.

(** No array of [h] has other contents in [h']. *)
Definition arraysKept (h h' : Heap) : Prop :=
  forall a es, nth_error h a = Some (OArray es) -> nth_error h' a = Some (OArray es).

(** The packer's variables: [rows] and [currentRow] are distinct arrays of
    this run, and [currentRow] holds cells of this run. *)
Definition packInv (base : nat) (h : Heap) (v : PackVars) : Prop :=
  (base <= rowsRef v)%nat /\ (base <= currentRowRef v)%nat
  /\ rowsRef v <> currentRowRef v
  /\ (exists rs, nth_error h (rowsRef v) = Some (OArray rs))
  /\ (exists cs, nth_error h (currentRowRef v) = Some (OArray cs)
                 /\ Forall (isCell base h) cs).

(** *** The store as a representation of layout values *)

(** The rail array of a RowBlock object. *)
Definition railOf (h : Heap) (l : loc) : option loc :=
  match nth_error h l with
  | Some (ORowBlock _ r _) => Some r
  | _ => None
  end.

(** [es] holds references to the items [vs], none of which has the array
    [a] as its rail. *)
Definition itemsRepr (h : Heap) (a : loc) (es : list loc) (vs : list Item) : Prop :=
  Forall2 (fun l v => loadItem h l = Some v /\ railOf h l <> Some a) es vs.

(** The references [ls] are the widget objects [ws], in order. *)
Definition widgetsRepr (h : Heap) (ls : list loc) (ws : list Widget) : Prop :=
  Forall2 (fun l w => nth_error h l = Some (OWidget w)) ls ws.

(** [h'] has every object of [h] outside the references [S]. *)
Definition agreeExcept (S : list loc) (h h' : Heap) : Prop :=
  forall x o, nth_error h x = Some o -> ~ In x S -> nth_error h' x = Some o.

(** Whatever the store holds at a reference of [S] is an array. *)
Definition arraysAt (S : list loc) (h : Heap) : Prop :=
  forall x o, In x S -> nth_error h x = Some o -> exists es, o = OArray es.

(** Every item of the initial store [h0] is the same object in [h]. *)
Definition itemsKept (h0 h : Heap) : Prop :=
  forall it v, loadItem h0 it = Some v -> nth_error h it = nth_error h0 it.

(** The cell object at [c] stands for the cell value [cell]. *)
Definition cellRepr (h0 h : Heap) (c : loc) (cell : Cell) : Prop :=
  exists it, nth_error h c = Some (OCell it (span cell) (distributeEqually cell))
             /\ loadItem h0 it = Some (item cell).

(** The row object at [r] stands for [row]; its cells are none of the open
    row's cells [cs] and its array is neither of the packer's two arrays. *)
Definition rowRepr (h0 h : Heap) (v : PackVars) (cs : list loc) (r : loc) (row : Row)
    : Prop :=
  exists ca cl,
    nth_error h r = Some (ORow ca) /\ nth_error h ca = Some (OArray cl)
    /\ ca <> rowsRef v /\ ca <> currentRowRef v
    /\ (forall c, In c cl -> ~ In c cs)
    /\ Forall2 (cellRepr h0 h) cl (cells row).

(** The packer's variables [v] on the store [h] stand for the packer state
    [st]: the two arrays hold the rows emitted so far and the cells of the
    open row, and the open row's cells are distinct objects. *)
Definition packRepr (h0 h : Heap) (v : PackVars) (st : PackState) : Prop :=
  usedNow v = used st
  /\ rowsRef v <> currentRowRef v
  /\ itemsKept h0 h
  /\ exists rs cs,
       nth_error h (rowsRef v) = Some (OArray rs)
       /\ nth_error h (currentRowRef v) = Some (OArray cs)
       /\ NoDup cs
       /\ Forall2 (cellRepr h0 h) cs (currentRow st)
       /\ Forall2 (rowRepr h0 h v cs) rs (rows st).

(** The cell references [filter] keeps at line 332: those of [cs] whose cell
    value is expandable. *)
Fixpoint expandableLocs (cs : list loc) (row : list Cell) : list loc :=
  match cs, row with
  | c :: cs', cell :: row' =>
      if expandable cell then c :: expandableLocs cs' row'
      else expandableLocs cs' row'
  | _, _ => []
  end.

(** * The editor's commands

    The methods that change [this.sections] and the id counters: the id
    generators (lines 66-84), the filter-group helpers (lines 91-135),
    [addWidgetToLastSection] (lines 470-531), the [drop] listener of
    [setupGridDropHandlers] (lines 559-589), [handleDropFromPanel],
    [handleMoveWidget], [handleMoveSection], [deleteWidget],
    [moveWidgetToFilterContainer] and [deleteSection] (lines 996-1236).
    Each ends in [this.render()], which rebuilds the DOM from the state and
    writes nothing back to it; the calls to [scrollToWidget] and
    [scrollToSection] touch the DOM only.  Both are left out.

    Numbers.  The three id counters are modelled as [N].  A JavaScript
    number counts exactly up to 2^53, where [counter++] stops changing it;
    what is proved of the generated ids holds below that bound. *)

(** ** What a layout holds *)

(** The items of the rows of a layout, row after row. *)
Definition rowItems (rs : list Row) : list Item :=
  flat_map (fun r => map item (cells r)) rs.

(** The widgets an item stands for: itself, or the rail and the main widget
    of a RowBlock. *)
Definition itemWidgets (it : Item) : list Widget :=
  match it with
  | IWidget w => [w]
  | IRowBlock rb => rail rb ++ [main rb]
  end.

(** ** JavaScript array primitives, continued *)

(** [arr.findIndex(p)]: [None] stands for the result [-1]. *)
Fixpoint findIndex {A : Type} (p : A -> bool) (l : list A) : option nat :=
  match l with
  | [] => None
  | x :: l' => if p x then Some O else option_map S (findIndex p l')
  end.

Definition indexOrMinus1 (o : option nat) : Z :=
  match o with
  | Some i => Z.of_nat i
  | None => -1
  end.

(** The index [splice] starts at: a negative [start] counts from the end
    and is clamped at 0; [splice] clamps a [start] past the end. *)
Definition spliceStart (len : nat) (start : Z) : nat :=
  if start <? 0 then Z.to_nat (Z.max (Z.of_nat len + start) 0) else Z.to_nat start.

(** [arr.splice(start, deleteCount, ...ins)] for any integer [start]. *)
Definition spliceZ {A : Type} (arr : list A) (start : Z) (deleteCount : nat)
    (ins : list A) : list A :=
  splice arr (spliceStart (length arr) start) deleteCount ins.

(** ** State *)

(** The fields of [DashboardEditor] the commands read and write: those of
    [Editor], the dragged section and the three id counters. *)
Record EditorState : Type := mkState {
  editor : Editor;
  draggedSection : option Section;
  widgetIdCounter : N;
  sectionIdCounter : N;
  filterGroupIdCounter : N
}.

(** [this.sections = secs], and in-place changes of the array. *)
Definition withSections (st : EditorState) (secs : list Section) : EditorState :=
  {| editor := {| sections := secs;
                  offsetWidth := offsetWidth (editor st);
                  isDraggingFromPanel := isDraggingFromPanel (editor st);
                  draggedWidgetSize := draggedWidgetSize (editor st);
                  draggedWidget := draggedWidget (editor st) |};
     draggedSection := draggedSection st;
     widgetIdCounter := widgetIdCounter st;
     sectionIdCounter := sectionIdCounter st;
     filterGroupIdCounter := filterGroupIdCounter st |}.

(** ** Id generators (lines 66-84) *)

(** The string JavaScript concatenates for a counter: its decimal digits. *)
Definition numToString (n : N) : string := NilEmpty.string_of_uint (N.to_uint n).

Definition widgetIdOf (n : N) : string := ("w_" ++ numToString n)%string.
Definition sectionIdOf (n : N) : string := ("s_" ++ numToString n)%string.
Definition filterGroupIdOf (n : N) : string := ("fg_" ++ numToString n)%string.

(** ['w_' + this.widgetIdCounter++] *)
Definition newWidgetId (st : EditorState) : string * EditorState :=
  (widgetIdOf (widgetIdCounter st),
   {| editor := editor st;
      draggedSection := draggedSection st;
      widgetIdCounter := widgetIdCounter st + 1;
      sectionIdCounter := sectionIdCounter st;
      filterGroupIdCounter := filterGroupIdCounter st |}).

Definition newSectionId (st : EditorState) : string * EditorState :=
  (sectionIdOf (sectionIdCounter st),
   {| editor := editor st;
      draggedSection := draggedSection st;
      widgetIdCounter := widgetIdCounter st;
      sectionIdCounter := sectionIdCounter st + 1;
      filterGroupIdCounter := filterGroupIdCounter st |}).

Definition newFilterGroupId (st : EditorState) : string * EditorState :=
  (filterGroupIdOf (filterGroupIdCounter st),
   {| editor := editor st;
      draggedSection := draggedSection st;
      widgetIdCounter := widgetIdCounter st;
      sectionIdCounter := sectionIdCounter st;
      filterGroupIdCounter := filterGroupIdCounter st + 1 |}).

(** ** Filter groups (lines 91-135) *)

Definition createFilterGroup (st : EditorState) (gtitle : string)
    : FilterGroup * EditorState :=
  let '(gid, st1) := newFilterGroupId st in
  ({| fg_id := gid; fg_title := gtitle; fg_filters := []; fg_widgets := [] |}, st1).

(** [s.type === 'filter-group' && s.group.id === groupId] *)
Definition isGroup (groupId : string) (s : Section) : bool :=
  match s with
  | FilterGroupSection _ g => (fg_id g =? groupId)%string
  | WidgetSection _ _ _ => false
  end.

(** The filters of the first section that holds the group [groupId],
    changed by [f]; nothing if there is none. *)
Definition changeFilters (st : EditorState) (groupId : string)
    (f : list (string * string) -> list (string * string)) : EditorState :=
  let secs := sections (editor st) in
  match findIndex (isGroup groupId) secs with
  | Some i =>
      match nth_error secs i with
      | Some (FilterGroupSection sid g) =>
          withSections st
            (update secs i
               (FilterGroupSection sid
                  {| fg_id := fg_id g; fg_title := fg_title g;
                     fg_filters := f (fg_filters g);
                     fg_widgets := fg_widgets g |}))
      | _ => st
      end
  | None => st
  end.

(** [addFilterToGroup(groupId)]; [now] is the value of [Date.now()]. *)
Definition addFilterToGroup (st : EditorState) (now : N) (groupId : string)
    : EditorState :=
  changeFilters st groupId
    (fun filters => filters ++ [(("filter_" ++ numToString now)%string, "Filter"%string)]).

Definition removeFilterFromGroup (st : EditorState) (groupId filterId : string)
    : EditorState :=
  changeFilters st groupId
    (fun filters => filter (fun f => negb (fst f =? filterId)%string) filters).

(** ** Sections and their widget arrays *)

(** [section.widgets] of a widget section, [section.group.widgets] of a
    filter-group section. *)
Definition widgetsOf (s : Section) : list Widget :=
  match s with
  | WidgetSection _ _ ws => ws
  | FilterGroupSection _ g => fg_widgets g
  end.

Definition setWidgets (s : Section) (ws : list Widget) : Section :=
  match s with
  | WidgetSection sid stitle _ => WidgetSection sid stitle ws
  | FilterGroupSection sid g =>
      FilterGroupSection sid
        {| fg_id := fg_id g; fg_title := fg_title g;
           fg_filters := fg_filters g; fg_widgets := ws |}
  end.

(** An in-place change of the widget array of the section object at index
    [i] of [this.sections]. *)
Definition modifyWidgetsAt (secs : list Section) (i : nat)
    (f : list Widget -> list Widget) : list Section :=
  match nth_error secs i with
  | Some s => update secs i (setWidgets s (f (widgetsOf s)))
  | None => secs
  end.

(** All widgets of the dashboard, section after section. *)
Definition allWidgets (secs : list Section) : list Widget := flat_map widgetsOf secs.

Definition hasId (wid : string) (w : Widget) : bool := (id w =? wid)%string.

(** [widgets.findIndex(w => w.id === wid)] *)
Definition widgetIndex (wid : string) (ws : list Widget) : Z :=
  indexOrMinus1 (findIndex (hasId wid) ws).

(** [this.sections.filter(s => s.id !== sid)] *)
Definition removeSectionsWithId (sid : string) (secs : list Section) : list Section :=
  filter (fun s => negb (sectionId s =? sid)%string) secs.

(** Index of the object [this.sections.find(s => s.id === sid)] returns. *)
Definition sectionIndex (secs : list Section) (sid : option string) : option nat :=
  findIndex (fun s => match sid with
                      | Some x => (sectionId s =? x)%string
                      | None => false
                      end) secs.

Definition isWidgetSection (s : Section) : bool :=
  match s with
  | WidgetSection _ _ _ => true
  | FilterGroupSection _ _ => false
  end.

(** ** [deleteSection] (lines 1231-1234) *)

Definition deleteSection (st : EditorState) (sid : string) : EditorState :=
  withSections st (removeSectionsWithId sid (sections (editor st))).

(** ** [deleteWidget] (lines 1169-1191) *)

(** The [for (let section of this.sections)] loop from the section the
    iteration stands at: the sections after the in-place [splice], and the
    id of the emptied widget section the [filter] then removes. *)
Fixpoint deleteWidgetLoop (widgetId : string) (rest : list Section)
    : list Section * option string :=
  match rest with
  | [] => ([], None)
  | WidgetSection sid stitle ws :: rest' =>
      match findIndex (hasId widgetId) ws with
      | Some index =>
          let ws' := splice ws index 1 [] in
          (WidgetSection sid stitle ws' :: rest',
           if (length ws' =? 0)%nat then Some sid else None)
      | None =>
          let '(r, emptied) := deleteWidgetLoop widgetId rest' in
          (WidgetSection sid stitle ws :: r, emptied)
      end
  | FilterGroupSection sid g :: rest' =>
      match findIndex (hasId widgetId) (fg_widgets g) with
      | Some index =>
          (setWidgets (FilterGroupSection sid g) (splice (fg_widgets g) index 1 [])
             :: rest',
           None)
      | None =>
          let '(r, emptied) := deleteWidgetLoop widgetId rest' in
          (FilterGroupSection sid g :: r, emptied)
      end
  end.

Definition deleteWidget (st : EditorState) (widgetId : string) : EditorState :=
  let '(secs, emptied) := deleteWidgetLoop widgetId (sections (editor st)) in
  withSections st
    (match emptied with
     | Some sid => removeSectionsWithId sid secs
     | None => secs
     end).

(** ** [moveWidgetToFilterContainer] (lines 1193-1229) *)

(** The search loop from index [i]: the widget found, [sourceSectionIndex],
    and the sections from [i] on after the [splice]s. *)
Fixpoint takeWidgetLoop (widgetId : string) (i : nat) (rest : list Section)
    : option (Widget * nat * list Section) :=
  match rest with
  | [] => None
  | WidgetSection sid stitle ws :: rest' =>
      match findIndex (hasId widgetId) ws with
      | Some widgetIdx =>
          match nth_error ws widgetIdx with
          | Some widget =>
              let ws' := splice ws widgetIdx 1 [] in
              Some (widget, i,
                    if (length ws' =? 0)%nat then rest'
                    else WidgetSection sid stitle ws' :: rest')
          | None => None
          end
      | None =>
          match takeWidgetLoop widgetId (S i) rest' with
          | Some (widget, k, r) => Some (widget, k, WidgetSection sid stitle ws :: r)
          | None => None
          end
      end
  | FilterGroupSection sid g :: rest' =>
      match takeWidgetLoop widgetId (S i) rest' with
      | Some (widget, k, r) => Some (widget, k, FilterGroupSection sid g :: r)
      | None => None
      end
  end.

Definition moveWidgetToFilterContainer (st : EditorState) (widgetId : string)
    : EditorState :=
  match takeWidgetLoop widgetId 0 (sections (editor st)) with
  | None => st
  | Some (widget, sourceSectionIndex, secs) =>
      let '(filterGroup, st1) := createFilterGroup st "Filter Container" in
      let '(sid, st2) := newSectionId st1 in
      let filterContainer :=
        FilterGroupSection sid
          {| fg_id := fg_id filterGroup; fg_title := fg_title filterGroup;
             fg_filters := fg_filters filterGroup;
             fg_widgets := fg_widgets filterGroup ++ [widget] |} in
      withSections st2 (splice secs sourceSectionIndex 0 [filterContainer])
  end.

(** ** [handleMoveSection] (lines 1152-1167) *)

(** [section] is the object [this.draggedSection] refers to. *)
Definition handleMoveSection (st : EditorState) (section : Section)
    (targetInfo : DropZone) : EditorState :=
  let secs := sections (editor st) in
  let currentIndex :=
    indexOrMinus1 (findIndex (fun s => (sectionId s =? sectionId section)%string) secs) in
  let position := zone_position (zone targetInfo) in
  let newPosition := if position >? currentIndex then position - 1 else position in
  if currentIndex =? newPosition then st
  else withSections st
         (spliceZ (spliceZ secs currentIndex 1 []) newPosition 0 [section]).

(** ** [handleDropFromPanel] (lines 996-1047) *)

Definition newWidgetSection (sid : string) (widget : Widget) : Section :=
  WidgetSection sid "New Section" [widget].

Definition handleDropFromPanel (st : EditorState) (targetInfo : DropZone)
    (widgetSize : string) : completion EditorState :=
  let position := zone_position (zone targetInfo) in
  if (widgetSize =? "FILTER")%string then
    let '(filterGroup, st1) := createFilterGroup st "Filter Container" in
    let '(sid, st2) := newSectionId st1 in
    let newSection := FilterGroupSection sid filterGroup in
    let secs := sections (editor st2) in
    Normal (withSections st2
              (match zone_type (zone targetInfo) with
               | BetweenSections => spliceZ secs position 0 [newSection]
               | _ => secs ++ [newSection]
               end))
  else
    let '(wid, st1) := newWidgetId st in
    let widget := makeWidget wid widgetSize in
    let secs := sections (editor st1) in
    match zone_type (zone targetInfo) with
    | WithinSection =>
        match sectionIndex secs (zone_sectionId (zone targetInfo)) with
        | Some i =>
            match nth_error secs i with
            | Some (WidgetSection _ _ _) =>
                Normal (withSections st1
                          (modifyWidgetsAt secs i
                             (fun ws => spliceZ ws position 0 [widget])))
            | _ =>
                (* [section.widgets] is [undefined] on a filter-group section *)
                Throw "TypeError"
            end
        | None => Normal st1
        end
    | WithinFilterGroup =>
        match sectionIndex secs (zone_sectionId (zone targetInfo)) with
        | Some i =>
            match nth_error secs i with
            | Some (FilterGroupSection _ _) =>
                Normal (withSections st1
                          (modifyWidgetsAt secs i
                             (fun ws => spliceZ ws position 0 [widget])))
            | _ => Normal st1
            end
        | None => Normal st1
        end
    | BetweenSections =>
        let '(sid, st2) := newSectionId st1 in
        Normal (withSections st2
                  (spliceZ secs position 0 [newWidgetSection sid widget]))
    end.

(** ** [addWidgetToLastSection] (lines 470-531) *)

(** [cells.reduce((sum, cell) => sum + cell.span, 0)] *)
Definition usedCols (row : Row) : Z :=
  fold_left (fun sum cell => sum + span cell) (cells row) 0.

Definition addWidgetToLastSection (st : EditorState) (widgetSize : string)
    : completion EditorState :=
  if (widgetSize =? "FILTER")%string then
    let '(filterGroup, st1) := createFilterGroup st "Filter Container" in
    let '(sid, st2) := newSectionId st1 in
    Normal (withSections st2
              (sections (editor st2) ++ [FilterGroupSection sid filterGroup]))
  else
    let '(wid, st1) := newWidgetId st in
    let widget := makeWidget wid widgetSize in
    let containerWidth := offsetWidth (editor st1) in
    let colCount := getColCountFromWidth containerWidth in
    let secs := sections (editor st1) in
    let inNewSection :=
      let '(sid, st2) := newSectionId st1 in
      withSections st2 (secs ++ [newWidgetSection sid widget]) in
    match nth_error secs (length secs - 1) with
    | Some (WidgetSection _ _ lastWidgets) =>
        let testWidgets := lastWidgets ++ [widget] in
        let items := transformRowBlocks (map IWidget testWidgets) colCount in
        let rows := packRows items colCount in
        match nth_error rows (length rows - 1) with
        | Some lastRow =>
            if usedCols lastRow <=? colCount then
              Normal (withSections st1
                        (modifyWidgetsAt secs (length secs - 1)
                           (fun ws => ws ++ [widget])))
            else Normal inNewSection
        | None =>
            (* [rows[rows.length - 1]] is [undefined] on an empty array *)
            Throw "TypeError"
        end
    | _ => Normal inNewSection
    end.

(** ** [handleMoveWidget] (lines 1049-1150) *)

(** [s.type === 'widget' && s.widgets.some(w => w.id === wid)] *)
Definition holdsAsWidgetSection (wid : string) (s : Section) : bool :=
  match s with
  | WidgetSection _ _ ws => existsb (hasId wid) ws
  | FilterGroupSection _ _ => false
  end.

Definition holdsAsFilterGroup (wid : string) (s : Section) : bool :=
  match s with
  | WidgetSection _ _ _ => false
  | FilterGroupSection _ g => existsb (hasId wid) (fg_widgets g)
  end.

(** Index of [sourceSection], lines 1052-1062. *)
Definition sourceIndex (secs : list Section) (wid : string) : option nat :=
  match findIndex (holdsAsWidgetSection wid) secs with
  | Some i => Some i
  | None => findIndex (holdsAsFilterGroup wid) secs
  end.

(** [widgets.splice(currentIndex, 1)] *)
Definition removeDragged (wid : string) (ws : list Widget) : list Widget :=
  spliceZ ws (widgetIndex wid ws) 1 [].

(** A move within one array, lines 1070-1080 and 1110-1120. *)
Definition reposition (widget : Widget) (position : Z) (ws : list Widget)
    : list Widget :=
  let currentIndex := widgetIndex (id widget) ws in
  let newPosition := if position >? currentIndex then position - 1 else position in
  if currentIndex =? newPosition then ws
  else spliceZ (spliceZ ws currentIndex 1 []) newPosition 0 [widget].

(** [widget] is the object [this.draggedWidget] refers to. *)
Definition handleMoveWidget (st : EditorState) (widget : Widget)
    (targetInfo : DropZone) : EditorState :=
  let secs := sections (editor st) in
  let wid := id widget in
  let position := zone_position (zone targetInfo) in
  let insertDragged ws := spliceZ ws position 0 [widget] in
  match sourceIndex secs wid with
  | None => st
  | Some si =>
      match nth_error secs si with
      | None => st
      | Some sourceSection =>
          let emptied := (length (removeDragged wid (widgetsOf sourceSection)) =? 0)%nat in
          match zone_type (zone targetInfo) with
          | WithinSection =>
              match sectionIndex secs (zone_sectionId (zone targetInfo)) with
              | None => st
              | Some ti =>
                  match nth_error secs ti with
                  | Some (WidgetSection tid _ _) =>
                      if isWidgetSection sourceSection then
                        if (sectionId sourceSection =? tid)%string then
                          withSections st
                            (modifyWidgetsAt secs si (reposition widget position))
                        else
                          let secs1 := modifyWidgetsAt secs si (removeDragged wid) in
                          let secs2 := modifyWidgetsAt secs1 ti insertDragged in
                          withSections st
                            (if emptied
                             then removeSectionsWithId (sectionId sourceSection) secs2
                             else secs2)
                      else
                        withSections st
                          (modifyWidgetsAt (modifyWidgetsAt secs si (removeDragged wid))
                             ti insertDragged)
                  | _ => st
                  end
              end
          | WithinFilterGroup =>
              match sectionIndex secs (zone_sectionId (zone targetInfo)) with
              | None => st
              | Some ti =>
                  match nth_error secs ti with
                  | Some (FilterGroupSection tid _) =>
                      if isWidgetSection sourceSection then
                        let secs1 := modifyWidgetsAt secs si (removeDragged wid) in
                        let secs2 := modifyWidgetsAt secs1 ti insertDragged in
                        withSections st
                          (if emptied
                           then removeSectionsWithId (sectionId sourceSection) secs2
                           else secs2)
                      else if (sectionId sourceSection =? tid)%string then
                        withSections st
                          (modifyWidgetsAt secs si (reposition widget position))
                      else
                        withSections st
                          (modifyWidgetsAt (modifyWidgetsAt secs si (removeDragged wid))
                             ti insertDragged)
                  | _ => st
                  end
              end
          | BetweenSections =>
              let secs1 := modifyWidgetsAt secs si (removeDragged wid) in
              let '(sid, st1) := newSectionId st in
              let secs2 := spliceZ secs1 position 0 [newWidgetSection sid widget] in
              withSections st1
                (if isWidgetSection sourceSection && emptied
                 then removeSectionsWithId (sectionId sourceSection) secs2
                 else secs2)
          end
      end
  end.

(** ** The [drop] listener of [setupGridDropHandlers] (lines 559-589) *)

(** [this.draggedWidget = null; this.draggedSection = null;
    this.draggedWidgetSize = null] *)
Definition clearDrag (st : EditorState) : EditorState :=
  {| editor := {| sections := sections (editor st);
                  offsetWidth := offsetWidth (editor st);
                  isDraggingFromPanel := isDraggingFromPanel (editor st);
                  draggedWidgetSize := None;
                  draggedWidget := None |};
     draggedSection := None;
     widgetIdCounter := widgetIdCounter st;
     sectionIdCounter := sectionIdCounter st;
     filterGroupIdCounter := filterGroupIdCounter st |}.

Definition isBetweenSections (z : DropZone) : bool :=
  match zone_type (zone z) with
  | BetweenSections => true
  | _ => false
  end.

(** The listener, from the result [targetInfo] of [getDropTarget] on;
    [widgetSize] is [e.dataTransfer.getData('widgetSize')], the empty string
    when the drag carries none. *)
Definition onDrop (st : EditorState) (targetInfo : option DropZone)
    (widgetSize : string) : completion EditorState :=
  match targetInfo with
  | Some t =>
      if isInvalid t then Normal (clearDrag st)
      else
        bindC
          (if isDraggingFromPanel (editor st) then
             if (widgetSize =? "")%string then Normal st
             else handleDropFromPanel st t widgetSize
           else
             match draggedWidget (editor st) with
             | Some widget => Normal (handleMoveWidget st widget t)
             | None =>
                 match draggedSection st with
                 | Some section =>
                     if isBetweenSections t then Normal (handleMoveSection st section t)
                     else Normal st
                 | None => Normal st
                 end
             end)
          (fun st' => Normal (clearDrag st'))
  | None => Normal (clearDrag st)
  end.

(** The whole listener: the target is resolved at the pointer, over the
    zones generated from the DOM. *)
Definition dropAt (st : EditorState) (canvasRect : Rect)
    (dropZones : list ZoneLiteral) (x y : Q) (widgetSize : string)
    : completion EditorState :=
  onDrop st (getDropTarget (editor st) canvasRect dropZones x y) widgetSize.

(** ** Invariants of the packer, continued *)

(** A cell as the loop builds it: the item's span, below the column count. *)
Definition freshCell (C : Z) (c : Cell) : Prop :=
  span c = itemSpan (item c) C /\ span c < C.

(** A cell of an emitted row. *)
Definition spanWithin (C : Z) (c : Cell) : Prop :=
  itemSpan (item c) C <= span c <= C.

(** Loop invariant of [packRows] for the span bounds. *)
Record SpanInv (C : Z) (st : PackState) : Prop := {
  sp_rows : Forall (fun r => Forall (spanWithin C) (cells r)) (rows st);
  sp_cells : Forall (freshCell C) (currentRow st)
}.

(** Loop invariant of [packRows] for the capacity of a row. *)
Record FitInv (C : Z) (st : PackState) : Prop := {
  fit_rows : Forall (fun r => sumSpans (cells r) <= C) (rows st);
  fit_used : used st = sumSpans (currentRow st);
  fit_bound : used st <= C
}.

(** ** Invariants of the dashboard *)

(** No widget of the section carries the id. *)
Definition lacksWidget (wid : string) (s : Section) : Prop :=
  Forall (fun w => hasId wid w = false) (widgetsOf s).

(** No widget section is empty. *)
Definition noEmptySection (secs : list Section) : Prop :=
  Forall (fun s => isWidgetSection s = true -> widgetsOf s <> []) secs.

(** The ids in use were all generated, by counters now past them. *)
Definition idsGenerated (st : EditorState) : Prop :=
  Forall (fun s => exists n, (n < sectionIdCounter st)%N /\ sectionId s = sectionIdOf n)
         (sections (editor st))
  /\ Forall (fun w => exists n, (n < widgetIdCounter st)%N /\ id w = widgetIdOf n)
            (allWidgets (sections (editor st))).

Definition uniqueIds (secs : list Section) : Prop :=
  NoDup (map sectionId secs) /\ NoDup (map id (allWidgets secs)).

(** What a move keeps: the widgets as a collection, and the absence of
    empty widget sections. *)
Definition moveKeeps (secs secs' : list Section) : Prop :=
  Permutation (allWidgets secs') (allWidgets secs)
  /\ (noEmptySection secs -> noEmptySection secs').


(** [l'] holds elements of [l], each no more often than [l] does. *)
Definition subBag {A : Type} (l' l : list A) : Prop :=
  exists r, Permutation (l' ++ r) l.

(** The state the constructor leaves (lines 6-60), for a canvas of the
    given width. *)
Definition initialState (width : Q) : EditorState :=
  {| editor := {| sections := []; offsetWidth := width;
                  isDraggingFromPanel := false;
                  draggedWidgetSize := None; draggedWidget := None |};
     draggedSection := None;
     widgetIdCounter := 0; sectionIdCounter := 0; filterGroupIdCounter := 0 |}.

(** Section ids are distinct, widget ids are distinct, every id in use was
    handed out by its counter, and no widget section is empty. *)
Definition wellFormed (st : EditorState) : Prop :=
  uniqueIds (sections (editor st))
  /\ idsGenerated st
  /\ noEmptySection (sections (editor st)).

(** A command's footprint on ids: counters only grow, and the ids in use
    afterwards are ids in use before, or the one id the counter handed
    out. *)
Definition advances (st st' : EditorState) : Prop :=
  (sectionIdCounter st <= sectionIdCounter st')%N
  /\ (widgetIdCounter st <= widgetIdCounter st')%N
  /\ subBag (map sectionId (sections (editor st')))
       ((if (sectionIdCounter st <? sectionIdCounter st')%N
         then [sectionIdOf (sectionIdCounter st)] else [])
        ++ map sectionId (sections (editor st)))
  /\ subBag (map id (allWidgets (sections (editor st'))))
       ((if (widgetIdCounter st <? widgetIdCounter st')%N
         then [widgetIdOf (widgetIdCounter st)] else [])
        ++ map id (allWidgets (sections (editor st)))).

(** ** What the layout reads of a widget *)

(** A widget with everything but [minColSpan] and [minHeightRem] blanked:
    the two fields the composer and the packer read. *)
Definition anon (w : Widget) : Widget :=
  {| id := ""; size := ""; title := "";
     minColSpan := minColSpan w; minHeightRem := minHeightRem w;
     heightMode := stretchRow |}.

Definition anonItem (it : Item) : Item :=
  match it with
  | IWidget w => IWidget (anon w)
  | IRowBlock rb =>
      IRowBlock {| main := anon (main rb); rail := map anon (rail rb); rb_id := "rb-" |}
  end.

Definition anonCell (c : Cell) : Cell :=
  {| item := anonItem (item c); span := span c;
     distributeEqually := distributeEqually c |}.

Definition anonRow (r : Row) : Row := {| cells := map anonCell (cells r) |}.

Definition anonPack (st : PackState) : PackState :=
  {| rows := map anonRow (rows st); currentRow := map anonCell (currentRow st);
     used := used st |}.

(** ** Drag start and end (lines 443-456 and 1641-1685) *)

(** The fields a [dragstart] or [dragend] listener assigns; the others keep
    their values. *)
Definition withDrag (st : EditorState) (fromPanel : bool) (dsize : option string)
    (dwidget : option Widget) (dsection : option Section) : EditorState :=
  {| editor := {| sections := sections (editor st);
                  offsetWidth := offsetWidth (editor st);
                  isDraggingFromPanel := fromPanel;
                  draggedWidgetSize := dsize;
                  draggedWidget := dwidget |};
     draggedSection := dsection;
     widgetIdCounter := widgetIdCounter st;
     sectionIdCounter := sectionIdCounter st;
     filterGroupIdCounter := filterGroupIdCounter st |}.

(** [dragstart] on a panel item whose [data-size] is [widgetSize]. *)
Definition panelDragStart (st : EditorState) (widgetSize : string) : EditorState :=
  withDrag st true (Some widgetSize) (draggedWidget (editor st)) (draggedSection st).

Definition panelDragEnd (st : EditorState) : EditorState :=
  withDrag st false None (draggedWidget (editor st)) (draggedSection st).

(** [dragstart] on a widget element; [onDeleteButton] tells whether the
    event target is, or lies in, an element of class [delete-btn]. *)
Definition widgetDragStart (st : EditorState) (widget : Widget)
    (onDeleteButton : bool) : EditorState :=
  if onDeleteButton then st
  else withDrag st false (draggedWidgetSize (editor st)) (Some widget) None.

(** [dragstart] on a section element; [onSelf] tells whether the event
    target is the section element itself. *)
Definition sectionDragStart (st : EditorState) (section : Section) (onSelf : bool)
    : EditorState :=
  if onSelf
  then withDrag st false (draggedWidgetSize (editor st)) None (Some section)
  else st.

Definition sectionDragEnd (st : EditorState) : EditorState :=
  withDrag st (isDraggingFromPanel (editor st)) (draggedWidgetSize (editor st))
    (draggedWidget (editor st)) None.

(** ** A sample dashboard *)

(** Two widget sections on a 1240 px canvas: an S and an M widget in the
    first, an L widget in the second, with the ids the generators hand out. *)
Module Sample.

Definition w0 : Widget := makeWidget (widgetIdOf 0) "S".
Definition w1 : Widget := makeWidget (widgetIdOf 1) "M".
Definition w2 : Widget := makeWidget (widgetIdOf 2) "L".

Definition first : Section := WidgetSection (sectionIdOf 0) "New Section" [w0; w1].
Definition second : Section := WidgetSection (sectionIdOf 1) "New Section" [w2].

Definition st : EditorState :=
  {| editor := {| sections := [first; second]; offsetWidth := 1240;
                  isDraggingFromPanel := false;
                  draggedWidgetSize := None; draggedWidget := None |};
     draggedSection := None;
     widgetIdCounter := 3; sectionIdCounter := 2; filterGroupIdCounter := 0 |}.

(** A zone of the given type, section and position, with no extent. *)
Definition target (type : ZoneType) (sid : option string) (position : Z) : DropZone :=
  mkDropZone (mkZone type sid None position 0 0 0 0 false) false.

(** The filter container that lifting [w2] out of its section leaves. *)
Definition lifted : EditorState := moveWidgetToFilterContainer st (widgetIdOf 2).

(** The canvas and one zone above the first section. *)
Definition canvasRect : Rect :=
  {| rect_top := 0; rect_bottom := 2000; rect_left := 0; rect_right := 1240 |}.

Definition above : ZoneLiteral :=
  mkZone BetweenSections None None 0 40 105 20 1220 false.

(** A panel drag of an S item over the two sections of [TwoSections]. *)
Definition panel : EditorState :=
  {| editor := TwoSections.ed; draggedSection := None;
     widgetIdCounter := 5; sectionIdCounter := 2; filterGroupIdCounter := 0 |}.

End Sample.

(** * Theorems *)

Lemma geq_true (a b : Q) : geq a b = true <-> (b <= a)%Q.
Proof. unfold geq. apply Qle_bool_iff. Qed.

Lemma geq_false (a b : Q) : geq a b = false <-> (a < b)%Q.
Proof.
  unfold geq. split; intros H.
  - apply Qnot_le_lt. intros Hle. apply Qle_bool_iff in Hle. congruence.
  - destruct (Qle_bool b a) eqn:E; [|reflexivity].
    apply Qle_bool_iff in E. exfalso. apply (Qlt_not_le _ _ H E).
Qed.

Ltac geq_cases :=
  repeat match goal with
  | |- context [geq ?a ?b] =>
      let E := fresh "E" in
      destruct (geq a b) eqn:E;
      [apply geq_true in E | apply geq_false in E]
  | H : context [geq ?a ?b] |- _ =>
      let E := fresh "E" in
      destruct (geq a b) eqn:E;
      [apply geq_true in E | apply geq_false in E]
  end.

(** C8.  The column resolver is monotone in the container width, and its
    values are fixed by the breakpoints: 4 from 1200, 3 from 900, 2 from
    600, and 1 below 600. *)
Theorem getColCountFromWidth_monotone (w1 w2 : Q) :
  (w1 < w2)%Q ->
  getColCountFromWidth w1 <= getColCountFromWidth w2
  /\ (forall w, (1200 <= w)%Q -> getColCountFromWidth w = 4)
  /\ (forall w, (900 <= w)%Q -> (w < 1200)%Q -> getColCountFromWidth w = 3)
  /\ (forall w, (600 <= w)%Q -> (w < 900)%Q -> getColCountFromWidth w = 2)
  /\ (forall w, (w < 600)%Q -> getColCountFromWidth w = 1).
Proof.
  intros Hlt. unfold getColCountFromWidth.
  split; [|repeat split; intros w; intros].
  - geq_cases; try lia; exfalso; lra.
  - geq_cases; try reflexivity; exfalso; lra.
  - geq_cases; try reflexivity; exfalso; lra.
  - geq_cases; try reflexivity; exfalso; lra.
  - geq_cases; try reflexivity; exfalso; lra.
Qed.

Lemma getColCountFromWidth_monotone_witness :
  (899 < 1200)%Q /\ getColCountFromWidth 899 <= getColCountFromWidth 1200.
Proof.
  split; [reflexivity|].
  apply (getColCountFromWidth_monotone 899 1200). reflexivity.
Defined.


(** ** Row packer: the flush step *)

Lemma expandCells_length C q r idx row :
  length (expandCells C q r idx row) = length row.
Proof.
  revert idx. induction row as [|c row IH]; intros idx; simpl; [reflexivity|].
  destruct (expandable c); simpl; now rewrite IH.
Qed.

Lemma expandCells_nth C q r row :
  forall idx p cell,
    nth_error row p = Some cell ->
    nth_error (expandCells C q r idx row) p =
    Some (if expandable cell
          then {| item := item cell;
                  span := Z.min C (span cell + (q + (if idx + expandableIndex row p <? r
                                                     then 1 else 0)));
                  distributeEqually := distributeEqually cell |}
          else cell).
Proof.
  induction row as [|c row IH]; intros idx p cell Hp.
  - destruct p; discriminate.
  - destruct p as [|p]; simpl in Hp.
    + injection Hp as ->. simpl.
      destruct (expandable cell) eqn:E; simpl; [|reflexivity].
      unfold expandableIndex. simpl. now rewrite Z.add_0_r.
    + simpl. unfold expandableIndex. simpl firstn. simpl filter.
      destruct (expandable c) eqn:E; simpl nth_error.
      * rewrite (IH (idx + 1) p cell Hp). unfold expandableIndex.
        simpl length. rewrite Nat2Z.inj_succ.
        replace (idx + 1 + Z.of_nat (length (filter expandable (firstn p row))))
          with (idx + Z.succ (Z.of_nat (length (filter expandable (firstn p row)))))
          by lia.
        reflexivity.
      * now rewrite (IH idx p cell Hp).
Qed.

Lemma forallb_span1_spec (l : list Cell) :
  forallb (fun cell => span cell =? 1) l = true <-> Forall (fun c => span c = 1) l.
Proof.
  rewrite forallb_forall, Forall_forall.
  split; intros H c Hc; specialize (H c Hc); lia.
Qed.

(** C4.  A flush of a non-empty row with [remaining = colCount - used > 0]:
    if every expandable (non-RowBlock) cell has span 1 and [remaining] is
    below the number of expandable cells, no span changes and every cell of
    the row gets [distributeEqually = true]; in every other such flush with
    at least one expandable cell, the expandable cell that is [idx]-th among
    the expandable ones gets
    [min colCount (span + remaining / count + (1 if idx < remaining mod count))]
    and the other cells are left as they are. *)
Theorem flush_distributes_remaining (colCount : Z) (st : PackState) :
  currentRow st <> [] ->
  colCount - used st > 0 ->
  let row := currentRow st in
  let remaining := colCount - used st in
  let count := Z.of_nat (length (filter expandable row)) in
  exists out,
    flush colCount st = {| rows := rows st ++ [mkRow out]; currentRow := []; used := 0 |}
    /\ length out = length row
    /\ (Forall (fun c => span c = 1) (filter expandable row) ->
        remaining < count ->
        map span out = map span row
        /\ map item out = map item row
        /\ Forall (fun c => distributeEqually c = true) out)
    /\ (count > 0 ->
        ~ (Forall (fun c => span c = 1) (filter expandable row) /\ remaining < count) ->
        forall p cell,
          nth_error row p = Some cell ->
          nth_error out p =
          Some (if expandable cell
                then {| item := item cell;
                        span := Z.min colCount
                                  (span cell
                                   + (remaining / count
                                      + (if expandableIndex row p <? remaining mod count
                                         then 1 else 0)));
                        distributeEqually := distributeEqually cell |}
                else cell)).
Proof.
  intros Hne Hrem row remaining count.
  exists (flushCells colCount (used st) row).
  split.
  { unfold flush. fold row. destruct row eqn:Er; [contradiction|reflexivity]. }
  unfold flushCells. fold remaining. fold count.
  assert (Hgt : (remaining >? 0) = true) by lia. rewrite Hgt.
  split; [|split].
  - destruct (count >? 0); [|reflexivity].
    destruct (_ && _); [apply length_map | apply expandCells_length].
  - intros Hall Hlt.
    assert (Hc : (count >? 0) = true) by lia. rewrite Hc.
    apply forallb_span1_spec in Hall. rewrite Hall.
    assert (Hl : (remaining <? count) = true) by lia. rewrite Hl. simpl.
    repeat split.
    + rewrite map_map. reflexivity.
    + rewrite map_map. reflexivity.
    + apply Forall_forall. intros c Hc'. apply in_map_iff in Hc'.
      destruct Hc' as [c' [<- _]]. reflexivity.
  - intros Hc Hnot p cell Hp.
    assert (Hc' : (count >? 0) = true) by lia. rewrite Hc'.
    destruct (forallb _ _ && (remaining <? count)) eqn:E.
    + exfalso. apply Hnot. apply andb_true_iff in E. destruct E as [E1 E2].
      split; [now apply forallb_span1_spec | lia].
    + rewrite Z.rem_mod_nonneg by lia.
      rewrite (expandCells_nth _ _ _ _ 0 p cell Hp). reflexivity.
Qed.

(** Three span-1 widgets in a 4-column row (tie-break), then a span-2 and a
    span-1 widget (expansion). *)
Lemma flush_distributes_remaining_witness :
  let c := {| item := IWidget (makeWidget "w_0" "XS"); span := 1;
              distributeEqually := false |} in
  let st := {| rows := []; currentRow := [c; c; c]; used := 3 |} in
  currentRow st <> [] /\ 4 - used st > 0 /\
  exists out,
    flush 4 st = {| rows := [mkRow out]; currentRow := []; used := 0 |}
    /\ map span out = [1; 1; 1]
    /\ Forall (fun c => distributeEqually c = true) out.
Proof.
  intros c st.
  assert (H1 : currentRow st <> []) by discriminate.
  assert (H2 : 4 - used st > 0) by reflexivity.
  split; [exact H1|]. split; [exact H2|].
  destruct (flush_distributes_remaining 4 st H1 H2) as [out [Hf [_ [Htie _]]]].
  exists out. split; [exact Hf|].
  destruct Htie as [Hs [_ Hd]].
  - repeat constructor.
  - reflexivity.
  - split; [exact Hs | exact Hd].
Defined.

(** ** Row packer: row saturation *)

Lemma sumSpans_app (a b : list Cell) : sumSpans (a ++ b) = sumSpans a + sumSpans b.
Proof. induction a as [|c a IH]; simpl; [reflexivity|]. rewrite IH. lia. Qed.

Lemma sumSpans_nonneg (row : list Cell) :
  Forall widgetCell row -> 0 <= sumSpans row.
Proof.
  induction 1 as [|c row [_ Hc] _ IH]; simpl; lia.
Qed.

Lemma filter_all_expandable (row : list Cell) :
  Forall widgetCell row -> filter expandable row = row.
Proof.
  induction 1 as [|c row [Hc _] _ IH]; simpl; [reflexivity|].
  rewrite Hc. now f_equal.
Qed.

Lemma expandCells_sum C q r row :
  forall idx,
    Forall widgetCell row ->
    0 <= q -> 0 <= idx ->
    sumSpans row + q * Z.of_nat (length row) + bonusCount r idx (Z.of_nat (length row)) <= C ->
    sumSpans (expandCells C q r idx row)
    = sumSpans row + q * Z.of_nat (length row) + bonusCount r idx (Z.of_nat (length row)).
Proof.
  induction row as [|c row IH]; intros idx Hall Hq Hidx Hle.
  - simpl. unfold bonusCount. lia.
  - inversion Hall as [|? ? [Hexp Hspan] Hall']; subst.
    pose proof (sumSpans_nonneg row Hall') as Hnn.
    simpl expandCells. rewrite Hexp. simpl sumSpans in *.
    rewrite length_cons, Nat2Z.inj_succ in *.
    assert (Hb : bonusCount r idx (Z.succ (Z.of_nat (length row)))
                 = (if idx <? r then 1 else 0) + bonusCount r (idx + 1) (Z.of_nat (length row))).
    { unfold bonusCount. destruct (idx <? r) eqn:E; lia. }
    assert (Hb0 : 0 <= bonusCount r (idx + 1) (Z.of_nat (length row))).
    { unfold bonusCount. lia. }
    rewrite Hb in *.
    rewrite IH; try assumption; try lia.
    destruct (idx <? r); nia.
Qed.

(** What a flush of a row of plain widget cells leaves: either the dividing
    flag on every cell, or spans that add up to the column count. *)
Lemma flushCells_saturates C used row :
  0 < C -> row <> [] ->
  Forall widgetCell row ->
  used = sumSpans row -> used <= C ->
  (Forall (fun c => distributeEqually c = true) (flushCells C used row))
  \/ sumSpans (flushCells C used row) = C.
Proof.
  intros HC Hne Hall Hused Hle.
  unfold flushCells. rewrite (filter_all_expandable row Hall).
  destruct (C - used >? 0) eqn:Erem; [|right; lia].
  assert (Hlen : 0 < Z.of_nat (length row)).
  { destruct row; [contradiction|]. rewrite length_cons. lia. }
  assert (Hcnt : (Z.of_nat (length row) >? 0) = true) by lia. rewrite Hcnt.
  destruct (forallb _ _ && _) eqn:Etie.
  - left. apply Forall_forall. intros c Hc. apply in_map_iff in Hc.
    destruct Hc as [c' [<- _]]. reflexivity.
  - right.
    set (n := Z.of_nat (length row)) in *.
    set (rem := C - used) in *.
    assert (Hrem : 0 < rem) by lia.
    rewrite Z.rem_mod_nonneg by lia.
    pose proof (Z.div_mod rem n ltac:(lia)) as Hdm.
    pose proof (Z.mod_pos_bound rem n Hlen) as Hmb.
    assert (Hq : 0 <= rem / n) by (apply Z.div_pos; lia).
    assert (Hb : bonusCount (rem mod n) 0 n = rem mod n) by (unfold bonusCount; lia).
    rewrite expandCells_sum; try assumption; try lia; fold n; rewrite Hb; nia.
Qed.

Lemma flush_inv C st : 0 < C -> PackInv C st -> PackInv C (flush C st).
Proof.
  intros HC [Hr Hc Hu Hb]. unfold flush.
  destruct (currentRow st) as [|c0 row0] eqn:Erow.
  - constructor; try assumption; now rewrite Erow.
  - constructor; simpl; try lia; try constructor.
    apply Forall_app. split; [assumption|]. constructor; [|constructor].
    destruct (flushCells_saturates C (used st) (c0 :: row0)) as [Hd|Hs];
      try assumption; try discriminate.
    + left. unfold cells.
      destruct (flushCells C (used st) (c0 :: row0)) as [|d out] eqn:Ef.
      * exfalso. unfold flushCells in Ef.
        repeat match type of Ef with
               | (if ?b then _ else _) = _ => destruct b
               end; try discriminate.
        apply (f_equal (@length Cell)) in Ef.
        rewrite expandCells_length in Ef. discriminate.
      * exists d. split; [now left|]. now inversion Hd.
    + right. exact Hs.
Qed.

Lemma flush_empties C st : PackInv C st -> currentRow (flush C st) = [] /\ used (flush C st) = 0.
Proof.
  intros [_ _ Hu _]. unfold flush.
  destruct (currentRow st) eqn:E; simpl; [|auto].
  split; [exact E | exact Hu].
Qed.

Lemma packStep_inv C st it :
  0 < C ->
  (forall w, it = IWidget w -> 0 <= minColSpan w) ->
  PackInv C st -> PackInv C (packStep C st it).
Proof.
  intros HC Hw Hinv. unfold packStep.
  destruct (itemSpan it C >=? C) eqn:Efull.
  - pose proof (flush_inv C st HC Hinv) as [Hr Hc Hu Hb].
    constructor; simpl; try assumption.
    apply Forall_app. split; [assumption|]. constructor; [|constructor].
    right. simpl. lia.
  - assert (Hit : exists w, it = IWidget w).
    { destruct it as [w|rb]; [eauto|]. simpl in Efull. lia. }
    destruct Hit as [w ->]. specialize (Hw w eq_refl).
    simpl in *. unfold effectiveSpan in *.
    assert (Hinv1 : PackInv C (if used st + Z.min (minColSpan w) C >? C then flush C st else st)
                    /\ used (if used st + Z.min (minColSpan w) C >? C then flush C st else st)
                       + Z.min (minColSpan w) C <= C).
    { destruct (used st + Z.min (minColSpan w) C >? C) eqn:Eover.
      - split; [now apply flush_inv|].
        destruct (flush_empties C st Hinv) as [_ ->]. lia.
      - split; [assumption|lia]. }
    destruct Hinv1 as [[Hr Hc Hu Hb] Hfit].
    constructor; simpl; try assumption.
    + apply Forall_app. split; [assumption|]. constructor; [|constructor].
      split; [reflexivity|simpl; lia].
    + rewrite sumSpans_app. simpl. lia.
Qed.

Lemma packLoop_inv C items :
  0 < C ->
  (forall w, In (IWidget w) items -> 0 <= minColSpan w) ->
  forall st, PackInv C st -> PackInv C (packLoop C items st).
Proof.
  intros HC. unfold packLoop.
  induction items as [|it items IH]; intros Hw st Hinv; simpl; [assumption|].
  apply IH.
  - intros w Hin. apply Hw. now right.
  - apply packStep_inv; try assumption.
    intros w ->. apply Hw. now left.
Qed.

(** C5.  For every item sequence whose widgets have a non-negative
    [minColSpan] and every [colCount >= 1], a row of [packRows] without a
    cell marked [distributeEqually] has spans summing to [colCount], or is
    a single full-span item alone in its row. *)
Theorem packRows_row_saturation (items : list Item) (colCount : Z) :
  1 <= colCount ->
  (forall w, In (IWidget w) items -> 0 <= minColSpan w) ->
  forall row,
    In row (packRows items colCount) ->
    (forall c, In c (cells row) -> distributeEqually c = false) ->
    sumSpans (cells row) = colCount
    \/ (exists c, cells row = [c]
                  /\ (isRowBlock (item c) = true
                      \/ colCount <= itemSpan (item c) colCount)).
Proof.
  intros HC Hw row Hin Hflag.
  assert (Hinv : PackInv colCount (flush colCount (packLoop colCount items (mkPack [] [] 0)))).
  { apply flush_inv; [lia|]. apply packLoop_inv; [lia|assumption|].
    constructor; simpl; try constructor; lia. }
  destruct Hinv as [Hr _ _ _].
  rewrite Forall_forall in Hr. specialize (Hr row Hin).
  destruct Hr as [[c [Hc Hd]]|Hs].
  - rewrite (Hflag c Hc) in Hd. discriminate.
  - left. exact Hs.
Qed.

Lemma packRows_row_saturation_witness :
  let items := [IWidget (makeWidget "w_0" "M"); IWidget (makeWidget "w_1" "L")] in
  let row := mkRow [mkCell (IWidget (makeWidget "w_0" "M")) 4 false] in
  In row (packRows items 4) /\ sumSpans (cells row) = 4.
Proof.
  intros items row.
  assert (Hin : In row (packRows items 4)) by (left; reflexivity).
  split; [exact Hin|].
  destruct (packRows_row_saturation items 4) with (row := row) as [H|[c [Hc _]]].
  - lia.
  - intros w [H|[H|[]]]; inversion H; subst; simpl; lia.
  - exact Hin.
  - intros c [<-|[]]. reflexivity.
  - exact H.
  - reflexivity.
Defined.

(** ** RowBlock composer: the capture loops *)

Lemma canTake_span colCount railTarget st w :
  canTake colCount railTarget st w = true -> effectiveSpan w colCount = 1.
Proof.
  unfold canTake. destruct (railCount st >=? _); [discriminate|].
  destruct (effectiveSpan w colCount =? 1) eqn:E; [lia|discriminate].
Qed.

(** The forward loop appends a greedy run to [capturedNext]. *)
Lemma captureForward_run colCount railTarget nexts :
  forall capturedNext st,
  exists taken,
    captureForward colCount railTarget nexts capturedNext st
    = (capturedNext ++ taken, fold_left takeWidget taken st)
    /\ greedyRun colCount railTarget st nexts taken.
Proof.
  induction nexts as [|it nexts IH]; intros cn st.
  - exists []. simpl. rewrite app_nil_r. split; [reflexivity|constructor].
  - destruct it as [w|rb].
    + simpl. destruct (effectiveSpan w colCount =? 1) eqn:Espan; simpl.
      * destruct (canTake colCount railTarget st w) eqn:Etake; simpl.
        -- destruct (IH (cn ++ [w]) (takeWidget st w)) as [taken [Heq Hrun]].
           exists (w :: taken). rewrite Heq, <- app_assoc. simpl.
           split; [reflexivity|now constructor].
        -- exists []. rewrite app_nil_r. split; [reflexivity|now constructor].
      * exists []. rewrite app_nil_r. split; [reflexivity|].
        constructor. unfold canTake. rewrite Espan.
        destruct (railCount st >=? _); reflexivity.
    + exists []. simpl. rewrite app_nil_r. split; [reflexivity|constructor].
Qed.

(** The backward loop is the same run, with [k] stepping down by one for
    each capture. *)
Lemma captureBackward_run colCount railTarget prevs :
  forall k capturedPrev st,
  exists taken,
    captureBackward colCount railTarget prevs k capturedPrev st
    = (k - Z.of_nat (length taken), capturedPrev ++ taken, fold_left takeWidget taken st)
    /\ greedyRun colCount railTarget st prevs taken.
Proof.
  induction prevs as [|it prevs IH]; intros k cp st.
  - exists []. simpl. rewrite app_nil_r, Z.sub_0_r. split; [reflexivity|constructor].
  - destruct it as [w|rb].
    + simpl captureBackward. destruct (effectiveSpan w colCount =? 1) eqn:Espan; simpl negb; cbv iota.
      * destruct (canTake colCount railTarget st w) eqn:Etake; simpl negb; cbv iota.
        -- destruct (IH (k - 1) (cp ++ [w]) (takeWidget st w)) as [taken [Heq Hrun]].
           exists (w :: taken). rewrite Heq, <- app_assoc. simpl fold_left.
           split; [|now constructor].
           f_equal. f_equal. rewrite length_cons. lia.
        -- exists []. rewrite app_nil_r. simpl. rewrite Z.sub_0_r.
           split; [reflexivity|now constructor].
      * exists []. rewrite app_nil_r. simpl. rewrite Z.sub_0_r.
        split; [reflexivity|].
        constructor. unfold canTake. rewrite Espan.
        destruct (railCount st >=? _); reflexivity.
    + exists []. simpl. rewrite app_nil_r, Z.sub_0_r. split; [reflexivity|constructor].
Qed.

(** A run only takes a prefix of what it reads. *)
Lemma greedyRun_prefix colCount railTarget st xs taken :
  greedyRun colCount railTarget st xs taken ->
  firstn (length taken) xs = map IWidget taken
  /\ (length taken <= length xs)%nat.
Proof.
  induction 1; simpl; try (split; [reflexivity|lia]).
  destruct IHgreedyRun as [IH1 IH2]. rewrite IH1. split; [reflexivity|lia].
Qed.

Lemma greedyRun_spans colCount railTarget st xs taken :
  greedyRun colCount railTarget st xs taken ->
  Forall (fun w => effectiveSpan w colCount = 1) taken.
Proof.
  induction 1; constructor; eauto using canTake_span.
Qed.

Lemma greedyRun_det colCount railTarget st xs t1 t2 :
  greedyRun colCount railTarget st xs t1 ->
  greedyRun colCount railTarget st xs t2 -> t1 = t2.
Proof.
  intros H1. revert t2. induction H1; intros t2 H2; inversion H2; subst;
    try reflexivity; try congruence.
  f_equal. now apply IHgreedyRun.
Qed.

(** ** RowBlock composer: one seed *)

Lemma splice_remove_then_replace {A : Type} (l : list A) (a n : nat) (x : A) :
  (a + n < length l)%nat ->
  splice (splice l a n []) a 1 [x] = firstn a l ++ x :: skipn (S (a + n)) l.
Proof.
  intros Hlt. unfold splice. rewrite !app_nil_l.
  change ([x] ++ ?t) with (x :: t).
  assert (Hlen : length (firstn a l) = a) by (rewrite length_firstn; lia).
  rewrite firstn_app, firstn_firstn, Nat.min_id, Hlen, Nat.sub_diag, firstn_O, app_nil_r.
  f_equal. f_equal.
  rewrite skipn_app, Hlen.
  rewrite (skipn_all2 (firstn a l)) by lia.
  replace (a + 1 - a)%nat with 1%nat by lia. rewrite app_nil_l.
  rewrite skipn_skipn. reflexivity.
Qed.

Lemma splice_after_then_replace {A : Type} (l : list A) (i m : nat) (x : A) :
  (i < length l)%nat ->
  splice (splice l (i + 1) m []) i 1 [x] = firstn i l ++ x :: skipn (S i + m) l.
Proof.
  intros Hlt. unfold splice. rewrite !app_nil_l.
  change ([x] ++ ?t) with (x :: t).
  assert (Hlen : length (firstn (i + 1) l) = (i + 1)%nat) by (rewrite length_firstn; lia).
  rewrite firstn_app, firstn_firstn, Hlen.
  replace (Nat.min i (i + 1)) with i by lia.
  replace (i - (i + 1))%nat with 0%nat by lia. rewrite firstn_O, app_nil_r.
  f_equal. f_equal.
  rewrite skipn_app, Hlen.
  rewrite (skipn_all2 (firstn (i + 1) l)) by lia.
  replace (i + 1 - (i + 1))%nat with 0%nat by lia. rewrite app_nil_l, skipn_O.
  f_equal. lia.
Qed.

(** What the loop body does at a seed, in terms of slices of the array it
    started from. *)
Lemma composeAt_spec (items : list Item) (i : nat) (w : Widget) (colCount : Z) :
  (i < length items)%nat ->
  let railTarget := (minHeightRem w + layoutConfig.toleranceRem)%Q in
  let block rail := IRowBlock (mkRowBlock w rail ("rb-" ++ id w)%string) in
  exists capturedPrev,
    greedyRun colCount railTarget initialRail (rev (firstn i items)) capturedPrev
    /\ (capturedPrev <> [] ->
        composeAt items i w colCount
        = (firstn (i - length capturedPrev) items
             ++ block (rev capturedPrev) :: skipn (S i) items,
           S (i - length capturedPrev)))
    /\ (capturedPrev = [] ->
        exists capturedNext,
          greedyRun colCount railTarget initialRail (skipn (S i) items) capturedNext
          /\ (capturedNext <> [] ->
              composeAt items i w colCount
              = (firstn i items
                   ++ block capturedNext :: skipn (S i + length capturedNext) items,
                 S i))
          /\ (capturedNext = [] -> composeAt items i w colCount = (items, S i))).
Proof.
  intros Hi railTarget block.
  destruct (captureBackward_run colCount railTarget (rev (firstn i items))
              (Z.of_nat i - 1) [] initialRail) as [cp [Hback Hrun]].
  simpl app in Hback.
  exists cp. split; [exact Hrun|].
  pose proof (greedyRun_prefix _ _ _ _ _ Hrun) as [_ Hlen].
  rewrite length_rev, length_firstn in Hlen.
  unfold composeAt, seedCaptures. fold railTarget. rewrite Hback.
  split.
  - intros Hne.
    destruct cp as [|p cp']; [contradiction|].
    set (cp := p :: cp') in *.
    assert (Hn : (1 <= length cp)%nat) by (simpl; lia).
    replace (length cp =? 0)%nat with false by (symmetry; apply Nat.eqb_neq; lia).
    cbv zeta. rewrite app_nil_r.
    replace (0 <? length (rail {| main := w; rail := rev cp; rb_id := ("rb-" ++ id w)%string |}))%nat
      with true by (symmetry; apply Nat.ltb_lt; cbn [rail]; rewrite length_rev; lia).
    replace (0 <? length cp)%nat with true by (symmetry; apply Nat.ltb_lt; lia).
    replace (Z.of_nat i - (Z.of_nat i - 1 - Z.of_nat (length cp) + 1))
      with (Z.of_nat (length cp)) by lia.
    replace (Z.of_nat (length cp) >? 0) with true by lia.
    replace (Z.of_nat i - 1 - Z.of_nat (length cp) + 1)
      with (Z.of_nat (i - length cp)) by lia.
    rewrite !Nat2Z.id.
    rewrite splice_remove_then_replace by lia.
    replace (i - length cp + length cp)%nat with i by lia.
    reflexivity.
  - intros ->. change (length (@nil Widget)) with 0%nat.
    change (0 =? 0)%nat with true. cbv iota. change (rev (@nil Widget)) with (@nil Widget).
    simpl fold_left.
    destruct (captureForward_run colCount railTarget (skipn (i + 1) items) [] initialRail)
      as [cn [Hfwd Hrunf]].
    simpl app in Hfwd. rewrite Hfwd. simpl fst.
    replace (i + 1)%nat with (S i) in Hrunf by lia.
    exists cn. split; [exact Hrunf|].
    split.
    + intros Hne.
      assert (Hm : (1 <= length cn)%nat) by (destruct cn; [contradiction|simpl; lia]).
      match goal with |- _ = ?r => set (rhs := r) end.
      replace (0 <? length cn)%nat with true by (symmetry; apply Nat.ltb_lt; lia).
      rewrite app_nil_l.
      replace (0 <? length (rail {| main := w; rail := cn; rb_id := ("rb-" ++ id w)%string |}))%nat
        with true by (symmetry; apply Nat.ltb_lt; cbn [rail]; lia).
      change (0 <? 0)%nat with false. cbv iota beta.
      rewrite splice_after_then_replace by lia. reflexivity.
    + intros ->. reflexivity.
Qed.

(** ** RowBlock composer: rail bounds *)

Lemma railCount_fold (taken : list Widget) :
  forall st, railCount (fold_left takeWidget taken st)
             = railCount st + Z.of_nat (length taken).
Proof.
  induction taken as [|w taken IH]; intros st; simpl fold_left.
  - simpl. lia.
  - rewrite IH. simpl railCount. rewrite length_cons. lia.
Qed.

Lemma inject_Z_succ (n : nat) :
  (inject_Z (Z.of_nat (S n)) == inject_Z (Z.of_nat n) + 1)%Q.
Proof. rewrite Nat2Z.inj_succ. unfold Z.succ. rewrite inject_Z_plus. reflexivity. Qed.

(** Counters after a greedy run: never more than [maxRailItems] members,
    the height is the members' heights plus one gap between consecutive
    members, and it is within the target as soon as one member was taken. *)
Lemma greedyRun_rail colCount railTarget st xs taken :
  greedyRun colCount railTarget st xs taken ->
  0 <= railCount st ->
  railCount st + Z.of_nat (length taken) <= Z.max (railCount st) layoutConfig.maxRailItems
  /\ (railHeight (fold_left takeWidget taken st)
      == railHeight st + sumHeights taken
         + layoutConfig.vGapRem
           * inject_Z (Z.of_nat (if railCount st >? 0 then length taken
                                 else pred (length taken))))%Q
  /\ (taken <> [] -> (railHeight (fold_left takeWidget taken st) <= railTarget)%Q).
Proof.
  induction 1 as [st|st rb rest|st w rest Href|st w rest taken Htake Hrun IH];
    intros Hcount.
  1-3: (split; [simpl; lia|]; split; [|congruence]);
       simpl; destruct (railCount st >? 0); simpl; unfold inject_Z; ring.
  assert (Hc' : 0 <= railCount (takeWidget st w)) by (simpl; lia).
  destruct (IH Hc') as [IHn [IHh IHb]].
  unfold canTake in Htake.
  destruct (railCount st >=? layoutConfig.maxRailItems) eqn:Emax; [discriminate|].
  destruct (negb _); [discriminate|].
  apply Qle_bool_iff in Htake.
  simpl railCount in IHn, IHh.
  replace (railCount st + 1 >? 0) with true in IHh by lia.
  split; [|split].
  - rewrite length_cons. lia.
  - simpl fold_left. rewrite IHh. simpl railHeight. simpl sumHeights.
    destruct (railCount st >? 0) eqn:Epos.
    + rewrite length_cons, inject_Z_succ. unfold addGap. rewrite Epos. ring.
    + rewrite length_cons. simpl pred. unfold addGap. rewrite Epos. ring.
  - intros _. simpl fold_left.
    destruct taken as [|w' taken'].
    + simpl. exact Htake.
    + apply IHb. discriminate.
Qed.

Lemma sumHeights_app (a b : list Widget) :
  (sumHeights (a ++ b) == sumHeights a + sumHeights b)%Q.
Proof.
  induction a as [|w a IH]; simpl; [ring|]. rewrite IH. ring.
Qed.

Lemma sumHeights_rev (ws : list Widget) : (sumHeights (rev ws) == sumHeights ws)%Q.
Proof.
  induction ws as [|w ws IH]; simpl; [reflexivity|].
  rewrite sumHeights_app, IH. simpl. ring.
Qed.

Lemma cumulativeRailHeight_rev (ws : list Widget) :
  (cumulativeRailHeight (rev ws) == cumulativeRailHeight ws)%Q.
Proof.
  unfold cumulativeRailHeight. rewrite sumHeights_rev, length_rev. reflexivity.
Qed.

(** A run from the empty rail. *)
Lemma greedyRun_initial colCount railTarget xs taken :
  greedyRun colCount railTarget initialRail xs taken ->
  (length taken <= 4)%nat
  /\ Forall (fun w => effectiveSpan w colCount = 1) taken
  /\ (taken <> [] -> (cumulativeRailHeight taken <= railTarget)%Q).
Proof.
  intros Hrun.
  destruct (greedyRun_rail _ _ _ _ _ Hrun) as [Hn [Hh Hb]]; [simpl; lia|].
  simpl railCount in Hn, Hh. simpl railHeight in Hh. simpl in Hh.
  unfold layoutConfig.maxRailItems in Hn.
  split; [lia|]. split; [eapply greedyRun_spans; eassumption|].
  intros Hne. specialize (Hb Hne). unfold cumulativeRailHeight.
  rewrite Hh in Hb. rewrite Qplus_0_l in Hb. exact Hb.
Qed.

(** ** RowBlock composer: the outer loop *)

Lemma composeAt_measure (items : list Item) (i : nat) (w : Widget) (colCount : Z) :
  (i < length items)%nat ->
  (length (fst (composeAt items i w colCount)) - snd (composeAt items i w colCount)
   < length items - i)%nat.
Proof.
  intros Hi.
  destruct (composeAt_spec items i w colCount Hi) as [cp [Hrun [Hback Hfwd]]].
  pose proof (greedyRun_prefix _ _ _ _ _ Hrun) as [_ Hlen].
  rewrite length_rev, length_firstn in Hlen.
  destruct cp as [|p cp'].
  - destruct (Hfwd eq_refl) as [cn [Hrunf [Hsome Hnone]]].
    pose proof (greedyRun_prefix _ _ _ _ _ Hrunf) as [_ Hlenf].
    rewrite length_skipn in Hlenf.
    destruct cn as [|n cn'].
    + rewrite (Hnone eq_refl). simpl. lia.
    + rewrite Hsome by discriminate. cbn [fst snd].
      rewrite length_app, length_firstn. cbn [length] in *.
      rewrite length_skipn. lia.
  - rewrite Hback by discriminate. cbn [fst snd].
    rewrite length_app, length_firstn. cbn [length] in *.
    rewrite length_skipn. lia.
Qed.

(** The loop condition fails before [S (length items - i)] iterations. *)
Lemma composeLoop_terminates (colCount : Z) (fuel : nat) :
  forall items i,
    (length items - i < fuel)%nat ->
    exists out, composeLoop fuel items i colCount = Some out.
Proof.
  induction fuel as [|fuel IH]; intros items i Hfuel; [lia|].
  simpl. destruct (nth_error items i) as [it|] eqn:Eit; [|eauto].
  assert (Hi : (i < length items)%nat) by (apply nth_error_Some; congruence).
  destruct it as [w|rb].
  - destruct (negb (effectiveSpan w colCount =? 3)).
    + apply IH. lia.
    + pose proof (composeAt_measure items i w colCount Hi) as Hm.
      destruct (composeAt items i w colCount) as [items' i'].
      apply IH. simpl in Hm. lia.
  - apply IH. lia.
Qed.

(** At four columns [transformRowBlocks] is the result of the loop run to
    its end. *)
Lemma transformRowBlocks_loop_result (widgetsInOrder : list Item) :
  composeLoop (S (length widgetsInOrder)) widgetsInOrder 0 4
  = Some (transformRowBlocks widgetsInOrder 4).
Proof.
  unfold transformRowBlocks. change (negb (4 =? 4)) with false. cbv iota.
  destruct (composeLoop_terminates 4 (S (length widgetsInOrder)) widgetsInOrder 0)
    as [out Hout]; [lia|].
  now rewrite Hout.
Qed.

Lemma composeLoop_invariant (P : list Item -> Prop) (colCount : Z) :
  (forall items i w,
      P items -> nth_error items i = Some (IWidget w) ->
      effectiveSpan w colCount = 3 ->
      P (fst (composeAt items i w colCount))) ->
  forall fuel items i out,
    P items -> composeLoop fuel items i colCount = Some out -> P out.
Proof.
  intros Hstep. induction fuel as [|fuel IH]; intros items i out HP Hrun;
    [discriminate|].
  simpl in Hrun. destruct (nth_error items i) as [it|] eqn:Eit.
  - destruct it as [w|rb]; [|eauto].
    destruct (effectiveSpan w colCount =? 3) eqn:Espan; simpl in Hrun; [|eauto].
    specialize (Hstep items i w HP Eit ltac:(lia)).
    destruct (composeAt items i w colCount) as [items' i']. eauto.
  - now injection Hrun as <-.
Qed.

(** Every element of the array after a seed is handled was there before,
    or is the new RowBlock, whose rail is within bounds. *)
Lemma composeAt_members (items : list Item) (i : nat) (w : Widget) (colCount : Z) :
  (i < length items)%nat ->
  forall x, In x (fst (composeAt items i w colCount)) ->
    In x items
    \/ exists rb, x = IRowBlock rb /\ main rb = w /\ rail rb <> []
                  /\ railWithinBounds colCount rb.
Proof.
  intros Hi x Hx.
  destruct (composeAt_spec items i w colCount Hi) as [cp [Hrun [Hback Hfwd]]].
  assert (Hslices : forall a b rb,
             In x (firstn a items ++ IRowBlock rb :: skipn b items) ->
             In x items \/ x = IRowBlock rb).
  { intros a b rb Hin. apply in_app_or in Hin.
    destruct Hin as [Hin|[Hin|Hin]]; [left|now right|left].
    - rewrite <- (firstn_skipn a items). apply in_or_app. now left.
    - rewrite <- (firstn_skipn b items). apply in_or_app. now right. }
  destruct cp as [|p cp'].
  - destruct (Hfwd eq_refl) as [cn [Hrunf [Hsome Hnone]]].
    destruct cn as [|n cn'].
    + rewrite (Hnone eq_refl) in Hx. now left.
    + rewrite Hsome in Hx by discriminate. cbn [fst] in Hx.
      apply Hslices in Hx. destruct Hx as [Hx|Hx]; [now left|right].
      destruct (greedyRun_initial _ _ _ _ Hrunf) as [Hn [Hs Hh]].
      eexists. split; [exact Hx|]. split; [reflexivity|].
      split; [discriminate|].
      split; [exact Hn|]. split; [exact Hs|]. apply Hh. discriminate.
  - rewrite Hback in Hx by discriminate. cbn [fst] in Hx.
    apply Hslices in Hx. destruct Hx as [Hx|Hx]; [now left|right].
    destruct (greedyRun_initial _ _ _ _ Hrun) as [Hn [Hs Hh]].
    eexists. split; [exact Hx|]. split; [reflexivity|].
    split; [cbn [rail]; intros Hr; apply (f_equal (@length Widget)) in Hr;
            rewrite length_rev in Hr; discriminate|].
    split; [|split]; cbn [rail main].
    + now rewrite length_rev.
    + apply Forall_rev. exact Hs.
    + rewrite cumulativeRailHeight_rev. apply Hh. discriminate.
Qed.

(** C6.  When [colCount] is not 4, [transformRowBlocks] returns its input
    unchanged.  Every RowBlock of the output that was not already in the
    input was composed at [colCount = 4], holds between one and four rail
    members, each of effective span 1, and its cumulative rail height (the
    members' [minHeightRem] plus 0.75 between consecutive members) does not
    exceed [main.minHeightRem + 2]. *)
Theorem transformRowBlocks_containment (items : list Item) (colCount : Z) :
  (colCount <> 4 -> transformRowBlocks items colCount = items)
  /\ (forall rb,
        In (IRowBlock rb) (transformRowBlocks items colCount) ->
        ~ In (IRowBlock rb) items ->
        colCount = 4
        /\ (1 <= length (rail rb) <= 4)%nat
        /\ Forall (fun w => effectiveSpan w 4 = 1) (rail rb)
        /\ (cumulativeRailHeight (rail rb) <= minHeightRem (main rb) + 2)%Q).
Proof.
  unfold transformRowBlocks. split.
  - intros Hne. replace (colCount =? 4) with false by lia. reflexivity.
  - intros rb Hin Hnew.
    destruct (colCount =? 4) eqn:E4; cbn [negb] in Hin; [|contradiction].
    assert (colCount = 4) by lia. subst colCount.
    destruct (composeLoop (S (length items)) items 0 4) as [out|] eqn:Eloop;
      [|exfalso; apply Hnew; exact Hin].
    assert (Hinv : forall rb', In (IRowBlock rb') out ->
                     In (IRowBlock rb') items
                     \/ (rail rb' <> [] /\ railWithinBounds 4 rb')).
    { apply (composeLoop_invariant
               (fun l => forall rb', In (IRowBlock rb') l ->
                           In (IRowBlock rb') items
                           \/ (rail rb' <> [] /\ railWithinBounds 4 rb'))
               4) with (fuel := S (length items)) (items := items) (i := 0%nat);
        [|now left|exact Eloop].
      intros l i w HP Hnth _ rb' Hrb'.
      assert (Hi : (i < length l)%nat) by (apply nth_error_Some; congruence).
      destruct (composeAt_members l i w 4 Hi _ Hrb') as [Hold|[rb0 [Heq [_ [Hne Hb]]]]].
      - now apply HP.
      - injection Heq as ->. right. now split. }
    destruct (Hinv rb Hin) as [Hold|[Hne [Hn [Hs Hh]]]]; [contradiction|].
    split; [reflexivity|]. split; [|split; assumption].
    destruct (rail rb); [contradiction|]. simpl in *. lia.
Qed.

Lemma transformRowBlocks_containment_witness :
  let S_ (n : string) := makeWidget n "S" in
  let items := [IWidget (S_ "w_0"%string); IWidget (S_ "w_1"%string);
                IWidget (S_ "w_2"%string); IWidget (makeWidget "w_3" "L")] in
  let rb := {| main := makeWidget "w_3" "L";
               rail := [S_ "w_1"%string; S_ "w_2"%string];
               rb_id := "rb-w_3" |} in
  In (IRowBlock rb) (transformRowBlocks items 4)
  /\ ~ In (IRowBlock rb) items
  /\ (cumulativeRailHeight (rail rb) <= minHeightRem (main rb) + 2)%Q.
Proof.
  intros S_ items rb.
  assert (Hin : In (IRowBlock rb) (transformRowBlocks items 4))
    by (right; left; reflexivity).
  assert (Hnew : ~ In (IRowBlock rb) items)
    by (intros [H|[H|[H|[H|[]]]]]; discriminate H).
  split; [exact Hin|]. split; [exact Hnew|].
  destruct (transformRowBlocks_containment items 4) as [_ H].
  destruct (H rb Hin Hnew) as [_ [_ [_ Hh]]]. exact Hh.
Defined.

(** C3.  At a seed [w = items[i]] in the 4-column layout the loop body is
    [composeAt].  The backward run is tried first: it reads [items[i-1]],
    [items[i-2]], ... and stops at the array start, at a RowBlock, or at
    the first widget [canTake] refuses.  If it captured [n > 0] widgets,
    the rail is exactly those, in source order [items[i-n .. i-1]] (the one
    next to the seed last), everything after the seed stays in place, and
    the RowBlock lands at index [i - n].  Only if it captured nothing is the
    forward run from [items[i+1]] made, and the rail is what that run
    captured. *)
Theorem composeAt_direction_priority (items : list Item) (i : nat) (w : Widget) :
  nth_error items i = Some (IWidget w) ->
  effectiveSpan w 4 = 3 ->
  let railTarget := (minHeightRem w + layoutConfig.toleranceRem)%Q in
  let block rail := IRowBlock (mkRowBlock w rail ("rb-" ++ id w)%string) in
  (forall fuel,
      composeLoop (S fuel) items i 4
      = composeLoop fuel (fst (composeAt items i w 4)) (snd (composeAt items i w 4)) 4)
  /\ exists capturedPrev,
      greedyRun 4 railTarget initialRail (rev (firstn i items)) capturedPrev
      /\ (capturedPrev <> [] ->
          map IWidget (rev capturedPrev)
          = skipn (i - length capturedPrev) (firstn i items)
          /\ composeAt items i w 4
             = (firstn (i - length capturedPrev) items
                  ++ block (rev capturedPrev) :: skipn (S i) items,
                S (i - length capturedPrev)))
      /\ (capturedPrev = [] ->
          exists capturedNext,
            greedyRun 4 railTarget initialRail (skipn (S i) items) capturedNext
            /\ map IWidget capturedNext
               = firstn (length capturedNext) (skipn (S i) items)
            /\ (capturedNext <> [] ->
                composeAt items i w 4
                = (firstn i items
                     ++ block capturedNext
                     :: skipn (S i + length capturedNext) items,
                   S i))
            /\ (capturedNext = [] -> composeAt items i w 4 = (items, S i))).
Proof.
  intros Hnth Hspan railTarget block.
  assert (Hi : (i < length items)%nat) by (apply nth_error_Some; congruence).
  split.
  - intros fuel. simpl composeLoop. rewrite Hnth, Hspan. simpl.
    destruct (composeAt items i w 4). reflexivity.
  - destruct (composeAt_spec items i w 4 Hi) as [cp [Hrun [Hback Hfwd]]].
    exists cp. split; [exact Hrun|]. split.
    + intros Hne. split; [|now apply Hback].
      destruct (greedyRun_prefix _ _ _ _ _ Hrun) as [Hpre _].
      rewrite map_rev, <- Hpre, firstn_rev, rev_involutive.
      rewrite length_firstn. f_equal. lia.
    + intros Hnil. destruct (Hfwd Hnil) as [cn [Hrunf [Hsome Hnone]]].
      exists cn. split; [exact Hrunf|]. split; [|split; assumption].
      destruct (greedyRun_prefix _ _ _ _ _ Hrunf) as [Hpre _]. now rewrite Hpre.
Qed.

Lemma composeAt_direction_priority_witness :
  let S_ (n : string) := makeWidget n "S" in
  let L_ := makeWidget "w_2" "L" in
  let items := [IWidget (S_ "w_0"%string); IWidget (S_ "w_1"%string); IWidget L_;
                IWidget (S_ "w_3"%string)] in
  nth_error items 2 = Some (IWidget L_)
  /\ effectiveSpan L_ 4 = 3
  /\ composeAt items 2 L_ 4
     = ([IRowBlock (mkRowBlock L_ [S_ "w_0"%string; S_ "w_1"%string] "rb-w_2");
         IWidget (S_ "w_3"%string)], 1%nat).
Proof.
  intros S_ L_ items.
  assert (H1 : nth_error items 2 = Some (IWidget L_)) by reflexivity.
  assert (H2 : effectiveSpan L_ 4 = 3) by reflexivity.
  split; [exact H1|]. split; [exact H2|].
  destruct (composeAt_direction_priority items 2 L_ H1 H2)
    as [_ [cp [Hrun [Hback _]]]].
  assert (Hcp : cp = [S_ "w_1"%string; S_ "w_0"%string]).
  { eapply greedyRun_det; [exact Hrun|].
    repeat (first [ apply run_take; [reflexivity|] | apply run_end ]). }
  subst cp. destruct Hback as [_ Hback]; [discriminate|]. exact Hback.
Defined.

(** ** Scenario 1: three S widgets and one L widget at four columns *)

(** C2 (as amended).  Whatever the position of the L widget among the
    three S widgets, the composer produces exactly one RowBlock, with the L
    widget as main; its rail holds two S widgets (16 + 0.75 + 16 = 32.75 is
    within 32 + 2, a third S would reach 49.5), or only the preceding S when
    L comes second.  At least one S stays outside the RowBlock, so
    [packRows] emits two rows, each of full width: the RowBlock alone, and
    the remaining S widgets expanded to four columns in total. *)
Theorem scenario1_rowblock_and_two_rows (a b c d : string) :
  let S_ (n : string) := makeWidget n "S" in
  let L_ := makeWidget d "L" in
  let block rail := IRowBlock (mkRowBlock L_ rail ("rb-" ++ d)%string) in
  let layout ws := rowSpans (packRows (transformRowBlocks ws 4) 4) in
  (transformRowBlocks [IWidget (S_ a); IWidget (S_ b); IWidget (S_ c); IWidget L_] 4
   = [IWidget (S_ a); block [S_ b; S_ c]]
   /\ layout [IWidget (S_ a); IWidget (S_ b); IWidget (S_ c); IWidget L_]
      = [[4]; [4]])
  /\ (transformRowBlocks [IWidget (S_ a); IWidget (S_ b); IWidget L_; IWidget (S_ c)] 4
      = [block [S_ a; S_ b]; IWidget (S_ c)]
      /\ layout [IWidget (S_ a); IWidget (S_ b); IWidget L_; IWidget (S_ c)]
         = [[4]; [4]])
  /\ (transformRowBlocks [IWidget (S_ a); IWidget L_; IWidget (S_ b); IWidget (S_ c)] 4
      = [block [S_ a]; IWidget (S_ b); IWidget (S_ c)]
      /\ layout [IWidget (S_ a); IWidget L_; IWidget (S_ b); IWidget (S_ c)]
         = [[4]; [2; 2]])
  /\ (transformRowBlocks [IWidget L_; IWidget (S_ a); IWidget (S_ b); IWidget (S_ c)] 4
      = [block [S_ a; S_ b]; IWidget (S_ c)]
      /\ layout [IWidget L_; IWidget (S_ a); IWidget (S_ b); IWidget (S_ c)]
         = [[4]; [4]])
  /\ (cumulativeRailHeight [S_ a; S_ b] <= minHeightRem L_ + 2)%Q
  /\ (minHeightRem L_ + 2 < cumulativeRailHeight [S_ a; S_ b; S_ c])%Q.
Proof.
  intros S_ L_ block layout.
  repeat split; try reflexivity; try discriminate.
Qed.

(** C2 (as stated) fails on the sequence S, S, S, L: the packer emits two
    rows, not one. *)
Lemma scenario1_not_a_single_row :
  let items := [IWidget (makeWidget "w_0" "S"); IWidget (makeWidget "w_1" "S");
                IWidget (makeWidget "w_2" "S"); IWidget (makeWidget "w_3" "L")] in
  length (packRows (transformRowBlocks items 4) 4) = 2%nat
  /\ ~ (exists row, packRows (transformRowBlocks items 4) 4 = [row]).
Proof.
  intros items. split; [reflexivity|].
  intros [row Hrow]. apply (f_equal (@length Row)) in Hrow. discriminate Hrow.
Qed.

(** ** Fit oracle *)

(** C1.  For a widget section holding at least one widget and any size other
    than FILTER, the oracle answers true exactly when the layout of the
    section with the synthetic widget appended has as many rows as the
    layout of the section as it is; when appending adds a row it answers
    false. *)
Theorem canWidgetFitInSection_row_count (ed : Editor) (widgetSize : string)
    (sid : option string) (secId stitle : string) (widgets : list Widget) :
  widgetSize <> "FILTER"%string ->
  findSection ed sid = Some (WidgetSection secId stitle widgets) ->
  widgets <> [] ->
  let width := offsetWidth ed in
  let rowCountBefore :=
    length (rowsOf (layoutSection (WidgetSection secId stitle widgets) width)) in
  let rowCountAfter :=
    length (rowsOf (layoutSection
                      (WidgetSection secId stitle (widgets ++ [tempWidget widgetSize]))
                      width)) in
  (canWidgetFitInSection ed widgetSize sid = true <-> rowCountAfter = rowCountBefore)
  /\ ((rowCountBefore < rowCountAfter)%nat ->
      canWidgetFitInSection ed widgetSize sid = false).
Proof.
  intros Hsize Hfind Hne width before after.
  unfold canWidgetFitInSection, canWidgetFitInSectionWith.
  apply String.eqb_neq in Hsize. rewrite Hsize, Hfind.
  destruct widgets as [|w0 ws]; [contradiction|].
  change (length (w0 :: ws) =? 0)%nat with false. cbv iota.
  unfold layoutRowCount, bindC, tryCatch.
  change (length (packRows (transformRowBlocks (map IWidget (w0 :: ws))
                              (getColCountFromWidth (offsetWidth ed)))
                    (getColCountFromWidth (offsetWidth ed)))) with before.
  change (length (packRows (transformRowBlocks
                              (map IWidget ((w0 :: ws) ++ [tempWidget widgetSize]))
                              (getColCountFromWidth (offsetWidth ed)))
                    (getColCountFromWidth (offsetWidth ed)))) with after.
  split.
  - apply Nat.eqb_eq.
  - intros Hlt. apply Nat.eqb_neq. lia.
Qed.

(** One M widget at four columns; appending an L widget opens a second row. *)
Lemma canWidgetFitInSection_row_count_witness :
  let ed := {| sections := [WidgetSection "s_0" "New Section" [makeWidget "w_0" "M"]];
               offsetWidth := 1240; isDraggingFromPanel := true;
               draggedWidgetSize := Some "L"%string; draggedWidget := None |} in
  canWidgetFitInSection ed "L" (Some "s_0"%string) = false.
Proof.
  intros ed.
  apply (canWidgetFitInSection_row_count ed "L" (Some "s_0"%string)
           "s_0" "New Section" [makeWidget "w_0" "M"]).
  - discriminate.
  - reflexivity.
  - discriminate.
  - vm_compute. lia.
Defined.

(** C9.  FILTER is refused before any section is looked up.  For any other
    size the oracle answers true when the id finds no section, a
    filter-group section, or a widget section without widgets, and when
    either layout pass of the simulation throws. *)
Theorem canWidgetFitInSection_fail_open
    (simulateRowCount : list Widget -> Z -> completion nat)
    (ed : Editor) (widgetSize : string) (sid : option string) :
  canWidgetFitInSectionWith simulateRowCount ed "FILTER" sid = false
  /\ canWidgetFitInSection ed "FILTER" sid = false
  /\ (widgetSize <> "FILTER"%string ->
      (findSection ed sid = None ->
       canWidgetFitInSectionWith simulateRowCount ed widgetSize sid = true
       /\ canWidgetFitInSection ed widgetSize sid = true)
      /\ (forall secId group,
             findSection ed sid = Some (FilterGroupSection secId group) ->
             canWidgetFitInSectionWith simulateRowCount ed widgetSize sid = true
             /\ canWidgetFitInSection ed widgetSize sid = true)
      /\ (forall secId stitle,
             findSection ed sid = Some (WidgetSection secId stitle []) ->
             canWidgetFitInSectionWith simulateRowCount ed widgetSize sid = true
             /\ canWidgetFitInSection ed widgetSize sid = true)
      /\ (forall secId stitle widgets e,
             findSection ed sid = Some (WidgetSection secId stitle widgets) ->
             let colCount := getColCountFromWidth (offsetWidth ed) in
             simulateRowCount widgets colCount = Throw e
             \/ ((exists n, simulateRowCount widgets colCount = Normal n)
                 /\ simulateRowCount (widgets ++ [tempWidget widgetSize]) colCount
                    = Throw e) ->
             canWidgetFitInSectionWith simulateRowCount ed widgetSize sid = true)).
Proof.
  unfold canWidgetFitInSection, canWidgetFitInSectionWith.
  split; [reflexivity|]. split; [reflexivity|].
  intros Hsize. apply String.eqb_neq in Hsize. rewrite Hsize.
  split; [|split; [|split]].
  - intros ->. split; reflexivity.
  - intros secId group ->. split; reflexivity.
  - intros secId stitle ->. split; reflexivity.
  - intros secId stitle widgets e Hf Hthrow. rewrite Hf.
    destruct (length widgets =? 0)%nat; [reflexivity|].
    destruct Hthrow as [Hb|[[n Hb] Ha]]; rewrite Hb; simpl; [reflexivity|].
    rewrite Ha. reflexivity.
Qed.

(** A simulation that throws on every input. *)
Lemma canWidgetFitInSection_fail_open_witness :
  let ed := {| sections := [WidgetSection "s_0" "New Section" [makeWidget "w_0" "M"]];
               offsetWidth := 1240; isDraggingFromPanel := true;
               draggedWidgetSize := Some "L"%string; draggedWidget := None |} in
  canWidgetFitInSectionWith (fun _ _ => Throw "TypeError") ed "L" (Some "s_0"%string)
  = true.
Proof.
  intros ed.
  destruct (canWidgetFitInSection_fail_open (fun _ _ => Throw "TypeError") ed "L"
              (Some "s_0"%string)) as [_ [_ H]].
  destruct H as [_ [_ [_ H]]]; [discriminate|].
  apply (H "s_0"%string "New Section"%string [makeWidget "w_0" "M"] "TypeError"%string).
  - reflexivity.
  - left. reflexivity.
Defined.

(** ** Drop-zone resolver *)

Lemma find_map_zone {A B : Type} (f : A -> B) (p : B -> bool) (l : list A) :
  find p (map f l) = option_map f (find (fun a => p (f a)) l).
Proof.
  induction l as [|a l IH]; simpl; [reflexivity|].
  destruct (p (f a)); [reflexivity|exact IH].
Qed.

Lemma find_filter {A : Type} (q p : A -> bool) (l : list A) :
  find p (filter q l) = find (fun a => q a && p a) l.
Proof.
  induction l as [|a l IH]; simpl; [reflexivity|].
  destruct (q a); simpl; [|exact IH].
  destruct (p a); [reflexivity|exact IH].
Qed.

(** The two loops split [dropZones] by [zoneIsValid], keeping generation
    order on both sides and flagging the refused zones. *)
Lemma classifyZones_partition (ed : Editor) (size : string) (dropZones : list ZoneLiteral) :
  classifyZones ed size dropZones
  = (map (fun z => mkDropZone z false) (filter (zoneIsValid ed size) dropZones),
     map (fun z => mkDropZone z true)
         (filter (fun z => negb (zoneIsValid ed size z)) dropZones)).
Proof.
  unfold classifyZones.
  assert (Hgen : forall zs v i,
             fold_left (classifyZone ed size) zs (v, i)
             = (v ++ map (fun z => mkDropZone z false) (filter (zoneIsValid ed size) zs),
                i ++ map (fun z => mkDropZone z true)
                         (filter (fun z => negb (zoneIsValid ed size z)) zs))).
  { induction zs as [|z zs IH]; intros v i.
    - simpl. now rewrite !app_nil_r.
    - assert (Hz : classifyZone ed size (v, i) z
                   = if zoneIsValid ed size z
                     then (v ++ [mkDropZone z false], i)
                     else (v, i ++ [mkDropZone z true])).
      { unfold classifyZone, zoneIsValid. destruct (isWithinZone z); [|reflexivity].
        destruct (canWidgetFitInSection ed size (zone_sectionId z)); reflexivity. }
      cbn [fold_left filter]. rewrite Hz.
      destruct (zoneIsValid ed size z); cbn [negb map];
        rewrite IH, <- app_assoc; reflexivity. }
  apply (Hgen dropZones [] []).
Qed.

Lemma find_none_all {A : Type} (p : A -> bool) (l : list A) :
  find p l = None <-> forall a, In a l -> p a = false.
Proof.
  split.
  - intros H a Ha. eapply find_none; eassumption.
  - induction l as [|a l IH]; intros H; simpl; [reflexivity|].
    rewrite (H a (or_introl eq_refl)). apply IH. intros b Hb. apply H. now right.
Qed.

(** The resolver on a drag, for a pointer inside the canvas: the first
    valid zone in generation order that contains the pointer, else the first
    refused one, else nothing. *)
Lemma getDropTarget_first_match (ed : Editor) (canvasRect : Rect)
    (dropZones : list ZoneLiteral) (x y : Q) (size : string) :
  dragSize ed = Some size ->
  outsideCanvas canvasRect x y = false ->
  getDropTarget ed canvasRect dropZones x y
  = match find (fun z => zoneIsValid ed size z && containsPointer x y z) dropZones with
    | Some z => Some (mkDropZone z false)
    | None =>
        match find (fun z => negb (zoneIsValid ed size z) && containsPointer x y z)
                dropZones with
        | Some z => Some (mkDropZone z true)
        | None => None
        end
    end.
Proof.
  intros Hdrag Hin. unfold getDropTarget. rewrite Hin, Hdrag.
  rewrite classifyZones_partition.
  rewrite !find_map_zone, !find_filter. cbn [zone].
  destruct (find (fun z => zoneIsValid ed size z && containsPointer x y z) dropZones);
    [reflexivity|]. simpl.
  destruct (find _ dropZones); reflexivity.
Qed.




(** ** The layout pass on the store: what it writes *)

Lemma wp_ret {A : Type} (a : A) (h : Heap) (Q : A -> Heap -> Prop) :
  Q a h -> wp (ret a) h Q.
Proof. exact (fun H => H). Qed.

Lemma wp_bind {A B : Type} (m : M A) (k : A -> M B) (h : Heap)
    (Q : B -> Heap -> Prop) :
  wp m h (fun a h' => wp (k a) h' Q) -> wp (bind m k) h Q.
Proof.
  unfold wp, bind. destruct (m h) as [[a h']|]; [exact (fun H => H)|contradiction].
Qed.

Lemma wp_mono {A : Type} (m : M A) (h : Heap) (Q Q' : A -> Heap -> Prop) :
  wp m h Q -> (forall a h', Q a h' -> Q' a h') -> wp m h Q'.
Proof.
  unfold wp. destruct (m h) as [[a h']|]; [|contradiction]. intros H HQ. now apply HQ.
Qed.

Lemma wp_read (l : loc) (o : Obj) (h : Heap) (Q : Obj -> Heap -> Prop) :
  nth_error h l = Some o -> Q o h -> wp (read l) h Q.
Proof. intros Hl HQ. unfold wp, read. now rewrite Hl. Qed.

Lemma wp_alloc (o : Obj) (h : Heap) (Q : loc -> Heap -> Prop) :
  Q (length h) (h ++ [o]) -> wp (alloc o) h Q.
Proof. exact (fun H => H). Qed.

Lemma wp_write (l : loc) (o : Obj) (h : Heap) (Q : unit -> Heap -> Prop) :
  (l < length h)%nat -> Q tt (update h l o) -> wp (write l o) h Q.
Proof.
  intros Hl HQ. unfold wp, write.
  replace (l <? length h)%nat with true by (symmetry; now apply Nat.ltb_lt). exact HQ.
Qed.

Lemma length_update {A : Type} (l : list A) (i : nat) (x : A) :
  length (update l i x) = length l.
Proof.
  revert i. induction l as [|a l IH]; intros [|i]; simpl; try reflexivity.
  now rewrite IH.
Qed.

Lemma nth_error_update_eq {A : Type} (l : list A) (i : nat) (x : A) :
  (i < length l)%nat -> nth_error (update l i x) i = Some x.
Proof.
  revert i. induction l as [|a l IH]; intros [|i] Hi; simpl in *; try lia.
  - reflexivity.
  - apply IH. lia.
Qed.

Lemma nth_error_update_neq {A : Type} (l : list A) (i j : nat) (x : A) :
  i <> j -> nth_error (update l i x) j = nth_error l j.
Proof.
  revert i j. induction l as [|a l IH]; intros [|i] [|j] Hij; simpl; try reflexivity.
  - contradiction.
  - apply IH. lia.
Qed.

Lemma nth_error_alloc_old (h : Heap) (o o' : Obj) (l : loc) :
  nth_error h l = Some o -> nth_error (h ++ [o']) l = Some o.
Proof.
  intros Hl. rewrite nth_error_app1; [exact Hl|].
  apply nth_error_Some. congruence.
Qed.

Lemma nth_error_alloc_new (h : Heap) (o : Obj) :
  nth_error (h ++ [o]) (length h) = Some o.
Proof. rewrite nth_error_app2, Nat.sub_diag by lia. reflexivity. Qed.

Lemma sameShape_refl (o : Obj) : sameShape o o.
Proof. destruct o; simpl; eauto. Qed.

Lemma sameShape_trans (o1 o2 o3 : Obj) :
  sameShape o1 o2 -> sameShape o2 o3 -> sameShape o1 o3.
Proof.
  destruct o1; simpl; intros H12 H23;
    try (subst o2; exact H23).
  - destruct H12 as [sp [de ->]]. exact H23.
  - destruct H12 as [es ->]. exact H23.
Qed.

Lemma evolves_refl (base : nat) (h : Heap) : evolves base h h.
Proof.
  split; [lia|]. intros l o Hl. exists o. auto using sameShape_refl.
Qed.

Lemma evolves_trans (base : nat) (h1 h2 h3 : Heap) :
  evolves base h1 h2 -> evolves base h2 h3 -> evolves base h1 h3.
Proof.
  intros [Hlen12 H12] [Hlen23 H23]. split; [lia|].
  intros l o Hl.
  destruct (H12 l o Hl) as [o2 [Hl2 [Hs12 Hb12]]].
  destruct (H23 l o2 Hl2) as [o3 [Hl3 [Hs23 Hb23]]].
  exists o3. split; [exact Hl3|]. split; [eapply sameShape_trans; eassumption|].
  intros Hlt. rewrite (Hb23 Hlt). now apply Hb12.
Qed.

Lemma evolves_alloc (base : nat) (h : Heap) (o : Obj) : evolves base h (h ++ [o]).
Proof.
  split; [rewrite length_app; lia|].
  intros l o0 Hl. exists o0.
  split; [eapply nth_error_alloc_old; exact Hl|]. auto using sameShape_refl.
Qed.

Lemma evolves_write (base : nat) (h : Heap) (l : loc) (o o' : Obj) :
  nth_error h l = Some o -> sameShape o o' -> (base <= l)%nat ->
  evolves base h (update h l o').
Proof.
  intros Hl Hs Hb. split; [rewrite length_update; lia|].
  intros l0 o0 Hl0. destruct (Nat.eq_dec l l0) as [<-|Hne].
  - exists o'. rewrite nth_error_update_eq by (apply nth_error_Some; congruence).
    split; [reflexivity|]. split; [congruence|lia].
  - exists o0. rewrite nth_error_update_neq by exact Hne.
    auto using sameShape_refl.
Qed.

(** Below [base] nothing changes. *)
Lemma evolves_frame (h h' : Heap) :
  evolves (length h) h h' ->
  forall l, (l < length h)%nat -> nth_error h' l = nth_error h l.
Proof.
  intros [_ H] l Hl.
  destruct (nth_error h l) as [o|] eqn:E.
  - destruct (H l o E) as [o' [Hl' [_ Hb]]]. rewrite Hl'. f_equal. now apply Hb.
  - apply nth_error_None in E. lia.
Qed.

Lemma isItem_evolves (base : nat) (h h' : Heap) (l : loc) :
  evolves base h h' -> isItem h l -> isItem h' l.
Proof.
  intros [_ H] Hit. unfold isItem in *.
  destruct (nth_error h l) as [o|] eqn:E; [|contradiction].
  destruct (H l o E) as [o' [-> [Hs _]]].
  destruct o; try contradiction; simpl in Hs; subst o'; exact I.
Qed.

Lemma isCell_evolves (base b : nat) (h h' : Heap) (c : loc) :
  evolves b h h' -> isCell base h c -> isCell base h' c.
Proof.
  intros Hev [Hb [it [sp [de [Hc Hit]]]]]. split; [exact Hb|].
  destruct Hev as [Hlen H].
  destruct (H c _ Hc) as [o' [Hc' [[sp' [de' ->]] _]]].
  exists it, sp', de'. split; [exact Hc'|].
  eapply isItem_evolves; [split; eassumption|exact Hit].
Qed.

Lemma Forall_isItem_evolves (base : nat) (h h' : Heap) (es : list loc) :
  evolves base h h' -> Forall (isItem h) es -> Forall (isItem h') es.
Proof.
  intros Hev. apply Forall_impl. intros l. now apply isItem_evolves with (base := base).
Qed.

Lemma Forall_isCell_evolves (base b : nat) (h h' : Heap) (cs : list loc) :
  evolves b h h' -> Forall (isCell base h) cs -> Forall (isCell base h') cs.
Proof.
  intros Hev. apply Forall_impl. intros l. now apply isCell_evolves with (b := b).
Qed.

Lemma wp_getArray (a : loc) (es : list loc) (h : Heap) (Q : list loc -> Heap -> Prop) :
  nth_error h a = Some (OArray es) -> Q es h -> wp (getArray a) h Q.
Proof.
  intros Ha HQ. unfold getArray. apply wp_bind.
  eapply wp_read; [exact Ha|]. exact HQ.
Qed.

Lemma wp_isRowBlockH (l : loc) (h : Heap) (Q : bool -> Heap -> Prop) :
  isItem h l ->
  (forall w, nth_error h l = Some (OWidget w) -> Q false h) ->
  (forall m r i, nth_error h l = Some (ORowBlock m r i) -> Q true h) ->
  wp (isRowBlockH l) h Q.
Proof.
  unfold isItem. intros Hit Hw Hrb. unfold isRowBlockH. apply wp_bind.
  destruct (nth_error h l) as [o|] eqn:E; [|contradiction].
  eapply wp_read; [exact E|].
  destruct o; try contradiction; apply wp_ret; eauto.
Qed.

Lemma wp_getWidget (l : loc) (w : Widget) (h : Heap) (Q : Widget -> Heap -> Prop) :
  nth_error h l = Some (OWidget w) -> Q w h -> wp (getWidget l) h Q.
Proof.
  intros Hl HQ. unfold getWidget. apply wp_bind.
  eapply wp_read; [exact Hl|]. exact HQ.
Qed.

(** Writing an array in place. *)
Lemma wp_arrayWrite (a : loc) (es es' : list loc) (h : Heap)
    (Q : unit -> Heap -> Prop) :
  nth_error h a = Some (OArray es) ->
  Q tt (update h a (OArray es')) ->
  wp (write a (OArray es')) h Q.
Proof.
  intros Ha HQ. apply wp_write; [|exact HQ]. apply nth_error_Some. congruence.
Qed.

Lemma wp_arrayPush (a : loc) (es xs : list loc) (h : Heap) (Q : unit -> Heap -> Prop) :
  nth_error h a = Some (OArray es) ->
  Q tt (update h a (OArray (es ++ xs))) ->
  wp (arrayPush a xs) h Q.
Proof.
  intros Ha HQ. unfold arrayPush. apply wp_bind.
  eapply wp_getArray; [exact Ha|]. eapply wp_arrayWrite; eassumption.
Qed.

Lemma wp_arraySplice (a : loc) (es : list loc) (start n : nat) (ins : list loc)
    (h : Heap) (Q : unit -> Heap -> Prop) :
  nth_error h a = Some (OArray es) ->
  Q tt (update h a (OArray (splice es start n ins))) ->
  wp (arraySplice a start n ins) h Q.
Proof.
  intros Ha HQ. unfold arraySplice. apply wp_bind.
  eapply wp_getArray; [exact Ha|]. eapply wp_arrayWrite; eassumption.
Qed.

Lemma evolves_arrayWrite (base : nat) (h : Heap) (a : loc) (es es' : list loc) :
  nth_error h a = Some (OArray es) -> (base <= a)%nat ->
  evolves base h (update h a (OArray es')).
Proof.
  intros Ha Hb. eapply evolves_write; [exact Ha| |exact Hb]. simpl. eauto.
Qed.

(** The capture loops only read. *)
Lemma captureBackwardH_reads colCount railTarget (h : Heap) (prevs : list loc) :
  Forall (isItem h) prevs ->
  forall k capturedPrev st,
    wp (captureBackwardH colCount railTarget prevs k capturedPrev st) h
       (fun r h' =>
          h' = h
          /\ exists taken st',
               r = (k - Z.of_nat (length taken), capturedPrev ++ taken, st')
               /\ (length taken <= length prevs)%nat).
Proof.
  induction 1 as [|prev prevs Hit Hall IH]; intros k cp st; simpl.
  - apply wp_ret. split; [reflexivity|]. exists [], st.
    rewrite app_nil_r, Z.sub_0_r. split; [reflexivity|simpl; lia].
  - assert (Hstop : forall (h0 : Heap) (st0 : RailState), h0 = h ->
               h0 = h /\ exists taken st',
                 (k, cp, st0) = (k - Z.of_nat (length taken), cp ++ taken, st')
                 /\ (length taken <= S (length prevs))%nat).
    { intros h0 st0 ->. split; [reflexivity|]. exists [], st0.
      rewrite app_nil_r, Z.sub_0_r. split; [reflexivity|simpl; lia]. }
    apply wp_bind. apply wp_isRowBlockH; [exact Hit| |].
    + intros w Hw. apply wp_bind. eapply wp_getWidget; [exact Hw|].
      destruct (negb (effectiveSpan w colCount =? 1)); [apply wp_ret; now apply Hstop|].
      destruct (negb (canTake colCount railTarget st w)); [apply wp_ret; now apply Hstop|].
      eapply wp_mono; [apply IH|].
      intros r h' [-> [taken [st' [-> Hlen]]]]. split; [reflexivity|].
      exists (prev :: taken), st'. rewrite <- app_assoc. simpl app.
      split; [|simpl; lia]. f_equal. f_equal. rewrite length_cons. lia.
    + intros m r i _. apply wp_ret. now apply Hstop.
Qed.

Lemma captureForwardH_reads colCount railTarget (h : Heap) (nexts : list loc) :
  Forall (isItem h) nexts ->
  forall capturedNext st,
    wp (captureForwardH colCount railTarget nexts capturedNext st) h
       (fun r h' =>
          h' = h
          /\ exists taken,
               fst r = capturedNext ++ taken
               /\ (length taken <= length nexts)%nat).
Proof.
  induction 1 as [|next nexts Hit Hall IH]; intros cn st; simpl.
  - apply wp_ret. split; [reflexivity|]. exists [].
    rewrite app_nil_r. split; [reflexivity|simpl; lia].
  - assert (Hstop : forall (h0 : Heap) (st0 : RailState), h0 = h ->
               h0 = h /\ exists taken,
                 fst (cn, st0) = cn ++ taken
                 /\ (length taken <= S (length nexts))%nat).
    { intros h0 st0 ->. split; [reflexivity|]. exists [].
      rewrite app_nil_r. split; [reflexivity|simpl; lia]. }
    apply wp_bind. apply wp_isRowBlockH; [exact Hit| |].
    + intros w Hw. apply wp_bind. eapply wp_getWidget; [exact Hw|].
      destruct (negb (effectiveSpan w colCount =? 1)); [apply wp_ret; now apply Hstop|].
      destruct (negb (canTake colCount railTarget st w)); [apply wp_ret; now apply Hstop|].
      eapply wp_mono; [apply IH|].
      intros r h' [-> [taken [-> Hlen]]]. split; [reflexivity|].
      exists (next :: taken). rewrite <- app_assoc. simpl app.
      split; [reflexivity|simpl; lia].
    + intros m r i _. apply wp_ret. now apply Hstop.
Qed.

Lemma Forall_splice {A : Type} (P : A -> Prop) (l ins : list A) (start n : nat) :
  Forall P l -> Forall P ins -> Forall P (splice l start n ins).
Proof.
  intros Hl Hins. unfold splice. apply Forall_app. split.
  - rewrite <- (firstn_skipn start l) in Hl. apply Forall_app in Hl. tauto.
  - apply Forall_app. split; [exact Hins|].
    rewrite <- (firstn_skipn (start + n) l) in Hl. apply Forall_app in Hl. tauto.
Qed.

Lemma itemsInv_write (base : nat) (h : Heap) (items : loc) (es es' : list loc) :
  itemsInv base h items es -> Forall (isItem h) es' ->
  evolves base h (update h items (OArray es'))
  /\ itemsInv base (update h items (OArray es')) items es'.
Proof.
  intros [Hb [Ha Hall]] Hall'.
  assert (Hev : evolves base h (update h items (OArray es')))
    by (eapply evolves_arrayWrite; eassumption).
  split; [exact Hev|]. split; [exact Hb|]. split.
  - apply nth_error_update_eq. apply nth_error_Some. congruence.
  - eapply Forall_isItem_evolves; eassumption.
Qed.

Lemma itemsInv_evolves (base b : nat) (h h' : Heap) (items : loc) (es : list loc) :
  itemsInv base h items es -> evolves b h h' ->
  nth_error h' items = Some (OArray es) ->
  itemsInv base h' items es.
Proof.
  intros [Hb [_ Hall]] Hev Ha. split; [exact Hb|]. split; [exact Ha|].
  eapply Forall_isItem_evolves; eassumption.
Qed.

Lemma length_splice_remove {A : Type} (l : list A) (a n : nat) (x : A) :
  (a + n < length l)%nat ->
  length (firstn a l ++ x :: skipn (S (a + n)) l) = (length l - n)%nat.
Proof.
  intros H. rewrite length_app, length_firstn. cbn [length].
  rewrite length_skipn. lia.
Qed.

(** One seed on the store: the run goes through, writes only to the
    spliced array and to the RowBlock it allocates, and brings the loop
    closer to its end. *)
Lemma composeAtH_spec (base : nat) (h : Heap) (items : loc) (es : list loc)
    (i : nat) (current : loc) (w : Widget) (colCount : Z) :
  itemsInv base h items es ->
  nth_error es i = Some current ->
  nth_error h current = Some (OWidget w) ->
  wp (composeAtH items i current w colCount) h
     (fun i' h' =>
        evolves base h h'
        /\ exists es', itemsInv base h' items es'
                       /\ (length es' - i' < length es - i)%nat).
Proof.
  intros Hinv Hcur Hw.
  assert (Hi : (i < length es)%nat) by (apply nth_error_Some; congruence).
  destruct Hinv as [Hb [Ha Hall]].
  assert (Hitems : (items < length h)%nat) by (apply nth_error_Some; congruence).
  unfold composeAtH.
  (* the rail array and the RowBlock object *)
  apply wp_bind, wp_alloc. apply wp_bind, wp_alloc.
  set (a1 := length h).
  set (h1 := h ++ [OArray []]).
  set (a2 := length h1).
  set (rb := ORowBlock current a1 ("rb-" ++ id w)%string).
  set (h2 := h1 ++ [rb]).
  assert (Hev2 : evolves base h h2).
  { eapply evolves_trans; apply evolves_alloc. }
  assert (Ha2 : nth_error h2 items = Some (OArray es)).
  { unfold h2, h1. now do 2 apply nth_error_alloc_old with (o := OArray es). }
  assert (Hrail2 : nth_error h2 a1 = Some (OArray [])).
  { unfold h2. apply nth_error_alloc_old. apply nth_error_alloc_new. }
  assert (Hrb2 : isItem h2 a2).
  { unfold isItem, h2, a2. now rewrite nth_error_alloc_new. }
  assert (Hall2 : Forall (isItem h2) es)
    by (eapply Forall_isItem_evolves; eassumption).
  assert (Hne : a1 <> items) by (unfold a1; lia).
  apply wp_bind. eapply wp_getArray; [exact Ha2|].
  (* backward run *)
  apply wp_bind. eapply wp_mono.
  { apply captureBackwardH_reads. apply Forall_rev.
    rewrite <- (firstn_skipn i es) in Hall2. apply Forall_app in Hall2. tauto. }
  intros r h' [-> [cp [st' [-> Hlen]]]].
  rewrite length_rev, length_firstn in Hlen. rewrite app_nil_l.
  destruct cp as [|p cp'].
  - (* nothing captured backward: forward run *)
    change (length (@nil loc) =? 0)%nat with true. cbv iota.
    apply wp_bind. apply wp_bind. eapply wp_mono.
    { apply captureForwardH_reads.
      rewrite <- (firstn_skipn (i + 1) es) in Hall2. apply Forall_app in Hall2. tauto. }
    intros r h' [-> [cn [Hcn Hlenf]]].
    rewrite length_skipn in Hlenf. rewrite app_nil_l in Hcn. rewrite Hcn.
    destruct cn as [|n cn'].
    + (* no capture at all: the array is left as it is *)
      change (0 <? length (@nil loc))%nat with false. cbv iota.
      apply wp_bind, wp_ret, wp_ret.
      apply wp_bind. eapply wp_arrayPush; [exact Hrail2|].
      apply wp_bind. eapply wp_getArray.
      { apply nth_error_update_eq. apply nth_error_Some. congruence. }
      simpl. apply wp_ret.
      assert (Hev3 : evolves base h2 (update h2 a1 (OArray [])))
        by (eapply evolves_arrayWrite; [exact Hrail2|unfold a1; lia]).
      split; [eapply evolves_trans; eassumption|].
      exists es. split; [|lia]. split; [exact Hb|]. split.
      * rewrite nth_error_update_neq by exact Hne. exact Ha2.
      * eapply Forall_isItem_evolves; eassumption.
    + (* forward captures: cut them out, put the RowBlock at [i] *)
      set (cn := n :: cn') in *.
      assert (Hm : (1 <= length cn)%nat) by (simpl; lia).
      replace (0 <? length cn)%nat with true by (symmetry; apply Nat.ltb_lt; lia).
      apply wp_bind. eapply wp_arraySplice; [exact Ha2|]. apply wp_ret.
      set (es3 := splice es (i + 1) (length cn) []).
      set (h3 := update h2 items (OArray es3)).
      destruct (itemsInv_write base h2 items es es3) as [Hev3 [_ [Ha3 Hall3]]].
      { repeat split; assumption. }
      { apply Forall_splice; [exact Hall2|constructor]. }
      fold h3 in Hev3, Ha3, Hall3.
      assert (Hrail3 : nth_error h3 a1 = Some (OArray [])).
      { unfold h3. rewrite nth_error_update_neq by congruence. exact Hrail2. }
      apply wp_bind. eapply wp_arrayPush; [exact Hrail3|].
      set (h4 := update h3 a1 (OArray ([] ++ rev [] ++ cn))).
      assert (Hev4 : evolves base h3 h4)
        by (eapply evolves_arrayWrite; [exact Hrail3|unfold a1; lia]).
      assert (Ha4 : nth_error h4 items = Some (OArray es3)).
      { unfold h4. rewrite nth_error_update_neq by exact Hne. exact Ha3. }
      apply wp_bind. eapply wp_getArray.
      { apply nth_error_update_eq. apply nth_error_Some. congruence. }
      simpl rev. rewrite !app_nil_l.
      replace (0 <? length cn)%nat with true by (symmetry; apply Nat.ltb_lt; lia).
      change (0 <? length (@nil loc))%nat with false. cbv iota.
      apply wp_bind, wp_ret. apply wp_bind.
      eapply wp_arraySplice; [exact Ha4|]. apply wp_ret.
      set (es5 := splice es3 i 1 [a2]).
      destruct (itemsInv_write base h4 items es3 es5) as [Hev5 Hinv5].
      { split; [exact Hb|]. split; [exact Ha4|].
        eapply Forall_isItem_evolves; eassumption. }
      { apply Forall_splice.
        - eapply Forall_isItem_evolves; eassumption.
        - constructor; [|constructor].
          eapply isItem_evolves; [|exact Hrb2].
          eapply evolves_trans; eassumption. }
      split.
      { eapply evolves_trans; [exact Hev2|].
        eapply evolves_trans; [exact Hev3|].
        eapply evolves_trans; eassumption. }
      exists es5. split; [exact Hinv5|].
      unfold es5, es3. rewrite splice_after_then_replace by exact Hi.
      rewrite length_app, length_firstn. cbn [length]. rewrite length_skipn. lia.
  - (* backward captures: cut them out, put the RowBlock where they began *)
    set (cp := p :: cp') in *.
    assert (Hn : (1 <= length cp)%nat) by (simpl; lia).
    replace (length cp =? 0)%nat with false by (symmetry; apply Nat.eqb_neq; lia).
    apply wp_bind, wp_ret.
    apply wp_bind. eapply wp_arrayPush; [exact Hrail2|].
    set (h3 := update h2 a1 (OArray ([] ++ rev cp ++ []))).
    assert (Hev3 : evolves base h2 h3)
      by (eapply evolves_arrayWrite; [exact Hrail2|unfold a1; lia]).
    assert (Ha3 : nth_error h3 items = Some (OArray es)).
    { unfold h3. rewrite nth_error_update_neq by exact Hne. exact Ha2. }
    apply wp_bind. eapply wp_getArray.
    { apply nth_error_update_eq. apply nth_error_Some. congruence. }
    rewrite app_nil_l, app_nil_r.
    replace (0 <? length (rev cp))%nat with true
      by (symmetry; apply Nat.ltb_lt; rewrite length_rev; lia).
    replace (0 <? length cp)%nat with true by (symmetry; apply Nat.ltb_lt; lia).
    replace (Z.of_nat i - (Z.of_nat i - 1 - Z.of_nat (length cp) + 1))
      with (Z.of_nat (length cp)) by lia.
    replace (Z.of_nat (length cp) >? 0) with true by lia.
    replace (Z.of_nat i - 1 - Z.of_nat (length cp) + 1)
      with (Z.of_nat (i - length cp)) by lia.
    rewrite !Nat2Z.id.
    apply wp_bind. apply wp_bind.
    eapply wp_arraySplice; [exact Ha3|]. apply wp_ret.
    set (es4 := splice es (i - length cp) (length cp) []).
    set (h4 := update h3 items (OArray es4)).
    destruct (itemsInv_write base h3 items es es4) as [Hev4 [_ [Ha4 Hall4]]].
    { split; [exact Hb|]. split; [exact Ha3|].
      eapply Forall_isItem_evolves; eassumption. }
    { apply Forall_splice; [|constructor].
      eapply Forall_isItem_evolves; eassumption. }
    fold h4 in Hev4, Ha4, Hall4.
    apply wp_bind. eapply wp_arraySplice; [exact Ha4|]. apply wp_ret.
    set (es5 := splice es4 (i - length cp) 1 [a2]).
    destruct (itemsInv_write base h4 items es4 es5) as [Hev5 Hinv5].
    { repeat split; assumption. }
    { apply Forall_splice; [exact Hall4|].
      constructor; [|constructor].
      eapply isItem_evolves; [|exact Hrb2].
      eapply evolves_trans; eassumption. }
    split.
    { eapply evolves_trans; [exact Hev2|].
      eapply evolves_trans; [exact Hev3|].
      eapply evolves_trans; eassumption. }
    exists es5. split; [exact Hinv5|].
    unfold es5, es4. rewrite splice_remove_then_replace by lia.
    rewrite length_splice_remove by lia. lia.
Qed.

Lemma composeLoopH_spec (base : nat) (colCount : Z) (fuel : nat) :
  forall h items es i,
    itemsInv base h items es ->
    (length es - i < fuel)%nat ->
    wp (composeLoopH fuel items i colCount) h
       (fun _ h' => evolves base h h' /\ exists es', itemsInv base h' items es').
Proof.
  induction fuel as [|fuel IH]; intros h items es i Hinv Hfuel; [lia|].
  simpl. apply wp_bind.
  pose proof Hinv as [Hb [Ha Hall]].
  eapply wp_getArray; [exact Ha|].
  destruct (nth_error es i) as [current|] eqn:Ecur.
  - assert (Hi : (i < length es)%nat) by (apply nth_error_Some; congruence).
    assert (Hit : isItem h current).
    { rewrite Forall_forall in Hall. apply Hall. eapply nth_error_In; eassumption. }
    apply wp_bind. apply wp_isRowBlockH; [exact Hit| |].
    + intros w Hw. apply wp_bind. eapply wp_getWidget; [exact Hw|].
      destruct (negb (effectiveSpan w colCount =? 3)).
      * apply (IH h items es (S i) Hinv). lia.
      * apply wp_bind. eapply wp_mono.
        { eapply composeAtH_spec; eassumption. }
        intros i' h' [Hev [es' [Hinv' Hlt]]].
        eapply wp_mono; [apply (IH h' items es' i' Hinv'); lia|].
        intros _ h'' [Hev' Hex]. split; [|exact Hex].
        eapply evolves_trans; eassumption.
    + intros m r rid _. apply (IH h items es (S i) Hinv). lia.
  - apply wp_ret. split; [apply evolves_refl|]. exists es. exact Hinv.
Qed.

(** The composer on the store: it returns a fresh array of items and
    changes no object that existed before the call. *)
Lemma transformRowBlocksH_spec (h : Heap) (widgetsInOrder : loc) (colCount : Z) :
  itemArray h widgetsInOrder ->
  wp (transformRowBlocksH widgetsInOrder colCount) h
     (fun items h' =>
        evolves (length h) h h' /\ itemArray h' items /\ (length h <= items)%nat).
Proof.
  intros [es [Ha Hall]]. unfold transformRowBlocksH.
  set (h1 := h ++ [OArray es]).
  assert (Hev1 : evolves (length h) h h1) by apply evolves_alloc.
  assert (Hinv1 : itemsInv (length h) h1 (length h) es).
  { split; [lia|]. split; [apply nth_error_alloc_new|].
    eapply Forall_isItem_evolves; eassumption. }
  destruct (negb (colCount =? 4)).
  - unfold arrayCopy. apply wp_bind. eapply wp_getArray; [exact Ha|].
    apply wp_alloc. fold h1. split; [exact Hev1|].
    split; [|lia]. exists es. destruct Hinv1 as [_ [H1 H2]]. now split.
  - apply wp_bind. unfold arrayCopy. apply wp_bind.
    eapply wp_getArray; [exact Ha|]. apply wp_alloc. fold h1.
    apply wp_bind. eapply wp_getArray; [apply Hinv1|].
    apply wp_bind. eapply wp_mono.
    { apply (composeLoopH_spec (length h) colCount (S (length es)) h1 (length h) es 0 Hinv1).
      lia. }
    intros _ h' [Hev [es' [_ [Ha' Hall']]]]. apply wp_ret.
    split; [eapply evolves_trans; eassumption|].
    split; [|lia]. exists es'. now split.
Qed.

(** *** The packer on the store *)

Lemma arraysKept_refl (h : Heap) : arraysKept h h.
Proof. intros a es H. exact H. Qed.

Lemma arraysKept_trans (h1 h2 h3 : Heap) :
  arraysKept h1 h2 -> arraysKept h2 h3 -> arraysKept h1 h3.
Proof. intros H12 H23 a es H. apply H23, H12, H. Qed.

Lemma arraysKept_alloc (h : Heap) (o : Obj) : arraysKept h (h ++ [o]).
Proof. intros a es H. eapply nth_error_alloc_old. exact H. Qed.

Lemma evolves_weaken (base base' : nat) (h h' : Heap) :
  (base' <= base)%nat -> evolves base h h' -> evolves base' h h'.
Proof.
  intros Hle [Hlen H]. split; [exact Hlen|].
  intros l o Hl. destruct (H l o Hl) as [o' [Hl' [Hs Hb]]].
  exists o'. split; [exact Hl'|]. split; [exact Hs|]. intros Hlt. apply Hb. lia.
Qed.

(** Assigning a field of a cell this run created. *)
Lemma cell_write (base : nat) (h : Heap) (c it : loc) (sp sp' : Z) (de de' : bool):
  nth_error h c = Some (OCell it sp de) -> (base <= c)%nat ->
  evolves base h (update h c (OCell it sp' de'))
  /\ arraysKept h (update h c (OCell it sp' de')).
Proof.
  intros Hc Hb. split.
  - eapply evolves_write; [exact Hc| |exact Hb]. simpl. eauto.
  - intros a es Ha. rewrite nth_error_update_neq; [exact Ha|]. congruence.
Qed.

Lemma filterExpandableH_reads (base : nat) (h : Heap) (row : list loc) :
  Forall (isCell base h) row ->
  wp (filterExpandableH row) h
     (fun r h' => h' = h /\ Forall (isCell base h) r).
Proof.
  induction 1 as [|c row Hc Hrow IH]; simpl.
  - apply wp_ret. auto.
  - pose proof Hc as [Hb [it [sp [de [Hcell Hit]]]]].
    apply wp_bind. eapply wp_read; [exact Hcell|].
    apply wp_bind.
    apply wp_isRowBlockH; [exact Hit|intros w0 Hw0|intros m0 r0 i0 Hrb0];
      (apply wp_bind; eapply wp_mono; [exact IH|]);
      intros res h' [-> Hr]; apply wp_ret; (split; [reflexivity|]);
      [constructor; assumption|assumption].
Qed.

Lemma everyMinSpanH_reads (base : nat) (h : Heap) (cs : list loc) :
  Forall (isCell base h) cs ->
  wp (everyMinSpanH cs) h (fun _ h' => h' = h).
Proof.
  induction 1 as [|c cs Hc Hcs IH]; simpl.
  - now apply wp_ret.
  - destruct Hc as [Hb [it [sp [de [Hcell Hit]]]]].
    apply wp_bind. eapply wp_read; [exact Hcell|]. cbv beta iota.
    destruct (sp =? 1); [exact IH|now apply wp_ret].
Qed.

Lemma markEqualH_spec (base : nat) (row : list loc) :
  forall h,
    Forall (isCell base h) row ->
    wp (markEqualH row) h (fun _ h' => evolves base h h' /\ arraysKept h h').
Proof.
  induction row as [|c row IH]; intros h Hall; simpl.
  - apply wp_ret. split; [apply evolves_refl|apply arraysKept_refl].
  - inversion Hall as [|? ? Hc Hrow]; subst.
    destruct Hc as [Hb [it [sp [de [Hcell Hit]]]]].
    apply wp_bind. eapply wp_read; [exact Hcell|].
    apply wp_bind. apply wp_write; [apply nth_error_Some; congruence|].
    destruct (cell_write base h c it sp sp de true Hcell Hb) as [Hev Hk].
    eapply wp_mono.
    { apply IH. eapply Forall_isCell_evolves; eassumption. }
    intros _ h' [Hev' Hk']. split.
    + eapply evolves_trans; eassumption.
    + eapply arraysKept_trans; eassumption.
Qed.

Lemma expandCellsH_spec (base : nat) (colCount extraPerWidget leftover : Z)
    (cs : list loc) :
  forall idx h,
    Forall (isCell base h) cs ->
    wp (expandCellsH colCount extraPerWidget leftover idx cs) h
       (fun _ h' => evolves base h h' /\ arraysKept h h').
Proof.
  induction cs as [|c cs IH]; intros idx h Hall; simpl.
  - apply wp_ret. split; [apply evolves_refl|apply arraysKept_refl].
  - inversion Hall as [|? ? Hc Hrow]; subst.
    destruct Hc as [Hb [it [sp [de [Hcell Hit]]]]].
    apply wp_bind. eapply wp_read; [exact Hcell|].
    apply wp_bind. apply wp_write; [apply nth_error_Some; congruence|].
    match goal with
    | |- wp _ (update h c (OCell it ?sp' de)) _ =>
        destruct (cell_write base h c it sp sp' de de Hcell Hb) as [Hev Hk]
    end.
    eapply wp_mono.
    { apply IH. eapply Forall_isCell_evolves; eassumption. }
    intros _ h' [Hev' Hk']. split.
    + eapply evolves_trans; eassumption.
    + eapply arraysKept_trans; eassumption.
Qed.

Lemma flushH_spec (base : nat) (colCount : Z) (h : Heap) (v : PackVars) :
  packInv base h v ->
  wp (flushH colCount v) h
     (fun v' h' => evolves base h h' /\ packInv base h' v').
Proof.
  intros Hinv. pose proof Hinv as [Hbr [Hbc [Hne [[rs Hrs] [cs [Hcs Hcells]]]]]].
  unfold flushH. apply wp_bind. eapply wp_getArray; [exact Hcs|].
  destruct (length cs =? 0)%nat.
  { apply wp_ret. split; [apply evolves_refl|exact Hinv]. }
  apply wp_bind.
  (* the expansion step *)
  apply wp_mono with (Q := fun _ h1 => evolves base h h1 /\ arraysKept h h1).
  { destruct (colCount - usedNow v >? 0);
      [|apply wp_ret; split; [apply evolves_refl|apply arraysKept_refl]].
    apply wp_bind. eapply wp_mono; [apply filterExpandableH_reads; exact Hcells|].
    intros ex h' [-> Hex].
    destruct (Z.of_nat (length ex) >? 0);
      [|apply wp_ret; split; [apply evolves_refl|apply arraysKept_refl]].
    apply wp_bind. eapply wp_mono; [apply (everyMinSpanH_reads base); exact Hex|].
    intros allMin h' ->.
    destruct (allMin && _).
    - apply markEqualH_spec. exact Hcells.
    - apply expandCellsH_spec. exact Hex. }
  intros _ h1 [Hev1 Hk1].
  (* the row object, its push, and the new [currentRow] *)
  apply wp_bind, wp_alloc.
  set (h2 := h1 ++ [ORow (currentRowRef v)]).
  assert (Hrs2 : nth_error h2 (rowsRef v) = Some (OArray rs)).
  { unfold h2. apply nth_error_alloc_old. apply Hk1, Hrs. }
  apply wp_bind. eapply wp_arrayPush; [exact Hrs2|].
  set (h3 := update h2 (rowsRef v) (OArray (rs ++ [length h1]))).
  apply wp_bind, wp_alloc. apply wp_ret.
  assert (Hev3 : evolves base h h3).
  { eapply evolves_trans; [exact Hev1|].
    eapply evolves_trans; [apply evolves_alloc|].
    eapply evolves_arrayWrite; [exact Hrs2|exact Hbr]. }
  assert (Hlen3 : (rowsRef v < length h3)%nat).
  { unfold h3. rewrite length_update. apply nth_error_Some. congruence. }
  split; [eapply evolves_trans; [exact Hev3|apply evolves_alloc]|].
  unfold packInv. cbn [rowsRef currentRowRef].
  assert (Hlen2 : (rowsRef v < length h2)%nat) by (apply nth_error_Some; congruence).
  split; [exact Hbr|].
  split; [rewrite length_update; lia|]. split; [rewrite length_update; lia|]. split.
  - exists (rs ++ [length h1]). apply nth_error_alloc_old.
    unfold h3. apply nth_error_update_eq. apply nth_error_Some. congruence.
  - exists []. split; [apply nth_error_alloc_new|constructor].
Qed.

Lemma wp_itemSpanH (l : loc) (colCount : Z) (h : Heap) (Q : Z -> Heap -> Prop) :
  isItem h l -> (forall sp, Q sp h) -> wp (itemSpanH l colCount) h Q.
Proof.
  intros Hit HQ. unfold itemSpanH. apply wp_bind.
  apply wp_isRowBlockH; [exact Hit| |].
  - intros w Hw. apply wp_bind. eapply wp_getWidget; [exact Hw|]. apply wp_ret, HQ.
  - intros. apply wp_ret, HQ.
Qed.

Lemma packStepH_spec (base : nat) (colCount : Z) (h : Heap) (v : PackVars) (it : loc) :
  packInv base h v -> isItem h it ->
  wp (packStepH colCount v it) h
     (fun v' h' => evolves base h h' /\ packInv base h' v').
Proof.
  intros Hinv Hit. unfold packStepH.
  apply wp_bind. apply wp_itemSpanH; [exact Hit|]. intros sp.
  destruct (sp >=? colCount).
  - (* a full-width item: flush, then a row of its own *)
    apply wp_bind. eapply wp_mono; [apply flushH_spec; exact Hinv|].
    intros v1 h1 [Hev1 [Hbr [Hbc [Hne [[rs Hrs] [cs [Hcs Hcells]]]]]]].
    apply wp_bind, wp_alloc. apply wp_bind, wp_alloc. apply wp_bind, wp_alloc.
    set (h2 := h1 ++ [OCell it colCount false]).
    set (h3 := h2 ++ [OArray [length h1]]).
    set (h4 := h3 ++ [ORow (length h2)]).
    assert (Hev4 : evolves base h1 h4).
    { eapply evolves_trans; [apply evolves_alloc|].
      eapply evolves_trans; apply evolves_alloc. }
    assert (Hrs4 : nth_error h4 (rowsRef v1) = Some (OArray rs)).
    { unfold h4, h3, h2. now do 3 apply nth_error_alloc_old with (o := OArray rs). }
    assert (Hcs4 : nth_error h4 (currentRowRef v1) = Some (OArray cs)).
    { unfold h4, h3, h2. now do 3 apply nth_error_alloc_old with (o := OArray cs). }
    assert (Hlt4 : (rowsRef v1 < length h4)%nat) by (apply nth_error_Some; congruence).
    apply wp_bind. eapply wp_arrayPush; [exact Hrs4|]. apply wp_ret.
    assert (Hev5 : evolves base h4 (update h4 (rowsRef v1) (OArray (rs ++ [length h3]))))
      by (eapply evolves_arrayWrite; eassumption).
    split.
    { eapply evolves_trans; [exact Hev1|]. eapply evolves_trans; eassumption. }
    split; [exact Hbr|]. split; [exact Hbc|]. split; [exact Hne|]. split.
    + eexists. apply nth_error_update_eq. exact Hlt4.
    + exists cs. split.
      * rewrite nth_error_update_neq by exact Hne. exact Hcs4.
      * eapply Forall_isCell_evolves; [exact Hev5|].
        eapply Forall_isCell_evolves; eassumption.
  - (* the item joins the open row, after a flush if it would overflow *)
    apply wp_bind.
    apply wp_mono with (Q := fun v1 h1 => evolves base h h1 /\ packInv base h1 v1).
    { destruct (usedNow v + sp >? colCount).
      - apply flushH_spec. exact Hinv.
      - apply wp_ret. split; [apply evolves_refl|exact Hinv]. }
    intros v1 h1 [Hev1 [Hbr [Hbc [Hne [[rs Hrs] [cs [Hcs Hcells]]]]]]].
    apply wp_bind, wp_alloc.
    set (h2 := h1 ++ [OCell it sp false]).
    assert (Hev2 : evolves base h1 h2) by apply evolves_alloc.
    assert (Hcs2 : nth_error h2 (currentRowRef v1) = Some (OArray cs))
      by (apply nth_error_alloc_old; exact Hcs).
    assert (Hlt2 : (currentRowRef v1 < length h2)%nat)
      by (apply nth_error_Some; congruence).
    apply wp_bind. eapply wp_arrayPush; [exact Hcs2|]. apply wp_ret.
    assert (Hev3 : evolves base h2
                     (update h2 (currentRowRef v1) (OArray (cs ++ [length h1]))))
      by (eapply evolves_arrayWrite; eassumption).
    assert (Hlen1 : (currentRowRef v1 < length h1)%nat)
      by (apply nth_error_Some; congruence).
    split.
    { eapply evolves_trans; [exact Hev1|]. eapply evolves_trans; eassumption. }
    unfold packInv. cbn [rowsRef currentRowRef].
    split; [exact Hbr|]. split; [exact Hbc|]. split; [exact Hne|]. split.
    + exists rs. rewrite nth_error_update_neq by congruence.
      apply nth_error_alloc_old. exact Hrs.
    + exists (cs ++ [length h1]). split.
      * apply nth_error_update_eq. exact Hlt2.
      * eapply Forall_isCell_evolves; [exact Hev3|].
        apply Forall_app. split.
        -- eapply Forall_isCell_evolves; eassumption.
        -- constructor; [|constructor]. split; [lia|].
           exists it, sp, false. split; [apply nth_error_alloc_new|].
           eapply isItem_evolves; [|exact Hit].
           eapply evolves_trans; eassumption.
Qed.

Lemma packLoopH_spec (base : nat) (colCount : Z) (es : list loc) :
  forall h v,
    packInv base h v -> Forall (isItem h) es ->
    wp (packLoopH colCount es v) h
       (fun v' h' => evolves base h h' /\ packInv base h' v').
Proof.
  induction es as [|it es IH]; intros h v Hinv Hall; simpl.
  - apply wp_ret. split; [apply evolves_refl|exact Hinv].
  - inversion Hall as [|? ? Hit Hrest]; subst.
    apply wp_bind. eapply wp_mono; [apply packStepH_spec; eassumption|].
    intros v1 h1 [Hev1 Hinv1].
    eapply wp_mono.
    { apply IH; [exact Hinv1|]. eapply Forall_isItem_evolves; eassumption. }
    intros v2 h2 [Hev2 Hinv2]. split; [|exact Hinv2].
    eapply evolves_trans; eassumption.
Qed.

(** The packer on the store: it returns a fresh array of rows and changes
    no object that existed before the call. *)
Lemma packRowsH_spec (h : Heap) (items : loc) (colCount : Z) :
  itemArray h items ->
  wp (packRowsH items colCount) h
     (fun rows h' => evolves (length h) h h' /\ (length h <= rows)%nat).
Proof.
  intros [es [Ha Hall]]. unfold packRowsH.
  apply wp_bind, wp_alloc. apply wp_bind, wp_alloc.
  set (h1 := h ++ [OArray []]).
  set (h2 := h1 ++ [OArray []]).
  assert (Hev2 : evolves (length h) h h2).
  { eapply evolves_trans; apply evolves_alloc. }
  assert (Hlen1 : length h1 = S (length h)).
  { unfold h1. rewrite length_app. simpl. lia. }
  apply wp_bind. eapply wp_getArray.
  { unfold h2, h1. do 2 apply nth_error_alloc_old with (o := OArray es). exact Ha. }
  apply wp_bind. eapply wp_mono.
  { apply (packLoopH_spec (length h) colCount es h2).
    - unfold packInv. cbn [rowsRef currentRowRef].
      split; [lia|]. split; [lia|]. split; [lia|]. split.
      + exists []. unfold h2. apply nth_error_alloc_old. apply nth_error_alloc_new.
      + exists []. split; [apply nth_error_alloc_new|constructor].
    - eapply Forall_isItem_evolves; eassumption. }
  intros v1 h3 [Hev3 Hinv3].
  apply wp_bind. eapply wp_mono; [apply flushH_spec; exact Hinv3|].
  intros v2 h4 [Hev4 [Hbr _]]. apply wp_ret. split; [|exact Hbr].
  eapply evolves_trans; [exact Hev2|]. eapply evolves_trans; eassumption.
Qed.

(** The orchestrator on the store. *)
Lemma layoutSectionH_spec (h : Heap) (section ws : loc) (containerWidth : Q) :
  sectionWidgets h section ws -> itemArray h ws ->
  wp (layoutSectionH section containerWidth) h
     (fun layout h' => evolves (length h) h h' /\ (length h <= layout)%nat).
Proof.
  intros Hsec Hws. unfold layoutSectionH.
  assert (Hpass : forall (mk : loc -> Obj),
             wp (items <- transformRowBlocksH ws (getColCountFromWidth containerWidth) ;;
                 rows <- packRowsH items (getColCountFromWidth containerWidth) ;;
                 alloc (mk rows)) h
                (fun layout h' => evolves (length h) h h' /\ (length h <= layout)%nat)).
  { intros mk. apply wp_bind. eapply wp_mono; [apply transformRowBlocksH_spec; exact Hws|].
    intros items h1 [Hev1 [Hitems Hfresh]].
    apply wp_bind. eapply wp_mono; [apply packRowsH_spec; exact Hitems|].
    intros rows h2 [Hev2 Hrows]. apply wp_alloc.
    pose proof Hev1 as [Hlen1 _]. pose proof Hev2 as [Hlen2 _].
    split; [|lia].
    eapply evolves_trans; [exact Hev1|].
    eapply evolves_trans; [|apply evolves_alloc].
    eapply evolves_weaken; [|exact Hev2]. exact Hlen1. }
  destruct Hsec as [[sid [stitle Hs]]|[sid [g [gid [gtitle [fs [Hs Hg]]]]]]].
  - apply wp_bind. eapply wp_read; [exact Hs|]. apply Hpass.
  - apply wp_bind. eapply wp_read; [exact Hs|].
    apply wp_bind. eapply wp_read; [exact Hg|]. apply Hpass.
Qed.

Lemma evolves_unchanged (h h' : Heap) : evolves (length h) h h' -> unchanged h h'.
Proof.
  intros Hev l o Hl. rewrite (evolves_frame h h' Hev l); [exact Hl|].
  apply nth_error_Some. congruence.
Qed.

Lemma wp_returns {A : Type} (m : M A) (h : Heap) (Q : A -> Heap -> Prop) :
  wp m h Q -> exists a h', m h = Some (a, h') /\ Q a h'.
Proof.
  unfold wp. destruct (m h) as [[a h']|]; [eauto|contradiction].
Qed.

(** C10.  On any store in which the argument is an array of widgets and
    RowBlocks, [transformRowBlocks] and [packRows] run to completion and
    leave every object that existed before the call as it was: the input
    array has the same elements in the same order (the result is another,
    new array), and no input element is written.  [layoutSection] likewise
    leaves the section object and its widget array as they were. *)
Theorem layout_pass_never_mutates_input (h : Heap) (colCount : Z) (containerWidth : Q) :
  (forall widgetsInOrder es,
      nth_error h widgetsInOrder = Some (OArray es) -> Forall (isItem h) es ->
      exists items h',
        transformRowBlocksH widgetsInOrder colCount h = Some (items, h')
        /\ unchanged h h'
        /\ nth_error h' widgetsInOrder = Some (OArray es)
        /\ items <> widgetsInOrder)
  /\ (forall items es,
        nth_error h items = Some (OArray es) -> Forall (isItem h) es ->
        exists rows h',
          packRowsH items colCount h = Some (rows, h')
          /\ unchanged h h'
          /\ nth_error h' items = Some (OArray es))
  /\ (forall section ws es,
        sectionWidgets h section ws ->
        nth_error h ws = Some (OArray es) -> Forall (isItem h) es ->
        exists layout h',
          layoutSectionH section containerWidth h = Some (layout, h')
          /\ unchanged h h'
          /\ nth_error h' section = nth_error h section
          /\ nth_error h' ws = Some (OArray es)).
Proof.
  split; [|split].
  - intros a es Ha Hall.
    destruct (wp_returns _ _ _ (transformRowBlocksH_spec h a colCount
                                 (ex_intro _ es (conj Ha Hall))))
      as [items [h' [Hrun [Hev [_ Hfresh]]]]].
    exists items, h'. pose proof (evolves_unchanged h h' Hev) as Hun.
    split; [exact Hrun|]. split; [exact Hun|]. split; [now apply Hun|].
    assert ((a < length h)%nat) by (apply nth_error_Some; congruence). lia.
  - intros a es Ha Hall.
    destruct (wp_returns _ _ _ (packRowsH_spec h a colCount
                                 (ex_intro _ es (conj Ha Hall))))
      as [rows [h' [Hrun [Hev _]]]].
    exists rows, h'. pose proof (evolves_unchanged h h' Hev) as Hun.
    split; [exact Hrun|]. split; [exact Hun|]. now apply Hun.
  - intros section ws es Hsec Ha Hall.
    destruct (wp_returns _ _ _ (layoutSectionH_spec h section ws containerWidth Hsec
                                 (ex_intro _ es (conj Ha Hall))))
      as [layout [h' [Hrun [Hev _]]]].
    exists layout, h'. pose proof (evolves_unchanged h h' Hev) as Hun.
    split; [exact Hrun|]. split; [exact Hun|]. split; [|now apply Hun].
    destruct Hsec as [[sid [stitle Hs]]|[sid [g [gid [gtitle [fs [Hs Hg]]]]]]];
      rewrite Hs; now apply Hun.
Qed.

(** Three S widgets and an L widget at four columns: the composer splices
    its copy, the store keeps the section's array [0; 1; 2; 3]. *)
Lemma layout_pass_never_mutates_input_witness :
  let h := sectionStore ["S"; "S"; "S"; "L"]%string in
  nth_error h 4 = Some (OArray [0; 1; 2; 3]%nat)
  /\ Forall (isItem h) [0; 1; 2; 3]%nat
  /\ exists items h',
       transformRowBlocksH 4%nat 4 h = Some (items, h')
       /\ unchanged h h'
       /\ nth_error h' 4 = Some (OArray [0; 1; 2; 3]%nat)
       /\ items <> 4%nat.
Proof.
  intros h.
  assert (H1 : nth_error h 4 = Some (OArray [0; 1; 2; 3]%nat)) by reflexivity.
  assert (H2 : Forall (isItem h) [0; 1; 2; 3]%nat) by (repeat constructor).
  split; [exact H1|]. split; [exact H2|].
  destruct (layout_pass_never_mutates_input h 4 1240) as [H _].
  exact (H 4%nat [0; 1; 2; 3]%nat H1 H2).
Defined.

(** The two renderings of the layout pass agree on sample sections at the
    four breakpoints. *)
Example layoutSectionH_agrees :
  Forall (fun sizes => Forall (agreesAt sizes) [1240; 1000; 700; 500]%Q)
    [["S"; "S"; "S"; "L"]; ["S"; "L"; "S"; "S"]; ["L"; "S"; "S"; "S"];
     ["XS"; "XS"; "XS"; "XS"; "XS"]; ["XS"; "XS"; "XS"]; ["M"; "L"];
     ["XS"; "L"; "XL_row"; "S"; "M"; "S"]]%string.
Proof.
  repeat match goal with |- Forall _ _ => constructor end; vm_compute; reflexivity.
Qed.

(** ** The layout pass on the store computes the layout on values *)

(** *** The composer computes [transformRowBlocks] *)

Lemma loadWidget_alloc h o l w :
  loadWidget h l = Some w -> loadWidget (h ++ [o]) l = Some w.
Proof.
  unfold loadWidget. destruct (nth_error h l) as [o'|] eqn:E; [|discriminate].
  rewrite (nth_error_alloc_old h o' o l E). auto.
Qed.

Lemma loadAll_ext {A} (f g : loc -> option A) ls r :
  (forall l a, In l ls -> f l = Some a -> g l = Some a) ->
  loadAll f ls = Some r -> loadAll g ls = Some r.
Proof.
  revert r. induction ls as [|l ls IH]; intros r Hfg; simpl; [auto|].
  destruct (f l) as [a|] eqn:Ef; [|discriminate].
  destruct (loadAll f ls) as [r'|] eqn:Er; [|discriminate].
  intros Heq. rewrite (Hfg l a (or_introl eq_refl) Ef).
  rewrite (IH r'); [exact Heq| |reflexivity].
  intros l0 a0 Hin. apply Hfg. now right.
Qed.

Lemma loadItem_alloc h o l v :
  loadItem h l = Some v -> loadItem (h ++ [o]) l = Some v.
Proof.
  unfold loadItem. destruct (nth_error h l) as [o'|] eqn:E; [|discriminate].
  rewrite (nth_error_alloc_old h o' o l E).
  destruct o'; try discriminate; [auto|].
  destruct (loadWidget h rb_main) as [mw|] eqn:Em; [|discriminate].
  rewrite (loadWidget_alloc h o _ _ Em).
  unfold loadArray.
  destruct (nth_error h rb_rail) as [ro|] eqn:Er; [|discriminate].
  rewrite (nth_error_alloc_old h ro o _ Er).
  destruct ro; try discriminate.
  destruct (loadAll (loadWidget h) elems) as [ws|] eqn:Ea; [|discriminate].
  rewrite (loadAll_ext (loadWidget h) (loadWidget (h ++ [o])) elems ws); auto.
  intros. now apply loadWidget_alloc.
Qed.

Lemma loadWidget_array_write h a old new l :
  nth_error h a = Some (OArray old) ->
  loadWidget (update h a (OArray new)) l = loadWidget h l.
Proof.
  intros Ha. unfold loadWidget. destruct (Nat.eq_dec a l) as [<-|Hne].
  - rewrite nth_error_update_eq by (apply nth_error_Some; congruence). now rewrite Ha.
  - now rewrite nth_error_update_neq.
Qed.

Lemma loadAll_congr {A} (f g : loc -> option A) ls :
  (forall l, f l = g l) -> loadAll f ls = loadAll g ls.
Proof.
  intros H. induction ls as [|l ls IH]; simpl; [reflexivity|]. now rewrite H, IH.
Qed.

Lemma loadItem_array_write h a old new l :
  nth_error h a = Some (OArray old) -> railOf h l <> Some a ->
  loadItem (update h a (OArray new)) l = loadItem h l.
Proof.
  intros Ha Hrail. unfold loadItem. destruct (Nat.eq_dec a l) as [<-|Hne].
  - rewrite nth_error_update_eq by (apply nth_error_Some; congruence). now rewrite Ha.
  - rewrite nth_error_update_neq by exact Hne.
    destruct (nth_error h l) as [o|] eqn:E; [|reflexivity].
    destruct o; try reflexivity.
    rewrite (loadWidget_array_write h a old new) by exact Ha.
    unfold loadArray. unfold railOf in Hrail. rewrite E in Hrail.
    rewrite nth_error_update_neq by (intros ->; now apply Hrail).
    destruct (nth_error h rb_rail) as [[]|]; try reflexivity.
    rewrite (loadAll_congr (loadWidget (update h a (OArray new))) (loadWidget h)); [reflexivity|].
    intros. now apply loadWidget_array_write with (old := old).
Qed.

Lemma Forall2_firstn {A B} (R : A -> B -> Prop) n : forall l l',
  Forall2 R l l' -> Forall2 R (firstn n l) (firstn n l').
Proof.
  induction n as [|n IH]; intros l l' H; [constructor|].
  destruct H; simpl; constructor; auto.
Qed.

Lemma Forall2_skipn {A B} (R : A -> B -> Prop) n : forall l l',
  Forall2 R l l' -> Forall2 R (skipn n l) (skipn n l').
Proof.
  induction n as [|n IH]; intros l l' H; [exact H|].
  destruct H; simpl; [constructor|auto].
Qed.

Lemma Forall2_rev {A B} (R : A -> B -> Prop) l l' :
  Forall2 R l l' -> Forall2 R (rev l) (rev l').
Proof.
  induction 1; simpl; [constructor|].
  apply Forall2_app; [assumption|]. constructor; [assumption|constructor].
Qed.

Lemma Forall2_splice {A B} (R : A -> B -> Prop) l l' ins ins' s n :
  Forall2 R l l' -> Forall2 R ins ins' ->
  Forall2 R (splice l s n ins) (splice l' s n ins').
Proof.
  intros Hl Hins. unfold splice.
  apply Forall2_app; [now apply Forall2_firstn|].
  apply Forall2_app; [assumption|now apply Forall2_skipn].
Qed.

Lemma Forall2_nth_error {A B} (R : A -> B -> Prop) l l' :
  Forall2 R l l' ->
  forall i a, nth_error l i = Some a -> exists b, nth_error l' i = Some b /\ R a b.
Proof.
  induction 1 as [|x y l l' Hxy Hl IH]; intros [|i] a Hi; simpl in *; try discriminate.
  - injection Hi as <-. eauto.
  - eauto.
Qed.

Lemma loadItem_widget h l w :
  loadItem h l = Some (IWidget w) -> nth_error h l = Some (OWidget w).
Proof.
  unfold loadItem. destruct (nth_error h l) as [[]|]; try discriminate.
  - now intros [= ->].
  - destruct (loadWidget h rb_main); [|discriminate].
    destruct (loadArray h (loadWidget h) rb_rail); discriminate.
Qed.

Lemma loadItem_rowblock h l rb :
  loadItem h l = Some (IRowBlock rb) ->
  exists m r i, nth_error h l = Some (ORowBlock m r i).
Proof.
  unfold loadItem. destruct (nth_error h l) as [[]|]; try discriminate. eauto.
Qed.

Lemma loadItem_isItem h l v : loadItem h l = Some v -> isItem h l.
Proof.
  unfold loadItem, isItem. destruct (nth_error h l) as [[]|]; try discriminate; auto.
Qed.

Lemma loadItem_rail_bound h l v r :
  loadItem h l = Some v -> railOf h l = Some r -> (r < length h)%nat.
Proof.
  unfold loadItem, railOf. destruct (nth_error h l) as [[]|]; try discriminate.
  intros Hl [= ->].
  destruct (loadWidget h rb_main); [|discriminate].
  unfold loadArray in Hl. destruct (nth_error h r) eqn:E; [|discriminate].
  apply nth_error_Some. congruence.
Qed.

Lemma wp_isRowBlockH_repr (l : loc) (v : Item) (h : Heap) (Q : bool -> Heap -> Prop) :
  loadItem h l = Some v -> Q (isRowBlock v) h -> wp (isRowBlockH l) h Q.
Proof.
  intros Hv HQ. apply wp_isRowBlockH; [eapply loadItem_isItem; eassumption| |].
  - intros w Hw. unfold loadItem in Hv. rewrite Hw in Hv. injection Hv as <-. exact HQ.
  - intros m r i Hrb. unfold loadItem in Hv. rewrite Hrb in Hv.
    destruct (loadWidget h m); [|discriminate].
    destruct (loadArray h (loadWidget h) r); [|discriminate].
    injection Hv as <-. exact HQ.
Qed.

Lemma captureBackwardH_refines colCount railTarget (h : Heap) (a : loc)
    (prevs : list loc) (pvs : list Item) :
  itemsRepr h a prevs pvs ->
  forall k cpL cpW st,
    widgetsRepr h cpL cpW ->
    wp (captureBackwardH colCount railTarget prevs k cpL st) h
       (fun r h' =>
          h' = h
          /\ exists cpL' cpW',
               r = (fst (fst (captureBackward colCount railTarget pvs k cpW st)),
                    cpL',
                    snd (captureBackward colCount railTarget pvs k cpW st))
               /\ snd (fst (captureBackward colCount railTarget pvs k cpW st)) = cpW'
               /\ widgetsRepr h cpL' cpW').
Proof.
  induction 1 as [|prev pv prevs pvs [Hpv _] Hrest IH]; intros k cpL cpW st Hcp; simpl.
  - apply wp_ret. split; [reflexivity|]. exists cpL, cpW. auto.
  - apply wp_bind. eapply wp_isRowBlockH_repr; [exact Hpv|].
    destruct pv as [w|rb]; simpl.
    + apply wp_bind. eapply wp_getWidget; [exact (loadItem_widget _ _ _ Hpv)|].
      destruct (negb (effectiveSpan w colCount =? 1));
        [apply wp_ret; split; [reflexivity|]; exists cpL, cpW; auto|].
      destruct (negb (canTake colCount railTarget st w));
        [apply wp_ret; split; [reflexivity|]; exists cpL, cpW; auto|].
      apply IH. apply Forall2_app; [exact Hcp|].
      constructor; [now apply loadItem_widget|constructor].
    + apply wp_ret. split; [reflexivity|]. exists cpL, cpW. auto.
Qed.

Lemma captureForwardH_refines colCount railTarget (h : Heap) (a : loc)
    (nexts : list loc) (nvs : list Item) :
  itemsRepr h a nexts nvs ->
  forall cnL cnW st,
    widgetsRepr h cnL cnW ->
    wp (captureForwardH colCount railTarget nexts cnL st) h
       (fun r h' =>
          h' = h
          /\ snd r = snd (captureForward colCount railTarget nvs cnW st)
          /\ widgetsRepr h (fst r) (fst (captureForward colCount railTarget nvs cnW st))).
Proof.
  induction 1 as [|next nv nexts nvs [Hnv _] Hrest IH]; intros cnL cnW st Hcn; simpl.
  - apply wp_ret. auto.
  - apply wp_bind. eapply wp_isRowBlockH_repr; [exact Hnv|].
    destruct nv as [w|rb]; simpl.
    + apply wp_bind. eapply wp_getWidget; [exact (loadItem_widget _ _ _ Hnv)|].
      destruct (negb (effectiveSpan w colCount =? 1)); [apply wp_ret; auto|].
      destruct (negb (canTake colCount railTarget st w)); [apply wp_ret; auto|].
      apply IH. apply Forall2_app; [exact Hcn|].
      constructor; [now apply loadItem_widget|constructor].
    + apply wp_ret. auto.
Qed.

Lemma agreeExcept_refl S h : agreeExcept S h h.
Proof. intros x o H _. exact H. Qed.

Lemma agreeExcept_write S h h' a o :
  agreeExcept S h h' -> In a S -> agreeExcept S h (update h' a o).
Proof.
  intros Hag Ha x o' Hx Hnin. rewrite nth_error_update_neq; [now apply Hag|].
  intros ->. contradiction.
Qed.

Lemma agreeExcept_alloc S h h' o :
  agreeExcept S h h' -> agreeExcept S h (h' ++ [o]).
Proof.
  intros Hag x o' Hx Hnin. eapply nth_error_alloc_old. now apply Hag.
Qed.

Lemma loadWidget_agree S h h' l w :
  agreeExcept S h h' -> arraysAt S h ->
  nth_error h l = Some (OWidget w) -> nth_error h' l = Some (OWidget w).
Proof.
  intros Hag Harr Hl. apply Hag; [exact Hl|].
  intros Hin. destruct (Harr l _ Hin Hl) as [es Hes]. discriminate.
Qed.

Lemma widgetsRepr_agree S h h' ls ws :
  agreeExcept S h h' -> arraysAt S h ->
  widgetsRepr h ls ws -> widgetsRepr h' ls ws.
Proof.
  intros Hag Harr. apply Forall2_impl. intros l w. now apply loadWidget_agree with (S := S).
Qed.

Lemma loadWidget_obj h l w : loadWidget h l = Some w <-> nth_error h l = Some (OWidget w).
Proof.
  unfold loadWidget. split.
  - destruct (nth_error h l) as [[]|]; try discriminate. now intros [= ->].
  - now intros ->.
Qed.

Lemma loadAll_widgets h ls ws :
  loadAll (loadWidget h) ls = Some ws <-> widgetsRepr h ls ws.
Proof.
  split.
  - revert ws. induction ls as [|l ls IH]; intros ws; simpl.
    + intros [= <-]. constructor.
    + destruct (loadWidget h l) as [w|] eqn:Ew; [|discriminate].
      destruct (loadAll (loadWidget h) ls) as [r|]; [|discriminate].
      intros [= <-]. constructor; [now apply loadWidget_obj|now apply IH].
  - induction 1 as [|l w ls ws Hl Hrest IH]; simpl; [reflexivity|].
    apply loadWidget_obj in Hl. now rewrite Hl, IH.
Qed.

Lemma loadItem_cases h l v :
  loadItem h l = Some v ->
  (exists w, v = IWidget w /\ nth_error h l = Some (OWidget w))
  \/ (exists m r rid mw rl ws,
        v = IRowBlock (mkRowBlock mw ws rid)
        /\ nth_error h l = Some (ORowBlock m r rid)
        /\ nth_error h m = Some (OWidget mw)
        /\ nth_error h r = Some (OArray rl)
        /\ widgetsRepr h rl ws).
Proof.
  unfold loadItem. destruct (nth_error h l) as [[]|] eqn:E; try discriminate.
  - intros [= <-]. left. eauto.
  - destruct (loadWidget h rb_main) as [mw|] eqn:Em; [|discriminate].
    unfold loadArray. destruct (nth_error h rb_rail) as [[]|] eqn:Er; try discriminate.
    destruct (loadAll (loadWidget h) elems) as [ws|] eqn:Ea; [|discriminate].
    intros [= <-]. right. exists rb_main, rb_rail, rbid, mw, elems, ws.
    repeat split; auto. now apply loadWidget_obj. now apply loadAll_widgets.
Qed.

Lemma loadItem_rowblock_intro h l m r rid mw rl ws :
  nth_error h l = Some (ORowBlock m r rid) ->
  nth_error h m = Some (OWidget mw) ->
  nth_error h r = Some (OArray rl) ->
  widgetsRepr h rl ws ->
  loadItem h l = Some (IRowBlock (mkRowBlock mw ws rid)).
Proof.
  intros Hl Hm Hr Hws. unfold loadItem, loadArray. rewrite Hl.
  apply loadWidget_obj in Hm. rewrite Hm, Hr.
  apply loadAll_widgets in Hws. now rewrite Hws.
Qed.

Lemma loadItem_agree S h h' l v :
  agreeExcept S h h' -> arraysAt S h ->
  loadItem h l = Some v ->
  (forall r, railOf h l = Some r -> ~ In r S) ->
  loadItem h' l = Some v /\ railOf h' l = railOf h l.
Proof.
  intros Hag Harr Hv Hrail.
  assert (Hobj : forall x o, nth_error h x = Some o ->
                   (forall es, o <> OArray es) -> nth_error h' x = Some o).
  { intros x o Hx Hno. apply Hag; [exact Hx|].
    intros Hin. destruct (Harr x o Hin Hx) as [es ->]. now apply (Hno es). }
  destruct (loadItem_cases h l v Hv)
    as [[w [-> Hl]]|[m [r [rid [mw [rl [ws [-> [Hl [Hm [Hr Hws]]]]]]]]]]].
  - assert (Hl' : nth_error h' l = Some (OWidget w)) by (apply Hobj; [exact Hl|discriminate]).
    unfold loadItem, railOf. now rewrite Hl', Hl.
  - assert (Hl' : nth_error h' l = Some (ORowBlock m r rid))
      by (apply Hobj; [exact Hl|discriminate]).
    split; [|unfold railOf; now rewrite Hl', Hl].
    eapply loadItem_rowblock_intro; [exact Hl'| | |].
    + apply Hobj; [exact Hm|discriminate].
    + apply Hag; [exact Hr|]. apply Hrail. unfold railOf. now rewrite Hl.
    + eapply widgetsRepr_agree; eassumption.
Qed.

Lemma itemsRepr_agree S h h' a es vs :
  agreeExcept S h h' -> arraysAt S h ->
  itemsRepr h a es vs ->
  Forall (fun l => forall r, railOf h l = Some r -> ~ In r S) es ->
  itemsRepr h' a es vs.
Proof.
  intros Hag Harr Hrepr. induction Hrepr as [|l v es vs [Hv Hr] Hrest IH];
    intros Hsep; [constructor|].
  inversion Hsep as [|? ? Hl Hes]; subst.
  destruct (loadItem_agree S h h' l v Hag Harr Hv Hl) as [Hv' Hr'].
  constructor; [|now apply IH]. split; [exact Hv'|]. now rewrite Hr'.
Qed.

Lemma railOf_alloc h o l r : railOf h l = Some r -> railOf (h ++ [o]) l = Some r.
Proof.
  unfold railOf. destruct (nth_error h l) as [o'|] eqn:E; [|discriminate].
  now rewrite (nth_error_alloc_old h o' o l E).
Qed.

Lemma itemsRepr_alloc h a o es vs :
  itemsRepr h a es vs -> itemsRepr (h ++ [o]) a es vs.
Proof.
  apply Forall2_impl. intros l v [Hv Hr]. split; [now apply loadItem_alloc|].
  unfold railOf in *. destruct (nth_error h l) as [o'|] eqn:E.
  - now rewrite (nth_error_alloc_old h o' o l E).
  - unfold loadItem in Hv. now rewrite E in Hv.
Qed.

Lemma itemsRepr_left h a es vs l :
  itemsRepr h a es vs -> In l es -> exists v, loadItem h l = Some v /\ railOf h l <> Some a.
Proof.
  induction 1 as [|l0 v0 es vs H Hrest IH]; intros []; subst; eauto.
Qed.

(** One seed: the store-level body computes [composeAt]. *)
Lemma composeAtH_refines (h : Heap) (items : loc) (es : list loc) (vs : list Item)
    (i : nat) (current : loc) (w : Widget) (colCount : Z) :
  nth_error h items = Some (OArray es) ->
  itemsRepr h items es vs ->
  nth_error es i = Some current ->
  nth_error h current = Some (OWidget w) ->
  wp (composeAtH items i current w colCount) h
     (fun i' h' =>
        exists es',
          nth_error h' items = Some (OArray es')
          /\ itemsRepr h' items es' (fst (composeAt vs i w colCount))
          /\ i' = snd (composeAt vs i w colCount)).
Proof.
  intros Ha Hrepr Hcur Hw.
  assert (Hi : (i < length es)%nat) by (apply nth_error_Some; congruence).
  assert (Hlenv : length es = length vs) by (eapply Forall2_length; eassumption).
  assert (Hi' : (i < length vs)%nat) by lia.
  assert (Hitems : (items < length h)%nat) by (apply nth_error_Some; congruence).
  set (railTarget := (minHeightRem w + layoutConfig.toleranceRem)%Q).
  (* the value-level step, in slices *)
  destruct (composeAt_spec vs i w colCount Hi') as [cpW [HrunB [HpureB HpureF]]].
  fold railTarget in HrunB, HpureB, HpureF.
  destruct (captureBackward_run colCount railTarget (rev (firstn i vs))
              (Z.of_nat i - 1) [] initialRail) as [cpW0 [HeqB HrunB0]].
  assert (cpW0 = cpW) by (eapply greedyRun_det; eassumption). subst cpW0.
  rewrite app_nil_l in HeqB.
  pose proof (greedyRun_prefix _ _ _ _ _ HrunB) as [_ HlenB].
  rewrite length_rev, length_firstn in HlenB.
  unfold composeAtH. fold railTarget.
  apply wp_bind, wp_alloc. apply wp_bind, wp_alloc.
  set (a1 := length h).
  set (h1 := h ++ [OArray []]).
  set (a2 := length h1).
  set (rb := ORowBlock current a1 ("rb-" ++ id w)%string).
  set (h2 := h1 ++ [rb]).
  assert (Ha2len : a2 = S a1) by (unfold a2, h1, a1; rewrite length_app; simpl; lia).
  assert (Ha2 : nth_error h2 items = Some (OArray es)).
  { unfold h2, h1. now do 2 apply nth_error_alloc_old with (o := OArray es). }
  assert (Hrail2 : nth_error h2 a1 = Some (OArray [])).
  { unfold h2. apply nth_error_alloc_old. apply nth_error_alloc_new. }
  assert (Hrb2 : nth_error h2 a2 = Some rb) by apply nth_error_alloc_new.
  assert (Hw2 : nth_error h2 current = Some (OWidget w)).
  { unfold h2, h1. now do 2 apply nth_error_alloc_old with (o := OWidget w). }
  assert (Hrepr2 : itemsRepr h2 items es vs) by (do 2 apply itemsRepr_alloc; exact Hrepr).
  assert (Hne : a1 <> items) by (unfold a1; lia).
  set (S2 := [items; a1]).
  assert (Harr2 : arraysAt S2 h2).
  { intros x o [<-|[<-|[]]] Hx.
    - rewrite Ha2 in Hx. injection Hx as <-. eauto.
    - rewrite Hrail2 in Hx. injection Hx as <-. eauto. }
  assert (Hsep2 : Forall (fun l => forall r, railOf h2 l = Some r -> ~ In r S2) es).
  { apply Forall_forall. intros l Hl r Hr [<-|[<-|[]]].
    - destruct (itemsRepr_left _ _ _ _ l Hrepr2 Hl) as [v [_ Hne']]. contradiction.
    - destruct (itemsRepr_left _ _ _ _ l Hrepr Hl) as [v [Hv _]].
      assert (Hr0 : railOf h l = Some a1).
      { unfold railOf in *. unfold loadItem in Hv.
        destruct (nth_error h l) as [o|] eqn:E; [|discriminate].
        unfold h2, h1 in Hr.
        rewrite (nth_error_alloc_old _ o _ l (nth_error_alloc_old h o _ l E)) in Hr.
        exact Hr. }
      pose proof (loadItem_rail_bound h l v a1 Hv Hr0). unfold a1 in *. lia. }
  (* what the final store must provide *)
  assert (Hfinal : forall hf cnW (rl : list loc),
             agreeExcept S2 h2 hf ->
             nth_error hf a1 = Some (OArray rl) ->
             widgetsRepr h2 rl (rev cpW ++ cnW) ->
             itemsRepr hf items es vs
             /\ loadItem hf a2 = Some (IRowBlock (mkRowBlock w (rev cpW ++ cnW)
                                                   ("rb-" ++ id w)%string))
             /\ railOf hf a2 <> Some items).
  { intros hf cnW rl Hag Hrl Hws.
    split; [eapply itemsRepr_agree; eassumption|].
    assert (Hrbf : nth_error hf a2 = Some rb).
    { apply Hag; [exact Hrb2|]. intros [Hx|[Hx|[]]]; lia. }
    split.
    - eapply loadItem_rowblock_intro; [exact Hrbf| |exact Hrl|].
      + eapply loadWidget_agree; eassumption.
      + eapply widgetsRepr_agree; eassumption.
    - unfold railOf. rewrite Hrbf. simpl. congruence. }
  apply wp_bind. eapply wp_getArray; [exact Ha2|].
  (* backward run *)
  apply wp_bind. eapply wp_mono.
  { apply (captureBackwardH_refines colCount railTarget h2 items
             (rev (firstn i es)) (rev (firstn i vs))).
    - apply Forall2_rev, Forall2_firstn. exact Hrepr2.
    - constructor. }
  rewrite HeqB. cbn [fst snd].
  intros r h' [-> [cpL [cpW' [-> [<- HcpL]]]]].
  assert (HlencL : length cpL = length cpW) by (eapply Forall2_length; eassumption).
  rewrite HlencL.
  destruct cpW as [|p cpW'].
  - (* nothing captured backward *)
    destruct cpL; [|discriminate].
    destruct (HpureF eq_refl) as [cnW [HrunF [HsomeF HnoneF]]].
    destruct (captureForward_run colCount railTarget (skipn (i + 1) vs) [] initialRail)
      as [cnW0 [HeqF HrunF0]].
    replace (i + 1)%nat with (S i) in HrunF0, HeqF by lia.
    assert (cnW0 = cnW) by (eapply greedyRun_det; eassumption). subst cnW0.
    rewrite app_nil_l in HeqF.
    change (length (@nil Widget) =? 0)%nat with true. cbv iota.
    apply wp_bind. apply wp_bind. eapply wp_mono.
    { apply (captureForwardH_refines colCount railTarget h2 items
               (skipn (i + 1) es) (skipn (i + 1) vs)).
      - apply Forall2_skipn. exact Hrepr2.
      - constructor. }
    replace (i + 1)%nat with (S i) by lia. simpl fold_left. rewrite HeqF. cbn [fst snd].
    intros [cnL st'] h' [-> [_ HcnL]]. cbn [fst] in *.
    assert (HlennL : length cnL = length cnW) by (eapply Forall2_length; eassumption).
    rewrite HlennL.
    destruct cnW as [|n cnW'].
    + (* no capture at all *)
      destruct cnL; [|discriminate].
      change (0 <? length (@nil Widget))%nat with false. cbv iota.
      apply wp_bind, wp_ret, wp_ret.
      apply wp_bind. eapply wp_arrayPush; [exact Hrail2|].
      apply wp_bind. eapply wp_getArray.
      { apply nth_error_update_eq. apply nth_error_Some. congruence. }
      simpl. apply wp_ret.
      rewrite (HnoneF eq_refl). cbn [fst snd].
      exists es. split; [|split; [|reflexivity]].
      * rewrite nth_error_update_neq by exact Hne. exact Ha2.
      * eapply itemsRepr_agree; [|exact Harr2|exact Hrepr2|exact Hsep2].
        apply agreeExcept_write; [apply agreeExcept_refl|right; now left].
    + (* forward captures *)
      set (cnW := n :: cnW') in *.
      assert (Hm : (1 <= length cnW)%nat) by (simpl; lia).
      replace (0 <? length cnW)%nat with true by (symmetry; apply Nat.ltb_lt; lia).
      apply wp_bind. eapply wp_arraySplice; [exact Ha2|]. apply wp_ret.
      set (es3 := splice es (S i) (length cnW) []).
      set (h3 := update h2 items (OArray es3)).
      assert (Hrail3 : nth_error h3 a1 = Some (OArray [])).
      { unfold h3. rewrite nth_error_update_neq by congruence. exact Hrail2. }
      apply wp_bind. eapply wp_arrayPush; [exact Hrail3|].
      set (h4 := update h3 a1 (OArray ([] ++ rev [] ++ cnL))).
      assert (Ha4 : nth_error h4 items = Some (OArray es3)).
      { unfold h4. rewrite nth_error_update_neq by exact Hne.
        unfold h3. apply nth_error_update_eq. exact (proj1 (nth_error_Some h2 items) ltac:(congruence)). }
      assert (Hlen3 : (a1 < length h3)%nat) by (apply nth_error_Some; congruence).
      apply wp_bind. eapply wp_getArray.
      { apply nth_error_update_eq. exact Hlen3. }
      simpl rev. rewrite !app_nil_l. rewrite HlennL.
      replace (0 <? length cnW)%nat with true by (symmetry; apply Nat.ltb_lt; lia).
      change (0 <? length (@nil Widget))%nat with false. cbv iota.
      apply wp_bind, wp_ret. apply wp_bind.
      eapply wp_arraySplice; [exact Ha4|]. apply wp_ret.
      set (es5 := splice es3 i 1 [a2]).
      set (h5 := update h4 items (OArray es5)).
      assert (Hag5 : agreeExcept S2 h2 h5).
      { repeat apply agreeExcept_write; try apply agreeExcept_refl;
          unfold S2; simpl; auto. }
      assert (Hrl5 : nth_error h5 a1 = Some (OArray cnL)).
      { unfold h5. rewrite nth_error_update_neq by congruence.
        unfold h4. rewrite !app_nil_l. apply nth_error_update_eq. exact Hlen3. }
      destruct (Hfinal h5 cnW cnL Hag5 Hrl5 HcnL) as [Hr5 [Hrb5 Hsep5]].
      rewrite (HsomeF ltac:(discriminate)). cbn [fst snd].
      exists es5. split; [|split; [|reflexivity]].
      * unfold h5. apply nth_error_update_eq.
        apply nth_error_Some. rewrite Ha4. discriminate.
      * assert (Hes5 : es5 = firstn i es ++ a2 :: skipn (S i + length cnW) es).
        { unfold es5, es3. replace (S i) with (i + 1)%nat by lia.
          rewrite splice_after_then_replace by exact Hi. do 3 f_equal. lia. }
        rewrite Hes5.
        apply Forall2_app; [apply Forall2_firstn; exact Hr5|].
        constructor; [split; assumption|].
        apply Forall2_skipn. exact Hr5.
  - (* backward captures *)
    set (cpW := p :: cpW') in *.
    assert (Hn : (1 <= length cpW)%nat) by (simpl; lia).
    replace (length cpW =? 0)%nat with false by (symmetry; apply Nat.eqb_neq; lia).
    apply wp_bind, wp_ret.
    apply wp_bind. eapply wp_arrayPush; [exact Hrail2|].
    set (h3 := update h2 a1 (OArray ([] ++ rev cpL ++ []))).
    assert (Ha3 : nth_error h3 items = Some (OArray es)).
    { unfold h3. rewrite nth_error_update_neq by exact Hne. exact Ha2. }
    assert (Hlen2 : (a1 < length h2)%nat) by (apply nth_error_Some; congruence).
    apply wp_bind. eapply wp_getArray.
    { apply nth_error_update_eq. exact Hlen2. }
    rewrite app_nil_l, app_nil_r.
    replace (0 <? length (rev cpL))%nat with true
      by (symmetry; apply Nat.ltb_lt; rewrite length_rev; lia).
    replace (0 <? length cpW)%nat with true by (symmetry; apply Nat.ltb_lt; lia).
    replace (Z.of_nat i - (Z.of_nat i - 1 - Z.of_nat (length cpW) + 1))
      with (Z.of_nat (length cpW)) by lia.
    replace (Z.of_nat (length cpW) >? 0) with true by lia.
    replace (Z.of_nat i - 1 - Z.of_nat (length cpW) + 1)
      with (Z.of_nat (i - length cpW)) by lia.
    rewrite !Nat2Z.id.
    apply wp_bind. apply wp_bind.
    eapply wp_arraySplice; [exact Ha3|]. apply wp_ret.
    set (es4 := splice es (i - length cpW) (length cpW) []).
    set (h4 := update h3 items (OArray es4)).
    assert (Hlen3 : (items < length h3)%nat) by (apply nth_error_Some; congruence).
    assert (Ha4 : nth_error h4 items = Some (OArray es4))
      by (apply nth_error_update_eq; exact Hlen3).
    apply wp_bind. eapply wp_arraySplice; [exact Ha4|]. apply wp_ret.
    set (es5 := splice es4 (i - length cpW) 1 [a2]).
    set (h5 := update h4 items (OArray es5)).
    assert (Hag5 : agreeExcept S2 h2 h5).
    { repeat apply agreeExcept_write; try apply agreeExcept_refl;
        unfold S2; simpl; auto. }
    assert (Hrl5 : nth_error h5 a1 = Some (OArray (rev cpL))).
    { unfold h5, h4. rewrite !nth_error_update_neq by congruence.
      unfold h3. rewrite app_nil_l, app_nil_r. apply nth_error_update_eq. exact Hlen2. }
    destruct (Hfinal h5 [] (rev cpL) Hag5 Hrl5) as [Hr5 [Hrb5 Hsep5]].
    { rewrite app_nil_r. apply Forall2_rev. exact HcpL. }
    rewrite app_nil_r in Hrb5.
    rewrite (HpureB ltac:(discriminate)). cbn [fst snd].
    exists es5. split; [|split; [|reflexivity]].
    + unfold h5. apply nth_error_update_eq. unfold h4. rewrite length_update. exact Hlen3.
    + assert (Hes5 : es5 = firstn (i - length cpW) es ++ a2 :: skipn (S i) es).
      { unfold es5, es4. rewrite splice_remove_then_replace by lia.
        do 3 f_equal. lia. }
      rewrite Hes5.
      apply Forall2_app; [apply Forall2_firstn; exact Hr5|].
      constructor; [split; assumption|].
      apply Forall2_skipn. exact Hr5.
Qed.

Lemma composeLoopH_refines (colCount : Z) (fuel : nat) :
  forall h items es vs i out,
    nth_error h items = Some (OArray es) ->
    itemsRepr h items es vs ->
    composeLoop fuel vs i colCount = Some out ->
    wp (composeLoopH fuel items i colCount) h
       (fun _ h' => exists es', nth_error h' items = Some (OArray es')
                                /\ itemsRepr h' items es' out).
Proof.
  induction fuel as [|fuel IH]; intros h items es vs i out Ha Hrepr Hloop;
    [discriminate|].
  simpl in Hloop. simpl composeLoopH.
  apply wp_bind. eapply wp_getArray; [exact Ha|].
  destruct (nth_error es i) as [current|] eqn:Ecur.
  - destruct (Forall2_nth_error _ _ _ Hrepr i current Ecur) as [v [Ev [Hv _]]].
    rewrite Ev in Hloop.
    apply wp_bind. eapply wp_isRowBlockH_repr; [exact Hv|].
    destruct v as [w|rb]; simpl.
    + apply wp_bind. eapply wp_getWidget; [exact (loadItem_widget _ _ _ Hv)|].
      destruct (negb (effectiveSpan w colCount =? 3)).
      * eapply IH; eassumption.
      * apply wp_bind. eapply wp_mono.
        { eapply composeAtH_refines; [exact Ha|exact Hrepr|exact Ecur|].
          exact (loadItem_widget _ _ _ Hv). }
        intros i' h' [es' [Ha' [Hrepr' ->]]].
        destruct (composeAt vs i w colCount) as [vs' i'] eqn:Eat.
        eapply IH; eassumption.
    + eapply IH; eassumption.
  - assert (Hnone : nth_error vs i = None).
    { apply nth_error_None. apply nth_error_None in Ecur.
      rewrite <- (Forall2_length Hrepr). exact Ecur. }
    rewrite Hnone in Hloop. injection Hloop as <-.
    apply wp_ret. eauto.
Qed.

Lemma itemsRepr_load h a es vs :
  itemsRepr h a es vs -> loadAll (loadItem h) es = Some vs.
Proof.
  induction 1 as [|l v es vs [Hv _] Hrest IH]; simpl; [reflexivity|].
  now rewrite Hv, IH.
Qed.

(** The composer on the store computes [transformRowBlocks]. *)
Theorem transformRowBlocksH_refines (h : Heap) (widgetsInOrder : loc)
    (es : list loc) (vs : list Item) (colCount : Z) :
  nth_error h widgetsInOrder = Some (OArray es) ->
  Forall2 (fun l v => loadItem h l = Some v) es vs ->
  wp (transformRowBlocksH widgetsInOrder colCount) h
     (fun items h' =>
        loadArray h' (loadItem h') items = Some (transformRowBlocks vs colCount)).
Proof.
  intros Ha Hvs. unfold transformRowBlocksH, transformRowBlocks.
  set (h1 := h ++ [OArray es]).
  assert (Ha1 : nth_error h1 (length h) = Some (OArray es)) by apply nth_error_alloc_new.
  assert (Hrepr1 : itemsRepr h1 (length h) es vs).
  { apply itemsRepr_alloc. revert Hvs. apply Forall2_impl. intros l v Hv.
    split; [exact Hv|]. intros Hr.
    pose proof (loadItem_rail_bound h l v _ Hv Hr). lia. }
  destruct (negb (colCount =? 4)).
  - unfold arrayCopy. apply wp_bind. eapply wp_getArray; [exact Ha|].
    apply wp_alloc. fold h1. unfold loadArray. rewrite Ha1.
    eapply itemsRepr_load. exact Hrepr1.
  - apply wp_bind. unfold arrayCopy. apply wp_bind.
    eapply wp_getArray; [exact Ha|]. apply wp_alloc. fold h1.
    apply wp_bind. eapply wp_getArray; [exact Ha1|].
    rewrite (Forall2_length Hvs).
    destruct (composeLoop_terminates colCount (S (length vs)) vs 0) as [out Hout]; [lia|].
    rewrite Hout.
    apply wp_bind. eapply wp_mono.
    { eapply composeLoopH_refines; eassumption. }
    intros _ h' [es' [Ha' Hrepr']]. apply wp_ret.
    unfold loadArray. rewrite Ha'. eapply itemsRepr_load. exact Hrepr'.
Qed.

(** *** The packer computes [packRows] *)

Lemma itemsKept_item h0 h it v :
  itemsKept h0 h -> loadItem h0 it = Some v ->
  (exists w, v = IWidget w /\ nth_error h it = Some (OWidget w))
  \/ (exists rb m r rid, v = IRowBlock rb /\ nth_error h it = Some (ORowBlock m r rid)).
Proof.
  intros Hk Hv. rewrite (Hk it v Hv).
  destruct (loadItem_cases h0 it v Hv)
    as [[w [-> Hl]]|[m [r [rid [mw [rl [ws [-> [Hl _]]]]]]]]]; [left|right]; eauto 10.
Qed.

Lemma wp_isRowBlockH_kept h0 h it v (Q : bool -> Heap -> Prop) :
  itemsKept h0 h -> loadItem h0 it = Some v ->
  Q (isRowBlock v) h -> wp (isRowBlockH it) h Q.
Proof.
  intros Hk Hv HQ. unfold isRowBlockH. apply wp_bind.
  destruct (itemsKept_item h0 h it v Hk Hv) as [[w [-> Hl]]|[rb [m [r [rid [-> Hl]]]]]];
    (eapply wp_read; [exact Hl|]); apply wp_ret; exact HQ.
Qed.

Lemma wp_itemSpanH_kept h0 h it v colCount (Q : Z -> Heap -> Prop) :
  itemsKept h0 h -> loadItem h0 it = Some v ->
  Q (itemSpan v colCount) h -> wp (itemSpanH it colCount) h Q.
Proof.
  intros Hk Hv HQ. unfold itemSpanH. apply wp_bind.
  eapply wp_isRowBlockH_kept; [exact Hk|exact Hv|].
  destruct (itemsKept_item h0 h it v Hk Hv) as [[w [-> Hl]]|[rb [m [r [rid [-> Hl]]]]]]; simpl.
  - apply wp_bind. eapply wp_getWidget; [exact Hl|]. apply wp_ret. exact HQ.
  - apply wp_ret. exact HQ.
Qed.

Lemma filterExpandableH_refines h0 h (cs : list loc) (row : list Cell) :
  itemsKept h0 h ->
  Forall2 (cellRepr h0 h) cs row ->
  wp (filterExpandableH cs) h (fun r h' => h' = h /\ r = expandableLocs cs row).
Proof.
  intros Hk. induction 1 as [|c cell cs row [it [Hc Hit]] Hrest IH]; simpl.
  - apply wp_ret. auto.
  - apply wp_bind. eapply wp_read; [exact Hc|]. cbv beta iota.
    apply wp_bind. eapply wp_isRowBlockH_kept; [exact Hk|exact Hit|].
    apply wp_bind. eapply wp_mono; [exact IH|].
    intros r h' [-> ->]. apply wp_ret. split; [reflexivity|].
    unfold expandable. destruct (isRowBlock (item cell)); reflexivity.
Qed.

Lemma expandableLocs_repr h0 h cs row :
  Forall2 (cellRepr h0 h) cs row ->
  Forall2 (cellRepr h0 h) (expandableLocs cs row) (filter expandable row).
Proof.
  induction 1 as [|c cell cs row Hc Hrest IH]; simpl; [constructor|].
  destruct (expandable cell); [constructor|]; assumption.
Qed.

Lemma everyMinSpanH_refines h0 h (cs : list loc) (row : list Cell) :
  Forall2 (cellRepr h0 h) cs row ->
  wp (everyMinSpanH cs) h
     (fun b h' => h' = h /\ b = forallb (fun cell => span cell =? 1) row).
Proof.
  induction 1 as [|c cell cs row [it [Hc Hit]] Hrest IH]; simpl.
  - apply wp_ret. auto.
  - apply wp_bind. eapply wp_read; [exact Hc|]. cbv beta iota.
    destruct (span cell =? 1); [exact IH|apply wp_ret; auto].
Qed.

Lemma cellRepr_agree h0 h h' S c cell :
  agreeExcept S h h' -> ~ In c S -> cellRepr h0 h c cell -> cellRepr h0 h' c cell.
Proof.
  intros Hag Hnin [it [Hc Hit]]. exists it. split; [now apply Hag|exact Hit].
Qed.

Lemma Forall2_cellRepr_agree h0 h h' S cs row :
  agreeExcept S h h' -> (forall c, In c cs -> ~ In c S) ->
  Forall2 (cellRepr h0 h) cs row -> Forall2 (cellRepr h0 h') cs row.
Proof.
  intros Hag Hdis H. induction H as [|c cell cs row Hc Hrest IH]; [constructor|].
  constructor.
  - eapply cellRepr_agree; [exact Hag| |exact Hc]. apply Hdis. now left.
  - apply IH. intros c' Hc'. apply Hdis. now right.
Qed.

Lemma agreeExcept_trans S h1 h2 h3 :
  agreeExcept S h1 h2 -> agreeExcept S h2 h3 -> agreeExcept S h1 h3.
Proof. intros H12 H23 x o Hx Hn. apply H23; [now apply H12|exact Hn]. Qed.

Lemma agreeExcept_mono S S' h h' :
  (forall x, In x S -> In x S') -> agreeExcept S h h' -> agreeExcept S' h h'.
Proof. intros Hsub Hag x o Hx Hn. apply Hag; [exact Hx|]. intros Hin. apply Hn, Hsub, Hin. Qed.

Lemma expandCellsH_refines h0 (colCount q r : Z) (cs : list loc) (row : list Cell) :
  forall idx h,
    Forall2 (cellRepr h0 h) cs row -> NoDup cs ->
    wp (expandCellsH colCount q r idx (expandableLocs cs row)) h
       (fun _ h' =>
          agreeExcept cs h h'
          /\ Forall2 (cellRepr h0 h') cs (expandCells colCount q r idx row)).
Proof.
  revert row. induction cs as [|c cs IH]; intros row idx h Hrepr Hnd.
  - inversion Hrepr; subst. simpl. apply wp_ret.
    split; [apply agreeExcept_refl|constructor].
  - inversion Hrepr as [|? cell ? row' [it [Hc Hit]] Hrest]; subst.
    inversion Hnd as [|? ? Hnin Hnd']; subst.
    simpl expandableLocs. simpl expandCells.
    destruct (expandable cell) eqn:Eexp.
    + simpl expandCellsH. apply wp_bind. eapply wp_read; [exact Hc|]. cbv beta iota.
      apply wp_bind. apply wp_write; [apply nth_error_Some; congruence|].
      match goal with
      | |- wp _ (update h c ?o) _ => set (h1 := update h c o)
      end.
      assert (Hag1 : agreeExcept [c] h h1).
      { apply agreeExcept_write; [apply agreeExcept_refl|now left]. }
      eapply wp_mono.
      { apply (IH row' (idx + 1) h1); [|exact Hnd'].
        eapply Forall2_cellRepr_agree; [exact Hag1| |exact Hrest].
        intros c' Hc' [<-|[]]. contradiction. }
      intros _ h' [Hag' Hrepr']. split.
      * eapply agreeExcept_trans.
        -- eapply agreeExcept_mono; [|exact Hag1]. intros x [<-|[]]. now left.
        -- eapply agreeExcept_mono; [|exact Hag']. intros x Hx. now right.
      * constructor; [|exact Hrepr'].
        exists it. split; [|exact Hit]. simpl.
        apply Hag'; [|exact Hnin].
        unfold h1. apply nth_error_update_eq. apply nth_error_Some. congruence.
    + eapply wp_mono; [apply (IH row' idx h Hrest Hnd')|].
      intros _ h' [Hag' Hrepr']. split.
      * eapply agreeExcept_mono; [|exact Hag']. intros x Hx. now right.
      * constructor; [|exact Hrepr'].
        eapply cellRepr_agree; [exact Hag'|exact Hnin|]. exists it. auto.
Qed.

Lemma markEqualH_refines h0 (cs : list loc) (row : list Cell) :
  forall h,
    Forall2 (cellRepr h0 h) cs row -> NoDup cs ->
    wp (markEqualH cs) h
       (fun _ h' =>
          agreeExcept cs h h'
          /\ Forall2 (cellRepr h0 h') cs (map markEqual row)).
Proof.
  revert row. induction cs as [|c cs IH]; intros row h Hrepr Hnd.
  - inversion Hrepr; subst. simpl. apply wp_ret.
    split; [apply agreeExcept_refl|constructor].
  - inversion Hrepr as [|? cell ? row' [it [Hc Hit]] Hrest]; subst.
    inversion Hnd as [|? ? Hnin Hnd']; subst.
    simpl. apply wp_bind. eapply wp_read; [exact Hc|]. cbv beta iota.
    apply wp_bind. apply wp_write; [apply nth_error_Some; congruence|].
    match goal with
    | |- wp _ (update h c ?o) _ => set (h1 := update h c o)
    end.
    assert (Hag1 : agreeExcept [c] h h1).
    { apply agreeExcept_write; [apply agreeExcept_refl|now left]. }
    eapply wp_mono.
    { apply (IH row' h1); [|exact Hnd'].
      eapply Forall2_cellRepr_agree; [exact Hag1| |exact Hrest].
      intros c' Hc' [<-|[]]. contradiction. }
    intros _ h' [Hag' Hrepr']. split.
    + eapply agreeExcept_trans.
      * eapply agreeExcept_mono; [|exact Hag1]. intros x [<-|[]]. now left.
      * eapply agreeExcept_mono; [|exact Hag']. intros x Hx. now right.
    + constructor; [|exact Hrepr'].
      exists it. split; [|exact Hit]. cbn [span distributeEqually item markEqual].
      apply Hag'; [|exact Hnin].
      unfold h1. apply nth_error_update_eq. apply nth_error_Some. congruence.
Qed.

Lemma cellRepr_obj h0 h cs row c :
  Forall2 (cellRepr h0 h) cs row -> In c cs ->
  exists it sp de, nth_error h c = Some (OCell it sp de).
Proof.
  induction 1 as [|c0 cell cs row [it [Hc _]] Hrest IH]; intros []; subst; eauto.
Qed.

Lemma itemsKept_agree h0 h h' S :
  itemsKept h0 h -> agreeExcept S h h' ->
  (forall x, In x S -> exists o, nth_error h x = Some o /\
                                 match o with OWidget _ | ORowBlock _ _ _ => False | _ => True end) ->
  itemsKept h0 h'.
Proof.
  intros Hk Hag Hkind it v Hv.
  rewrite <- (Hk it v Hv).
  destruct (itemsKept_item h0 h it v Hk Hv) as [[w [_ Hl]]|[rb [m [r [rid [_ Hl]]]]]];
    rewrite Hl; (apply Hag; [exact Hl|]); intros Hin;
    destruct (Hkind it Hin) as [o [Ho Hno]]; rewrite Hl in Ho; injection Ho as <-;
    exact Hno.
Qed.

Lemma itemsKept_alloc h0 h o : itemsKept h0 h -> itemsKept h0 (h ++ [o]).
Proof.
  intros Hk it v Hv. rewrite <- (Hk it v Hv).
  destruct (itemsKept_item h0 h it v Hk Hv) as [[w [_ Hl]]|[rb [m [r [rid [_ Hl]]]]]];
    rewrite Hl; eapply nth_error_alloc_old; exact Hl.
Qed.

Lemma rowRepr_agree h0 h h' v v' cs cs' S r row :
  rowRepr h0 h v cs r row ->
  agreeExcept S h h' ->
  (forall ca cl, nth_error h r = Some (ORow ca) -> nth_error h ca = Some (OArray cl) ->
     ~ In r S /\ ~ In ca S /\ (forall c, In c cl -> ~ In c S)
     /\ ca <> rowsRef v' /\ ca <> currentRowRef v'
     /\ (forall c, In c cl -> ~ In c cs')) ->
  rowRepr h0 h' v' cs' r row.
Proof.
  intros [ca [cl [Hr [Hca [_ [_ [_ Hcells]]]]]]] Hag Hside.
  destruct (Hside ca cl Hr Hca) as [Hr' [Hca' [Hcl' [Hn1 [Hn2 Hdis]]]]].
  exists ca, cl. split; [now apply Hag|]. split; [now apply Hag|].
  split; [exact Hn1|]. split; [exact Hn2|]. split; [exact Hdis|].
  eapply Forall2_cellRepr_agree; eassumption.
Qed.

Lemma expandableLocs_length h0 h cs row :
  Forall2 (cellRepr h0 h) cs row ->
  length (expandableLocs cs row) = length (filter expandable row).
Proof.
  intros H. eapply Forall2_length. eapply expandableLocs_repr. exact H.
Qed.

(** The expansion step of a flush, lines 329-357. *)
Lemma flushCellsH_refines h0 h (colCount used : Z) (cs : list loc) (row : list Cell) :
  itemsKept h0 h ->
  Forall2 (cellRepr h0 h) cs row -> NoDup cs ->
  wp (if colCount - used >? 0 then
        expandableWidgets <- filterExpandableH cs ;;
        let count := Z.of_nat (length expandableWidgets) in
        if count >? 0 then
          allAreMinSpan <- everyMinSpanH expandableWidgets ;;
          if allAreMinSpan && (colCount - used <? count) then markEqualH cs
          else expandCellsH colCount ((colCount - used) / count)
                 (Z.rem (colCount - used) count) 0 expandableWidgets
        else ret tt
      else ret tt)%heap h
     (fun _ h' =>
        agreeExcept cs h h'
        /\ Forall2 (cellRepr h0 h') cs (flushCells colCount used row)).
Proof.
  intros Hk Hrepr Hnd. unfold flushCells.
  destruct (colCount - used >? 0);
    [|apply wp_ret; split; [apply agreeExcept_refl|exact Hrepr]].
  apply wp_bind. eapply wp_mono; [eapply filterExpandableH_refines; eassumption|].
  intros ex h' [-> ->]. cbv zeta.
  rewrite (expandableLocs_length h0 h cs row Hrepr).
  destruct (Z.of_nat (length (filter expandable row)) >? 0);
    [|apply wp_ret; split; [apply agreeExcept_refl|exact Hrepr]].
  apply wp_bind. eapply wp_mono.
  { eapply everyMinSpanH_refines. eapply expandableLocs_repr. exact Hrepr. }
  intros b h' [-> ->].
  destruct (forallb _ _ && _).
  - now apply markEqualH_refines.
  - now apply expandCellsH_refines.
Qed.

Lemma flushH_refines h0 (colCount : Z) (h : Heap) (v : PackVars) (st : PackState) :
  packRepr h0 h v st ->
  wp (flushH colCount v) h (fun v' h' => packRepr h0 h' v' (flush colCount st)).
Proof.
  intros Hinv.
  pose proof Hinv as [Hused [Hne [Hk [rs [cs [Hrs [Hcs [Hnd [Hcells Hrows]]]]]]]]].
  unfold flushH, flush. apply wp_bind. eapply wp_getArray; [exact Hcs|].
  destruct (currentRow st) as [|cell0 row0] eqn:Erow.
  { inversion Hcells; subst. simpl. apply wp_ret. exact Hinv. }
  rewrite <- Erow in *.
  assert (Hlen : length cs = length (currentRow st)) by (eapply Forall2_length; eassumption).
  replace (length cs =? 0)%nat with false
    by (symmetry; apply Nat.eqb_neq; rewrite Hlen, Erow; discriminate).
  apply wp_bind. rewrite Hused.
  eapply wp_mono; [apply (flushCellsH_refines h0 h colCount (used st) cs (currentRow st));
                   assumption|].
  intros _ h1 [Hag1 Hcells1].
  set (fl := flushCells colCount (used st) (currentRow st)) in *.
  assert (Hcellobj : forall c, In c cs -> exists it sp de, nth_error h c = Some (OCell it sp de))
    by (intros c; eapply cellRepr_obj; eassumption).
  assert (Hrs1 : nth_error h1 (rowsRef v) = Some (OArray rs)).
  { apply Hag1; [exact Hrs|]. intros Hin.
    destruct (Hcellobj _ Hin) as [it [sp [de Hc]]]. congruence. }
  assert (Hcs1 : nth_error h1 (currentRowRef v) = Some (OArray cs)).
  { apply Hag1; [exact Hcs|]. intros Hin.
    destruct (Hcellobj _ Hin) as [it [sp [de Hc]]]. congruence. }
  apply wp_bind, wp_alloc.
  set (rnew := length h1).
  set (h2 := h1 ++ [ORow (currentRowRef v)]).
  assert (Hrs2 : nth_error h2 (rowsRef v) = Some (OArray rs))
    by (apply nth_error_alloc_old; exact Hrs1).
  assert (Hlt2 : (rowsRef v < length h2)%nat) by (apply nth_error_Some; congruence).
  apply wp_bind. eapply wp_arrayPush; [exact Hrs2|].
  set (h3 := update h2 (rowsRef v) (OArray (rs ++ [rnew]))).
  apply wp_bind, wp_alloc. apply wp_ret.
  set (fresh := length h3).
  set (h4 := h3 ++ [OArray []]).
  assert (Hlen3 : length h3 = length h2) by apply length_update.
  assert (Hlen2 : length h2 = S (length h1)) by (unfold h2; rewrite length_app; simpl; lia).
  (* objects kept from [h1] to [h4], except the rows array *)
  assert (Hag4 : agreeExcept [rowsRef v] h1 h4).
  { apply agreeExcept_alloc. apply agreeExcept_write; [|now left].
    apply agreeExcept_alloc. apply agreeExcept_refl. }
  assert (Hag : agreeExcept (rowsRef v :: cs) h h4).
  { eapply agreeExcept_trans.
    - eapply agreeExcept_mono; [|exact Hag1]. intros x Hx. now right.
    - eapply agreeExcept_mono; [|exact Hag4]. intros x [<-|[]]. now left. }
  assert (Hvalid1 : forall x o, nth_error h1 x = Some o -> (x < rnew)%nat).
  { intros x o Hx. apply nth_error_Some. congruence. }
  unfold packRepr. cbn [usedNow rowsRef currentRowRef used rows currentRow].
  change (update h2 (rowsRef v) (OArray (rs ++ [rnew]))) with h3.
  change (length h3) with fresh. change (h3 ++ [OArray []]) with h4.
  assert (Hfresh : rowsRef v <> fresh).
  { intros Heq. rewrite Heq in Hlt2. unfold fresh in Hlt2. rewrite Hlen3 in Hlt2.
    exact (Nat.lt_irrefl _ Hlt2). }
  split; [reflexivity|]. split; [exact Hfresh|]. split.
  { eapply itemsKept_agree; [exact Hk|exact Hag|].
    intros x [<-|Hin].
    - eexists. split; [exact Hrs|exact I].
    - destruct (Hcellobj _ Hin) as [it [sp [de Hc]]]. eexists. split; [exact Hc|exact I]. }
  exists (rs ++ [rnew]), []. split.
  { apply nth_error_alloc_old. apply nth_error_update_eq. exact Hlt2. }
  split; [apply nth_error_alloc_new|]. split; [constructor|]. split; [constructor|].
  apply Forall2_app.
  - (* the rows emitted before *)
    eapply Forall2_impl; [|exact Hrows].
    intros r row Hr. eapply rowRepr_agree; [exact Hr|exact Hag|].
    intros ca cl Hrr Hca.
    pose proof Hr as [ca' [cl' [Hrr' [Hca' [Hn1 [Hn2 [Hdis Hcl]]]]]]].
    assert (ca' = ca) by congruence; subst ca'.
    assert (cl' = cl) by congruence; subst cl'.
    cbn [rowsRef currentRowRef].
    split; [|split; [|split; [|split; [|split]]]].
    + intros [Heq|Hin]; [congruence|].
      destruct (Hcellobj _ Hin) as [it [sp [de Hc]]]. congruence.
    + intros [Heq|Hin]; [congruence|].
      destruct (Hcellobj _ Hin) as [it [sp [de Hc]]]. congruence.
    + intros c Hc [Heq|Hin]; [|exact (Hdis c Hc Hin)].
      subst c.
      destruct (cellRepr_obj _ _ _ _ _ Hcl Hc) as [it [sp [de Hc']]]. congruence.
    + exact Hn1.
    + intros Heq.
      assert (Hlt : (ca < rnew)%nat).
      { apply (Hvalid1 ca (OArray cl)). apply Hag1; [exact Hca|].
        intros Hin. destruct (Hcellobj _ Hin) as [it [sp [de Hc]]]. congruence. }
      rewrite Heq in Hlt. unfold fresh, rnew in Hlt. rewrite Hlen3, Hlen2 in Hlt.
      clear - Hlt. lia.
    + intros c _ [].
  - (* the row just closed *)
    constructor; [|constructor].
    exists (currentRowRef v), cs. cbn [rowsRef currentRowRef cells].
    split.
    { apply nth_error_alloc_old. unfold h3.
      rewrite nth_error_update_neq
        by (intros Heq; apply (Nat.lt_irrefl rnew); rewrite <- Heq at 1;
            eapply Hvalid1; exact Hrs1).
      apply nth_error_alloc_new. }
    split.
    { apply Hag4; [exact Hcs1|]. intros [Heq|[]]. congruence. }
    split; [congruence|]. split.
    { intros Heq. assert (Hlt : (currentRowRef v < rnew)%nat) by (eapply Hvalid1; exact Hcs1).
      rewrite Heq in Hlt. unfold fresh, rnew in Hlt. rewrite Hlen3, Hlen2 in Hlt.
      clear - Hlt. lia. }
    split; [intros c _ []|].
    eapply Forall2_cellRepr_agree; [exact Hag4| |exact Hcells1].
    intros c Hc [Heq|[]]. subst c.
    destruct (Hcellobj _ Hc) as [it [sp [de Hc']]]. congruence.
Qed.

Lemma valid_lt (h : Heap) (x : loc) (o : Obj) :
  nth_error h x = Some o -> (x < length h)%nat.
Proof. intros H. apply nth_error_Some. congruence. Qed.

Lemma length_alloc (h : Heap) (o : Obj) : length (h ++ [o]) = S (length h).
Proof. rewrite length_app. simpl. lia. Qed.

(** Lines 375-378: a full-width item becomes a row of its own. *)
Lemma emitFullRow_refines h0 h v st it item (colCount : Z) :
  packRepr h0 h v st -> loadItem h0 it = Some item ->
  wp (cell <- alloc (OCell it colCount false) ;;
      cs <- alloc (OArray [cell]) ;;
      r <- alloc (ORow cs) ;;
      arrayPush (rowsRef v) [r] ;;;
      ret v) h
     (fun v' h' =>
        packRepr h0 h' v'
          {| rows := rows st ++ [mkRow [mkCell item colCount false]];
             currentRow := currentRow st;
             used := used st |}).
Proof.
  intros [Hused [Hne [Hk [rs [cs [Hrs [Hcs [Hnd [Hcells Hrows]]]]]]]]] Hit.
  apply wp_bind, wp_alloc. apply wp_bind, wp_alloc. apply wp_bind, wp_alloc. cbv beta.
  remember (length h) as c eqn:Ec.
  remember (h ++ [OCell it colCount false]) as h1 eqn:E1.
  remember (length h1) as ca eqn:Eca.
  match goal with |- context [h1 ++ [?o]] => remember (h1 ++ [o]) as h2 eqn:E2 end.
  remember (length h2) as r eqn:Er.
  remember (h2 ++ [ORow ca]) as h3 eqn:E3.
  assert (Hl1 : length h1 = S (length h)) by (rewrite E1; apply length_alloc).
  assert (Hl2 : length h2 = S (length h1)) by (rewrite E2; apply length_alloc).
  assert (Hl3 : length h3 = S (length h2)) by (rewrite E3; apply length_alloc).
  assert (Hrs3 : nth_error h3 (rowsRef v) = Some (OArray rs)).
  { rewrite E3, E2, E1. now do 3 apply nth_error_alloc_old. }
  apply wp_bind. eapply wp_arrayPush; [exact Hrs3|]. apply wp_ret.
  cbv beta. match goal with |- packRepr _ ?hh _ _ => remember hh as h4 eqn:E4 end.
  assert (Hag : agreeExcept [rowsRef v] h h4).
  { rewrite E4, E3, E2, E1. apply agreeExcept_write; [|now left].
    do 3 apply agreeExcept_alloc. apply agreeExcept_refl. }
  assert (Hlrows : (rowsRef v < length h)%nat) by (eapply valid_lt; exact Hrs).
  assert (Hlcur : (currentRowRef v < length h)%nat) by (eapply valid_lt; exact Hcs).
  assert (Hcellobj : forall x, In x cs -> exists it sp de, nth_error h x = Some (OCell it sp de))
    by (intros x; eapply cellRepr_obj; eassumption).
  assert (Hc4 : nth_error h4 c = Some (OCell it colCount false)).
  { rewrite E4, nth_error_update_neq by lia. rewrite E3, E2.
    do 2 apply nth_error_alloc_old. rewrite E1, Ec. apply nth_error_alloc_new. }
  assert (Hca4 : nth_error h4 ca = Some (OArray [c])).
  { rewrite E4, nth_error_update_neq by lia. rewrite E3.
    apply nth_error_alloc_old. rewrite E2, Eca. apply nth_error_alloc_new. }
  assert (Hr4 : nth_error h4 r = Some (ORow ca)).
  { rewrite E4, nth_error_update_neq by lia. rewrite E3, Er. apply nth_error_alloc_new. }
  unfold packRepr. cbn [usedNow rowsRef currentRowRef used rows currentRow].
  split; [exact Hused|]. split; [exact Hne|]. split.
  { eapply itemsKept_agree; [exact Hk|exact Hag|].
    intros x [<-|[]]. eexists. split; [exact Hrs|exact I]. }
  exists (rs ++ [r]), cs. split.
  { rewrite E4. apply nth_error_update_eq. lia. }
  split.
  { apply Hag; [exact Hcs|]. intros [Heq|[]]. congruence. }
  split; [exact Hnd|]. split.
  { eapply Forall2_cellRepr_agree; [exact Hag| |exact Hcells].
    intros x Hx [Heq|[]]. subst x.
    destruct (Hcellobj _ Hx) as [i [sp [de Hc]]]. congruence. }
  apply Forall2_app.
  - eapply Forall2_impl; [|exact Hrows].
    intros r0 row Hr. eapply rowRepr_agree; [exact Hr|exact Hag|].
    intros ca0 cl Hrr Hca.
    pose proof Hr as [ca' [cl' [Hrr' [Hca' [Hn1 [Hn2 [Hdis Hcl]]]]]]].
    assert (ca' = ca0) by congruence; subst ca'.
    assert (cl' = cl) by congruence; subst cl'.
    split; [|split; [|split; [|split; [|split]]]].
    + intros [Heq|[]]. congruence.
    + intros [Heq|[]]. congruence.
    + intros x Hx [Heq|[]]. subst x.
      destruct (cellRepr_obj _ _ _ _ _ Hcl Hx) as [i [sp [de Hc']]]. congruence.
    + exact Hn1.
    + exact Hn2.
    + exact Hdis.
  - constructor; [|constructor].
    exists ca, [c]. cbn [cells].
    split; [exact Hr4|]. split; [exact Hca4|].
    split; [lia|]. split; [lia|]. split.
    + intros x [<-|[]] Hin.
      destruct (Hcellobj _ Hin) as [i [sp [de Hc]]]. apply valid_lt in Hc. lia.
    + constructor; [|constructor]. exists it. simpl.
      split; [exact Hc4|exact Hit].
Qed.

(** Lines 386-390: a cell appended to the open row. *)
Lemma appendCell_refines h0 h v st it item (sp : Z) :
  packRepr h0 h v st -> loadItem h0 it = Some item ->
  wp (cell <- alloc (OCell it sp false) ;;
      arrayPush (currentRowRef v) [cell] ;;;
      ret {| rowsRef := rowsRef v; currentRowRef := currentRowRef v;
             usedNow := usedNow v + sp |}) h
     (fun v' h' =>
        packRepr h0 h' v'
          {| rows := rows st;
             currentRow := currentRow st ++ [mkCell item sp false];
             used := used st + sp |}).
Proof.
  intros [Hused [Hne [Hk [rs [cs [Hrs [Hcs [Hnd [Hcells Hrows]]]]]]]]] Hit.
  apply wp_bind, wp_alloc. cbv beta.
  remember (length h) as c eqn:Ec.
  remember (h ++ [OCell it sp false]) as h1 eqn:E1.
  assert (Hl1 : length h1 = S (length h)) by (rewrite E1; apply length_alloc).
  assert (Hcs1 : nth_error h1 (currentRowRef v) = Some (OArray cs)).
  { rewrite E1. now apply nth_error_alloc_old. }
  apply wp_bind. eapply wp_arrayPush; [exact Hcs1|]. apply wp_ret.
  cbv beta. match goal with |- packRepr _ ?hh _ _ => remember hh as h2 eqn:E2 end.
  assert (Hag : agreeExcept [currentRowRef v] h h2).
  { rewrite E2, E1. apply agreeExcept_write; [|now left].
    apply agreeExcept_alloc. apply agreeExcept_refl. }
  assert (Hlrows : (rowsRef v < length h)%nat) by (eapply valid_lt; exact Hrs).
  assert (Hlcur : (currentRowRef v < length h)%nat) by (eapply valid_lt; exact Hcs).
  assert (Hcellobj : forall x, In x cs -> exists it sp de, nth_error h x = Some (OCell it sp de))
    by (intros x; eapply cellRepr_obj; eassumption).
  assert (Hc2 : nth_error h2 c = Some (OCell it sp false)).
  { rewrite E2, nth_error_update_neq by lia. rewrite E1, Ec. apply nth_error_alloc_new. }
  unfold packRepr. cbn [usedNow rowsRef currentRowRef used rows currentRow].
  split; [now rewrite Hused|]. split; [exact Hne|]. split.
  { eapply itemsKept_agree; [exact Hk|exact Hag|].
    intros x [<-|[]]. eexists. split; [exact Hcs|exact I]. }
  exists rs, (cs ++ [c]). split.
  { apply Hag; [exact Hrs|]. intros [Heq|[]]. congruence. }
  split.
  { rewrite E2. apply nth_error_update_eq. lia. }
  split.
  { apply NoDup_app; [exact Hnd|repeat constructor; intros []|].
    intros x Hx [<-|[]].
    destruct (Hcellobj _ Hx) as [i [s [de Hc]]]. apply valid_lt in Hc. lia. }
  split.
  { apply Forall2_app.
    - eapply Forall2_cellRepr_agree; [exact Hag| |exact Hcells].
      intros x Hx [Heq|[]]. subst x.
      destruct (Hcellobj _ Hx) as [i [s [de Hc]]]. congruence.
    - constructor; [|constructor]. exists it. simpl.
      split; [exact Hc2|exact Hit]. }
  eapply Forall2_impl; [|exact Hrows].
  intros r0 row Hr. eapply rowRepr_agree; [exact Hr|exact Hag|].
  intros ca0 cl Hrr Hca.
  pose proof Hr as [ca' [cl' [Hrr' [Hca' [Hn1 [Hn2 [Hdis Hcl]]]]]]].
  assert (ca' = ca0) by congruence; subst ca'.
  assert (cl' = cl) by congruence; subst cl'.
  cbn [rowsRef currentRowRef].
  split; [|split; [|split; [|split; [|split]]]].
  - intros [Heq|[]]. congruence.
  - intros [Heq|[]]. congruence.
  - intros x Hx [Heq|[]]. subst x.
    destruct (cellRepr_obj _ _ _ _ _ Hcl Hx) as [i [s [de Hc']]]. congruence.
  - exact Hn1.
  - exact Hn2.
  - intros x Hx Hin. apply in_app_or in Hin. destruct Hin as [Hin|[<-|[]]].
    + exact (Hdis x Hx Hin).
    + destruct (cellRepr_obj _ _ _ _ _ Hcl Hx) as [i [s [de Hc']]].
      apply valid_lt in Hc'. lia.
Qed.

Lemma packStepH_refines h0 (colCount : Z) h v st it item :
  packRepr h0 h v st -> loadItem h0 it = Some item ->
  wp (packStepH colCount v it) h
     (fun v' h' => packRepr h0 h' v' (packStep colCount st item)).
Proof.
  intros Hinv Hit. pose proof Hinv as [Hused [_ [Hk _]]].
  unfold packStepH, packStep. apply wp_bind.
  eapply wp_itemSpanH_kept; [exact Hk|exact Hit|]. cbv zeta.
  destruct (itemSpan item colCount >=? colCount).
  - apply wp_bind. eapply wp_mono; [apply flushH_refines; exact Hinv|].
    intros v1 h1 Hinv1. now apply emitFullRow_refines.
  - apply wp_bind. rewrite Hused.
    destruct (used st + itemSpan item colCount >? colCount).
    + eapply wp_mono; [apply flushH_refines; exact Hinv|].
      intros v1 h1 Hinv1. now apply appendCell_refines.
    + apply wp_ret. now apply appendCell_refines.
Qed.

Lemma packLoopH_refines h0 (colCount : Z) (es : list loc) (vs : list Item) :
  Forall2 (fun l v => loadItem h0 l = Some v) es vs ->
  forall h v st,
    packRepr h0 h v st ->
    wp (packLoopH colCount es v) h
       (fun v' h' => packRepr h0 h' v' (packLoop colCount vs st)).
Proof.
  induction 1 as [|it item es vs Hit Hrest IH]; intros h v st Hinv.
  - apply wp_ret. exact Hinv.
  - cbn [packLoopH]. apply wp_bind.
    eapply wp_mono; [apply packStepH_refines; eassumption|].
    intros v' h' Hinv'. unfold packLoop. cbn [fold_left]. now apply IH.
Qed.

Lemma wp_conj {A : Type} (m : M A) (h : Heap) (Q1 Q2 : A -> Heap -> Prop) :
  wp m h Q1 -> wp m h Q2 -> wp m h (fun a h' => Q1 a h' /\ Q2 a h').
Proof. unfold wp. destruct (m h) as [[a h']|]; [now split|auto]. Qed.

Lemma loadAll_Forall2 {A : Type} (f : loc -> option A) (ls : list loc) (vs : list A) :
  loadAll f ls = Some vs <-> Forall2 (fun l v => f l = Some v) ls vs.
Proof.
  split.
  - revert vs. induction ls as [|l ls IH]; intros vs; simpl.
    + intros [= <-]. constructor.
    + destruct (f l) as [a|] eqn:Ef; [|discriminate].
      destruct (loadAll f ls) as [r|]; [|discriminate].
      intros [= <-]. constructor; [exact Ef|now apply IH].
  - induction 1 as [|l v ls vs Hl _ IH]; simpl; [reflexivity|]. now rewrite Hl, IH.
Qed.

Lemma unchanged_agree h h' : unchanged h h' -> agreeExcept [] h h'.
Proof. intros Hu x o Hx _. now apply Hu. Qed.

Lemma loadItem_unchanged h h' l v :
  unchanged h h' -> loadItem h l = Some v -> loadItem h' l = Some v.
Proof.
  intros Hu Hv.
  apply (loadItem_agree [] h h' l v (unchanged_agree h h' Hu)); [|exact Hv|].
  - intros x o [].
  - intros r _ [].
Qed.

Lemma loadCell_unchanged h h' c cell :
  unchanged h h' -> loadCell h c = Some cell -> loadCell h' c = Some cell.
Proof.
  intros Hu. unfold loadCell.
  destruct (nth_error h c) as [[| | it sp de | | | | | | |]|] eqn:Ec; try discriminate.
  rewrite (Hu _ _ Ec).
  destruct (loadItem h it) as [i|] eqn:Ei; [|discriminate].
  now rewrite (loadItem_unchanged h h' _ _ Hu Ei).
Qed.

Lemma loadRow_unchanged h h' r row :
  unchanged h h' -> loadRow h r = Some row -> loadRow h' r = Some row.
Proof.
  intros Hu. unfold loadRow, loadArray.
  destruct (nth_error h r) as [[| | | ca | | | | | |]|] eqn:Er; try discriminate.
  rewrite (Hu _ _ Er).
  destruct (nth_error h ca) as [[| | | | els | | | | |]|] eqn:Ea; try discriminate.
  rewrite (Hu _ _ Ea).
  destruct (loadAll (loadCell h) els) as [cl|] eqn:El; [|discriminate].
  rewrite (loadAll_ext (loadCell h) (loadCell h') els cl); [auto| |exact El].
  intros l a _. now apply loadCell_unchanged.
Qed.

Lemma cellRepr_load h0 h c cell :
  unchanged h0 h -> cellRepr h0 h c cell -> loadCell h c = Some cell.
Proof.
  intros Hu [it [Hc Hit]]. unfold loadCell. rewrite Hc.
  rewrite (loadItem_unchanged h0 h _ _ Hu Hit). now destruct cell.
Qed.

Lemma rowRepr_load h0 h v cs r row :
  unchanged h0 h -> rowRepr h0 h v cs r row -> loadRow h r = Some row.
Proof.
  intros Hu [ca [cl [Hr [Hca [_ [_ [_ Hcells]]]]]]].
  unfold loadRow, loadArray. rewrite Hr, Hca.
  assert (Hl : loadAll (loadCell h) cl = Some (cells row)).
  { apply loadAll_Forall2. eapply Forall2_impl; [|exact Hcells].
    intros c cell. now apply cellRepr_load. }
  rewrite Hl. now destruct row.
Qed.

Lemma packRepr_load h0 h v st :
  unchanged h0 h -> packRepr h0 h v st ->
  loadArray h (loadRow h) (rowsRef v) = Some (rows st).
Proof.
  intros Hu [_ [_ [_ [rs [cs [Hrs [_ [_ [_ Hrows]]]]]]]]].
  unfold loadArray. rewrite Hrs. apply loadAll_Forall2.
  eapply Forall2_impl; [|exact Hrows]. intros r row. now apply rowRepr_load.
Qed.

Lemma packRowsH_refines (h : Heap) (items : loc) (es : list loc) (vs : list Item)
    (colCount : Z) :
  nth_error h items = Some (OArray es) ->
  Forall2 (fun l v => loadItem h l = Some v) es vs ->
  wp (packRowsH items colCount) h
     (fun rows h' =>
        exists v', rowsRef v' = rows
                   /\ packRepr h h' v' (flush colCount (packLoop colCount vs (mkPack [] [] 0)))).
Proof.
  intros Ha Hvs. unfold packRowsH.
  apply wp_bind, wp_alloc. apply wp_bind, wp_alloc. cbv beta.
  remember (h ++ [OArray []]) as h1 eqn:E1.
  remember (h1 ++ [OArray []]) as h2 eqn:E2.
  assert (Hl1 : length h1 = S (length h)) by (rewrite E1; apply length_alloc).
  assert (Ha2 : nth_error h2 items = Some (OArray es)).
  { rewrite E2, E1. now do 2 apply nth_error_alloc_old. }
  apply wp_bind. eapply wp_getArray; [exact Ha2|].
  apply wp_bind.
  assert (Hinit : packRepr h h2 {| rowsRef := length h; currentRowRef := length h1;
                                   usedNow := 0 |} (mkPack [] [] 0)).
  { unfold packRepr. cbn [usedNow rowsRef currentRowRef used rows currentRow].
    split; [reflexivity|]. split; [lia|]. split.
    { rewrite E2, E1. do 2 apply itemsKept_alloc. intros it v _. reflexivity. }
    exists [], []. split.
    { rewrite E2. apply nth_error_alloc_old. rewrite E1. apply nth_error_alloc_new. }
    split; [rewrite E2; apply nth_error_alloc_new|].
    split; [constructor|]. split; constructor. }
  eapply wp_mono; [eapply packLoopH_refines; [exact Hvs|exact Hinit]|].
  intros v1 h3 Hinv. apply wp_bind.
  eapply wp_mono; [apply flushH_refines; exact Hinv|].
  intros v2 h4 Hinv2. apply wp_ret. exists v2. split; [reflexivity|exact Hinv2].
Qed.

(** The packer on the store computes [packRows]. *)
Theorem packRowsH_computes (h : Heap) (items : loc) (es : list loc) (vs : list Item)
    (colCount : Z) :
  nth_error h items = Some (OArray es) ->
  Forall2 (fun l v => loadItem h l = Some v) es vs ->
  wp (packRowsH items colCount) h
     (fun rows h' =>
        unchanged h h'
        /\ loadArray h' (loadRow h') rows = Some (packRows vs colCount)).
Proof.
  intros Ha Hvs.
  assert (Harr : itemArray h items).
  { exists es. split; [exact Ha|]. clear Ha.
    induction Hvs as [|l v es vs Hl _ IH]; constructor; [|exact IH].
    eapply loadItem_isItem; exact Hl. }
  eapply wp_mono.
  { apply wp_conj; [apply (packRowsH_spec h items colCount Harr)
                   |apply (packRowsH_refines h items es vs colCount Ha Hvs)]. }
  intros rows h' [[Hev _] [v' [<- Hinv]]].
  assert (Hu : unchanged h h') by (apply evolves_unchanged; exact Hev).
  split; [exact Hu|]. unfold packRows. now apply (packRepr_load h h' v').
Qed.

(** The orchestrator on the store computes [layoutSection]: for a section
    object whose widget array holds the widgets [widgets], the layout object
    it returns reads back as the layout of the section value. *)
Theorem layoutSectionH_refines (h : Heap) (section ws : loc) (sid stitle : string)
    (es : list loc) (widgets : list Widget) (containerWidth : Q) :
  nth_error h section = Some (OWidgetSection sid stitle ws) ->
  nth_error h ws = Some (OArray es) ->
  Forall2 (fun l w => nth_error h l = Some (OWidget w)) es widgets ->
  wp (layoutSectionH section containerWidth) h
     (fun layout h' =>
        loadLayout h' layout
        = Some (layoutSection (WidgetSection sid stitle widgets) containerWidth)).
Proof.
  intros Hs Hws Hwidgets. unfold layoutSectionH, layoutSection. cbv zeta.
  set (colCount := getColCountFromWidth containerWidth).
  apply wp_bind. eapply wp_read; [exact Hs|]. cbv beta iota.
  apply wp_bind.
  assert (Hvs : Forall2 (fun l v => loadItem h l = Some v) es (map IWidget widgets)).
  { clear Hws. induction Hwidgets as [|l w es widgets Hl _ IH]; simpl; constructor.
    - unfold loadItem. now rewrite Hl.
    - exact IH. }
  eapply wp_mono; [apply (transformRowBlocksH_refines h ws es _ colCount Hws Hvs)|].
  intros items h1 Hitems. cbv beta in Hitems.
  unfold loadArray in Hitems.
  destruct (nth_error h1 items) as [[| | | | es1 | | | | |]|] eqn:Ei; try discriminate.
  apply loadAll_Forall2 in Hitems.
  apply wp_bind.
  eapply wp_mono; [apply (packRowsH_computes h1 items _ _ colCount Ei Hitems)|].
  intros rows h2 [Hu Hrows]. apply wp_alloc.
  unfold loadLayout. rewrite nth_error_alloc_new.
  assert (Hu3 : unchanged h2 (h2 ++ [OWidgetLayout colCount rows])).
  { intros l o Hl. now apply nth_error_alloc_old. }
  unfold loadArray in *.
  destruct (nth_error h2 rows) as [[| | | | rs | | | | |]|] eqn:Er; try discriminate.
  rewrite (Hu3 _ _ Er).
  rewrite (loadAll_ext (loadRow h2) (loadRow (h2 ++ [OWidgetLayout colCount rows]))
             rs (packRows (transformRowBlocks (map IWidget widgets) colCount) colCount));
    [reflexivity| |exact Hrows].
  intros l a _. now apply loadRow_unchanged.
Qed.

(** ** Row packer: what the rows hold *)

Lemma expandCells_items C q r row :
  forall idx, map item (expandCells C q r idx row) = map item row.
Proof.
  induction row as [|c row IH]; intros idx; simpl; [reflexivity|].
  destruct (expandable c); simpl; now rewrite IH.
Qed.

Lemma flushCells_items C u row : map item (flushCells C u row) = map item row.
Proof.
  unfold flushCells.
  destruct (C - u >? 0); [|reflexivity].
  destruct (Z.of_nat (length (filter expandable row)) >? 0); [|reflexivity].
  destruct (_ && _).
  - rewrite map_map. reflexivity.
  - apply expandCells_items.
Qed.

Lemma flushCells_length C u row : length (flushCells C u row) = length row.
Proof.
  rewrite <- (length_map item (flushCells C u row)), flushCells_items.
  apply length_map.
Qed.

Lemma rowItems_app (a b : list Row) : rowItems (a ++ b) = rowItems a ++ rowItems b.
Proof. unfold rowItems. apply flat_map_app. Qed.

Lemma flush_items C st :
  rowItems (rows (flush C st)) ++ map item (currentRow (flush C st))
  = rowItems (rows st) ++ map item (currentRow st).
Proof.
  unfold flush. destruct (currentRow st) as [|c row] eqn:E; [now rewrite E|].
  cbn [rows currentRow]. rewrite rowItems_app. unfold rowItems at 2.
  cbn [flat_map cells]. rewrite flushCells_items, !app_nil_r. reflexivity.
Qed.

Lemma packStep_items C st it :
  rowItems (rows (packStep C st it)) ++ map item (currentRow (packStep C st it))
  = (rowItems (rows st) ++ map item (currentRow st)) ++ [it].
Proof.
  unfold packStep. cbv zeta.
  destruct (itemSpan it C >=? C).
  - cbn [rows currentRow]. rewrite <- (flush_items C st).
    assert (Hcur : currentRow (flush C st) = []).
    { unfold flush. destruct (currentRow st) eqn:E; [exact E|reflexivity]. }
    rewrite Hcur, rowItems_app. unfold rowItems at 2. simpl.
    now rewrite !app_nil_r.
  - cbn [rows currentRow]. rewrite map_app. simpl.
    destruct (used st + itemSpan it C >? C).
    + rewrite app_assoc, flush_items. reflexivity.
    + now rewrite app_assoc.
Qed.

Lemma packLoop_items C items :
  forall st,
    rowItems (rows (packLoop C items st)) ++ map item (currentRow (packLoop C items st))
    = (rowItems (rows st) ++ map item (currentRow st)) ++ items.
Proof.
  unfold packLoop. induction items as [|it items IH]; intros st; simpl.
  - now rewrite app_nil_r.
  - rewrite IH, packStep_items, <- app_assoc. reflexivity.
Qed.

Lemma flush_current C st : currentRow (flush C st) = [].
Proof. unfold flush. destruct (currentRow st) eqn:E; [exact E|reflexivity]. Qed.

Lemma rowItems_packRows (items : list Item) (C : Z) :
  rowItems (packRows items C) = items.
Proof.
  unfold packRows.
  pose proof (flush_items C (packLoop C items (mkPack [] [] 0))) as H.
  rewrite flush_current, app_nil_r in H. rewrite H, packLoop_items. reflexivity.
Qed.

(** X1.  The packer neither drops, duplicates nor reorders: the items of
    the rows it returns, read row after row, are its input. *)
Theorem packRows_keeps_items (items : list Item) (colCount : Z) :
  rowItems (packRows items colCount) = items
  /\ map item (flat_map cells (packRows items colCount)) = items.
Proof.
  split; [apply rowItems_packRows|].
  rewrite <- (rowItems_packRows items colCount) at 2.
  unfold rowItems. induction (packRows items colCount) as [|r rs IH]; simpl; [reflexivity|].
  now rewrite map_app, IH.
Qed.

(** *** Rows are never empty *)

Lemma flush_nonempty C st :
  Forall (fun r => cells r <> []) (rows st) ->
  Forall (fun r => cells r <> []) (rows (flush C st)).
Proof.
  intros H. unfold flush. destruct (currentRow st) as [|c row] eqn:E; [exact H|].
  cbn [rows]. apply Forall_app. split; [exact H|].
  constructor; [|constructor]. cbn [cells]. intros Hnil.
  apply (f_equal (@length Cell)) in Hnil. rewrite flushCells_length in Hnil.
  discriminate.
Qed.

Lemma packStep_nonempty C st it :
  Forall (fun r => cells r <> []) (rows st) ->
  Forall (fun r => cells r <> []) (rows (packStep C st it)).
Proof.
  intros H. unfold packStep. cbv zeta.
  destruct (itemSpan it C >=? C); cbn [rows].
  - apply Forall_app. split; [now apply flush_nonempty|].
    constructor; [discriminate|constructor].
  - destruct (used st + itemSpan it C >? C); [now apply flush_nonempty|exact H].
Qed.

Lemma packLoop_nonempty C items :
  forall st,
    Forall (fun r => cells r <> []) (rows st) ->
    Forall (fun r => cells r <> []) (rows (packLoop C items st)).
Proof.
  unfold packLoop. induction items as [|it items IH]; intros st H; simpl; [exact H|].
  apply IH. now apply packStep_nonempty.
Qed.

Lemma packRows_nonempty_rows (items : list Item) (C : Z) :
  Forall (fun r => cells r <> []) (packRows items C).
Proof.
  unfold packRows. apply flush_nonempty, packLoop_nonempty. constructor.
Qed.

Lemma rowItems_length_le (rs : list Row) :
  Forall (fun r => cells r <> []) rs -> (length rs <= length (rowItems rs))%nat.
Proof.
  induction 1 as [|r rs Hr _ IH]; simpl; [lia|].
  rewrite length_app, length_map.
  destruct (cells r); [contradiction|]. simpl. lia.
Qed.

(** X2.  Every row the packer returns holds at least one cell, there are
    no more rows than items, and there is a row exactly when there is an
    item. *)
Theorem packRows_rows_nonempty (items : list Item) (colCount : Z) :
  Forall (fun r => cells r <> []) (packRows items colCount)
  /\ (length (packRows items colCount) <= length items)%nat
  /\ (packRows items colCount = [] <-> items = []).
Proof.
  pose proof (packRows_nonempty_rows items colCount) as Hne.
  pose proof (rowItems_length_le _ Hne) as Hle.
  pose proof (rowItems_packRows items colCount) as Hitems.
  rewrite Hitems in Hle.
  split; [exact Hne|]. split; [exact Hle|]. split.
  - intros E. rewrite E in Hitems. simpl in Hitems. now symmetry.
  - intros ->. destruct (packRows [] colCount) eqn:E; [reflexivity|].
    simpl in Hle. lia.
Qed.

Lemma packRows_rows_nonempty_witness : packRows [] 4 = [].
Proof. apply (proj2 (proj2 (proj2 (packRows_rows_nonempty [] 4)))). reflexivity. Defined.


(** *** Spans *)

Lemma expandCells_within C q r row :
  0 <= q ->
  forall idx,
    Forall (freshCell C) row ->
    Forall (spanWithin C) (expandCells C q r idx row).
Proof.
  intros Hq. induction row as [|c row IH]; intros idx H; simpl; [constructor|].
  inversion H as [|? ? [Hs Hlt] Hrest]; subst.
  destruct (expandable c); constructor; try (apply IH; exact Hrest).
  - unfold spanWithin. cbn [item span].
    destruct (idx <? r); lia.
  - unfold spanWithin. lia.
Qed.

Lemma flushCells_within C u row :
  Forall (freshCell C) row -> Forall (spanWithin C) (flushCells C u row).
Proof.
  intros H. unfold flushCells.
  assert (Hsame : Forall (spanWithin C) row).
  { eapply Forall_impl; [|exact H]. intros c [Hs Hlt]. unfold spanWithin. lia. }
  destruct (C - u >? 0) eqn:Erem; [|exact Hsame].
  destruct (Z.of_nat (length (filter expandable row)) >? 0) eqn:Ecnt; [|exact Hsame].
  destruct (_ && _).
  - apply Forall_map. eapply Forall_impl; [|exact Hsame]. intros c Hc. exact Hc.
  - apply expandCells_within; [|exact H].
    apply Z.div_pos; lia.
Qed.

Lemma flush_spans C st : SpanInv C st -> SpanInv C (flush C st).
Proof.
  intros [Hr Hc]. unfold flush. destruct (currentRow st) as [|c row] eqn:E.
  - split; [exact Hr|now rewrite E].
  - split; cbn [rows currentRow]; [|constructor].
    apply Forall_app. split; [exact Hr|]. constructor; [|constructor].
    cbn [cells]. now apply flushCells_within.
Qed.

Lemma packStep_spans C st it : SpanInv C st -> SpanInv C (packStep C st it).
Proof.
  intros Hinv. unfold packStep. cbv zeta.
  destruct (itemSpan it C >=? C) eqn:Efull.
  - destruct (flush_spans C st Hinv) as [Hr Hc].
    split; cbn [rows currentRow]; [|exact Hc].
    apply Forall_app. split; [exact Hr|]. constructor; [|constructor].
    cbn [cells]. constructor; [|constructor]. unfold spanWithin. cbn [item span].
    assert (itemSpan it C <= C).
    { destruct it as [w|rb]; simpl; [unfold effectiveSpan|]; lia. }
    lia.
  - assert (Hst1 : SpanInv C (if used st + itemSpan it C >? C then flush C st else st)).
    { destruct (used st + itemSpan it C >? C); [now apply flush_spans|exact Hinv]. }
    destruct Hst1 as [Hr Hc].
    split; cbn [rows currentRow]; [exact Hr|].
    apply Forall_app. split; [exact Hc|]. constructor; [|constructor].
    unfold freshCell. cbn [item span]. split; [reflexivity|lia].
Qed.

Lemma packLoop_spans C items : forall st, SpanInv C st -> SpanInv C (packLoop C items st).
Proof.
  unfold packLoop. induction items as [|it items IH]; intros st H; simpl; [exact H|].
  apply IH. now apply packStep_spans.
Qed.

(** X3.  Expansion never shrinks a cell and never widens it past the grid:
    every cell of every row spans at least what its item asks for
    ([itemSpan]) and at most [colCount]. *)
Theorem packRows_cell_spans (items : list Item) (colCount : Z) :
  forall row c,
    In row (packRows items colCount) -> In c (cells row) ->
    itemSpan (item c) colCount <= span c <= colCount.
Proof.
  intros row c Hrow Hc.
  assert (Hinv : SpanInv colCount (flush colCount (packLoop colCount items (mkPack [] [] 0)))).
  { apply flush_spans, packLoop_spans. split; constructor. }
  destruct Hinv as [Hr _]. rewrite Forall_forall in Hr.
  specialize (Hr row Hrow). rewrite Forall_forall in Hr. exact (Hr c Hc).
Qed.

Lemma packRows_cell_spans_witness :
  itemSpan (IWidget (makeWidget "w_0" "M")) 4 <= 4 <= 4.
Proof.
  apply (packRows_cell_spans [IWidget (makeWidget "w_0" "M")] 4
           (mkRow [mkCell (IWidget (makeWidget "w_0" "M")) 4 false])
           (mkCell (IWidget (makeWidget "w_0" "M")) 4 false)).
  - vm_compute. left. reflexivity.
  - simpl. left. reflexivity.
Defined.

(** *** Rows fit the grid *)

Lemma bonusCount_step r idx n :
  0 <= n ->
  bonusCount r idx (n + 1) = (if idx <? r then 1 else 0) + bonusCount r (idx + 1) n.
Proof. intros Hn. unfold bonusCount. destruct (idx <? r) eqn:E; lia. Qed.

Lemma sumSpans_cons (c : Cell) (row : list Cell) :
  sumSpans (c :: row) = span c + sumSpans row.
Proof. reflexivity. Qed.

Lemma expandCells_sum_le C q r row :
  forall idx,
    sumSpans (expandCells C q r idx row)
    <= sumSpans row + q * Z.of_nat (length (filter expandable row))
       + bonusCount r idx (Z.of_nat (length (filter expandable row))).
Proof.
  induction row as [|c row IH]; intros idx.
  - simpl. unfold bonusCount. lia.
  - cbn [expandCells filter]. destruct (expandable c).
    + specialize (IH (idx + 1)).
      cbn [length]. rewrite Nat2Z.inj_succ, <- Z.add_1_r.
      rewrite bonusCount_step by lia.
      rewrite !sumSpans_cons. cbn [span].
      destruct (idx <? r); nia.
    + specialize (IH idx). rewrite !sumSpans_cons. lia.
Qed.

Lemma flushCells_sum_le C u row :
  u = sumSpans row -> u <= C -> sumSpans (flushCells C u row) <= C.
Proof.
  intros Hu Hle. unfold flushCells.
  destruct (C - u >? 0) eqn:Erem; [|lia].
  destruct (Z.of_nat (length (filter expandable row)) >? 0) eqn:Ecnt; [|lia].
  destruct (_ && _).
  - assert (Hsame : forall l, sumSpans (map markEqual l) = sumSpans l).
    { induction l as [|x l IHl]; simpl; [reflexivity|]. now rewrite IHl. }
    rewrite Hsame. lia.
  - set (count := Z.of_nat (length (filter expandable row))) in *.
    pose proof (expandCells_sum_le C ((C - u) / count) (Z.rem (C - u) count) row 0) as H.
    fold count in H.
    assert (Hrem : Z.rem (C - u) count = (C - u) mod count) by (apply Z.rem_mod_nonneg; lia).
    pose proof (Z.mod_pos_bound (C - u) count ltac:(lia)) as Hb.
    pose proof (Z.div_mod (C - u) count ltac:(lia)) as Hd.
    assert (Hbonus : bonusCount (Z.rem (C - u) count) 0 count = Z.rem (C - u) count).
    { unfold bonusCount. lia. }
    rewrite Hbonus in H. nia.
Qed.

Lemma flush_fits C st : 0 <= C -> FitInv C st -> FitInv C (flush C st).
Proof.
  intros HC [Hr Hu Hb]. unfold flush. destruct (currentRow st) as [|c row] eqn:E.
  - split; [exact Hr|now rewrite E|exact Hb].
  - split; cbn [rows currentRow used]; [|reflexivity|exact HC].
    apply Forall_app. split; [exact Hr|]. constructor; [|constructor].
    cbn [cells]. now apply flushCells_sum_le.
Qed.

Lemma packStep_fits C st it : 0 <= C -> FitInv C st -> FitInv C (packStep C st it).
Proof.
  intros HC Hinv. unfold packStep. cbv zeta.
  destruct (itemSpan it C >=? C) eqn:Efull.
  - destruct (flush_fits C st HC Hinv) as [Hr Hu Hb].
    split; cbn [rows currentRow used]; [|exact Hu|exact Hb].
    apply Forall_app. split; [exact Hr|]. constructor; [|constructor].
    cbn [cells]. simpl. lia.
  - destruct (used st + itemSpan it C >? C) eqn:Eover.
    + destruct (flush_fits C st HC Hinv) as [Hr Hu Hb].
      assert (Hcur : currentRow (flush C st) = []) by apply flush_current.
      assert (Hz : used (flush C st) = 0).
      { rewrite Hu, Hcur. reflexivity. }
      split; cbn [rows currentRow used]; [exact Hr| |].
      * rewrite sumSpans_app, Hu. simpl. lia.
      * lia.
    + destruct Hinv as [Hr Hu Hb].
      split; cbn [rows currentRow used]; [exact Hr| |lia].
      rewrite sumSpans_app, Hu. simpl. lia.
Qed.

Lemma packLoop_fits C items :
  0 <= C -> forall st, FitInv C st -> FitInv C (packLoop C items st).
Proof.
  intros HC. unfold packLoop.
  induction items as [|it items IH]; intros st H; simpl; [exact H|].
  apply IH. now apply packStep_fits.
Qed.

Lemma packRows_fits (items : list Item) (C : Z) :
  0 <= C -> Forall (fun r => sumSpans (cells r) <= C) (packRows items C).
Proof.
  intros HC. unfold packRows.
  apply (fit_rows C), flush_fits, packLoop_fits; try exact HC.
  split; [constructor|reflexivity|exact HC].
Qed.

Lemma getColCountFromWidth_range (w : Q) : 1 <= getColCountFromWidth w <= 4.
Proof.
  unfold getColCountFromWidth.
  destruct (geq w 1200); [lia|]. destruct (geq w 900); [lia|].
  destruct (geq w 600); lia.
Qed.

(** X4.  No row of a computed layout is wider than the grid: at any
    container width, for either kind of section, the spans of the cells of
    each row add up to at most the column count, which is between 1 and 4. *)
Theorem layoutSection_rows_fit (section : Section) (containerWidth : Q) :
  1 <= getColCountFromWidth containerWidth <= 4
  /\ forall row,
       In row (rowsOf (layoutSection section containerWidth)) ->
       sumSpans (cells row) <= getColCountFromWidth containerWidth.
Proof.
  pose proof (getColCountFromWidth_range containerWidth) as HC.
  split; [exact HC|]. intros row Hrow.
  unfold layoutSection in Hrow. cbv zeta in Hrow.
  destruct section as [sid stitle ws|sid g]; cbn [rowsOf] in Hrow;
    (eapply Forall_forall in Hrow; [exact Hrow|apply packRows_fits; lia]).
Qed.

Lemma layoutSection_rows_fit_witness :
  sumSpans [mkCell (IWidget (makeWidget "w_0" "M")) 4 false] <= getColCountFromWidth 1240.
Proof.
  apply (proj2 (layoutSection_rows_fit
                  (WidgetSection "s_0" "New Section" [makeWidget "w_0" "M"]) 1240)
               (mkRow [mkCell (IWidget (makeWidget "w_0" "M")) 4 false])).
  vm_compute. left. reflexivity.
Defined.

(** ** RowBlock composer: what the items hold *)

Lemma flat_map_itemWidgets_widgets (ws : list Widget) :
  flat_map itemWidgets (map IWidget ws) = ws.
Proof. induction ws as [|w ws IH]; simpl; [reflexivity|]. now rewrite IH. Qed.

Lemma rev_skipn_rev {A : Type} (n : nat) (l : list A) :
  rev (skipn n (rev l)) = firstn (length l - n) l.
Proof.
  rewrite skipn_rev, rev_involutive. reflexivity.
Qed.

(** The items before a seed end with the widgets a backward run took. *)
Lemma backward_run_slice colCount railTarget st (items : list Item) (i : nat)
    (cp : list Widget) :
  (i <= length items)%nat ->
  greedyRun colCount railTarget st (rev (firstn i items)) cp ->
  firstn i items = firstn (i - length cp) items ++ map IWidget (rev cp).
Proof.
  intros Hi Hrun.
  destruct (greedyRun_prefix _ _ _ _ _ Hrun) as [Hpre Hlen].
  rewrite length_rev, length_firstn in Hlen.
  pose proof (firstn_skipn (length cp) (rev (firstn i items))) as Hsplit.
  rewrite Hpre in Hsplit.
  apply (f_equal (@rev Item)) in Hsplit.
  rewrite rev_app_distr, rev_involutive, rev_skipn_rev, length_firstn in Hsplit.
  rewrite firstn_firstn in Hsplit.
  rewrite <- Hsplit, map_rev.
  f_equal. f_equal. lia.
Qed.

Lemma forward_run_slice colCount railTarget st (rest : list Item) (cn : list Widget) :
  greedyRun colCount railTarget st rest cn ->
  rest = map IWidget cn ++ skipn (length cn) rest.
Proof.
  intros Hrun. destruct (greedyRun_prefix _ _ _ _ _ Hrun) as [Hpre _].
  rewrite <- Hpre. symmetry. apply firstn_skipn.
Qed.

Lemma nth_error_split_at {A : Type} (l : list A) (i : nat) (x : A) :
  nth_error l i = Some x -> l = firstn i l ++ x :: skipn (S i) l.
Proof.
  revert i. induction l as [|a l IH]; intros [|i] H; simpl in *; try discriminate.
  - now injection H as ->.
  - f_equal. now apply IH.
Qed.

Lemma composeAt_widgets (items : list Item) (i : nat) (w : Widget) (colCount : Z) :
  nth_error items i = Some (IWidget w) ->
  Permutation (flat_map itemWidgets (fst (composeAt items i w colCount)))
              (flat_map itemWidgets items).
Proof.
  intros Hnth.
  assert (Hi : (i < length items)%nat) by (apply nth_error_Some; congruence).
  destruct (composeAt_spec items i w colCount Hi) as [cp [Hrun [Hback Hfwd]]].
  pose proof (nth_error_split_at items i _ Hnth) as Hsplit.
  destruct cp as [|p cp'].
  - destruct (Hfwd eq_refl) as [cn [Hrunf [Hsome Hnone]]].
    destruct cn as [|n cn'].
    + rewrite (Hnone eq_refl). reflexivity.
    + rewrite Hsome by discriminate. cbn [fst].
      pose proof (forward_run_slice _ _ _ _ _ Hrunf) as Hrest.
      rewrite skipn_skipn in Hrest.
      rewrite Hsplit at 3. rewrite Hrest.
      rewrite !flat_map_app. cbn [flat_map itemWidgets rail main].
      rewrite !flat_map_app, flat_map_itemWidgets_widgets.
      replace (length (n :: cn') + S i)%nat with (S i + length (n :: cn'))%nat by lia.
      apply Permutation_app_head.
      rewrite <- !app_assoc. apply Permutation_sym.
      change (w :: (n :: cn') ++ ?t) with ([w] ++ (n :: cn') ++ t).
      apply Permutation_app_swap_app.
  - rewrite Hback by discriminate. cbn [fst].
    pose proof (backward_run_slice _ _ _ items i _ ltac:(lia) Hrun) as Hpre.
    rewrite Hsplit at 3. rewrite Hpre.
    rewrite !flat_map_app. cbn [flat_map itemWidgets rail main].
    rewrite flat_map_itemWidgets_widgets, <- !app_assoc. reflexivity.
Qed.

Lemma transformRowBlocks_widgets (items : list Item) (colCount : Z) :
  Permutation (flat_map itemWidgets (transformRowBlocks items colCount))
              (flat_map itemWidgets items).
Proof.
  destruct (Z.eq_dec colCount 4) as [->|Hne].
  - pose proof (transformRowBlocks_loop_result items) as Hloop.
    eapply (composeLoop_invariant
              (fun its => Permutation (flat_map itemWidgets its)
                                      (flat_map itemWidgets items)) 4);
      [|reflexivity|exact Hloop].
    intros its i w HP Hnth _.
    eapply Permutation_trans; [apply composeAt_widgets; exact Hnth|exact HP].
  - unfold transformRowBlocks.
    replace (colCount =? 4) with false by (symmetry; apply Z.eqb_neq; exact Hne).
    reflexivity.
Qed.

(** X5.  A layout places every widget of its section exactly once: the
    widgets of the rows of [layoutSection], read cell after cell with a
    RowBlock standing for its rail and its main widget, are a permutation
    of the section's widget array. *)
Theorem layoutSection_places_each_widget_once (section : Section)
    (containerWidth : Q) :
  Permutation
    (flat_map itemWidgets (rowItems (rowsOf (layoutSection section containerWidth))))
    (widgetsOf section).
Proof.
  unfold layoutSection. cbv zeta.
  destruct section as [sid stitle ws|sid g]; cbn [rowsOf widgetsOf];
    rewrite rowItems_packRows;
    (eapply Permutation_trans; [apply transformRowBlocks_widgets|]);
    rewrite flat_map_itemWidgets_widgets; reflexivity.
Qed.

(** *** The shape of a composed RowBlock *)

Lemma composeAt_blocks (items : list Item) (i : nat) (w : Widget) (colCount : Z) :
  (i < length items)%nat ->
  forall x, In x (fst (composeAt items i w colCount)) ->
    In x items
    \/ exists r, x = IRowBlock (mkRowBlock w r ("rb-" ++ id w)%string).
Proof.
  intros Hi x Hx.
  destruct (composeAt_spec items i w colCount Hi) as [cp [Hrun [Hback Hfwd]]].
  assert (Hslices : forall a b y,
             In x (firstn a items ++ y :: skipn b items) -> In x items \/ x = y).
  { intros a b y Hin. apply in_app_or in Hin.
    destruct Hin as [Hin|[Hin|Hin]]; [left|now right|left].
    - rewrite <- (firstn_skipn a items). apply in_or_app. now left.
    - rewrite <- (firstn_skipn b items). apply in_or_app. now right. }
  destruct cp as [|p cp'].
  - destruct (Hfwd eq_refl) as [cn [Hrunf [Hsome Hnone]]].
    destruct cn as [|n cn'].
    + rewrite (Hnone eq_refl) in Hx. now left.
    + rewrite Hsome in Hx by discriminate. cbn [fst] in Hx.
      apply Hslices in Hx. destruct Hx as [Hx|Hx]; [now left|right]. eauto.
  - rewrite Hback in Hx by discriminate. cbn [fst] in Hx.
    apply Hslices in Hx. destruct Hx as [Hx|Hx]; [now left|right]. eauto.
Qed.

(** X6.  A RowBlock the composer builds has a main widget of effective
    span 3 and carries the id ["rb-"] followed by the id of that widget. *)
Theorem transformRowBlocks_block_shape (items : list Item) (colCount : Z) :
  forall rb,
    In (IRowBlock rb) (transformRowBlocks items colCount) ->
    ~ In (IRowBlock rb) items ->
    effectiveSpan (main rb) colCount = 3
    /\ rb_id rb = ("rb-" ++ id (main rb))%string.
Proof.
  intros rb Hin Hnew.
  destruct (Z.eq_dec colCount 4) as [->|Hne].
  - pose proof (transformRowBlocks_loop_result items) as Hloop.
    assert (HP : forall x, In x (transformRowBlocks items 4) ->
               In x items
               \/ exists b, x = IRowBlock b /\ effectiveSpan (main b) 4 = 3
                            /\ rb_id b = ("rb-" ++ id (main b))%string).
    { refine (composeLoop_invariant
                (fun its => forall x, In x its ->
                   In x items
                   \/ exists b, x = IRowBlock b /\ effectiveSpan (main b) 4 = 3
                                /\ rb_id b = ("rb-" ++ id (main b))%string) 4
                _ _ items 0%nat _ (fun x Hx => or_introl Hx) Hloop).
      intros its i w HPits Hnth Hspan x Hx.
      assert (Hi : (i < length its)%nat) by (apply nth_error_Some; congruence).
      destruct (composeAt_blocks its i w 4 Hi x Hx) as [Hold|[r ->]].
      - now apply HPits.
      - right. eexists. split; [reflexivity|]. cbn [main rb_id]. now split. }
    destruct (HP _ Hin) as [Hold|[b [Heq Hb]]]; [contradiction|].
    injection Heq as ->. exact Hb.
  - exfalso. apply Hnew. unfold transformRowBlocks in Hin.
    replace (colCount =? 4) with false in Hin by (symmetry; apply Z.eqb_neq; exact Hne).
    exact Hin.
Qed.

Lemma transformRowBlocks_block_shape_witness :
  let rb := {| main := makeWidget "w_2" "L";
               rail := [makeWidget "w_0" "S"; makeWidget "w_1" "S"];
               rb_id := "rb-w_2" |} in
  effectiveSpan (main rb) 4 = 3 /\ rb_id rb = ("rb-" ++ id (main rb))%string.
Proof.
  intros rb.
  apply (transformRowBlocks_block_shape
           [IWidget (makeWidget "w_0" "S"); IWidget (makeWidget "w_1" "S");
            IWidget (makeWidget "w_2" "L")] 4 rb).
  - vm_compute. left. reflexivity.
  - simpl. intros [H|[H|[H|[]]]]; discriminate H.
Defined.

(** ** Array primitives *)

Lemma findIndex_split {A : Type} (p : A -> bool) (l : list A) (i : nat) :
  findIndex p l = Some i ->
  exists l1 x l2,
    l = l1 ++ x :: l2 /\ length l1 = i /\ p x = true
    /\ Forall (fun y => p y = false) l1.
Proof.
  revert i. induction l as [|a l IH]; intros i H; simpl in H; [discriminate|].
  destruct (p a) eqn:Ea.
  - injection H as <-. exists [], a, l. repeat split; auto.
  - destruct (findIndex p l) as [j|]; [|discriminate]. injection H as <-.
    destruct (IH j eq_refl) as [l1 [x [l2 [-> [Hlen [Hx Hall]]]]]].
    exists (a :: l1), x, l2. repeat split; simpl; auto.
Qed.

Lemma findIndex_None {A : Type} (p : A -> bool) (l : list A) :
  findIndex p l = None <-> Forall (fun y => p y = false) l.
Proof.
  induction l as [|a l IH]; simpl.
  - split; [constructor|reflexivity].
  - destruct (p a) eqn:Ea.
    + split; [discriminate|]. intros H. inversion H; congruence.
    + destruct (findIndex p l) as [j|]; simpl.
      * split; [discriminate|]. intros H. inversion H; subst.
        apply IH in H3. discriminate.
      * split; [|reflexivity]. intros _. constructor; [exact Ea|now apply IH].
Qed.

Lemma findIndex_existsb {A : Type} (p : A -> bool) (l : list A) :
  existsb p l = true -> exists i, findIndex p l = Some i.
Proof.
  intros H. destruct (findIndex p l) as [i|] eqn:E; [eauto|].
  apply findIndex_None in E. apply existsb_exists in H.
  destruct H as [x [Hin Hx]]. rewrite Forall_forall in E.
  rewrite (E x Hin) in Hx. discriminate.
Qed.

Lemma nth_error_middle {A : Type} (l1 l2 : list A) (x : A) :
  nth_error (l1 ++ x :: l2) (length l1) = Some x.
Proof. induction l1; simpl; auto. Qed.

Lemma update_middle {A : Type} (l1 l2 : list A) (x y : A) :
  update (l1 ++ x :: l2) (length l1) y = l1 ++ y :: l2.
Proof. induction l1 as [|a l1 IH]; simpl; [reflexivity|]. now rewrite IH. Qed.

Lemma splice_remove_middle {A : Type} (l1 l2 : list A) (x : A) :
  splice (l1 ++ x :: l2) (length l1) 1 [] = l1 ++ l2.
Proof.
  unfold splice. rewrite firstn_app, firstn_all, Nat.sub_diag. simpl firstn.
  rewrite app_nil_r, app_nil_l.
  replace (length l1 + 1)%nat with (length l1 + 1)%nat by reflexivity.
  rewrite skipn_app. rewrite skipn_all2 by lia.
  replace (length l1 + 1 - length l1)%nat with 1%nat by lia. reflexivity.
Qed.

Lemma splice_insert {A : Type} (l : list A) (k : nat) (x : A) :
  splice l k 0 [x] = firstn k l ++ x :: skipn k l.
Proof. unfold splice. now rewrite Nat.add_0_r. Qed.

Lemma splice_insert_perm {A : Type} (l : list A) (k : nat) (x : A) :
  Permutation (splice l k 0 [x]) (x :: l).
Proof.
  rewrite splice_insert. rewrite <- (firstn_skipn k l) at 3.
  apply Permutation_sym, Permutation_middle.
Qed.

Lemma spliceStart_nat (len i : nat) : spliceStart len (Z.of_nat i) = i.
Proof.
  unfold spliceStart. replace (Z.of_nat i <? 0) with false by (symmetry; apply Z.ltb_ge; lia).
  apply Nat2Z.id.
Qed.

Lemma spliceZ_nat {A : Type} (l : list A) (i n : nat) (ins : list A) :
  spliceZ l (Z.of_nat i) n ins = splice l i n ins.
Proof. unfold spliceZ. now rewrite spliceStart_nat. Qed.

Lemma spliceZ_insert_perm {A : Type} (l : list A) (pos : Z) (x : A) :
  Permutation (spliceZ l pos 0 [x]) (x :: l).
Proof. unfold spliceZ. apply splice_insert_perm. Qed.

(** ** Sections and their widgets *)

Lemma allWidgets_app (a b : list Section) :
  allWidgets (a ++ b) = allWidgets a ++ allWidgets b.
Proof. unfold allWidgets. apply flat_map_app. Qed.

Lemma allWidgets_cons (s : Section) (l : list Section) :
  allWidgets (s :: l) = widgetsOf s ++ allWidgets l.
Proof. reflexivity. Qed.

Lemma widgetsOf_setWidgets (s : Section) (ws : list Widget) :
  widgetsOf (setWidgets s ws) = ws.
Proof. destruct s; reflexivity. Qed.

Lemma sectionId_setWidgets (s : Section) (ws : list Widget) :
  sectionId (setWidgets s ws) = sectionId s.
Proof. destruct s; reflexivity. Qed.

Lemma isWidgetSection_setWidgets (s : Section) (ws : list Widget) :
  isWidgetSection (setWidgets s ws) = isWidgetSection s.
Proof. destruct s; reflexivity. Qed.

Lemma nth_error_split {A : Type} (l : list A) (i : nat) (x : A) :
  nth_error l i = Some x ->
  exists l1 l2, l = l1 ++ x :: l2 /\ length l1 = i.
Proof.
  intros H. exists (firstn i l), (skipn (S i) l). split.
  - now apply nth_error_split_at.
  - rewrite length_firstn. assert (i < length l)%nat by (apply nth_error_Some; congruence).
    lia.
Qed.

Lemma modifyWidgetsAt_middle (l1 l2 : list Section) (s : Section)
    (f : list Widget -> list Widget) :
  modifyWidgetsAt (l1 ++ s :: l2) (length l1) f
  = l1 ++ setWidgets s (f (widgetsOf s)) :: l2.
Proof.
  unfold modifyWidgetsAt. rewrite nth_error_middle. apply update_middle.
Qed.

Lemma modifyWidgetsAt_ids (secs : list Section) (i : nat) f :
  map sectionId (modifyWidgetsAt secs i f) = map sectionId secs.
Proof.
  unfold modifyWidgetsAt. destruct (nth_error secs i) as [s|] eqn:E; [|reflexivity].
  destruct (nth_error_split secs i s E) as [l1 [l2 [-> <-]]].
  rewrite update_middle, !map_app. simpl. now rewrite sectionId_setWidgets.
Qed.

Lemma modifyWidgetsAt_length (secs : list Section) (i : nat) f :
  length (modifyWidgetsAt secs i f) = length secs.
Proof.
  rewrite <- (length_map sectionId), modifyWidgetsAt_ids. apply length_map.
Qed.

(** The widgets of the dashboard after the widget array of one section is
    changed. *)
Lemma allWidgets_modify (secs : list Section) (i : nat) (s : Section) f :
  nth_error secs i = Some s ->
  Permutation (allWidgets (modifyWidgetsAt secs i f) ++ widgetsOf s)
              (allWidgets secs ++ f (widgetsOf s)).
Proof.
  intros E. destruct (nth_error_split secs i s E) as [l1 [l2 [-> <-]]].
  rewrite modifyWidgetsAt_middle, !allWidgets_app, !allWidgets_cons,
    widgetsOf_setWidgets.
  rewrite <- !app_assoc.
  apply Permutation_app_head.
  eapply Permutation_trans; [apply Permutation_app_comm|].
  rewrite (app_assoc (widgetsOf s)).
  apply Permutation_app_tail, Permutation_app_comm.
Qed.

Lemma removeSectionsWithId_empty (sid : string) (secs : list Section) :
  (forall s, In s secs -> sectionId s = sid -> widgetsOf s = []) ->
  allWidgets (removeSectionsWithId sid secs) = allWidgets secs.
Proof.
  unfold removeSectionsWithId.
  induction secs as [|s secs IH]; intros H; [reflexivity|].
  cbn [filter]. rewrite allWidgets_cons.
  destruct (sectionId s =? sid)%string eqn:E; cbn [negb].
  - rewrite (H s (or_introl eq_refl)) by (now apply String.eqb_eq).
    cbn [app]. apply IH. intros s' Hs'. apply H. now right.
  - rewrite allWidgets_cons. f_equal. apply IH. intros s' Hs'. apply H. now right.
Qed.

Lemma removeSectionsWithId_subset (sid : string) (secs : list Section) (s : Section) :
  In s (removeSectionsWithId sid secs) <-> In s secs /\ sectionId s <> sid.
Proof.
  unfold removeSectionsWithId. rewrite filter_In.
  split; intros [H1 H2]; split; auto.
  - intros E. apply String.eqb_eq in E. rewrite E in H2. discriminate.
  - apply negb_true_iff. now apply String.eqb_neq.
Qed.

Lemma withSections_sections (st : EditorState) (secs : list Section) :
  sections (editor (withSections st secs)) = secs.
Proof. reflexivity. Qed.

Lemma withSections_same (st : EditorState) :
  withSections st (sections (editor st)) = st.
Proof. destruct st as [[? ? ? ? ?] ? ? ? ?]. reflexivity. Qed.

(** ** Id generators *)

Lemma numToString_inj (n m : N) : numToString n = numToString m -> n = m.
Proof.
  unfold numToString. intros H.
  apply (f_equal NilEmpty.uint_of_string) in H. rewrite !NilEmpty.usu in H.
  injection H as H. apply (f_equal N.of_uint) in H.
  now rewrite !DecimalN.Unsigned.of_to in H.
Qed.

(** X7.  Ids never collide: each generator gives different ids at different
    counter values, two calls in a row give two different ids, and no id of
    one family (widget, section, filter group) is an id of another. *)
Theorem generated_ids_distinct (st st' : EditorState) :
  (fst (newWidgetId st) = fst (newWidgetId st') ->
   widgetIdCounter st = widgetIdCounter st')
  /\ (fst (newSectionId st) = fst (newSectionId st') ->
      sectionIdCounter st = sectionIdCounter st')
  /\ (fst (newFilterGroupId st) = fst (newFilterGroupId st') ->
      filterGroupIdCounter st = filterGroupIdCounter st')
  /\ fst (newWidgetId (snd (newWidgetId st))) <> fst (newWidgetId st)
  /\ fst (newSectionId (snd (newSectionId st))) <> fst (newSectionId st)
  /\ fst (newFilterGroupId (snd (newFilterGroupId st))) <> fst (newFilterGroupId st)
  /\ fst (newWidgetId st) <> fst (newSectionId st')
  /\ fst (newWidgetId st) <> fst (newFilterGroupId st')
  /\ fst (newSectionId st) <> fst (newFilterGroupId st').
Proof.
  unfold newWidgetId, newSectionId, newFilterGroupId, widgetIdOf, sectionIdOf,
    filterGroupIdOf. cbn [fst snd widgetIdCounter sectionIdCounter filterGroupIdCounter].
  repeat split.
  - intros H. injection H as H. now apply numToString_inj.
  - intros H. injection H as H. now apply numToString_inj.
  - intros H. injection H as H. now apply numToString_inj.
  - intros H. injection H as H. apply numToString_inj in H. lia.
  - intros H. injection H as H. apply numToString_inj in H. lia.
  - intros H. injection H as H. apply numToString_inj in H. lia.
  - discriminate.
  - discriminate.
  - discriminate.
Qed.

Lemma generated_ids_distinct_witness :
  widgetIdCounter (initialState 1240) = widgetIdCounter (initialState 600).
Proof.
  apply (proj1 (generated_ids_distinct (initialState 1240) (initialState 600))).
  reflexivity.
Defined.

(** ** [handleMoveSection] *)

Lemma firstn_skipn_middle {A : Type} (l1 l2 : list A) :
  firstn (length l1) (l1 ++ l2) = l1 /\ skipn (length l1) (l1 ++ l2) = l2.
Proof.
  split.
  - rewrite firstn_app, firstn_all, Nat.sub_diag. simpl. apply app_nil_r.
  - rewrite skipn_app, skipn_all, Nat.sub_diag. reflexivity.
Qed.

(** X8.  Moving a section reorders and nothing else.  When the dragged
    section is the first one that carries its id, the command leaves the
    other sections in their order and puts the dragged one at index
    [newPosition] among them ([position], less one when the section came
    from before it); so the result is a permutation, and a drop just before
    or just after the section itself changes nothing. *)
Theorem handleMoveSection_reorders (st : EditorState) (section : Section)
    (targetInfo : DropZone) (i : nat) :
  let secs := sections (editor st) in
  let position := zone_position (zone targetInfo) in
  let newPosition := Z.to_nat (if position >? Z.of_nat i then position - 1 else position) in
  let others := splice secs i 1 [] in
  findIndex (fun s => (sectionId s =? sectionId section)%string) secs = Some i ->
  nth_error secs i = Some section ->
  0 <= position ->
  sections (editor (handleMoveSection st section targetInfo))
  = firstn newPosition others ++ section :: skipn newPosition others
  /\ Permutation (sections (editor (handleMoveSection st section targetInfo))) secs
  /\ (position = Z.of_nat i \/ position = Z.of_nat i + 1 ->
      handleMoveSection st section targetInfo = st).
Proof.
  intros secs position newPosition others Hfind Hnth Hpos.
  destruct (nth_error_split secs i section Hnth) as [l1 [l2 [Hsecs Hlen]]].
  assert (Hothers : others = l1 ++ l2).
  { unfold others. rewrite Hsecs, <- Hlen. apply splice_remove_middle. }
  assert (Hres : sections (editor (handleMoveSection st section targetInfo))
                 = firstn newPosition others ++ section :: skipn newPosition others).
  { unfold handleMoveSection. fold secs. rewrite Hfind. cbn [indexOrMinus1].
    fold position.
    destruct (Z.of_nat i =? (if position >? Z.of_nat i then position - 1 else position))
      eqn:Esame.
    - apply Z.eqb_eq in Esame.
      assert (Hnp : newPosition = i) by (unfold newPosition; rewrite <- Esame; apply Nat2Z.id).
      rewrite Hnp, Hothers, <- Hlen.
      destruct (firstn_skipn_middle l1 l2) as [-> ->]. exact Hsecs.
    - rewrite withSections_sections, spliceZ_nat. fold others.
      unfold spliceZ, spliceStart.
      replace ((if position >? Z.of_nat i then position - 1 else position) <? 0)
        with false by (symmetry; apply Z.ltb_ge; destruct (position >? Z.of_nat i) eqn:E; lia).
      fold newPosition. apply splice_insert. }
  split; [exact Hres|]. split.
  - rewrite Hres, Hsecs, Hothers.
    eapply Permutation_trans; [apply Permutation_sym, Permutation_middle|].
    rewrite firstn_skipn. apply Permutation_middle.
  - intros Hp. unfold handleMoveSection. fold secs. rewrite Hfind. cbn [indexOrMinus1].
    fold position.
    replace (Z.of_nat i =? (if position >? Z.of_nat i then position - 1 else position))
      with true; [reflexivity|].
    symmetry. apply Z.eqb_eq. destruct (position >? Z.of_nat i) eqn:E; lia.
Qed.

Lemma handleMoveSection_reorders_witness :
  let st := {| editor := {| sections := [WidgetSection "s_0" "A" [makeWidget "w_0" "S"];
                                         WidgetSection "s_1" "B" [makeWidget "w_1" "M"];
                                         WidgetSection "s_2" "C" [makeWidget "w_2" "L"]];
                            offsetWidth := 1240; isDraggingFromPanel := false;
                            draggedWidgetSize := None; draggedWidget := None |};
               draggedSection := Some (WidgetSection "s_0" "A" [makeWidget "w_0" "S"]);
               widgetIdCounter := 3; sectionIdCounter := 3; filterGroupIdCounter := 0 |} in
  let t := mkDropZone (mkZone BetweenSections None None 3 0 0 0 0 false) false in
  sections (editor (handleMoveSection st (WidgetSection "s_0" "A" [makeWidget "w_0" "S"]) t))
  = [WidgetSection "s_1" "B" [makeWidget "w_1" "M"];
     WidgetSection "s_2" "C" [makeWidget "w_2" "L"];
     WidgetSection "s_0" "A" [makeWidget "w_0" "S"]].
Proof.
  intros st t.
  destruct (handleMoveSection_reorders st (WidgetSection "s_0" "A" [makeWidget "w_0" "S"])
              t 0%nat) as [H _]; [reflexivity|reflexivity|simpl; lia|].
  exact H.
Defined.

(** ** [deleteWidget] *)

Lemma findIndex_middle {A : Type} (p : A -> bool) (l1 l2 : list A) (x : A) :
  Forall (fun y => p y = false) l1 -> p x = true ->
  findIndex p (l1 ++ x :: l2) = Some (length l1).
Proof.
  induction 1 as [|a l1 Ha _ IH]; intros Hx; simpl.
  - now rewrite Hx.
  - rewrite Ha, (IH Hx). reflexivity.
Qed.

(** The first element that satisfies [p] splits a list in one way only. *)
Lemma first_split_unique {A : Type} (p : A -> bool) (a a' b b' : list A) (x x' : A) :
  a ++ x :: b = a' ++ x' :: b' ->
  Forall (fun y => p y = false) a -> p x = true ->
  Forall (fun y => p y = false) a' -> p x' = true ->
  a = a' /\ x = x' /\ b = b'.
Proof.
  revert a'. induction a as [|y a IH]; intros [|y' a'] E Ha Hx Ha' Hx'; simpl in E.
  - injection E as -> ->. auto.
  - injection E as -> _. inversion Ha'; subst. congruence.
  - injection E as -> _. inversion Ha; subst. congruence.
  - injection E as -> E. inversion Ha; inversion Ha'; subst.
    destruct (IH a' E H2 Hx H6 Hx') as [-> [-> ->]]. auto.
Qed.

Lemma deleteWidgetLoop_absent (wid : string) (secs : list Section) :
  Forall (lacksWidget wid) secs -> deleteWidgetLoop wid secs = (secs, None).
Proof.
  induction 1 as [|s secs Hs _ IH]; [reflexivity|].
  destruct s as [sid stitle ws|sid g]; unfold lacksWidget in Hs; cbn [widgetsOf] in Hs;
    apply findIndex_None in Hs; cbn [deleteWidgetLoop]; rewrite Hs, IH; reflexivity.
Qed.

Lemma deleteWidgetLoop_found (wid : string) (pre post : list Section) (s : Section)
    (ws1 ws2 : list Widget) (w : Widget) :
  Forall (lacksWidget wid) pre ->
  widgetsOf s = ws1 ++ w :: ws2 ->
  Forall (fun x => hasId wid x = false) ws1 -> hasId wid w = true ->
  deleteWidgetLoop wid (pre ++ s :: post)
  = (pre ++ setWidgets s (ws1 ++ ws2) :: post,
     if isWidgetSection s && (length (ws1 ++ ws2) =? 0)%nat
     then Some (sectionId s) else None).
Proof.
  intros Hpre Hws H1 Hw.
  induction Hpre as [|s0 pre Hs0 _ IH]; cbn [app].
  - destruct s as [sid stitle ws|sid g]; cbn [widgetsOf] in Hws;
      cbn [deleteWidgetLoop isWidgetSection sectionId setWidgets andb];
      rewrite Hws, (findIndex_middle _ _ _ _ H1 Hw), splice_remove_middle;
      reflexivity.
  - destruct s0 as [sid stitle ws|sid g]; unfold lacksWidget in Hs0;
      cbn [widgetsOf] in Hs0; apply findIndex_None in Hs0;
      cbn [deleteWidgetLoop]; rewrite Hs0, IH; reflexivity.
Qed.

Lemma Forall_hasId_flat (wid : string) (secs : list Section) :
  Forall (lacksWidget wid) secs <-> Forall (fun w => hasId wid w = false) (allWidgets secs).
Proof.
  unfold allWidgets, lacksWidget. induction secs as [|s secs IH]; simpl.
  - split; constructor.
  - rewrite Forall_app. split.
    + intros H. inversion H; subst. split; [assumption|now apply IH].
    + intros [H1 H2]. constructor; [assumption|now apply IH].
Qed.

(** The first section that holds a widget with the id, and the first such
    widget in it. *)
Lemma first_holder (wid : string) (secs : list Section) :
  ~ Forall (lacksWidget wid) secs ->
  exists pre s post ws1 w ws2,
    secs = pre ++ s :: post /\ Forall (lacksWidget wid) pre
    /\ widgetsOf s = ws1 ++ w :: ws2
    /\ Forall (fun x => hasId wid x = false) ws1 /\ hasId wid w = true.
Proof.
  induction secs as [|s secs IH]; intros H; [exfalso; apply H; constructor|].
  destruct (findIndex (hasId wid) (widgetsOf s)) as [i|] eqn:E.
  - destruct (findIndex_split _ _ _ E) as [ws1 [w [ws2 [Hws [_ [Hw H1]]]]]].
    exists [], s, secs, ws1, w, ws2. repeat split; auto.
  - apply findIndex_None in E.
    destruct IH as [pre [s' [post [ws1 [w [ws2 [-> [Hpre [Hws [H1 Hw]]]]]]]]]].
    { intros Hall. apply H. constructor; assumption. }
    exists (s :: pre), s', post, ws1, w, ws2. repeat split; auto.
Qed.

Lemma lacksWidget_dec (wid : string) (secs : list Section) :
  Forall (lacksWidget wid) secs \/ ~ Forall (lacksWidget wid) secs.
Proof.
  destruct (forallb (fun s => forallb (fun w => negb (hasId wid w)) (widgetsOf s)) secs)
    eqn:E.
  - left. rewrite forallb_forall in E. apply Forall_forall. intros s Hs.
    specialize (E s Hs). rewrite forallb_forall in E.
    apply Forall_forall. intros w Hw. specialize (E w Hw).
    now apply negb_true_iff in E.
  - right. intros H. rewrite Forall_forall in H.
    assert (forallb (fun s => forallb (fun w => negb (hasId wid w)) (widgetsOf s)) secs
            = true); [|congruence].
    apply forallb_forall. intros s Hs. apply forallb_forall. intros w Hw.
    specialize (H s Hs). unfold lacksWidget in H. rewrite Forall_forall in H.
    now rewrite (H w Hw).
Qed.

Lemma NoDup_ids_unique (l1 l2 : list Section) (s s' : Section) :
  NoDup (map sectionId (l1 ++ s :: l2)) ->
  In s' (l1 ++ s :: l2) -> sectionId s' = sectionId s -> s' = s.
Proof.
  intros Hnd Hin Hid. rewrite map_app in Hnd. cbn [map] in Hnd.
  apply NoDup_remove_2 in Hnd.
  apply in_app_or in Hin. destruct Hin as [Hin|[Hin|Hin]]; [|now symmetry|].
  - exfalso. apply Hnd. apply in_or_app. left. rewrite <- Hid. now apply in_map.
  - exfalso. apply Hnd. apply in_or_app. right. rewrite <- Hid. now apply in_map.
Qed.

Lemma hasId_false (wid : string) (w : Widget) : hasId wid w = false <-> id w <> wid.
Proof. unfold hasId. apply String.eqb_neq. Qed.

Lemma hasId_true (wid : string) (w : Widget) : hasId wid w = true <-> id w = wid.
Proof. unfold hasId. apply String.eqb_eq. Qed.

Lemma noEmptySection_remove (sid : string) (secs : list Section) :
  Forall (fun s => sectionId s <> sid -> isWidgetSection s = true -> widgetsOf s <> []) secs ->
  noEmptySection (removeSectionsWithId sid secs).
Proof.
  intros H. unfold noEmptySection. apply Forall_forall. intros s Hs.
  apply removeSectionsWithId_subset in Hs. destruct Hs as [Hin Hne].
  rewrite Forall_forall in H. now apply H.
Qed.

Lemma deleteWidget_spec (st : EditorState) (widgetId : string) :
  let secs := sections (editor st) in
  let after := sections (editor (deleteWidget st widgetId)) in
  (Forall (fun w => id w <> widgetId) (allWidgets secs) -> deleteWidget st widgetId = st)
  /\ (forall l1 w l2,
        NoDup (map sectionId secs) ->
        allWidgets secs = l1 ++ w :: l2 ->
        Forall (fun x => id x <> widgetId) l1 -> id w = widgetId ->
        allWidgets after = l1 ++ l2)
  /\ (noEmptySection secs -> noEmptySection after).
Proof.
  intros secs after.
  assert (Habsent : Forall (lacksWidget widgetId) secs -> deleteWidget st widgetId = st).
  { intros H. unfold deleteWidget. fold secs. rewrite (deleteWidgetLoop_absent _ _ H).
    apply withSections_same. }
  split; [|split].
  - intros H. apply Habsent. apply Forall_hasId_flat.
    eapply Forall_impl; [|exact H]. intros w Hw. now apply hasId_false.
  - intros l1 w l2 Hnd Hall Hl1 Hw.
    destruct (lacksWidget_dec widgetId secs) as [Hno|Hyes].
    { exfalso. apply Forall_hasId_flat in Hno. rewrite Hall in Hno.
      apply Forall_app in Hno. destruct Hno as [_ Hno]. inversion Hno; subst.
      apply hasId_false in H1. contradiction. }
    destruct (first_holder _ _ Hyes)
      as [pre [s [post [ws1 [w' [ws2 [Hsecs [Hpre [Hws [H1 Hw']]]]]]]]]].
    assert (Hsplit : l1 = allWidgets pre ++ ws1 /\ w = w' /\ l2 = ws2 ++ allWidgets post).
    { apply (first_split_unique (hasId widgetId)).
      - rewrite <- Hall, Hsecs, allWidgets_app, allWidgets_cons, Hws, <- !app_assoc.
        reflexivity.
      - eapply Forall_impl; [|exact Hl1]. intros x Hx. now apply hasId_false.
      - now apply hasId_true.
      - apply Forall_app. split; [now apply Forall_hasId_flat|exact H1].
      - exact Hw'. }
    destruct Hsplit as [-> [_ ->]].
    unfold after, deleteWidget. fold secs. rewrite Hsecs.
    rewrite (deleteWidgetLoop_found _ _ _ _ _ _ _ Hpre Hws H1 Hw').
    rewrite withSections_sections.
    assert (Hkept : allWidgets (pre ++ setWidgets s (ws1 ++ ws2) :: post)
                    = (allWidgets pre ++ ws1) ++ ws2 ++ allWidgets post).
    { rewrite allWidgets_app, allWidgets_cons, widgetsOf_setWidgets, <- !app_assoc.
      reflexivity. }
    destruct (isWidgetSection s && (length (ws1 ++ ws2) =? 0)%nat) eqn:Eempty;
      [|exact Hkept].
    rewrite removeSectionsWithId_empty; [exact Hkept|].
    intros s' Hs' Hid.
    apply andb_true_iff in Eempty. destruct Eempty as [_ Elen].
    apply Nat.eqb_eq, length_zero_iff_nil in Elen.
    assert (Hs'' : s' = setWidgets s (ws1 ++ ws2)).
    { apply (NoDup_ids_unique pre post); [| exact Hs'|].
      - rewrite map_app. cbn [map]. rewrite sectionId_setWidgets.
        fold secs in Hnd. rewrite Hsecs, map_app in Hnd. exact Hnd.
      - now rewrite sectionId_setWidgets. }
    rewrite Hs'', widgetsOf_setWidgets. exact Elen.
  - intros Hinv.
    destruct (lacksWidget_dec widgetId secs) as [Hno|Hyes].
    { unfold after. rewrite (Habsent Hno). exact Hinv. }
    destruct (first_holder _ _ Hyes)
      as [pre [s [post [ws1 [w' [ws2 [Hsecs [Hpre [Hws [H1 Hw']]]]]]]]]].
    unfold after, deleteWidget. fold secs. rewrite Hsecs.
    rewrite (deleteWidgetLoop_found _ _ _ _ _ _ _ Hpre Hws H1 Hw').
    rewrite withSections_sections.
    unfold noEmptySection in Hinv. fold secs in Hinv. rewrite Hsecs in Hinv.
    apply Forall_app in Hinv. destruct Hinv as [Hipre Hipost].
    inversion Hipost as [|? ? Hs Hpost']; subst.
    destruct (isWidgetSection s && (length (ws1 ++ ws2) =? 0)%nat) eqn:Eempty.
    + apply noEmptySection_remove. apply Forall_app. split.
      * eapply Forall_impl; [|exact Hipre]. auto.
      * constructor.
        -- intros Hne. rewrite sectionId_setWidgets in Hne. contradiction.
        -- eapply Forall_impl; [|exact Hpost']. auto.
    + unfold noEmptySection. apply Forall_app. split; [exact Hipre|].
      constructor; [|exact Hpost'].
      rewrite isWidgetSection_setWidgets, widgetsOf_setWidgets. intros Hws'.
      rewrite Hws' in Eempty. cbn [andb] in Eempty.
      apply Nat.eqb_neq in Eempty. intros Hnil. apply Eempty.
      now rewrite Hnil.
Qed.

(** X9.  Deleting a widget removes the first widget that carries the id
    and nothing else.  If no widget carries it the state is unchanged;
    otherwise, section ids being distinct, the widgets of the dashboard are
    the ones before without that widget, in the same order.  A widget
    section emptied by the deletion goes with it: when no widget section
    was empty before, none is after. *)
Theorem deleteWidget_removes_first (st : EditorState) (widgetId : string) :
  let secs := sections (editor st) in
  let after := sections (editor (deleteWidget st widgetId)) in
  (Forall (fun w => id w <> widgetId) (allWidgets secs) -> deleteWidget st widgetId = st)
  /\ (forall l1 w l2,
        NoDup (map sectionId secs) ->
        allWidgets secs = l1 ++ w :: l2 ->
        Forall (fun x => id x <> widgetId) l1 -> id w = widgetId ->
        allWidgets after = l1 ++ l2)
  /\ (noEmptySection secs -> noEmptySection after).
Proof. exact (deleteWidget_spec st widgetId). Qed.

Lemma deleteWidget_removes_first_witness :
  allWidgets (sections (editor (deleteWidget Sample.st "w_1")))
  = [Sample.w0] ++ [Sample.w2].
Proof.
  apply (proj1 (proj2 (deleteWidget_removes_first Sample.st "w_1"))
           [Sample.w0] Sample.w1 [Sample.w2]).
  - vm_compute. repeat constructor; simpl; intuition discriminate.
  - reflexivity.
  - constructor; [vm_compute; discriminate|constructor].
  - reflexivity.
Defined.

(** ** [moveWidgetToFilterContainer] *)

Lemma findIndex_None_existsb {A : Type} (p : A -> bool) (l : list A) :
  existsb p l = false -> findIndex p l = None.
Proof.
  intros H. apply findIndex_None. apply Forall_forall. intros x Hx.
  destruct (p x) eqn:E; [|reflexivity].
  assert (existsb p l = true) by (apply existsb_exists; eauto). congruence.
Qed.

Lemma takeWidgetLoop_absent (wid : string) (secs : list Section) :
  Forall (fun s => holdsAsWidgetSection wid s = false) secs ->
  forall i, takeWidgetLoop wid i secs = None.
Proof.
  induction 1 as [|s secs Hs _ IH]; intros i; [reflexivity|].
  destruct s as [sid stitle ws|sid g]; cbn [takeWidgetLoop].
  - cbn [holdsAsWidgetSection] in Hs. rewrite (findIndex_None_existsb _ _ Hs), IH.
    reflexivity.
  - now rewrite IH.
Qed.

Lemma takeWidgetLoop_found (wid : string) (pre post : list Section)
    (sid stitle : string) (ws1 ws2 : list Widget) (w : Widget) :
  Forall (fun s => holdsAsWidgetSection wid s = false) pre ->
  Forall (fun x => hasId wid x = false) ws1 -> hasId wid w = true ->
  forall i,
    takeWidgetLoop wid i (pre ++ WidgetSection sid stitle (ws1 ++ w :: ws2) :: post)
    = Some (w, (i + length pre)%nat,
            pre ++ (if (length (ws1 ++ ws2) =? 0)%nat then post
                    else WidgetSection sid stitle (ws1 ++ ws2) :: post)).
Proof.
  intros Hpre H1 Hw.
  induction Hpre as [|s0 pre Hs0 _ IH]; intros i; cbn [app].
  - cbn [takeWidgetLoop]. rewrite (findIndex_middle _ _ _ _ H1 Hw), nth_error_middle,
      splice_remove_middle. cbn [length]. now rewrite Nat.add_0_r.
  - destruct s0 as [sid0 stitle0 ws0|sid0 g0]; cbn [takeWidgetLoop length].
    + cbn [holdsAsWidgetSection] in Hs0. rewrite (findIndex_None_existsb _ _ Hs0), IH.
      do 3 f_equal. lia.
    + rewrite IH. do 3 f_equal. lia.
Qed.

(** The first widget section that holds a widget with the id. *)
Lemma first_widget_holder (wid : string) (secs : list Section) (i : nat) :
  findIndex (holdsAsWidgetSection wid) secs = Some i ->
  exists pre sid stitle ws1 w ws2 post,
    secs = pre ++ WidgetSection sid stitle (ws1 ++ w :: ws2) :: post
    /\ length pre = i
    /\ Forall (fun s => holdsAsWidgetSection wid s = false) pre
    /\ Forall (fun x => hasId wid x = false) ws1 /\ hasId wid w = true.
Proof.
  intros H. destruct (findIndex_split _ _ _ H) as [pre [s [post [-> [Hlen [Hs Hpre]]]]]].
  destruct s as [sid stitle ws|sid g]; cbn [holdsAsWidgetSection] in Hs; [|discriminate].
  destruct (findIndex_existsb _ _ Hs) as [j Hj].
  destruct (findIndex_split _ _ _ Hj) as [ws1 [w [ws2 [-> [_ [Hw H1]]]]]].
  exists pre, sid, stitle, ws1, w, ws2, post. repeat split; auto.
Qed.

Lemma moveWidgetToFilterContainer_spec (st : EditorState) (widgetId : string) :
  let secs := sections (editor st) in
  let after := moveWidgetToFilterContainer st widgetId in
  let container w :=
    FilterGroupSection (sectionIdOf (sectionIdCounter st))
      {| fg_id := filterGroupIdOf (filterGroupIdCounter st);
         fg_title := "Filter Container"; fg_filters := []; fg_widgets := [w] |} in
  (Forall (fun s => holdsAsWidgetSection widgetId s = false) secs -> after = st)
  /\ (forall pre sid stitle ws1 w ws2 post,
        secs = pre ++ WidgetSection sid stitle (ws1 ++ w :: ws2) :: post ->
        Forall (fun s => holdsAsWidgetSection widgetId s = false) pre ->
        Forall (fun x => id x <> widgetId) ws1 -> id w = widgetId ->
        sections (editor after)
        = pre ++ container w
              :: (if (length (ws1 ++ ws2) =? 0)%nat then post
                  else WidgetSection sid stitle (ws1 ++ ws2) :: post)
        /\ sectionIdCounter after = (sectionIdCounter st + 1)%N
        /\ filterGroupIdCounter after = (filterGroupIdCounter st + 1)%N
        /\ widgetIdCounter after = widgetIdCounter st)
  /\ Permutation (allWidgets (sections (editor after))) (allWidgets secs)
  /\ (noEmptySection secs -> noEmptySection (sections (editor after))).
Proof.
  intros secs after container.
  assert (Habsent : Forall (fun s => holdsAsWidgetSection widgetId s = false) secs ->
                    after = st).
  { intros H. unfold after, moveWidgetToFilterContainer. fold secs.
    now rewrite (takeWidgetLoop_absent _ _ H). }
  assert (Hfound : forall pre sid stitle ws1 w ws2 post,
             secs = pre ++ WidgetSection sid stitle (ws1 ++ w :: ws2) :: post ->
             Forall (fun s => holdsAsWidgetSection widgetId s = false) pre ->
             Forall (fun x => hasId widgetId x = false) ws1 -> hasId widgetId w = true ->
             sections (editor after)
             = pre ++ container w
                   :: (if (length (ws1 ++ ws2) =? 0)%nat then post
                       else WidgetSection sid stitle (ws1 ++ ws2) :: post)
             /\ sectionIdCounter after = (sectionIdCounter st + 1)%N
             /\ filterGroupIdCounter after = (filterGroupIdCounter st + 1)%N
             /\ widgetIdCounter after = widgetIdCounter st).
  { intros pre sid stitle ws1 w ws2 post Hsecs Hpre H1 Hw.
    unfold after, moveWidgetToFilterContainer. fold secs. rewrite Hsecs.
    rewrite (takeWidgetLoop_found _ _ _ _ _ _ _ _ Hpre H1 Hw).
    cbn [createFilterGroup newFilterGroupId newSectionId withSections editor sections
         sectionIdCounter filterGroupIdCounter widgetIdCounter fg_id fg_title
         fg_filters fg_widgets app Nat.add].
    split; [|auto].
    rewrite splice_insert.
    destruct (firstn_skipn_middle pre
                (if (length (ws1 ++ ws2) =? 0)%nat then post
                 else WidgetSection sid stitle (ws1 ++ ws2) :: post)) as [-> ->].
    reflexivity. }
  split; [exact Habsent|]. split.
  { intros pre sid stitle ws1 w ws2 post Hsecs Hpre H1 Hw.
    apply (Hfound pre sid stitle ws1 w ws2 post Hsecs Hpre).
    - eapply Forall_impl; [|exact H1]. intros x Hx. now apply hasId_false.
    - now apply hasId_true. }
  destruct (findIndex (holdsAsWidgetSection widgetId) secs) as [i|] eqn:Efind.
  - destruct (first_widget_holder _ _ _ Efind)
      as [pre [sid [stitle [ws1 [w [ws2 [post [Hsecs [_ [Hpre [H1 Hw]]]]]]]]]]].
    destruct (Hfound pre sid stitle ws1 w ws2 post Hsecs Hpre H1 Hw) as [Hres _].
    rewrite Hres, Hsecs. split.
    + rewrite !allWidgets_app, !allWidgets_cons. cbn [widgetsOf fg_widgets].
      apply Permutation_app_head.
      destruct (length (ws1 ++ ws2) =? 0)%nat eqn:Elen.
      * apply Nat.eqb_eq, length_zero_iff_nil, app_eq_nil in Elen.
        destruct Elen as [-> ->]. reflexivity.
      * rewrite allWidgets_cons. cbn [widgetsOf app].
        rewrite app_assoc. apply Permutation_app_tail.
        change (w :: ws1 ++ ws2) with ([w] ++ ws1 ++ ws2).
        change (ws1 ++ w :: ws2) with (ws1 ++ [w] ++ ws2).
        apply Permutation_app_swap_app.
    + intros Hinv. unfold noEmptySection in *.
      apply Forall_app in Hinv. destruct Hinv as [Hipre Hipost].
      inversion Hipost as [|? ? _ Hpost']; subst.
      apply Forall_app. split; [exact Hipre|].
      constructor; [intros H; discriminate H|].
      destruct (length (ws1 ++ ws2) =? 0)%nat eqn:Elen; [exact Hpost'|].
      constructor; [|exact Hpost'].
      intros _. cbn [widgetsOf]. intros Hnil. rewrite Hnil in Elen. discriminate.
  - apply findIndex_None in Efind. rewrite (Habsent Efind).
    split; [reflexivity|auto].
Qed.

(** X10.  The filter button lifts a widget out of its widget section into a
    filter container of its own.  The container takes the place in front
    of the source section, or the place of that section when the widget was
    its only one; it holds that widget alone and gets fresh section and
    group ids.  The widgets of the dashboard stay the same as a collection,
    and no widget section is left empty.  A widget that sits in no widget
    section (one already in a filter container, or an unknown id) leaves
    the state unchanged. *)
Theorem moveWidgetToFilterContainer_lifts (st : EditorState) (widgetId : string) :
  let secs := sections (editor st) in
  let after := moveWidgetToFilterContainer st widgetId in
  let container w :=
    FilterGroupSection (sectionIdOf (sectionIdCounter st))
      {| fg_id := filterGroupIdOf (filterGroupIdCounter st);
         fg_title := "Filter Container"; fg_filters := []; fg_widgets := [w] |} in
  (Forall (fun s => holdsAsWidgetSection widgetId s = false) secs -> after = st)
  /\ (forall pre sid stitle ws1 w ws2 post,
        secs = pre ++ WidgetSection sid stitle (ws1 ++ w :: ws2) :: post ->
        Forall (fun s => holdsAsWidgetSection widgetId s = false) pre ->
        Forall (fun x => id x <> widgetId) ws1 -> id w = widgetId ->
        sections (editor after)
        = pre ++ container w
              :: (if (length (ws1 ++ ws2) =? 0)%nat then post
                  else WidgetSection sid stitle (ws1 ++ ws2) :: post)
        /\ sectionIdCounter after = (sectionIdCounter st + 1)%N
        /\ filterGroupIdCounter after = (filterGroupIdCounter st + 1)%N
        /\ widgetIdCounter after = widgetIdCounter st)
  /\ Permutation (allWidgets (sections (editor after))) (allWidgets secs)
  /\ (noEmptySection secs -> noEmptySection (sections (editor after))).
Proof. exact (moveWidgetToFilterContainer_spec st widgetId). Qed.

Lemma moveWidgetToFilterContainer_lifts_witness :
  sections (editor (moveWidgetToFilterContainer Sample.st "w_2"))
  = [Sample.first;
     FilterGroupSection "s_2"
       {| fg_id := "fg_0"; fg_title := "Filter Container";
          fg_filters := []; fg_widgets := [Sample.w2] |}].
Proof.
  apply (proj1 (proj2 (moveWidgetToFilterContainer_lifts Sample.st "w_2"))
           [Sample.first] "s_1"%string "New Section"%string [] Sample.w2 [] []).
  - reflexivity.
  - constructor; [reflexivity|constructor].
  - constructor.
  - reflexivity.
Defined.

(** ** [addWidgetToLastSection] *)

Lemma usedCols_sumSpans (row : Row) : usedCols row = sumSpans (cells row).
Proof.
  unfold usedCols.
  assert (H : forall l a, fold_left (fun sum cell => sum + span cell) l a = a + sumSpans l).
  { induction l as [|c l IH]; intros a; simpl; [lia|]. rewrite IH. lia. }
  rewrite H. lia.
Qed.

Lemma nth_error_last {A : Type} (l : list A) (x : A) :
  nth_error (l ++ [x]) (length (l ++ [x]) - 1) = Some x.
Proof.
  rewrite length_app. simpl. replace (length l + 1 - 1)%nat with (length l) by lia.
  apply nth_error_middle.
Qed.

Lemma last_exists {A : Type} (l : list A) :
  l <> [] -> exists l' x, l = l' ++ [x].
Proof.
  intros H. destruct (exists_last H) as [l' [x ->]]. eauto.
Qed.

Lemma transformRowBlocks_nonempty (items : list Item) (C : Z) :
  items <> [] -> transformRowBlocks items C <> [].
Proof.
  intros Hne Hnil. pose proof (transformRowBlocks_widgets items C) as HP.
  rewrite Hnil in HP. simpl in HP. apply Permutation_nil in HP.
  destruct items as [|[w|rb] items]; [contradiction| |]; simpl in HP.
  - discriminate.
  - destruct (rail rb); discriminate.
Qed.

Lemma packRows_nonempty (items : list Item) (C : Z) :
  items <> [] -> packRows items C <> [].
Proof.
  intros Hne Hnil. pose proof (rowItems_packRows items C) as H.
  rewrite Hnil in H. simpl in H. congruence.
Qed.

(** X11.  The add button never opens a section next to a widget section.
    When the last section is a widget section, the new widget (built from
    the size's configuration, with the next widget id) is appended to it,
    whatever its size: the simulated last row never exceeds the column
    count, so the fallback that would open a new section is never taken,
    and the row lookup never fails.  Only on an empty dashboard, or after a
    filter container, is a new section appended; the FILTER item appends an
    empty filter container. *)
Theorem addWidgetToLastSection_appends (st : EditorState) (widgetSize : string) :
  let secs := sections (editor st) in
  let widget := makeWidget (widgetIdOf (widgetIdCounter st)) widgetSize in
  (widgetSize <> "FILTER"%string ->
   (forall pre sid stitle ws,
       secs = pre ++ [WidgetSection sid stitle ws] ->
       exists st',
         addWidgetToLastSection st widgetSize = Normal st'
         /\ sections (editor st') = pre ++ [WidgetSection sid stitle (ws ++ [widget])]
         /\ widgetIdCounter st' = (widgetIdCounter st + 1)%N
         /\ sectionIdCounter st' = sectionIdCounter st)
   /\ ((secs = [] \/ exists pre sid g, secs = pre ++ [FilterGroupSection sid g]) ->
       exists st',
         addWidgetToLastSection st widgetSize = Normal st'
         /\ sections (editor st')
            = secs ++ [newWidgetSection (sectionIdOf (sectionIdCounter st)) widget]
         /\ widgetIdCounter st' = (widgetIdCounter st + 1)%N
         /\ sectionIdCounter st' = (sectionIdCounter st + 1)%N))
  /\ (exists st',
        addWidgetToLastSection st "FILTER" = Normal st'
        /\ sections (editor st')
           = secs ++ [FilterGroupSection (sectionIdOf (sectionIdCounter st))
                        {| fg_id := filterGroupIdOf (filterGroupIdCounter st);
                           fg_title := "Filter Container";
                           fg_filters := []; fg_widgets := [] |}]
        /\ widgetIdCounter st' = widgetIdCounter st).
Proof.
  intros secs widget. split.
  - intros Hsize. apply String.eqb_neq in Hsize.
    split.
    + intros pre sid stitle ws Hsecs.
      unfold addWidgetToLastSection. rewrite Hsize.
      cbn [newWidgetId editor sections offsetWidth]. fold secs. fold widget.
      rewrite Hsecs, nth_error_last.
      set (colCount := getColCountFromWidth (offsetWidth (editor st))).
      set (rows := packRows (transformRowBlocks (map IWidget (ws ++ [widget])) colCount)
                     colCount).
      assert (Hrows : rows <> []).
      { apply packRows_nonempty, transformRowBlocks_nonempty.
        rewrite map_app. intros H. apply app_eq_nil in H. destruct H as [_ H].
        discriminate. }
      destruct (last_exists rows Hrows) as [rs [lastRow Hlast]].
      rewrite Hlast, nth_error_last.
      assert (Hfit : (usedCols lastRow <=? colCount) = true).
      { apply Z.leb_le. rewrite usedCols_sumSpans.
        pose proof (packRows_fits
                      (transformRowBlocks (map IWidget (ws ++ [widget])) colCount)
                      colCount) as Hall.
        pose proof (getColCountFromWidth_range (offsetWidth (editor st))) as HC.
        fold colCount in HC. fold rows in Hall. rewrite Hlast in Hall.
        specialize (Hall ltac:(lia)). apply Forall_app in Hall.
        destruct Hall as [_ Hall]. now inversion Hall. }
      rewrite Hfit. eexists. split; [reflexivity|].
      rewrite withSections_sections.
      replace (length (pre ++ [WidgetSection sid stitle ws]) - 1)%nat with (length pre)
        by (rewrite length_app; simpl; lia).
      rewrite modifyWidgetsAt_middle. cbn [setWidgets widgetsOf]. auto.
    + intros Hlast. unfold addWidgetToLastSection. rewrite Hsize.
      cbn [newWidgetId editor sections offsetWidth]. fold secs. fold widget.
      destruct Hlast as [Hnil|[pre [sid [g Hsecs]]]].
      * rewrite Hnil. cbn [length Nat.sub nth_error]. eexists. split; [reflexivity|].
        cbn [newSectionId withSections editor sections widgetIdCounter sectionIdCounter].
        auto.
      * rewrite Hsecs, nth_error_last. eexists. split; [reflexivity|].
        cbn [newSectionId withSections editor sections widgetIdCounter sectionIdCounter].
        auto.
  - unfold addWidgetToLastSection. cbn [String.eqb Ascii.eqb Bool.eqb].
    eexists. split; [reflexivity|].
    cbn [createFilterGroup newFilterGroupId newSectionId withSections editor sections
         widgetIdCounter sectionIdCounter filterGroupIdCounter]. auto.
Qed.

Lemma addWidgetToLastSection_appends_witness :
  exists st',
    addWidgetToLastSection Sample.st "XL_row" = Normal st'
    /\ sections (editor st')
       = [Sample.first;
          WidgetSection "s_1" "New Section" [Sample.w2; makeWidget "w_3" "XL_row"]].
Proof.
  assert (Hsize : "XL_row"%string <> "FILTER"%string) by discriminate.
  destruct (proj1 (proj1 (addWidgetToLastSection_appends Sample.st "XL_row") Hsize)
              [Sample.first] "s_1"%string "New Section"%string [Sample.w2] eq_refl)
    as [st' [H1 [H2 _]]].
  exists st'. split; [exact H1|exact H2].
Defined.

(** ** [handleDropFromPanel] *)

Lemma find_findIndex {A : Type} (p : A -> bool) (l : list A) :
  find p l = match findIndex p l with
             | Some i => nth_error l i
             | None => None
             end.
Proof.
  induction l as [|a l IH]; simpl; [reflexivity|].
  destruct (p a); [reflexivity|]. rewrite IH.
  destruct (findIndex p l); reflexivity.
Qed.

Lemma findSection_index (ed : Editor) (sid : option string) :
  findSection ed sid = match sectionIndex (sections ed) sid with
                       | Some i => nth_error (sections ed) i
                       | None => None
                       end.
Proof. unfold findSection, sectionIndex. apply find_findIndex. Qed.


(** The widgets after one widget is spliced into the array of the section
    at index [i]. *)
Lemma allWidgets_insert (secs : list Section) (i : nat) (s : Section) (pos : Z)
    (w : Widget) :
  nth_error secs i = Some s ->
  Permutation (allWidgets (modifyWidgetsAt secs i (fun ws => spliceZ ws pos 0 [w])))
              (w :: allWidgets secs).
Proof.
  intros E.
  pose proof (allWidgets_modify secs i s (fun ws => spliceZ ws pos 0 [w]) E) as H.
  cbv beta in H.
  apply (Permutation_app_inv_r (widgetsOf s)).
  eapply Permutation_trans; [exact H|].
  eapply Permutation_trans;
    [apply Permutation_app_head, spliceZ_insert_perm|].
  change (w :: widgetsOf s) with ([w] ++ widgetsOf s).
  change ((w :: allWidgets secs) ++ widgetsOf s)
    with ([w] ++ allWidgets secs ++ widgetsOf s).
  apply Permutation_app_swap_app.
Qed.



(** ** [handleMoveWidget] *)

Lemma update_nth_error_other {A : Type} (l : list A) (i j : nat) (x : A) :
  i <> j -> nth_error (update l i x) j = nth_error l j.
Proof.
  revert i j. induction l as [|a l IH]; intros [|i] [|j] H; simpl; auto.
  - contradiction.
Qed.

Lemma modifyWidgetsAt_other (secs : list Section) (i j : nat) f :
  i <> j -> nth_error (modifyWidgetsAt secs i f) j = nth_error secs j.
Proof.
  intros H. unfold modifyWidgetsAt. destruct (nth_error secs i); [|reflexivity].
  now apply update_nth_error_other.
Qed.

Lemma modifyWidgetsAt_same (secs : list Section) (i : nat) (s : Section) f :
  nth_error secs i = Some s ->
  nth_error (modifyWidgetsAt secs i f) i = Some (setWidgets s (f (widgetsOf s))).
Proof.
  intros E. destruct (nth_error_split secs i s E) as [l1 [l2 [-> <-]]].
  rewrite modifyWidgetsAt_middle. apply nth_error_middle.
Qed.

Lemma Forall_modify (P : Section -> Prop) (secs : list Section) (i : nat) f :
  Forall P secs ->
  (forall s, nth_error secs i = Some s -> P (setWidgets s (f (widgetsOf s)))) ->
  Forall P (modifyWidgetsAt secs i f).
Proof.
  intros Hall Hnew. unfold modifyWidgetsAt.
  destruct (nth_error secs i) as [s|] eqn:E; [|exact Hall].
  destruct (nth_error_split secs i s E) as [l1 [l2 [-> <-]]].
  rewrite update_middle. apply Forall_app in Hall. destruct Hall as [H1 H2].
  inversion H2; subst. apply Forall_app. split; [exact H1|].
  constructor; [|assumption]. apply Hnew. reflexivity.
Qed.

Lemma Forall_spliceZ_insert {A : Type} (P : A -> Prop) (l : list A) (pos : Z) (x : A) :
  Forall P l -> P x -> Forall P (spliceZ l pos 0 [x]).
Proof.
  intros Hl Hx. unfold spliceZ. rewrite splice_insert.
  apply Forall_app. split.
  - rewrite <- (firstn_skipn (spliceStart (length l) pos) l) in Hl.
    apply Forall_app in Hl. tauto.
  - constructor; [exact Hx|].
    rewrite <- (firstn_skipn (spliceStart (length l) pos) l) in Hl.
    apply Forall_app in Hl. tauto.
Qed.

Lemma spliceZ_insert_nonempty {A : Type} (l : list A) (pos : Z) (x : A) :
  spliceZ l pos 0 [x] <> [].
Proof.
  intros H. pose proof (spliceZ_insert_perm l pos x) as HP. rewrite H in HP.
  apply Permutation_nil in HP. discriminate.
Qed.

Lemma NoDup_ids_nth (l : list Section) (i j : nat) (a b : Section) :
  NoDup (map sectionId l) ->
  nth_error l i = Some a -> nth_error l j = Some b ->
  sectionId a = sectionId b -> i = j.
Proof.
  intros Hnd Ha Hb Hid.
  apply (proj1 (NoDup_nth_error (map sectionId l)) Hnd).
  - rewrite length_map. apply nth_error_Some. congruence.
  - rewrite !nth_error_map, Ha, Hb. simpl. now rewrite Hid.
Qed.

Lemma sourceIndex_spec (secs : list Section) (wid : string) (si : nat) :
  sourceIndex secs wid = Some si ->
  exists s, nth_error secs si = Some s /\ existsb (hasId wid) (widgetsOf s) = true.
Proof.
  unfold sourceIndex. intros H.
  destruct (findIndex (holdsAsWidgetSection wid) secs) as [i|] eqn:E.
  - injection H as <-.
    destruct (findIndex_split _ _ _ E) as [l1 [s [l2 [-> [<- [Hs _]]]]]].
    exists s. split; [apply nth_error_middle|].
    destruct s; cbn [holdsAsWidgetSection] in Hs; [exact Hs|discriminate].
  - destruct (findIndex_split _ _ _ H) as [l1 [s [l2 [-> [<- [Hs _]]]]]].
    exists s. split; [apply nth_error_middle|].
    destruct s; cbn [holdsAsFilterGroup] in Hs; [discriminate|exact Hs].
Qed.

Lemma removeDragged_split (wid : string) (ws1 ws2 : list Widget) (w : Widget) :
  Forall (fun x => hasId wid x = false) ws1 -> hasId wid w = true ->
  removeDragged wid (ws1 ++ w :: ws2) = ws1 ++ ws2.
Proof.
  intros H1 Hw. unfold removeDragged, widgetIndex.
  rewrite (findIndex_middle _ _ _ _ H1 Hw). cbn [indexOrMinus1].
  rewrite spliceZ_nat. apply splice_remove_middle.
Qed.

Lemma reposition_perm (widget : Widget) (pos : Z) (ws1 ws2 : list Widget) :
  Forall (fun x => hasId (id widget) x = false) ws1 ->
  Permutation (reposition widget pos (ws1 ++ widget :: ws2)) (ws1 ++ widget :: ws2).
Proof.
  intros H1. unfold reposition.
  assert (Hw : hasId (id widget) widget = true) by (apply hasId_true; reflexivity).
  destruct (_ =? _); [reflexivity|].
  fold (removeDragged (id widget) (ws1 ++ widget :: ws2)).
  rewrite (removeDragged_split _ _ _ _ H1 Hw).
  eapply Permutation_trans; [apply spliceZ_insert_perm|].
  apply Permutation_middle.
Qed.

Lemma reposition_nonempty (widget : Widget) (pos : Z) (ws : list Widget) :
  ws <> [] -> reposition widget pos ws <> [].
Proof.
  intros H. unfold reposition. destruct (_ =? _); [exact H|].
  apply spliceZ_insert_nonempty.
Qed.

Section MoveWidget.

Variable secs : list Section.
Variable widget : Widget.
Variable position : Z.
Variable si : nat.
Variable s : Section.
Variables ws1 ws2 : list Widget.

Hypothesis Hsrc : nth_error secs si = Some s.
Hypothesis Hws : widgetsOf s = ws1 ++ widget :: ws2.
Hypothesis Hws1 : Forall (fun x => hasId (id widget) x = false) ws1.

Variable removed : list Widget.
Variable secs1 : list Section.
Hypothesis Hremoved : removed = removeDragged (id widget) (widgetsOf s).
Hypothesis Hsecs1 : secs1 = modifyWidgetsAt secs si (removeDragged (id widget)).

Lemma removed_eq : removed = ws1 ++ ws2.
Proof.
  rewrite Hremoved, Hws. apply removeDragged_split; [exact Hws1|].
  apply hasId_true. reflexivity.
Qed.

Lemma secs1_widgets : Permutation (widget :: allWidgets secs1) (allWidgets secs).
Proof.
  pose proof (allWidgets_modify secs si s (removeDragged (id widget)) Hsrc) as H.
  rewrite <- Hsecs1, <- Hremoved in H. rewrite removed_eq, Hws in H.
  apply (Permutation_app_inv_r (ws1 ++ ws2)).
  eapply Permutation_trans; [|exact H].
  change ((widget :: allWidgets secs1) ++ ws1 ++ ws2)
    with ([widget] ++ allWidgets secs1 ++ ws1 ++ ws2).
  eapply Permutation_trans; [apply Permutation_app_swap_app|].
  apply Permutation_app_head.
  change (ws1 ++ widget :: ws2) with (ws1 ++ [widget] ++ ws2).
  apply Permutation_app_swap_app.
Qed.

Lemma move_same_section :
  moveKeeps secs (modifyWidgetsAt secs si (reposition widget position)).
Proof.
  split.
  - pose proof (allWidgets_modify secs si s (reposition widget position) Hsrc) as H.
    apply (Permutation_app_inv_r (widgetsOf s)).
    eapply Permutation_trans; [exact H|].
    apply Permutation_app_head. rewrite Hws. now apply reposition_perm.
  - intros Hinv. apply Forall_modify; [exact Hinv|].
    intros s' Hs'. rewrite widgetsOf_setWidgets. intros _.
    apply reposition_nonempty. rewrite Hs' in Hsrc. injection Hsrc as ->.
    rewrite Hws. intros H. apply app_eq_nil in H. destruct H as [_ H]. discriminate.
Qed.

(** The source section once the widget is out, in an array that holds it
    at index [si]. *)
Lemma emptied_only (l : list Section) :
  NoDup (map sectionId l) ->
  nth_error l si = Some (setWidgets s removed) ->
  removed = [] ->
  forall s', In s' l -> sectionId s' = sectionId s -> widgetsOf s' = [].
Proof.
  intros Hnd Hsi Hempty s' Hin Hid.
  destruct (In_nth_error _ _ Hin) as [j Hj].
  assert (j = si).
  { apply (NoDup_ids_nth l j si s' (setWidgets s removed) Hnd Hj Hsi).
    now rewrite sectionId_setWidgets. }
  subst j. rewrite Hsi in Hj. injection Hj as <-.
  rewrite widgetsOf_setWidgets. exact Hempty.
Qed.

Lemma move_across (ti : nat) (b : bool) :
  (ti < length secs)%nat ->
  (b = true -> removed = [] /\ si <> ti /\ NoDup (map sectionId secs)) ->
  (b = false -> isWidgetSection s = true -> removed <> []) ->
  let secs2 := modifyWidgetsAt secs1 ti (fun ws => spliceZ ws position 0 [widget]) in
  moveKeeps secs (if b then removeSectionsWithId (sectionId s) secs2 else secs2).
Proof.
  intros Hti Hb Hnb secs2.
  assert (Hti1 : exists t, nth_error secs1 ti = Some t).
  { destruct (nth_error secs1 ti) as [t|] eqn:E; [eauto|].
    apply nth_error_None in E. rewrite Hsecs1, modifyWidgetsAt_length in E. lia. }
  destruct Hti1 as [t Ht].
  assert (Hperm : Permutation (allWidgets secs2) (allWidgets secs)).
  { eapply Permutation_trans; [apply (allWidgets_insert secs1 ti t); exact Ht|].
    apply secs1_widgets. }
  destruct b.
  - destruct (Hb eq_refl) as [Hempty [Hne Hnd]].
    assert (Hsi2 : nth_error secs2 si = Some (setWidgets s removed)).
    { unfold secs2. rewrite modifyWidgetsAt_other by auto.
      rewrite Hsecs1, Hremoved. now apply modifyWidgetsAt_same. }
    assert (Hnd2 : NoDup (map sectionId secs2)).
    { unfold secs2. now rewrite Hsecs1, !modifyWidgetsAt_ids. }
    split.
    + rewrite removeSectionsWithId_empty; [exact Hperm|].
      now apply emptied_only.
    + intros Hinv. apply noEmptySection_remove.
      unfold secs2. apply Forall_modify.
      * rewrite Hsecs1. apply Forall_modify.
        -- eapply Forall_impl; [|exact Hinv]. auto.
        -- intros s' Hs'. rewrite Hs' in Hsrc. injection Hsrc as ->.
           rewrite sectionId_setWidgets. intros Hc. contradiction.
      * intros t' _ _ _. rewrite widgetsOf_setWidgets. apply spliceZ_insert_nonempty.
  - split; [exact Hperm|].
    intros Hinv. unfold secs2. apply Forall_modify.
    + rewrite Hsecs1. apply Forall_modify; [exact Hinv|].
      intros s' Hs'. rewrite Hs' in Hsrc. injection Hsrc as ->.
      rewrite isWidgetSection_setWidgets, widgetsOf_setWidgets. intros Hw.
      rewrite <- Hremoved. now apply Hnb.
    + intros t' _ _. rewrite widgetsOf_setWidgets. apply spliceZ_insert_nonempty.
Qed.

Lemma move_between (sid : string) (b : bool) :
  (b = true -> removed = [] /\ NoDup (map sectionId secs)
               /\ ~ In sid (map sectionId secs)) ->
  (b = false -> isWidgetSection s = true -> removed <> []) ->
  let secs2 := spliceZ secs1 position 0 [newWidgetSection sid widget] in
  moveKeeps secs (if b then removeSectionsWithId (sectionId s) secs2 else secs2).
Proof.
  intros Hb Hnb secs2.
  assert (Hperm : Permutation (allWidgets secs2) (allWidgets secs)).
  { eapply Permutation_trans;
      [apply (Permutation_flat_map widgetsOf), spliceZ_insert_perm|].
    apply secs1_widgets. }
  assert (Hsi1 : nth_error secs1 si = Some (setWidgets s removed)).
  { rewrite Hsecs1, Hremoved. now apply modifyWidgetsAt_same. }
  destruct b.
  - destruct (Hb eq_refl) as [Hempty [Hnd Hfresh]].
    assert (Hin : In (sectionId s) (map sectionId secs)).
    { apply in_map. eapply nth_error_In. exact Hsrc. }
    split.
    + rewrite removeSectionsWithId_empty; [exact Hperm|].
      intros s' Hs' Hid.
      assert (Hcases : s' = newWidgetSection sid widget \/ In s' secs1).
      { assert (HP : Permutation secs2 (newWidgetSection sid widget :: secs1))
          by apply spliceZ_insert_perm.
        apply (Permutation_in _ HP) in Hs'. destruct Hs'; auto. }
      destruct Hcases as [->|Hs1].
      * cbn [sectionId newWidgetSection] in Hid. exfalso. apply Hfresh.
        now rewrite Hid.
      * apply (emptied_only secs1); auto.
        now rewrite Hsecs1, modifyWidgetsAt_ids.
    + intros Hinv. apply noEmptySection_remove.
      unfold secs2. apply Forall_spliceZ_insert.
      * rewrite Hsecs1. apply Forall_modify.
        -- eapply Forall_impl; [|exact Hinv]. auto.
        -- intros s' Hs'. rewrite Hs' in Hsrc. injection Hsrc as ->.
           rewrite sectionId_setWidgets. intros Hc. contradiction.
      * intros _ _. discriminate.
  - split; [exact Hperm|].
    intros Hinv. unfold secs2. apply Forall_spliceZ_insert.
    + rewrite Hsecs1. apply Forall_modify; [exact Hinv|].
      intros s' Hs'. rewrite Hs' in Hsrc. injection Hsrc as ->.
      rewrite isWidgetSection_setWidgets, widgetsOf_setWidgets. intros Hw.
      rewrite <- Hremoved. now apply Hnb.
    + intros _. discriminate.
Qed.

End MoveWidget.

Lemma In_allWidgets (secs : list Section) (i : nat) (s : Section) (w : Widget) :
  nth_error secs i = Some s -> In w (widgetsOf s) -> In w (allWidgets secs).
Proof.
  intros E Hw. unfold allWidgets. apply in_flat_map. exists s. split; [|exact Hw].
  eapply nth_error_In. exact E.
Qed.

Lemma moveKeeps_refl (secs : list Section) : moveKeeps secs secs.
Proof. split; [reflexivity|auto]. Qed.

Lemma handleMoveWidget_moveKeeps (st : EditorState) (widget : Widget)
    (targetInfo : DropZone) :
  let secs := sections (editor st) in
  let after := sections (editor (handleMoveWidget st widget targetInfo)) in
  (forall w, In w (allWidgets secs) -> id w = id widget -> w = widget) ->
  NoDup (map sectionId secs) ->
  ~ In (sectionIdOf (sectionIdCounter st)) (map sectionId secs) ->
  Permutation (allWidgets after) (allWidgets secs)
  /\ (noEmptySection secs -> noEmptySection after).
Proof.
  intros secs after Halias Hnd Hfresh.
  change (moveKeeps secs after). unfold after, handleMoveWidget. fold secs. cbv zeta.
  destruct (sourceIndex secs (id widget)) as [si|] eqn:Esi; [|apply moveKeeps_refl].
  destruct (sourceIndex_spec _ _ _ Esi) as [s [Hsrc Hex]]. rewrite Hsrc.
  destruct (findIndex_existsb _ _ Hex) as [j Hj].
  destruct (findIndex_split _ _ _ Hj) as [ws1 [w0 [ws2 [Hws [_ [Hw0 Hws1]]]]]].
  assert (w0 = widget).
  { apply Halias; [|now apply hasId_true].
    apply (In_allWidgets secs si s); [exact Hsrc|].
    rewrite Hws. apply in_or_app. right. now left. }
  subst w0.
  assert (Hrem : removeDragged (id widget) (widgetsOf s) = ws1 ++ ws2).
  { rewrite Hws. now apply removeDragged_split. }
  assert (Hemptied : forall b,
             b = (length (removeDragged (id widget) (widgetsOf s)) =? 0)%nat ->
             (b = true -> removeDragged (id widget) (widgetsOf s) = [])
             /\ (b = false -> removeDragged (id widget) (widgetsOf s) <> [])).
  { intros b ->. split.
    - intros H. now apply Nat.eqb_eq, length_zero_iff_nil in H.
    - intros H Hnil. rewrite Hnil in H. discriminate. }
  set (emptied := (length (removeDragged (id widget) (widgetsOf s)) =? 0)%nat) in *.
  destruct (Hemptied emptied eq_refl) as [Hyes Hno].
  pose proof (move_same_section secs widget (zone_position (zone targetInfo)) si s
                ws1 ws2 Hsrc Hws Hws1) as Hsame.
  pose proof (move_across secs widget (zone_position (zone targetInfo)) si s ws1 ws2
                Hsrc Hws Hws1 _ _ eq_refl eq_refl) as Hacross.
  pose proof (move_between secs widget (zone_position (zone targetInfo)) si s ws1 ws2
                Hsrc Hws Hws1 _ _ eq_refl eq_refl) as Hbetween.
  cbv zeta in Hacross, Hbetween.
  destruct (zone_type (zone targetInfo)).
  - (* within-section *)
    destruct (sectionIndex secs (zone_sectionId (zone targetInfo))) as [ti|];
      [|apply moveKeeps_refl].
    destruct (nth_error secs ti) as [[tid tt tws|tid tg]|] eqn:Etgt;
      [|apply moveKeeps_refl|apply moveKeeps_refl].
    assert (Hti : (ti < length secs)%nat) by (apply nth_error_Some; congruence).
    destruct (isWidgetSection s) eqn:Ekind.
    + destruct (sectionId s =? tid)%string eqn:Eid.
      * rewrite withSections_sections. exact Hsame.
      * rewrite withSections_sections. apply (Hacross ti emptied Hti).
        -- intros Hb. split; [now apply Hyes|]. split; [|exact Hnd].
           intros ->. rewrite Hsrc in Etgt. injection Etgt as ->.
           cbn [sectionId] in Eid. rewrite String.eqb_refl in Eid. discriminate.
        -- intros Hb _. now apply Hno.
    + rewrite withSections_sections. apply (Hacross ti false Hti).
      * discriminate.
      * intros _ Hc. discriminate.
  - (* within-filter-group *)
    destruct (sectionIndex secs (zone_sectionId (zone targetInfo))) as [ti|];
      [|apply moveKeeps_refl].
    destruct (nth_error secs ti) as [[tid tt tws|tid tg]|] eqn:Etgt;
      [apply moveKeeps_refl| |apply moveKeeps_refl].
    assert (Hti : (ti < length secs)%nat) by (apply nth_error_Some; congruence).
    destruct (isWidgetSection s) eqn:Ekind.
    + rewrite withSections_sections. apply (Hacross ti emptied Hti).
      * intros Hb. split; [now apply Hyes|]. split; [|exact Hnd].
        intros ->. rewrite Hsrc in Etgt. injection Etgt as ->. discriminate.
      * intros Hb _. now apply Hno.
    + destruct (sectionId s =? tid)%string eqn:Eid.
      * rewrite withSections_sections. exact Hsame.
      * rewrite withSections_sections. apply (Hacross ti false Hti).
        -- discriminate.
        -- intros _ Hc. discriminate.
  - (* between-sections *)
    cbn [newSectionId withSections editor sections].
    apply (Hbetween (sectionIdOf (sectionIdCounter st)) (isWidgetSection s && emptied)).
    + intros Hb. apply andb_true_iff in Hb. destruct Hb as [_ Hb].
      split; [now apply Hyes|]. split; [exact Hnd|exact Hfresh].
    + intros Hb Hw. rewrite Hw in Hb. cbn [andb] in Hb. now apply Hno.
Qed.

(** X13.  A move never loses, duplicates or alters a widget.  When the
    dragged object is the widget the dashboard holds under its id, section
    ids are distinct and the next section id is unused, the widgets after
    [handleMoveWidget] are those before as a collection, for every target
    zone.  A widget section the move empties is removed: if no widget
    section was empty before, none is after. *)
Theorem handleMoveWidget_keeps_widgets (st : EditorState) (widget : Widget)
    (targetInfo : DropZone) :
  let secs := sections (editor st) in
  let after := sections (editor (handleMoveWidget st widget targetInfo)) in
  (forall w, In w (allWidgets secs) -> id w = id widget -> w = widget) ->
  NoDup (map sectionId secs) ->
  ~ In (sectionIdOf (sectionIdCounter st)) (map sectionId secs) ->
  Permutation (allWidgets after) (allWidgets secs)
  /\ (noEmptySection secs -> noEmptySection after).
Proof. exact (handleMoveWidget_moveKeeps st widget targetInfo). Qed.

Lemma handleMoveWidget_keeps_widgets_witness :
  Permutation
    (allWidgets (sections (editor (handleMoveWidget Sample.st Sample.w0
                                     (Sample.target WithinSection (Some "s_1"%string) 1)))))
    [Sample.w0; Sample.w1; Sample.w2].
Proof.
  apply (handleMoveWidget_keeps_widgets Sample.st Sample.w0
           (Sample.target WithinSection (Some "s_1"%string) 1)).
  - intros w [<-|[<-|[<-|[]]]] H; try reflexivity; vm_compute in H; discriminate H.
  - vm_compute. repeat constructor; simpl; intuition discriminate.
  - vm_compute. intuition discriminate.
Defined.

(** ** The [drop] listener *)

Lemma canWidgetFitInSection_filter (ed : Editor) (sid : option string) :
  canWidgetFitInSection ed "FILTER" sid = false.
Proof. reflexivity. Qed.

(** X14.  A drop needs a valid zone.  During a drag of a widget or of a
    panel item, when every zone under the pointer is one the validity
    filter refuses (as when the pointer is on no zone at all), the listener
    changes neither the sections nor the counters: it only clears the drag
    fields. *)
Theorem dropAt_needs_valid_zone (st : EditorState) (canvasRect : Rect)
    (dropZones : list ZoneLiteral) (x y : Q) (size widgetSize : string) :
  dragSize (editor st) = Some size ->
  (forall z, In z dropZones -> containsPointer x y z = true ->
             zoneIsValid (editor st) size z = false) ->
  dropAt st canvasRect dropZones x y widgetSize = Normal (clearDrag st)
  /\ sections (editor (clearDrag st)) = sections (editor st)
  /\ widgetIdCounter (clearDrag st) = widgetIdCounter st
  /\ sectionIdCounter (clearDrag st) = sectionIdCounter st.
Proof.
  intros Hdrag Hnone. split; [|auto].
  unfold dropAt.
  destruct (outsideCanvas canvasRect x y) eqn:Eout.
  - unfold getDropTarget. rewrite Eout. reflexivity.
  - rewrite (getDropTarget_first_match _ _ _ _ _ _ Hdrag Eout).
    assert (Hv : find (fun z => zoneIsValid (editor st) size z && containsPointer x y z)
                   dropZones = None).
    { apply find_none_all. intros z Hz.
      destruct (containsPointer x y z) eqn:Ec; [|apply andb_false_r].
      now rewrite (Hnone z Hz Ec). }
    rewrite Hv. clear Hv.
    destruct (find (fun z => negb (zoneIsValid (editor st) size z) && containsPointer x y z)
                dropZones); reflexivity.
Qed.

Lemma dropAt_needs_valid_zone_witness :
  dropAt Sample.panel TwoSections.canvasRect TwoSections.dropZones 1210 400 "S"
  = Normal (clearDrag Sample.panel).
Proof.
  apply (dropAt_needs_valid_zone Sample.panel TwoSections.canvasRect
           TwoSections.dropZones 1210 400 "S" "S").
  - reflexivity.
  - intros z Hz Hc. simpl in Hz.
    repeat (destruct Hz as [<-|Hz]; [first [discriminate Hc|reflexivity]|]).
    contradiction.
Defined.

(** X15.  The FILTER item only lands between sections.  While it is dragged
    from the panel every zone inside a section is refused, so a drop either
    changes nothing or splices one empty filter container, with fresh ids,
    into [sections] at the position of a between-sections zone under the
    pointer; no widget array is touched. *)
Theorem dropAt_filter_item (st : EditorState) (canvasRect : Rect)
    (dropZones : list ZoneLiteral) (x y : Q) :
  let secs := sections (editor st) in
  let container :=
    FilterGroupSection (sectionIdOf (sectionIdCounter st))
      {| fg_id := filterGroupIdOf (filterGroupIdCounter st);
         fg_title := "Filter Container"; fg_filters := []; fg_widgets := [] |} in
  isDraggingFromPanel (editor st) = true ->
  draggedWidgetSize (editor st) = Some "FILTER"%string ->
  exists st',
    dropAt st canvasRect dropZones x y "FILTER" = Normal st'
    /\ allWidgets (sections (editor st')) = allWidgets secs
    /\ (sections (editor st') = secs
        \/ exists z,
             In z dropZones /\ zone_type z = BetweenSections
             /\ containsPointer x y z = true
             /\ sections (editor st') = spliceZ secs (zone_position z) 0 [container]).
Proof.
  intros secs container Hpanel Hsize.
  assert (Hdrag : dragSize (editor st) = Some "FILTER"%string).
  { unfold dragSize. rewrite Hpanel, Hsize. reflexivity. }
  unfold dropAt.
  destruct (outsideCanvas canvasRect x y) eqn:Eout.
  { unfold getDropTarget. rewrite Eout. eexists. split; [reflexivity|]. auto. }
  rewrite (getDropTarget_first_match _ _ _ _ _ _ Hdrag Eout).
  destruct (find (fun z => zoneIsValid (editor st) "FILTER" z && containsPointer x y z)
              dropZones) as [z|] eqn:Ev.
  - apply find_some in Ev. destruct Ev as [Hin Hz].
    apply andb_true_iff in Hz. destruct Hz as [Hvalid Hc].
    assert (Htype : zone_type z = BetweenSections).
    { unfold zoneIsValid, isWithinZone in Hvalid.
      destruct (zone_type z); try reflexivity;
        rewrite canWidgetFitInSection_filter in Hvalid; discriminate. }
    unfold onDrop. cbn [isInvalid zone]. rewrite Hpanel.
    cbn [String.eqb Ascii.eqb Bool.eqb].
    unfold handleDropFromPanel. cbn [String.eqb Ascii.eqb Bool.eqb zone].
    rewrite Htype.
    cbn [createFilterGroup newFilterGroupId newSectionId withSections editor sections
         sectionIdCounter filterGroupIdCounter bindC clearDrag].
    fold secs. fold container.
    eexists. split; [reflexivity|]. cbn [clearDrag withSections editor sections]. split.
    + unfold spliceZ. rewrite splice_insert, allWidgets_app, allWidgets_cons.
      cbn [widgetsOf container fg_widgets app].
      rewrite <- allWidgets_app, firstn_skipn. reflexivity.
    + right. exists z. auto.
  - clear Ev.
    destruct (find (fun z => negb (zoneIsValid (editor st) "FILTER" z)
                             && containsPointer x y z) dropZones);
      (eexists; split; [reflexivity|]); auto.
Qed.

Lemma dropAt_filter_item_witness :
  exists st',
    dropAt (panelDragStart Sample.st "FILTER") Sample.canvasRect [Sample.above]
      100 50 "FILTER" = Normal st'
    /\ allWidgets (sections (editor st')) = [Sample.w0; Sample.w1; Sample.w2].
Proof.
  destruct (dropAt_filter_item (panelDragStart Sample.st "FILTER") Sample.canvasRect
              [Sample.above] 100 50 eq_refl eq_refl) as [st' [H1 [H2 _]]].
  exists st'. split; [exact H1|exact H2].
Defined.

(** ** Filter chips *)

Lemma update_same {A : Type} (l : list A) (i : nat) (x : A) :
  nth_error l i = Some x -> update l i x = l.
Proof.
  revert i. induction l as [|a l IH]; intros [|i] H; simpl in *; try discriminate.
  - now injection H as ->.
  - f_equal. now apply IH.
Qed.

Lemma update_update {A : Type} (l : list A) (i : nat) (x y : A) :
  update (update l i x) i y = update l i y.
Proof.
  revert i. induction l as [|a l IH]; intros [|i]; simpl; auto. now rewrite IH.
Qed.

Lemma findIndex_update_group (secs : list Section) (gid : string) (i : nat)
    (sid : string) (g g' : FilterGroup) :
  findIndex (isGroup gid) secs = Some i ->
  nth_error secs i = Some (FilterGroupSection sid g) ->
  fg_id g' = fg_id g ->
  findIndex (isGroup gid) (update secs i (FilterGroupSection sid g')) = Some i
  /\ nth_error (update secs i (FilterGroupSection sid g')) i
     = Some (FilterGroupSection sid g').
Proof.
  intros Hf Hn Hid.
  destruct (findIndex_split _ _ _ Hf) as [l1 [s [l2 [-> [<- [Hs H1]]]]]].
  rewrite nth_error_middle in Hn. injection Hn as ->.
  rewrite update_middle. split; [|apply nth_error_middle].
  apply findIndex_middle; [exact H1|].
  cbn [isGroup] in *. now rewrite Hid.
Qed.

Lemma changeFilters_compose (st : EditorState) (gid : string) f1 f2 :
  changeFilters (changeFilters st gid f1) gid f2
  = changeFilters st gid (fun filters => f2 (f1 filters)).
Proof.
  unfold changeFilters at 2 3.
  destruct (findIndex (isGroup gid) (sections (editor st))) as [i|] eqn:Ef.
  - destruct (nth_error (sections (editor st)) i) as [[sid stitle ws|sid g]|] eqn:En.
    + unfold changeFilters. now rewrite Ef, En.
    + unfold changeFilters. rewrite withSections_sections.
      destruct (findIndex_update_group _ _ _ _ _
                  {| fg_id := fg_id g; fg_title := fg_title g;
                     fg_filters := f1 (fg_filters g); fg_widgets := fg_widgets g |}
                  Ef En eq_refl) as [-> ->].
      cbn [fg_id fg_title fg_filters fg_widgets]. rewrite update_update.
      reflexivity.
    + unfold changeFilters. now rewrite Ef, En.
  - unfold changeFilters. now rewrite Ef.
Qed.

Lemma changeFilters_id (st : EditorState) (gid : string) f :
  (forall filters, f filters = filters) -> changeFilters st gid f = st.
Proof.
  intros Hf. unfold changeFilters.
  destruct (findIndex (isGroup gid) (sections (editor st))) as [i|]; [|reflexivity].
  destruct (nth_error (sections (editor st)) i) as [[sid stitle ws|sid g]|] eqn:En;
    try reflexivity.
  rewrite Hf. destruct g as [a b c d]. cbn [fg_id fg_title fg_filters fg_widgets].
  rewrite (update_same _ _ _ En). apply withSections_same.
Qed.

Lemma changeFilters_ext (st : EditorState) (gid : string) f1 f2 :
  (forall filters, f1 filters = f2 filters) ->
  changeFilters st gid f1 = changeFilters st gid f2.
Proof.
  intros H. unfold changeFilters.
  destruct (findIndex (isGroup gid) (sections (editor st))) as [i|]; [|reflexivity].
  destruct (nth_error (sections (editor st)) i) as [[sid stitle ws|sid g]|];
    try reflexivity.
  now rewrite H.
Qed.

(** X16.  Removing the chip just added undoes the addition, and more when
    ids collide: a chip's id is the clock reading, so removing it also
    removes every chip of the group that was added in the same millisecond.
    Adding to, or removing from, a group that no section holds changes
    nothing. *)
Theorem filter_chip_round_trip (st : EditorState) (now : N) (groupId : string) :
  let chipId := ("filter_" ++ numToString now)%string in
  removeFilterFromGroup (addFilterToGroup st now groupId) groupId chipId
  = removeFilterFromGroup st groupId chipId
  /\ (Forall (fun s => forall sid g,
                s = FilterGroupSection sid g -> fg_id g = groupId ->
                Forall (fun f => fst f <> chipId) (fg_filters g))
             (sections (editor st)) ->
      removeFilterFromGroup (addFilterToGroup st now groupId) groupId chipId = st)
  /\ (Forall (fun s => isGroup groupId s = false) (sections (editor st)) ->
      addFilterToGroup st now groupId = st
      /\ forall filterId, removeFilterFromGroup st groupId filterId = st).
Proof.
  intros chipId.
  assert (Hfirst : removeFilterFromGroup (addFilterToGroup st now groupId) groupId chipId
                   = removeFilterFromGroup st groupId chipId).
  { unfold removeFilterFromGroup, addFilterToGroup. rewrite changeFilters_compose.
    apply changeFilters_ext. intros filters.
    rewrite filter_app. cbn [filter fst]. fold chipId.
    rewrite String.eqb_refl. cbn [negb]. apply app_nil_r. }
  split; [exact Hfirst|]. split.
  - intros Hfresh. rewrite Hfirst. unfold removeFilterFromGroup, changeFilters.
    destruct (findIndex (isGroup groupId) (sections (editor st))) as [i|] eqn:Ef;
      [|reflexivity].
    destruct (findIndex_split _ _ _ Ef) as [l1 [s [l2 [Hsecs [Hlen [Hs _]]]]]].
    rewrite Hsecs, <- Hlen, nth_error_middle.
    destruct s as [sid stitle ws|sid g]; [reflexivity|].
    rewrite Hsecs in Hfresh. apply Forall_app in Hfresh. destruct Hfresh as [_ Hfresh].
    inversion Hfresh as [|? ? Hg _]; subst.
    cbn [isGroup] in Hs. apply String.eqb_eq in Hs.
    specialize (Hg sid g eq_refl Hs).
    assert (Hkeep : filter (fun f => negb (fst f =? chipId)%string) (fg_filters g)
                    = fg_filters g).
    { apply forallb_filter_id. apply forallb_forall. intros f Hf.
      rewrite Forall_forall in Hg. apply negb_true_iff, String.eqb_neq. now apply Hg. }
    rewrite Hkeep. destruct g as [a b c d]. cbn [fg_id fg_title fg_filters fg_widgets].
    rewrite update_middle. rewrite <- Hsecs. apply withSections_same.
  - intros Hnone. apply findIndex_None in Hnone.
    unfold addFilterToGroup, removeFilterFromGroup, changeFilters.
    rewrite Hnone. auto.
Qed.

Lemma filter_chip_round_trip_witness :
  removeFilterFromGroup (addFilterToGroup Sample.lifted 1700000000000 "fg_0")
    "fg_0" "filter_1700000000000" = Sample.lifted.
Proof.
  apply (proj1 (proj2 (filter_chip_round_trip Sample.lifted 1700000000000 "fg_0"))).
  vm_compute.
  repeat constructor; intros sid g Heq; try discriminate Heq.
  injection Heq as _ <-. intros _. constructor.
Defined.

(** ** Ids stay distinct *)

Lemma subBag_refl {A : Type} (l : list A) : subBag l l.
Proof. exists []. now rewrite app_nil_r. Qed.

Lemma subBag_perm {A : Type} (l' l : list A) : Permutation l' l -> subBag l' l.
Proof. intros H. exists []. now rewrite app_nil_r. Qed.

Lemma subBag_trans {A : Type} (l1 l2 l3 : list A) :
  subBag l1 l2 -> subBag l2 l3 -> subBag l1 l3.
Proof.
  intros [r1 H1] [r2 H2]. exists (r1 ++ r2).
  rewrite app_assoc. eapply Permutation_trans; [|exact H2].
  now apply Permutation_app_tail.
Qed.

Lemma subBag_cons {A : Type} (x : A) (l' l : list A) : subBag l' l -> subBag l' (x :: l).
Proof.
  intros [r H]. exists (x :: r).
  eapply Permutation_trans; [apply Permutation_sym, Permutation_middle|].
  now constructor.
Qed.

Lemma subBag_app_head {A : Type} (a l' l : list A) :
  subBag l' l -> subBag (a ++ l') (a ++ l).
Proof.
  intros [r H]. exists r. rewrite <- app_assoc. now apply Permutation_app_head.
Qed.

Lemma subBag_skip {A : Type} (x : A) (l' l : list A) :
  subBag l' l -> subBag (x :: l') (x :: l).
Proof. apply (subBag_app_head [x]). Qed.

Lemma subBag_map {A B : Type} (f : A -> B) (l' l : list A) :
  subBag l' l -> subBag (map f l') (map f l).
Proof.
  intros [r H]. exists (map f r). rewrite <- map_app. now apply Permutation_map.
Qed.

Lemma subBag_incl {A : Type} (l' l : list A) : subBag l' l -> incl l' l.
Proof.
  intros [r H] x Hx. eapply Permutation_in; [exact H|]. apply in_or_app. now left.
Qed.

Lemma subBag_NoDup {A : Type} (l' l : list A) : subBag l' l -> NoDup l -> NoDup l'.
Proof.
  intros [r H] Hnd. apply Permutation_sym in H.
  apply (Permutation_NoDup H) in Hnd. now apply NoDup_app_remove_r in Hnd.
Qed.

Lemma subBag_filter {A : Type} (p : A -> bool) (l : list A) : subBag (filter p l) l.
Proof.
  exists (filter (fun x => negb (p x)) l).
  induction l as [|a l IH]; simpl; [constructor|].
  destruct (p a); simpl.
  - now constructor.
  - eapply Permutation_trans; [apply Permutation_sym, Permutation_middle|].
    now constructor.
Qed.

Lemma subBag_flat_map {A B : Type} (g : A -> list B) (l' l : list A) :
  subBag l' l -> subBag (flat_map g l') (flat_map g l).
Proof.
  intros [r H]. exists (flat_map g r). rewrite <- flat_map_app.
  now apply Permutation_flat_map.
Qed.

Lemma subBag_remove_middle {A : Type} (l1 l2 : list A) (x : A) :
  subBag (l1 ++ l2) (l1 ++ x :: l2).
Proof.
  exists [x]. rewrite <- app_assoc. apply Permutation_app_head.
  eapply Permutation_trans; [apply Permutation_app_comm|]. reflexivity.
Qed.

Lemma sectionIdOf_inj (n m : N) : sectionIdOf n = sectionIdOf m -> n = m.
Proof. unfold sectionIdOf. intros H. injection H as H. now apply numToString_inj. Qed.

Lemma widgetIdOf_inj (n m : N) : widgetIdOf n = widgetIdOf m -> n = m.
Proof. unfold widgetIdOf. intros H. injection H as H. now apply numToString_inj. Qed.

(** A state whose ids are a sub-collection of the ids before and the ids
    just handed out is well formed again. *)
Lemma wellFormed_step (st st' : EditorState) :
  wellFormed st -> advances st st' ->
  noEmptySection (sections (editor st')) ->
  wellFormed st'.
Proof.
  intros [[Hns Hnw] [[Hgs Hgw] _]] [Hsc [Hwc [Hs Hw]]] Hne.
  assert (Hgs' : Forall (fun x => exists n, (n < sectionIdCounter st)%N /\ x = sectionIdOf n)
                   (map sectionId (sections (editor st)))).
  { apply (proj2 (Forall_map sectionId _ _)). exact Hgs. }
  assert (Hgw' : Forall (fun x => exists n, (n < widgetIdCounter st)%N /\ x = widgetIdOf n)
                   (map id (allWidgets (sections (editor st))))).
  { apply (proj2 (Forall_map id _ _)). exact Hgw. }
  assert (Hfs : ~ In (sectionIdOf (sectionIdCounter st))
                  (map sectionId (sections (editor st)))).
  { intros Hin. rewrite Forall_forall in Hgs'. destruct (Hgs' _ Hin) as [n [Hlt Heq]].
    apply sectionIdOf_inj in Heq. lia. }
  assert (Hfw : ~ In (widgetIdOf (widgetIdCounter st))
                  (map id (allWidgets (sections (editor st))))).
  { intros Hin. rewrite Forall_forall in Hgw'. destruct (Hgw' _ Hin) as [n [Hlt Heq]].
    apply widgetIdOf_inj in Heq. lia. }
  split; [split|split; [split|exact Hne]].
  - apply (subBag_NoDup _ _ Hs).
    destruct (sectionIdCounter st <? sectionIdCounter st')%N; cbn [app];
      [constructor; [exact Hfs|exact Hns]|exact Hns].
  - apply (subBag_NoDup _ _ Hw).
    destruct (widgetIdCounter st <? widgetIdCounter st')%N; cbn [app];
      [constructor; [exact Hfw|exact Hnw]|exact Hnw].
  - apply (proj1 (Forall_map sectionId
                    (fun x => exists n, (n < sectionIdCounter st')%N /\ x = sectionIdOf n) _)).
    apply Forall_forall. intros x Hx.
    apply (subBag_incl _ _ Hs) in Hx. apply in_app_or in Hx.
    destruct Hx as [Hx|Hx].
    + destruct (sectionIdCounter st <? sectionIdCounter st')%N eqn:E; [|contradiction].
      destruct Hx as [<-|[]]. apply N.ltb_lt in E. eauto.
    + rewrite Forall_forall in Hgs'. destruct (Hgs' _ Hx) as [n [Hlt Heq]].
      exists n. split; [lia|exact Heq].
  - apply (proj1 (Forall_map id
                    (fun x => exists n, (n < widgetIdCounter st')%N /\ x = widgetIdOf n) _)).
    apply Forall_forall. intros x Hx.
    apply (subBag_incl _ _ Hw) in Hx. apply in_app_or in Hx.
    destruct Hx as [Hx|Hx].
    + destruct (widgetIdCounter st <? widgetIdCounter st')%N eqn:E; [|contradiction].
      destruct Hx as [<-|[]]. apply N.ltb_lt in E. eauto.
    + rewrite Forall_forall in Hgw'. destruct (Hgw' _ Hx) as [n [Hlt Heq]].
      exists n. split; [lia|exact Heq].
Qed.

Lemma subBag_app {A : Type} (a a' b b' : list A) :
  subBag a a' -> subBag b b' -> subBag (a ++ b) (a' ++ b').
Proof.
  intros [r1 H1] [r2 H2]. exists (r1 ++ r2).
  eapply Permutation_trans; [|apply Permutation_app; eassumption].
  rewrite <- !app_assoc. apply Permutation_app_head.
  rewrite !app_assoc. apply Permutation_app_tail, Permutation_app_comm.
Qed.

Lemma advances_intro (st st' : EditorState) (bs bw : bool) :
  sectionIdCounter st' = (if bs then sectionIdCounter st + 1 else sectionIdCounter st)%N ->
  widgetIdCounter st' = (if bw then widgetIdCounter st + 1 else widgetIdCounter st)%N ->
  subBag (map sectionId (sections (editor st')))
    ((if bs then [sectionIdOf (sectionIdCounter st)] else [])
     ++ map sectionId (sections (editor st))) ->
  subBag (map id (allWidgets (sections (editor st'))))
    ((if bw then [widgetIdOf (widgetIdCounter st)] else [])
     ++ map id (allWidgets (sections (editor st)))) ->
  advances st st'.
Proof.
  intros Hs Hw Hbs Hbw. unfold advances. rewrite Hs, Hw.
  split; [destruct bs; lia|]. split; [destruct bw; lia|]. split.
  - destruct bs.
    + replace (_ <? _)%N with true by (symmetry; apply N.ltb_lt; lia). exact Hbs.
    + now rewrite N.ltb_irrefl.
  - destruct bw.
    + replace (_ <? _)%N with true by (symmetry; apply N.ltb_lt; lia). exact Hbw.
    + now rewrite N.ltb_irrefl.
Qed.

Lemma advances_refl (st : EditorState) : advances st st.
Proof. apply (advances_intro st st false false); auto; apply subBag_refl. Qed.

Lemma subBag_allWidgets_ids (secs' secs : list Section) :
  subBag secs' secs -> subBag (map id (allWidgets secs')) (map id (allWidgets secs)).
Proof. intros H. apply subBag_map. unfold allWidgets. now apply subBag_flat_map. Qed.

Lemma noEmptySection_filter (p : Section -> bool) (secs : list Section) :
  noEmptySection secs -> noEmptySection (filter p secs).
Proof.
  unfold noEmptySection. intros H. apply Forall_forall. intros s Hs.
  apply filter_In in Hs. rewrite Forall_forall in H. now apply H.
Qed.

Lemma noEmptySection_perm (secs secs' : list Section) :
  Permutation secs secs' -> noEmptySection secs -> noEmptySection secs'.
Proof. intros HP H. unfold noEmptySection in *. eapply Permutation_Forall; eassumption. Qed.

(** *** [deleteSection] *)

Lemma deleteSection_advances (st : EditorState) (sid : string) :
  advances st (deleteSection st sid)
  /\ (noEmptySection (sections (editor st)) ->
      noEmptySection (sections (editor (deleteSection st sid)))).
Proof.
  unfold deleteSection. split.
  - apply (advances_intro _ _ false false); try reflexivity;
      rewrite withSections_sections; cbn [app].
    + apply subBag_map, subBag_filter.
    + apply subBag_allWidgets_ids, subBag_filter.
  - rewrite withSections_sections. apply noEmptySection_filter.
Qed.

(** *** [deleteWidget] *)

Lemma deleteWidget_advances (st : EditorState) (widgetId : string) :
  advances st (deleteWidget st widgetId).
Proof.
  destruct (lacksWidget_dec widgetId (sections (editor st))) as [Hno|Hyes].
  - unfold deleteWidget. rewrite (deleteWidgetLoop_absent _ _ Hno), withSections_same.
    apply advances_refl.
  - destruct (first_holder _ _ Hyes)
      as [pre [s [post [ws1 [w [ws2 [Hsecs [Hpre [Hws [H1 Hw]]]]]]]]]].
    set (secsL := pre ++ setWidgets s (ws1 ++ ws2) :: post).
    set (b := isWidgetSection s && (length (ws1 ++ ws2) =? 0)%nat).
    assert (Hdel : deleteWidget st widgetId
                   = withSections st (if b then removeSectionsWithId (sectionId s) secsL
                                      else secsL)).
    { unfold deleteWidget. rewrite Hsecs.
      rewrite (deleteWidgetLoop_found _ _ _ _ _ _ _ Hpre Hws H1 Hw).
      fold secsL b. destruct b; reflexivity. }
    assert (Hids : map sectionId secsL = map sectionId (sections (editor st))).
    { rewrite Hsecs. unfold secsL. rewrite !map_app. cbn [map].
      now rewrite sectionId_setWidgets. }
    assert (Hwid : subBag (allWidgets secsL) (allWidgets (sections (editor st)))).
    { rewrite Hsecs. unfold secsL.
      rewrite !allWidgets_app, !allWidgets_cons, widgetsOf_setWidgets, Hws.
      apply subBag_app_head, subBag_app; [|apply subBag_refl].
      apply subBag_remove_middle. }
    rewrite Hdel.
    apply (advances_intro _ _ false false); try reflexivity;
      rewrite withSections_sections; cbn [app].
    + rewrite <- Hids. destruct b; [|apply subBag_refl].
      apply subBag_map, subBag_filter.
    + apply subBag_map. destruct b; [|exact Hwid].
      eapply subBag_trans; [|exact Hwid].
      unfold allWidgets. apply subBag_flat_map, subBag_filter.
Qed.

(** *** [moveWidgetToFilterContainer] *)

Lemma moveWidgetToFilterContainer_advances (st : EditorState) (widgetId : string) :
  advances st (moveWidgetToFilterContainer st widgetId).
Proof.
  destruct (moveWidgetToFilterContainer_spec st widgetId) as [Habsent [Hfound [Hperm _]]].
  cbv zeta in *.
  destruct (findIndex (holdsAsWidgetSection widgetId) (sections (editor st))) as [i|] eqn:E.
  - destruct (first_widget_holder _ _ _ E)
      as [pre [sid [stitle [ws1 [w [ws2 [post [Hsecs [_ [Hpre [H1 Hw]]]]]]]]]]].
    destruct (Hfound pre sid stitle ws1 w ws2 post Hsecs Hpre) as [Hres [Hsc [_ Hwc]]].
    { eapply Forall_impl; [|exact H1]. intros x Hx. now apply hasId_false. }
    { now apply hasId_true. }
    apply (advances_intro _ _ true false); [exact Hsc|exact Hwc| |].
    + rewrite Hres, Hsecs, !map_app. cbn [map sectionId app].
      eapply subBag_trans;
        [|apply subBag_perm, Permutation_sym, Permutation_middle].
      apply subBag_app_head, subBag_skip.
      destruct (length (ws1 ++ ws2) =? 0)%nat; [apply subBag_cons|]; apply subBag_refl.
    + cbn [app]. apply subBag_map, subBag_perm. exact Hperm.
  - apply findIndex_None in E. rewrite (Habsent E). apply advances_refl.
Qed.

(** *** [handleMoveSection] *)

Lemma handleMoveSection_perm (st : EditorState) (section : Section)
    (targetInfo : DropZone) (i : nat) :
  findIndex (fun s => (sectionId s =? sectionId section)%string) (sections (editor st))
  = Some i ->
  nth_error (sections (editor st)) i = Some section ->
  Permutation (sections (editor (handleMoveSection st section targetInfo)))
              (sections (editor st)).
Proof.
  intros Hfind Hnth. unfold handleMoveSection. rewrite Hfind. cbn [indexOrMinus1].
  destruct (_ =? _); [reflexivity|].
  rewrite withSections_sections, spliceZ_nat.
  eapply Permutation_trans; [apply spliceZ_insert_perm|].
  destruct (nth_error_split _ _ _ Hnth) as [l1 [l2 [-> <-]]].
  rewrite splice_remove_middle. apply Permutation_middle.
Qed.

Lemma findIndex_own_id (secs : list Section) (section : Section) :
  NoDup (map sectionId secs) -> In section secs ->
  exists i,
    findIndex (fun s => (sectionId s =? sectionId section)%string) secs = Some i
    /\ nth_error secs i = Some section.
Proof.
  intros Hnd Hin.
  assert (Hex : existsb (fun s => (sectionId s =? sectionId section)%string) secs = true).
  { apply existsb_exists. exists section. split; [exact Hin|apply String.eqb_refl]. }
  destruct (findIndex_existsb _ _ Hex) as [i Hi]. exists i. split; [exact Hi|].
  destruct (findIndex_split _ _ _ Hi) as [l1 [s [l2 [-> [<- [Hs _]]]]]].
  rewrite nth_error_middle. f_equal. symmetry.
  apply (NoDup_ids_unique l1 l2 s section Hnd Hin).
  apply String.eqb_eq in Hs. now symmetry.
Qed.

Lemma handleMoveSection_advances (st : EditorState) (section : Section)
    (targetInfo : DropZone) :
  NoDup (map sectionId (sections (editor st))) -> In section (sections (editor st)) ->
  advances st (handleMoveSection st section targetInfo)
  /\ (noEmptySection (sections (editor st)) ->
      noEmptySection (sections (editor (handleMoveSection st section targetInfo)))).
Proof.
  intros Hnd Hin. destruct (findIndex_own_id _ _ Hnd Hin) as [i [Hf Hn]].
  pose proof (handleMoveSection_perm st section targetInfo i Hf Hn) as HP.
  split.
  - apply (advances_intro _ _ false false).
    + unfold handleMoveSection. destruct (_ =? _); reflexivity.
    + unfold handleMoveSection. destruct (_ =? _); reflexivity.
    + cbn [app]. apply subBag_perm, Permutation_map, HP.
    + cbn [app]. apply subBag_allWidgets_ids, subBag_perm, HP.
  - apply noEmptySection_perm. now apply Permutation_sym.
Qed.

(** *** [handleMoveWidget] *)

Lemma ids_if_removed (b : bool) (sid : string) (secs : list Section) :
  subBag (map sectionId (if b then removeSectionsWithId sid secs else secs))
         (map sectionId secs).
Proof. destruct b; [apply subBag_map, subBag_filter|apply subBag_refl]. Qed.

Lemma handleMoveWidget_section_ids (st : EditorState) (widget : Widget)
    (targetInfo : DropZone) :
  exists bs : bool,
    sectionIdCounter (handleMoveWidget st widget targetInfo)
    = (if bs then sectionIdCounter st + 1 else sectionIdCounter st)%N
    /\ widgetIdCounter (handleMoveWidget st widget targetInfo) = widgetIdCounter st
    /\ subBag (map sectionId (sections (editor (handleMoveWidget st widget targetInfo))))
         ((if bs then [sectionIdOf (sectionIdCounter st)] else [])
          ++ map sectionId (sections (editor st))).
Proof.
  assert (Hsame : exists bs : bool,
             sectionIdCounter st
             = (if bs then sectionIdCounter st + 1 else sectionIdCounter st)%N
             /\ widgetIdCounter st = widgetIdCounter st
             /\ subBag (map sectionId (sections (editor st)))
                  ((if bs then [sectionIdOf (sectionIdCounter st)] else [])
                   ++ map sectionId (sections (editor st)))).
  { exists false. repeat split. apply subBag_refl. }
  assert (Hwith : forall secs',
             subBag (map sectionId secs') (map sectionId (sections (editor st))) ->
             exists bs : bool,
               sectionIdCounter (withSections st secs')
               = (if bs then sectionIdCounter st + 1 else sectionIdCounter st)%N
               /\ widgetIdCounter (withSections st secs') = widgetIdCounter st
               /\ subBag (map sectionId (sections (editor (withSections st secs'))))
                    ((if bs then [sectionIdOf (sectionIdCounter st)] else [])
                     ++ map sectionId (sections (editor st)))).
  { intros secs' H. exists false. repeat split. exact H. }
  unfold handleMoveWidget. cbv zeta.
  destruct (sourceIndex (sections (editor st)) (id widget)) as [si|]; [|exact Hsame].
  destruct (nth_error (sections (editor st)) si) as [s|]; [|exact Hsame].
  destruct (zone_type (zone targetInfo)).
  - destruct (sectionIndex _ _) as [ti|]; [|exact Hsame].
    destruct (nth_error (sections (editor st)) ti) as [[tid tt tws|tid tg]|];
      [|exact Hsame|exact Hsame].
    destruct (isWidgetSection s); [destruct (_ =? _)%string|]; apply Hwith.
    + rewrite modifyWidgetsAt_ids. apply subBag_refl.
    + eapply subBag_trans; [apply ids_if_removed|].
      rewrite !modifyWidgetsAt_ids. apply subBag_refl.
    + rewrite !modifyWidgetsAt_ids. apply subBag_refl.
  - destruct (sectionIndex _ _) as [ti|]; [|exact Hsame].
    destruct (nth_error (sections (editor st)) ti) as [[tid tt tws|tid tg]|];
      [exact Hsame| |exact Hsame].
    destruct (isWidgetSection s); [|destruct (_ =? _)%string]; apply Hwith.
    + eapply subBag_trans; [apply ids_if_removed|].
      rewrite !modifyWidgetsAt_ids. apply subBag_refl.
    + rewrite modifyWidgetsAt_ids. apply subBag_refl.
    + rewrite !modifyWidgetsAt_ids. apply subBag_refl.
  - cbn [newSectionId]. exists true.
    cbn [withSections editor sections sectionIdCounter widgetIdCounter].
    split; [reflexivity|]. split; [reflexivity|].
    eapply subBag_trans; [apply ids_if_removed|].
    eapply subBag_trans; [apply subBag_map, subBag_perm, spliceZ_insert_perm|].
    cbn [map sectionId newWidgetSection app]. rewrite modifyWidgetsAt_ids.
    apply subBag_refl.
Qed.

Lemma NoDup_ids_alias (l : list Widget) (widget : Widget) :
  NoDup (map id l) -> In widget l ->
  forall w, In w l -> id w = id widget -> w = widget.
Proof.
  induction l as [|a l IH]; intros Hnd Hin w Hw Hid; [contradiction|].
  cbn [map] in Hnd. inversion Hnd as [|? ? Hna Hnd']; subst.
  destruct Hin as [->|Hin], Hw as [->|Hw]; auto.
  - exfalso. apply Hna. rewrite <- Hid. now apply in_map.
  - exfalso. apply Hna. rewrite Hid. now apply in_map.
Qed.

Lemma handleMoveWidget_advances (st : EditorState) (widget : Widget)
    (targetInfo : DropZone) :
  wellFormed st -> In widget (allWidgets (sections (editor st))) ->
  advances st (handleMoveWidget st widget targetInfo)
  /\ noEmptySection (sections (editor (handleMoveWidget st widget targetInfo))).
Proof.
  intros [[Hns Hnw] [[Hgs Hgw] Hne]] Hin.
  assert (Hfresh : ~ In (sectionIdOf (sectionIdCounter st))
                     (map sectionId (sections (editor st)))).
  { intros Hi. apply in_map_iff in Hi. destruct Hi as [s [Hid Hs]].
    rewrite Forall_forall in Hgs. destruct (Hgs s Hs) as [n [Hlt Heq]].
    rewrite Heq in Hid. apply sectionIdOf_inj in Hid. lia. }
  destruct (handleMoveWidget_moveKeeps st widget targetInfo
              (NoDup_ids_alias _ _ Hnw Hin) Hns Hfresh) as [Hperm Hkeep].
  destruct (handleMoveWidget_section_ids st widget targetInfo) as [bs [Hsc [Hwc Hids]]].
  split; [|now apply Hkeep].
  apply (advances_intro _ _ bs false); [exact Hsc|exact Hwc|exact Hids|].
  cbn [app]. apply subBag_map, subBag_perm, Hperm.
Qed.

(** *** [handleDropFromPanel] and [addWidgetToLastSection] *)

Lemma noEmptySection_insert (secs : list Section) (i : nat) (pos : Z) (w : Widget) :
  noEmptySection secs ->
  noEmptySection (modifyWidgetsAt secs i (fun ws => spliceZ ws pos 0 [w])).
Proof.
  intros H. apply Forall_modify; [exact H|].
  intros s _ _. rewrite widgetsOf_setWidgets. apply spliceZ_insert_nonempty.
Qed.

Lemma widget_ids_insert (secs : list Section) (i : nat) (pos : Z) (w : Widget) :
  subBag (map id (allWidgets (modifyWidgetsAt secs i (fun ws => spliceZ ws pos 0 [w]))))
         (id w :: map id (allWidgets secs)).
Proof.
  destruct (nth_error secs i) as [s|] eqn:E.
  - apply (subBag_map id _ (w :: allWidgets secs)), subBag_perm.
    now apply (allWidgets_insert secs i s).
  - unfold modifyWidgetsAt. rewrite E. apply subBag_cons, subBag_refl.
Qed.

Lemma ids_spliceZ_insert (secs : list Section) (pos : Z) (x : Section) :
  subBag (map sectionId (spliceZ secs pos 0 [x])) (sectionId x :: map sectionId secs).
Proof.
  change (sectionId x :: map sectionId secs) with (map sectionId (x :: secs)).
  apply subBag_map, subBag_perm, spliceZ_insert_perm.
Qed.

Lemma ids_push (secs : list Section) (x : Section) :
  subBag (map sectionId (secs ++ [x])) (sectionId x :: map sectionId secs).
Proof.
  change (sectionId x :: map sectionId secs) with (map sectionId (x :: secs)).
  apply subBag_map, subBag_perm, Permutation_sym, Permutation_cons_append.
Qed.

Lemma widgets_spliceZ_insert (secs : list Section) (pos : Z) (x : Section) :
  subBag (map id (allWidgets (spliceZ secs pos 0 [x])))
         (map id (widgetsOf x) ++ map id (allWidgets secs)).
Proof.
  rewrite <- map_app. change (widgetsOf x ++ allWidgets secs) with (allWidgets (x :: secs)).
  apply subBag_allWidgets_ids, subBag_perm, spliceZ_insert_perm.
Qed.

Lemma widgets_push (secs : list Section) (x : Section) :
  subBag (map id (allWidgets (secs ++ [x])))
         (map id (widgetsOf x) ++ map id (allWidgets secs)).
Proof.
  rewrite <- map_app. change (widgetsOf x ++ allWidgets secs) with (allWidgets (x :: secs)).
  apply subBag_allWidgets_ids, subBag_perm, Permutation_sym, Permutation_cons_append.
Qed.

Lemma noEmptySection_push (secs : list Section) (x : Section) :
  noEmptySection secs -> (isWidgetSection x = true -> widgetsOf x <> []) ->
  noEmptySection (secs ++ [x]).
Proof.
  intros H Hx. apply Forall_app. split; [exact H|]. constructor; [exact Hx|constructor].
Qed.

Lemma handleDropFromPanel_advances (st st' : EditorState) (targetInfo : DropZone)
    (widgetSize : string) :
  handleDropFromPanel st targetInfo widgetSize = Normal st' ->
  advances st st'
  /\ (noEmptySection (sections (editor st)) -> noEmptySection (sections (editor st'))).
Proof.
  unfold handleDropFromPanel.
  destruct (widgetSize =? "FILTER")%string.
  - cbn [createFilterGroup newFilterGroupId newSectionId editor sections].
    intros H. injection H as <-. split.
    + apply (advances_intro _ _ true false); try reflexivity;
        cbn [withSections editor sections app sectionIdCounter];
        destruct (zone_type (zone targetInfo)).
      * apply ids_push.
      * apply ids_push.
      * apply ids_spliceZ_insert.
      * eapply subBag_trans; [apply widgets_push|].
        cbn [widgetsOf fg_widgets map app]. apply subBag_refl.
      * eapply subBag_trans; [apply widgets_push|].
        cbn [widgetsOf fg_widgets map app]. apply subBag_refl.
      * eapply subBag_trans; [apply widgets_spliceZ_insert|].
        cbn [widgetsOf fg_widgets map app]. apply subBag_refl.
    + cbn [withSections editor sections]. intros Hinv.
      destruct (zone_type (zone targetInfo)).
      * apply noEmptySection_push; [exact Hinv|discriminate].
      * apply noEmptySection_push; [exact Hinv|discriminate].
      * apply Forall_spliceZ_insert; [exact Hinv|discriminate].
  - cbn [newWidgetId editor sections].
    set (widget := makeWidget (widgetIdOf (widgetIdCounter st)) widgetSize).
    assert (Hlost : advances st
                      {| editor := editor st; draggedSection := draggedSection st;
                         widgetIdCounter := widgetIdCounter st + 1;
                         sectionIdCounter := sectionIdCounter st;
                         filterGroupIdCounter := filterGroupIdCounter st |}).
    { apply (advances_intro _ _ false true); try reflexivity; cbn [editor sections app].
      - apply subBag_refl.
      - apply subBag_cons, subBag_refl. }
    assert (Hjoin : forall i,
               advances st
                 (withSections
                    {| editor := editor st; draggedSection := draggedSection st;
                       widgetIdCounter := widgetIdCounter st + 1;
                       sectionIdCounter := sectionIdCounter st;
                       filterGroupIdCounter := filterGroupIdCounter st |}
                    (modifyWidgetsAt (sections (editor st)) i
                       (fun ws => spliceZ ws (zone_position (zone targetInfo)) 0 [widget])))).
    { intros i. apply (advances_intro _ _ false true); try reflexivity;
        cbn [withSections editor sections app].
      - rewrite modifyWidgetsAt_ids. apply subBag_refl.
      - apply (widget_ids_insert _ i _ widget). }
    destruct (zone_type (zone targetInfo)).
    + destruct (sectionIndex _ _) as [i|].
      * destruct (nth_error (sections (editor st)) i) as [[sid stitle ws|sid g]|];
          try discriminate.
        intros H. injection H as <-. split; [apply Hjoin|].
        cbn [withSections editor sections]. apply noEmptySection_insert.
      * intros H. injection H as <-. split; [exact Hlost|auto].
    + destruct (sectionIndex _ _) as [i|].
      * destruct (nth_error (sections (editor st)) i) as [[sid stitle ws|sid g]|];
          intros H; injection H as <-; try (split; [exact Hlost|auto]).
        split; [apply Hjoin|].
        cbn [withSections editor sections]. apply noEmptySection_insert.
      * intros H. injection H as <-. split; [exact Hlost|auto].
    + cbn [newSectionId]. intros H. injection H as <-. split.
      * apply (advances_intro _ _ true true); try reflexivity;
          cbn [withSections editor sections app sectionIdCounter].
        -- apply ids_spliceZ_insert.
        -- eapply subBag_trans; [apply widgets_spliceZ_insert|].
           cbn [widgetsOf newWidgetSection map app]. apply subBag_refl.
      * cbn [withSections editor sections]. intros Hinv.
        apply Forall_spliceZ_insert; [exact Hinv|]. intros _. discriminate.
Qed.

Lemma widget_ids_append (secs : list Section) (i : nat) (w : Widget) :
  subBag (map id (allWidgets (modifyWidgetsAt secs i (fun ws => ws ++ [w]))))
         (id w :: map id (allWidgets secs)).
Proof.
  destruct (nth_error secs i) as [s|] eqn:E.
  - apply (subBag_map id _ (w :: allWidgets secs)), subBag_perm.
    pose proof (allWidgets_modify secs i s (fun ws => ws ++ [w]) E) as H. cbv beta in H.
    apply (Permutation_app_inv_r (widgetsOf s)).
    eapply Permutation_trans; [exact H|].
    rewrite app_assoc.
    eapply Permutation_trans; [apply Permutation_app_comm|]. reflexivity.
  - unfold modifyWidgetsAt. rewrite E. apply subBag_cons, subBag_refl.
Qed.

Lemma addWidgetToLastSection_advances (st st' : EditorState) (widgetSize : string) :
  addWidgetToLastSection st widgetSize = Normal st' ->
  advances st st'
  /\ (noEmptySection (sections (editor st)) -> noEmptySection (sections (editor st'))).
Proof.
  unfold addWidgetToLastSection.
  destruct (widgetSize =? "FILTER")%string.
  - cbn [createFilterGroup newFilterGroupId newSectionId editor sections].
    intros H. injection H as <-. split.
    + apply (advances_intro _ _ true false); try reflexivity;
        cbn [withSections editor sections app sectionIdCounter].
      * apply ids_push.
      * eapply subBag_trans; [apply widgets_push|].
        cbn [widgetsOf fg_widgets map app]. apply subBag_refl.
    + cbn [withSections editor sections]. intros Hinv.
      apply noEmptySection_push; [exact Hinv|discriminate].
  - cbn [newWidgetId newSectionId editor sections offsetWidth].
    set (widget := makeWidget (widgetIdOf (widgetIdCounter st)) widgetSize).
    set (fresh := withSections _ (sections (editor st) ++ [newWidgetSection _ widget])).
    assert (Hnew : advances st fresh
                   /\ (noEmptySection (sections (editor st)) ->
                       noEmptySection (sections (editor fresh)))).
    { unfold fresh. split.
      - apply (advances_intro _ _ true true); try reflexivity;
          cbn [withSections editor sections app sectionIdCounter].
        + apply ids_push.
        + eapply subBag_trans; [apply widgets_push|].
          cbn [widgetsOf newWidgetSection map app]. apply subBag_refl.
      - cbn [withSections editor sections]. intros Hinv.
        apply noEmptySection_push; [exact Hinv|]. intros _. discriminate. }
    destruct (nth_error (sections (editor st)) (length (sections (editor st)) - 1))
      as [[sid stitle ws|sid g]|];
      try (intros H; injection H as <-; exact Hnew).
    destruct (nth_error _ _) as [lastRow|]; [|discriminate].
    destruct (usedCols lastRow <=? _);
      intros H; injection H as <-; [|exact Hnew].
    split.
    + apply (advances_intro _ _ false true); try reflexivity;
        cbn [withSections editor sections app].
      * rewrite modifyWidgetsAt_ids. apply subBag_refl.
      * apply (widget_ids_append _ _ widget).
    + cbn [withSections editor sections]. intros Hinv.
      apply Forall_modify; [exact Hinv|].
      intros s _ _. rewrite widgetsOf_setWidgets.
      intros Hnil. apply app_eq_nil in Hnil. destruct Hnil as [_ Hnil]. discriminate.
Qed.

Lemma deleteWidget_noEmpty (st : EditorState) (widgetId : string) :
  noEmptySection (sections (editor st)) ->
  noEmptySection (sections (editor (deleteWidget st widgetId))).
Proof. apply (deleteWidget_spec st widgetId). Qed.

Lemma moveWidgetToFilterContainer_noEmpty (st : EditorState) (widgetId : string) :
  noEmptySection (sections (editor st)) ->
  noEmptySection (sections (editor (moveWidgetToFilterContainer st widgetId))).
Proof. apply (moveWidgetToFilterContainer_spec st widgetId). Qed.

(** X17.  The dashboard stays well formed.  The state the constructor
    leaves has distinct section ids and distinct widget ids, all handed out
    by the counters, and no empty widget section; and each command keeps
    this so: a drop from the panel and the add button (when they complete),
    deleting a widget or a section, lifting a widget into a filter
    container, and moving a widget or a section that the dashboard holds. *)
Theorem commands_keep_wellFormed (st : EditorState) :
  (forall width, wellFormed (initialState width))
  /\ (wellFormed st ->
      (forall targetInfo widgetSize st',
          handleDropFromPanel st targetInfo widgetSize = Normal st' -> wellFormed st')
      /\ (forall widgetSize st',
             addWidgetToLastSection st widgetSize = Normal st' -> wellFormed st')
      /\ (forall widgetId, wellFormed (deleteWidget st widgetId))
      /\ (forall sid, wellFormed (deleteSection st sid))
      /\ (forall widgetId, wellFormed (moveWidgetToFilterContainer st widgetId))
      /\ (forall widget targetInfo,
             In widget (allWidgets (sections (editor st))) ->
             wellFormed (handleMoveWidget st widget targetInfo))
      /\ (forall section targetInfo,
             In section (sections (editor st)) ->
             wellFormed (handleMoveSection st section targetInfo))).
Proof.
  split.
  { intros width. repeat split; constructor. }
  intros Hwf. pose proof Hwf as [[Hns Hnw] [_ Hne]].
  refine (conj _ (conj _ (conj _ (conj _ (conj _ (conj _ _)))))).
  - intros targetInfo widgetSize st' H.
    destruct (handleDropFromPanel_advances _ _ _ _ H) as [Hadv Hkeep].
    apply (wellFormed_step st st' Hwf Hadv). now apply Hkeep.
  - intros widgetSize st' H.
    destruct (addWidgetToLastSection_advances _ _ _ H) as [Hadv Hkeep].
    apply (wellFormed_step st st' Hwf Hadv). now apply Hkeep.
  - intros widgetId.
    apply (wellFormed_step st _ Hwf (deleteWidget_advances st widgetId)).
    now apply deleteWidget_noEmpty.
  - intros sid. destruct (deleteSection_advances st sid) as [Hadv Hkeep].
    apply (wellFormed_step st _ Hwf Hadv). now apply Hkeep.
  - intros widgetId.
    apply (wellFormed_step st _ Hwf (moveWidgetToFilterContainer_advances st widgetId)).
    now apply moveWidgetToFilterContainer_noEmpty.
  - intros widget targetInfo Hin.
    destruct (handleMoveWidget_advances st widget targetInfo Hwf Hin) as [Hadv Hkeep].
    exact (wellFormed_step st _ Hwf Hadv Hkeep).
  - intros section targetInfo Hin.
    destruct (handleMoveSection_advances st section targetInfo Hns Hin) as [Hadv Hkeep].
    apply (wellFormed_step st _ Hwf Hadv). now apply Hkeep.
Qed.

Lemma Sample_wellFormed : wellFormed Sample.st.
Proof.
  split; [split|split; [split|]].
  - vm_compute. repeat constructor; simpl; intuition discriminate.
  - vm_compute. repeat constructor; simpl; intuition discriminate.
  - repeat constructor; [exists 0%N|exists 1%N]; split; reflexivity.
  - repeat constructor; [exists 0%N|exists 1%N|exists 2%N]; split; reflexivity.
  - repeat constructor; intros _; discriminate.
Qed.

Lemma commands_keep_wellFormed_witness :
  wellFormed (handleMoveSection Sample.st Sample.second
                (Sample.target BetweenSections None 0)).
Proof.
  apply (proj2 (commands_keep_wellFormed Sample.st) Sample_wellFormed).
  simpl. right. left. reflexivity.
Defined.

(** ** The layout does not read ids *)

Lemma effectiveSpan_anon (w : Widget) (C : Z) : effectiveSpan (anon w) C = effectiveSpan w C.
Proof. reflexivity. Qed.

Lemma canTake_anon C T st (w : Widget) : canTake C T st (anon w) = canTake C T st w.
Proof. reflexivity. Qed.

Lemma takeWidget_anon st (w : Widget) : takeWidget st (anon w) = takeWidget st w.
Proof. reflexivity. Qed.

Lemma captureBackward_anon C T (prevs : list Item) :
  forall k cp st,
    captureBackward C T (map anonItem prevs) k (map anon cp) st
    = let '(k', cp', st') := captureBackward C T prevs k cp st in (k', map anon cp', st').
Proof.
  induction prevs as [|[pw|rb] prevs IH]; intros k cp st; cbn [map anonItem captureBackward];
    try reflexivity.
  rewrite effectiveSpan_anon, canTake_anon, takeWidget_anon.
  destruct (negb (effectiveSpan pw C =? 1)); [reflexivity|].
  destruct (negb (canTake C T st pw)); [reflexivity|].
  change (map anon cp ++ [anon pw]) with (map anon cp ++ map anon [pw]).
  rewrite <- map_app. apply IH.
Qed.

Lemma captureForward_anon C T (nexts : list Item) :
  forall cn st,
    captureForward C T (map anonItem nexts) (map anon cn) st
    = let '(cn', st') := captureForward C T nexts cn st in (map anon cn', st').
Proof.
  induction nexts as [|[nw|rb] nexts IH]; intros cn st; cbn [map anonItem captureForward];
    try reflexivity.
  rewrite effectiveSpan_anon, canTake_anon, takeWidget_anon.
  destruct (negb (effectiveSpan nw C =? 1)); [reflexivity|].
  destruct (negb (canTake C T st nw)); [reflexivity|].
  change (map anon cn ++ [anon nw]) with (map anon cn ++ map anon [nw]).
  rewrite <- map_app. apply IH.
Qed.

Lemma seedCaptures_anon (items : list Item) (i : nat) (w : Widget) (C : Z) :
  seedCaptures (map anonItem items) i (anon w) C
  = let '(k, cp, cn) := seedCaptures items i w C in (k, map anon cp, map anon cn).
Proof.
  unfold seedCaptures. cbv zeta. cbn [minHeightRem anon].
  rewrite firstn_map, <- map_rev.
  pose proof (captureBackward_anon C (minHeightRem w + layoutConfig.toleranceRem)
                (rev (firstn i items)) (Z.of_nat i - 1) [] initialRail) as Hb.
  cbn [map] in Hb. rewrite Hb.
  destruct (captureBackward C _ (rev (firstn i items)) (Z.of_nat i - 1) [] initialRail)
    as [[k cp] st].
  rewrite length_map.
  destruct (length cp =? 0)%nat; [|reflexivity].
  rewrite skipn_map.
  pose proof (captureForward_anon C (minHeightRem w + layoutConfig.toleranceRem)
                (skipn (i + 1) items) [] st) as Hf.
  cbn [map] in Hf. rewrite Hf.
  destruct (captureForward C _ (skipn (i + 1) items) [] st) as [cn st'].
  reflexivity.
Qed.

Lemma splice_map {A B : Type} (f : A -> B) (l : list A) (a n : nat) (ins : list A) :
  splice (map f l) a n (map f ins) = map f (splice l a n ins).
Proof. unfold splice. now rewrite !map_app, firstn_map, skipn_map. Qed.

Lemma composeAt_anon (items : list Item) (i : nat) (w : Widget) (C : Z) :
  composeAt (map anonItem items) i (anon w) C
  = (map anonItem (fst (composeAt items i w C)), snd (composeAt items i w C)).
Proof.
  unfold composeAt. rewrite seedCaptures_anon.
  destruct (seedCaptures items i w C) as [[k cp] cn].
  cbn [rail]. rewrite !length_app, !length_rev, !length_map.
  assert (Hnil : forall l a n, splice (map anonItem l) a n [] = map anonItem (splice l a n []))
    by (intros l a n; apply (splice_map anonItem l a n [])).
  assert (Hrb : forall l a,
             splice (map anonItem l) a 1
               [IRowBlock {| main := anon w; rail := rev (map anon cp) ++ map anon cn;
                             rb_id := "rb-" ++ id (anon w) |}]
             = map anonItem
                 (splice l a 1
                    [IRowBlock {| main := w; rail := rev cp ++ cn;
                                  rb_id := "rb-" ++ id w |}])).
  { intros l a. rewrite <- splice_map. cbn [map anonItem main rail].
    now rewrite map_app, map_rev. }
  destruct (length cp =? 0)%nat, (0 <? length cn)%nat,
    (0 <? length cp + length cn)%nat, (0 <? length cp)%nat,
    (Z.of_nat i - (k + 1) >? 0);
    cbn [fst snd]; rewrite ?Hnil, ?Hrb; reflexivity.
Qed.

Lemma composeLoop_anon (C : Z) (fuel : nat) :
  forall items i,
    composeLoop fuel (map anonItem items) i C
    = option_map (map anonItem) (composeLoop fuel items i C).
Proof.
  induction fuel as [|fuel IH]; intros items i; [reflexivity|].
  cbn [composeLoop]. rewrite nth_error_map.
  destruct (nth_error items i) as [[w|rb]|]; cbn [option_map anonItem]; try reflexivity.
  - rewrite effectiveSpan_anon.
    destruct (negb (effectiveSpan w C =? 3)); [apply IH|].
    rewrite composeAt_anon.
    destruct (composeAt items i w C) as [items' i']. cbn [fst snd]. apply IH.
  - apply IH.
Qed.

Lemma transformRowBlocks_anon (items : list Item) (C : Z) :
  transformRowBlocks (map anonItem items) C = map anonItem (transformRowBlocks items C).
Proof.
  unfold transformRowBlocks. destruct (negb (C =? 4)); [reflexivity|].
  rewrite length_map, composeLoop_anon.
  destruct (composeLoop (S (length items)) items 0 C); reflexivity.
Qed.

Lemma itemSpan_anon (it : Item) (C : Z) : itemSpan (anonItem it) C = itemSpan it C.
Proof. destruct it; reflexivity. Qed.

Lemma expandable_anon (c : Cell) : expandable (anonCell c) = expandable c.
Proof. unfold expandable. destruct c as [[w|rb] sp de]; reflexivity. Qed.

Lemma filter_expandable_anon (row : list Cell) :
  filter expandable (map anonCell row) = map anonCell (filter expandable row).
Proof.
  induction row as [|c row IH]; [reflexivity|]. cbn [map filter].
  rewrite expandable_anon. destruct (expandable c); cbn [map]; now rewrite IH.
Qed.

Lemma expandCells_anon C q r (row : list Cell) :
  forall idx,
    expandCells C q r idx (map anonCell row) = map anonCell (expandCells C q r idx row).
Proof.
  induction row as [|c row IH]; intros idx; [reflexivity|].
  cbn [map expandCells]. rewrite expandable_anon.
  destruct (expandable c); cbn [map]; rewrite IH; reflexivity.
Qed.

Lemma flushCells_anon C u (row : list Cell) :
  flushCells C u (map anonCell row) = map anonCell (flushCells C u row).
Proof.
  unfold flushCells. cbv zeta.
  destruct (C - u >? 0); [|reflexivity].
  rewrite filter_expandable_anon, length_map.
  destruct (Z.of_nat (length (filter expandable row)) >? 0); [|reflexivity].
  assert (Hall : forallb (fun cell => span cell =? 1) (map anonCell (filter expandable row))
                 = forallb (fun cell => span cell =? 1) (filter expandable row)).
  { induction (filter expandable row) as [|c l IHl]; [reflexivity|].
    cbn [map forallb span anonCell]. now rewrite IHl. }
  rewrite Hall.
  destruct (forallb _ _ && _).
  - rewrite !map_map. reflexivity.
  - apply expandCells_anon.
Qed.

Lemma flush_anon C st : flush C (anonPack st) = anonPack (flush C st).
Proof.
  destruct st as [rs [|c row] u]; [reflexivity|].
  unfold flush, anonPack. cbn [currentRow rows used map].
  rewrite map_app. cbn [map anonRow cells].
  change (anonCell c :: map anonCell row) with (map anonCell (c :: row)).
  now rewrite flushCells_anon.
Qed.

Lemma packStep_anon C st it :
  packStep C (anonPack st) (anonItem it) = anonPack (packStep C st it).
Proof.
  unfold packStep. cbv zeta. rewrite itemSpan_anon.
  destruct (itemSpan it C >=? C).
  - rewrite flush_anon. unfold anonPack. cbn [rows currentRow used].
    now rewrite map_app.
  - change (used (anonPack st)) with (used st).
    destruct (used st + itemSpan it C >? C).
    + rewrite flush_anon. unfold anonPack. cbn [rows currentRow used].
      now rewrite map_app.
    + unfold anonPack. cbn [rows currentRow used]. now rewrite map_app.
Qed.

Lemma packRows_anon (items : list Item) (C : Z) :
  packRows (map anonItem items) C = map anonRow (packRows items C).
Proof.
  unfold packRows, packLoop.
  assert (H : forall st,
             fold_left (packStep C) (map anonItem items) (anonPack st)
             = anonPack (fold_left (packStep C) items st)).
  { induction items as [|it items IH]; intros st; [reflexivity|].
    cbn [map fold_left]. rewrite packStep_anon. apply IH. }
  change (mkPack [] [] 0) with (anonPack (mkPack [] [] 0)).
  rewrite H, flush_anon. reflexivity.
Qed.

(** The number of rows depends on the widgets' [minColSpan] and
    [minHeightRem] only. *)
Lemma rowCount_anon (ws : list Widget) (C : Z) :
  length (packRows (transformRowBlocks (map IWidget ws) C) C)
  = length (packRows (transformRowBlocks (map IWidget (map anon ws)) C) C).
Proof.
  replace (map IWidget (map anon ws)) with (map anonItem (map IWidget ws))
    by (rewrite !map_map; reflexivity).
  now rewrite transformRowBlocks_anon, packRows_anon, length_map.
Qed.

Lemma spliceZ_append {A : Type} (l : list A) (pos : Z) (x : A) :
  Z.of_nat (length l) <= pos -> spliceZ l pos 0 [x] = l ++ [x].
Proof.
  intros H. unfold spliceZ, spliceStart.
  replace (pos <? 0) with false by (symmetry; apply Z.ltb_ge; lia).
  rewrite splice_insert, firstn_all2, skipn_all2 by lia. reflexivity.
Qed.

(** X18.  A blue zone at the end of a section keeps its promise.  When the
    oracle accepts a size for a widget section, a drop from the panel on a
    within-section zone of that section whose position is at or past the
    end appends the new widget, and the section then lays out in as many
    rows as before, at the width the oracle read: the verdict, computed with
    the synthetic widget ['temp'], holds for the widget actually built,
    because the layout reads no id. *)
Theorem panel_drop_at_end_adds_no_row (st : EditorState) (targetInfo : DropZone)
    (widgetSize sid stitle : string) (ws : list Widget) :
  let ed := editor st in
  let width := offsetWidth ed in
  let widget := makeWidget (widgetIdOf (widgetIdCounter st)) widgetSize in
  widgetSize <> "FILTER"%string ->
  zone_type (zone targetInfo) = WithinSection ->
  findSection ed (zone_sectionId (zone targetInfo)) = Some (WidgetSection sid stitle ws) ->
  ws <> [] ->
  Z.of_nat (length ws) <= zone_position (zone targetInfo) ->
  canWidgetFitInSection ed widgetSize (zone_sectionId (zone targetInfo)) = true ->
  exists st' i,
    handleDropFromPanel st targetInfo widgetSize = Normal st'
    /\ nth_error (sections ed) i = Some (WidgetSection sid stitle ws)
    /\ nth_error (sections (editor st')) i
       = Some (WidgetSection sid stitle (ws ++ [widget]))
    /\ length (rowsOf (layoutSection (WidgetSection sid stitle (ws ++ [widget])) width))
       = length (rowsOf (layoutSection (WidgetSection sid stitle ws) width)).
Proof.
  intros ed width widget Hsize Htype Hfound Hne Hpos Hfit.
  pose proof Hfound as Hidx. rewrite findSection_index in Hidx. fold ed in Hidx.
  destruct (sectionIndex (sections ed) (zone_sectionId (zone targetInfo))) as [i|] eqn:Ei;
    [|discriminate].
  apply String.eqb_neq in Hsize.
  assert (Hrows : length (rowsOf (layoutSection (WidgetSection sid stitle (ws ++ [widget]))
                                    width))
                  = length (rowsOf (layoutSection (WidgetSection sid stitle ws) width))).
  { unfold canWidgetFitInSection, canWidgetFitInSectionWith in Hfit.
    rewrite Hsize, Hfound in Hfit.
    destruct (length ws =? 0)%nat eqn:Elen.
    { apply Nat.eqb_eq, length_zero_iff_nil in Elen. contradiction. }
    unfold layoutRowCount in Hfit. cbn [bindC tryCatch] in Hfit.
    apply Nat.eqb_eq in Hfit. fold width in Hfit.
    unfold layoutSection. cbn [rowsOf]. rewrite <- Hfit.
    rewrite (rowCount_anon (ws ++ [widget])), (rowCount_anon (ws ++ [tempWidget widgetSize])).
    rewrite !map_app. reflexivity. }
  exists (withSections (snd (newWidgetId st))
            (modifyWidgetsAt (sections ed) i
               (fun l => spliceZ l (zone_position (zone targetInfo)) 0 [widget]))), i.
  split; [|split; [exact Hidx|split; [|exact Hrows]]].
  - unfold handleDropFromPanel. rewrite Hsize, Htype.
    cbn [newWidgetId editor sections snd]. fold ed. rewrite Ei, Hidx. reflexivity.
  - rewrite withSections_sections, (modifyWidgetsAt_same _ _ _ _ Hidx).
    cbn [setWidgets widgetsOf]. now rewrite spliceZ_append.
Qed.

Lemma panel_drop_at_end_adds_no_row_witness :
  exists st' i,
    handleDropFromPanel Sample.st (Sample.target WithinSection (Some "s_0"%string) 2) "S"
    = Normal st'
    /\ nth_error (sections (editor st')) i
       = Some (WidgetSection "s_0" "New Section"
                 [Sample.w0; Sample.w1; makeWidget "w_3" "S"]).
Proof.
  destruct (panel_drop_at_end_adds_no_row Sample.st
              (Sample.target WithinSection (Some "s_0"%string) 2)
              "S" "s_0" "New Section" [Sample.w0; Sample.w1])
    as [st' [i [H1 [_ [H2 _]]]]].
  - discriminate.
  - reflexivity.
  - reflexivity.
  - discriminate.
  - simpl. lia.
  - vm_compute. reflexivity.
  - exists st', i. split; [exact H1|exact H2].
Defined.

(** ** A widget as wide as the grid *)

Lemma packRows_app_full (items : list Item) (x : Item) (C : Z) :
  C <= itemSpan x C ->
  packRows (items ++ [x]) C = packRows items C ++ [mkRow [mkCell x C false]].
Proof.
  intros Hfull. unfold packRows, packLoop. rewrite fold_left_app. cbn [fold_left].
  set (st := fold_left (packStep C) items (mkPack [] [] 0)).
  unfold packStep. cbv zeta.
  replace (itemSpan x C >=? C) with true by (symmetry; apply Z.geb_le; lia).
  unfold flush at 1. cbn [currentRow rows]. rewrite flush_current. reflexivity.
Qed.

Lemma canTake_wide C T st (x : Widget) :
  effectiveSpan x C <> 1 -> canTake C T st x = false.
Proof.
  intros H. unfold canTake. destruct (railCount st >=? layoutConfig.maxRailItems);
    [reflexivity|].
  replace (effectiveSpan x C =? 1) with false by (symmetry; apply Z.eqb_neq; exact H).
  reflexivity.
Qed.

Lemma greedyRun_app_wide C T st (nexts : list Item) (taken : list Widget) (x : Widget) :
  effectiveSpan x C <> 1 ->
  greedyRun C T st nexts taken -> greedyRun C T st (nexts ++ [IWidget x]) taken.
Proof.
  intros Hx Hrun. induction Hrun; cbn [app].
  - apply run_refused. now apply canTake_wide.
  - apply run_rowblock.
  - now apply run_refused.
  - now apply run_take.
Qed.

Lemma composeAt_app_wide (items : list Item) (i : nat) (w x : Widget) (C : Z) :
  (i < length items)%nat -> effectiveSpan x C <> 1 ->
  composeAt (items ++ [IWidget x]) i w C
  = (fst (composeAt items i w C) ++ [IWidget x], snd (composeAt items i w C))
  /\ (snd (composeAt items i w C) <= length (fst (composeAt items i w C)))%nat.
Proof.
  intros Hi Hx.
  assert (Hi' : (i < length (items ++ [IWidget x]))%nat) by (rewrite length_app; lia).
  destruct (composeAt_spec items i w C Hi) as [cp [Hrun [Hback Hfwd]]].
  destruct (composeAt_spec (items ++ [IWidget x]) i w C Hi') as [cp' [Hrun' [Hback' Hfwd']]].
  assert (Hfirst : forall n, (n <= length items)%nat ->
                     firstn n (items ++ [IWidget x]) = firstn n items).
  { intros n Hn. rewrite firstn_app. replace (n - length items)%nat with 0%nat by lia.
    cbn [firstn]. apply app_nil_r. }
  assert (Hskip : forall n, (n <= length items)%nat ->
                    skipn n (items ++ [IWidget x]) = skipn n items ++ [IWidget x]).
  { intros n Hn. rewrite skipn_app. replace (n - length items)%nat with 0%nat by lia.
    reflexivity. }
  rewrite Hfirst in Hrun' by lia.
  assert (cp' = cp) by (eapply greedyRun_det; eassumption). subst cp'.
  destruct (greedyRun_prefix _ _ _ _ _ Hrun) as [_ Hlen].
  rewrite length_rev, length_firstn in Hlen.
  destruct cp as [|p cp0].
  - destruct (Hfwd eq_refl) as [cn [Hrunf [Hsome Hnone]]].
    destruct (Hfwd' eq_refl) as [cn' [Hrunf' [Hsome' Hnone']]].
    rewrite Hskip in Hrunf' by lia.
    assert (cn' = cn).
    { eapply greedyRun_det; [exact Hrunf'|]. now apply greedyRun_app_wide. }
    subst cn'.
    destruct (greedyRun_prefix _ _ _ _ _ Hrunf) as [_ Hlenf].
    rewrite length_skipn in Hlenf.
    destruct cn as [|n cn0].
    + rewrite (Hnone eq_refl), (Hnone' eq_refl). cbn [fst snd]. split; [reflexivity|lia].
    + rewrite Hsome, Hsome' by discriminate. cbn [fst snd].
      rewrite Hfirst, Hskip by lia. split.
      * rewrite <- app_assoc. reflexivity.
      * rewrite length_app, length_firstn. cbn [length]. lia.
  - rewrite Hback, Hback' by discriminate. cbn [fst snd].
    rewrite Hfirst, Hskip by lia. split.
    + rewrite <- app_assoc. reflexivity.
    + rewrite length_app, length_firstn. cbn [length]. lia.
Qed.

Lemma composeLoop_app_wide (C : Z) (x : Widget) :
  effectiveSpan x C <> 1 -> effectiveSpan x C <> 3 ->
  forall fuel items i out,
    (i <= length items)%nat ->
    composeLoop fuel items i C = Some out ->
    composeLoop (S fuel) (items ++ [IWidget x]) i C = Some (out ++ [IWidget x]).
Proof.
  intros H1 H3. induction fuel as [|fuel IH]; intros items i out Hi Hloop;
    [discriminate|].
  cbn [composeLoop] in Hloop.
  remember (S fuel) as fuel1 eqn:Efuel. cbn [composeLoop].
  destruct (nth_error items i) as [[w|rb]|] eqn:Enth.
  - assert (Hlt : (i < length items)%nat) by (apply nth_error_Some; congruence).
    rewrite nth_error_app1 by exact Hlt. rewrite Enth.
    destruct (negb (effectiveSpan w C =? 3)).
    + apply IH; [lia|exact Hloop].
    + destruct (composeAt_app_wide items i w x C Hlt H1) as [-> Hbound].
      destruct (composeAt items i w C) as [items' i']. cbn [fst snd] in *.
      now apply IH.
  - assert (Hlt : (i < length items)%nat) by (apply nth_error_Some; congruence).
    rewrite nth_error_app1 by exact Hlt. rewrite Enth.
    apply IH; [lia|exact Hloop].
  - injection Hloop as <-. apply nth_error_None in Enth.
    assert (i = length items) by lia. subst i.
    rewrite nth_error_middle.
    replace (negb (effectiveSpan x C =? 3)) with true
      by (symmetry; apply negb_true_iff, Z.eqb_neq; exact H3).
    subst fuel1. cbn [composeLoop].
    replace (nth_error (items ++ [IWidget x]) (S (length items))) with (@None Item);
      [reflexivity|].
    symmetry. apply nth_error_None. rewrite length_app. cbn [length]. lia.
Qed.

Lemma transformRowBlocks_app_wide (items : list Item) (x : Widget) (C : Z) :
  effectiveSpan x C <> 1 -> effectiveSpan x C <> 3 ->
  transformRowBlocks (items ++ [IWidget x]) C
  = transformRowBlocks items C ++ [IWidget x].
Proof.
  intros H1 H3. destruct (Z.eq_dec C 4) as [->|Hne].
  - pose proof (transformRowBlocks_loop_result items) as Hloop.
    pose proof (composeLoop_app_wide 4 x H1 H3 _ _ _ _ (Nat.le_0_l _) Hloop) as Happ.
    unfold transformRowBlocks at 1. cbn [Z.eqb Pos.eqb negb].
    rewrite length_app. cbn [length].
    replace (S (length items + 1)) with (S (S (length items))) by lia.
    now rewrite Happ.
  - unfold transformRowBlocks.
    replace (C =? 4) with false by (symmetry; apply Z.eqb_neq; exact Hne).
    reflexivity.
Qed.

(** X19.  A widget as wide as the grid never fits.  When the size's
    minimum span reaches the column count of the canvas (every size on one
    column; M, L and the two XL sizes on two; L and the XL sizes on three;
    the XL sizes on four), the oracle refuses it for every widget section
    that holds a widget: appended, such a widget always opens a row of its
    own. *)
Theorem wide_widget_never_fits (ed : Editor) (widgetSize : string)
    (sid : option string) (secId stitle : string) (ws : list Widget) :
  findSection ed sid = Some (WidgetSection secId stitle ws) ->
  ws <> [] ->
  getColCountFromWidth (offsetWidth ed) <= cfg_minColSpan (getWidgetConfig widgetSize) ->
  canWidgetFitInSection ed widgetSize sid = false
  /\ length (rowsOf (layoutSection
                       (WidgetSection secId stitle (ws ++ [tempWidget widgetSize]))
                       (offsetWidth ed)))
     = S (length (rowsOf (layoutSection (WidgetSection secId stitle ws) (offsetWidth ed)))).
Proof.
  intros Hfound Hne Hwide.
  set (C := getColCountFromWidth (offsetWidth ed)) in *.
  pose proof (getColCountFromWidth_range (offsetWidth ed)) as HC. fold C in HC.
  assert (Hspan : effectiveSpan (tempWidget widgetSize) C = C).
  { unfold effectiveSpan, tempWidget, makeWidget. cbn [minColSpan]. lia. }
  assert (Hrows : length (packRows (transformRowBlocks
                                      (map IWidget (ws ++ [tempWidget widgetSize])) C) C)
                  = S (length (packRows (transformRowBlocks (map IWidget ws) C) C))).
  { rewrite map_app. cbn [map].
    assert (H1 : effectiveSpan (tempWidget widgetSize) C <> 1 \/ C = 1) by lia.
    destruct (Z.eq_dec C 4) as [E4|E4].
    - rewrite transformRowBlocks_app_wide by lia.
      rewrite packRows_app_full by (cbn [itemSpan]; lia).
      rewrite length_app. cbn [length]. lia.
    - unfold transformRowBlocks.
      replace (C =? 4) with false by (symmetry; apply Z.eqb_neq; exact E4).
      cbn [negb].
      rewrite packRows_app_full by (cbn [itemSpan]; lia).
      rewrite length_app. cbn [length]. lia. }
  split; [|exact Hrows].
  unfold canWidgetFitInSection, canWidgetFitInSectionWith.
  destruct (widgetSize =? "FILTER")%string; [reflexivity|].
  rewrite Hfound.
  destruct (length ws =? 0)%nat eqn:Elen.
  { apply Nat.eqb_eq, length_zero_iff_nil in Elen. contradiction. }
  unfold layoutRowCount. cbn [bindC tryCatch]. fold C.
  rewrite Hrows. apply Nat.eqb_neq. lia.
Qed.

Lemma wide_widget_never_fits_witness :
  canWidgetFitInSection (editor Sample.st) "XL_row" (Some "s_1"%string) = false.
Proof.
  apply (wide_widget_never_fits (editor Sample.st) "XL_row" (Some "s_1"%string)
           "s_1" "New Section" [Sample.w2]).
  - reflexivity.
  - discriminate.
  - vm_compute. discriminate.
Defined.

(** ** A section drag *)

(** X20.  A section drag only reorders.  Once a section drag has started,
    whatever a previous drag left in the drag fields, the resolver refuses
    no zone, and a drop acts only on a between-sections zone: for a dragged
    section the dashboard holds, with distinct section ids, the sections
    after the drop are a permutation of those before, unchanged when the
    pointer is on no zone or on a zone inside a section, and the drag
    fields are cleared. *)
Theorem section_drag_only_reorders (st : EditorState) (section : Section)
    (canvasRect : Rect) (dropZones : list ZoneLiteral) (x y : Q) (widgetSize : string) :
  let dragging := sectionDragStart st section true in
  let target := getDropTarget (editor dragging) canvasRect dropZones x y in
  (forall z, target = Some z -> isInvalid z = false)
  /\ (NoDup (map sectionId (sections (editor st))) ->
      In section (sections (editor st)) ->
      exists st',
        dropAt dragging canvasRect dropZones x y widgetSize = Normal st'
        /\ Permutation (sections (editor st')) (sections (editor st))
        /\ ((target = None \/ exists z, target = Some z /\ isBetweenSections z = false) ->
            sections (editor st') = sections (editor st))
        /\ draggedSection st' = None /\ draggedWidget (editor st') = None).
Proof.
  intros dragging target.
  assert (Hvalid : forall z, target = Some z -> isInvalid z = false).
  { intros z. unfold target, getDropTarget.
    destruct (outsideCanvas canvasRect x y); [discriminate|].
    cbn [dragging sectionDragStart withDrag dragSize editor isDraggingFromPanel
         draggedWidget].
    rewrite find_map_zone.
    destruct (find _ dropZones); cbn [option_map]; [|discriminate].
    intros H. injection H as <-. reflexivity. }
  split; [exact Hvalid|].
  intros Hnd Hin. unfold dropAt. fold target.
  destruct target as [t|] eqn:Et.
  - unfold onDrop. rewrite (Hvalid t eq_refl).
    cbn [dragging sectionDragStart withDrag editor isDraggingFromPanel draggedWidget
         draggedSection].
    destruct (isBetweenSections t) eqn:Eb; cbn [bindC].
    + eexists. split; [reflexivity|].
      cbn [clearDrag editor sections draggedSection draggedWidget].
      split; [|split; [|auto]].
      * destruct (findIndex_own_id _ _ Hnd Hin) as [i [Hf Hn]].
        exact (handleMoveSection_perm
                 (withDrag st false (draggedWidgetSize (editor st)) None (Some section))
                 section t i Hf Hn).
      * intros [Hc|[z [Hz Hzb]]]; [discriminate|].
        injection Hz as <-. congruence.
    + eexists. split; [reflexivity|].
      cbn [clearDrag withDrag editor sections draggedSection draggedWidget]. auto.
  - eexists. split; [reflexivity|].
    cbn [clearDrag dragging sectionDragStart withDrag editor sections draggedSection
         draggedWidget]. auto.
Qed.

Lemma section_drag_only_reorders_witness :
  exists st',
    dropAt (sectionDragStart Sample.st Sample.second true) Sample.canvasRect
      [Sample.above] 100 50 "" = Normal st'
    /\ Permutation (sections (editor st')) [Sample.first; Sample.second].
Proof.
  destruct (proj2 (section_drag_only_reorders Sample.st Sample.second Sample.canvasRect
                     [Sample.above] 100 50 ""))
    as [st' [H1 [H2 _]]].
  - vm_compute. repeat constructor; simpl; intuition discriminate.
  - simpl. right. left. reflexivity.
  - exists st'. split; [exact H1|exact H2].
Defined.

(** ** Any drop *)

Lemma wellFormed_clearDrag (st : EditorState) : wellFormed st -> wellFormed (clearDrag st).
Proof. intros H. exact H. Qed.

(** X21.  No drop breaks the dashboard.  On a well-formed dashboard, with
    the dragged widget or section (if any) one that the dashboard holds,
    the [drop] listener, for any pointer position, any zones and any
    transferred size, leaves a well-formed dashboard whenever it completes,
    and the drag fields cleared. *)
Theorem dropAt_keeps_wellFormed (st st' : EditorState) (canvasRect : Rect)
    (dropZones : list ZoneLiteral) (x y : Q) (widgetSize : string) :
  wellFormed st ->
  (forall w, draggedWidget (editor st) = Some w ->
             In w (allWidgets (sections (editor st)))) ->
  (forall s, draggedSection st = Some s -> In s (sections (editor st))) ->
  dropAt st canvasRect dropZones x y widgetSize = Normal st' ->
  wellFormed st'
  /\ draggedWidget (editor st') = None /\ draggedSection st' = None
  /\ draggedWidgetSize (editor st') = None.
Proof.
  intros Hwf Hw Hs. unfold dropAt, onDrop.
  destruct (getDropTarget (editor st) canvasRect dropZones x y) as [t|].
  - destruct (isInvalid t).
    + intros H. injection H as <-. split; [now apply wellFormed_clearDrag|auto].
    + destruct (isDraggingFromPanel (editor st)).
      * destruct (widgetSize =? "")%string; cbn [bindC].
        -- intros H. injection H as <-. split; [now apply wellFormed_clearDrag|auto].
        -- destruct (handleDropFromPanel st t widgetSize) as [st1|e] eqn:E; cbn [bindC];
             [|discriminate].
           intros H. injection H as <-.
           destruct (handleDropFromPanel_advances _ _ _ _ E) as [Hadv Hkeep].
           split; [|auto]. apply wellFormed_clearDrag.
           apply (wellFormed_step st st1 Hwf Hadv). apply Hkeep. apply Hwf.
      * destruct (draggedWidget (editor st)) as [w|] eqn:Ew; cbn [bindC].
        -- intros H. injection H as <-.
           destruct (handleMoveWidget_advances st w t Hwf (Hw w eq_refl)) as [Hadv Hkeep].
           split; [|auto]. apply wellFormed_clearDrag.
           exact (wellFormed_step st _ Hwf Hadv Hkeep).
        -- destruct (draggedSection st) as [s|] eqn:Es; cbn [bindC].
           ++ destruct (isBetweenSections t); cbn [bindC]; intros H; injection H as <-.
              ** destruct Hwf as [[Hns Hnw] [Hg Hne]].
                 destruct (handleMoveSection_advances st s t Hns (Hs s eq_refl))
                   as [Hadv Hkeep].
                 split; [|auto]. apply wellFormed_clearDrag.
                 apply (wellFormed_step st _ (conj (conj Hns Hnw) (conj Hg Hne)) Hadv).
                 now apply Hkeep.
              ** split; [now apply wellFormed_clearDrag|auto].
           ++ intros H. injection H as <-. split; [now apply wellFormed_clearDrag|auto].
  - intros H. injection H as <-. split; [now apply wellFormed_clearDrag|auto].
Qed.

Lemma dropAt_keeps_wellFormed_witness :
  wellFormed (clearDrag (handleMoveWidget (widgetDragStart Sample.st Sample.w0 false)
                           Sample.w0 (mkDropZone Sample.above false))).
Proof.
  apply (dropAt_keeps_wellFormed (widgetDragStart Sample.st Sample.w0 false) _
           Sample.canvasRect [Sample.above] 100 50 "").
  - exact Sample_wellFormed.
  - intros w H. injection H as <-. simpl. left. reflexivity.
  - intros s H. discriminate H.
  - reflexivity.
Defined.
